(* ===== verification/_CoqProject ===== *)
-Q . S2P
Prelude.v
CString.v
Numbers.v
RTime.v
Crc32.v
AssocSpec.v
RAssoc.v
RegNames.v
RegState.v
RegCb.v
RegLocal.v
RegInv.v
RegSpec.v
RegTree.v
RegCbSpec.v
RegTheorems.v
RegDemo.v
AsyncState.v
AsyncWait.v
AsyncTimer.v
AsyncLoop.v
AsyncInv.v
AsyncTick.v
AsyncEvents.v
AsyncTheorems.v
AsyncDemo.v
AsyncEpoll.v
Queue.v
QueueSpec.v
AsyncQueues.v
Hex.v
Escape.v
InetNtop.v
PBuf.v
RMemory.v
RegFacade.v
RegLabels.v
RegFacadeSpec.v
RegModule.v
RegRemote.v
RegRemoteSpec.v
RegRetry.v
RegTypes.v
RegRelay.v
RegRelaySpec.v
RLog.v
RLogSpec.v
RLogDemo.v
Stats.v
StatsSpec.v
RList.v
RListSpec.v
RBitfield.v
Plugins.v
PluginsDemo.v
RegHttp.v
RegHttpSpec.v
RegCtl.v
ShellScript.v
RegCtlSpec.v
RegCtlDemo.v
RegDump.v
RData.v
Threads.v
FileUtil.v
Getopt.v
UtilDb.v
SslUtil.v
ByteUtil.v
ErrorText.v
RegFetch.v
AppStart.v
RegDaemon.v
Xdr.v
RegXdr.v
RegStubs.v
RegStubsSpec.v
RegTyped.v
RegTravel.v
RegWire.v
