(* ===== verification/Prelude.v ===== *)
(** * nrappkit: a verification library

    nrappkit (src/src) is a C toolkit for network daemons: a hierarchical configuration
    registry with change callbacks, local or behind a connection to a daemon; an event loop
    with timers; a logger and statistics that follow the registry; a plugin loader; programs
    that read and write the registry; and containers and utilities.  This library is a shallow
    embedding of it: each C function is a Rocq function over an explicit state, in the monad
    [M] of this file, and the theorems say what the functions guarantee.

    ** The parts, and the files that model them

    - Shared: this file has the status codes (r_errors.h, r_macros.h), machine integers
      ([wrap], [swrap]), the state and error monad with its rules, the allocator as its
      clients see it, and list lemmas; CString has C strings and the <ctype.h> and <string.h>
      functions used; Numbers has the conversions of printf and scanf used; ErrorText the
      texts of the statuses (util/libekr/r_errors.c) and the dump of debug.c.
    - The associative array (util/libekr/r_assoc.c): AssocSpec is the abstract table, a list
      of chains, that the registry uses; RAssoc is the pointer structure of the source and the
      proofs that every operation implements the abstract one.  Crc32 has the checksum and
      both hash functions (r_crc32.c, r_assoc.c).
    - The registry's store: RegNames has dotted names (registry.c, registry_local.c,
      registrycb.c); RegState the memory of the registry; RegCb the callbacks (registrycb.c);
      RegLocal the store (registry_local.c); RegDump the text of its values.  RegInv has the
      well-formedness invariant [good] and the view of a state as a map from names to values;
      RegSpec, RegTree, RegCbSpec and RegTheorems prove the operations' contracts over views;
      RegDemo runs them.
    - The registry's interface: RegFacade has registry.c and c2ru.c over a module table, which
      is a class ([RegVtbl]); RegFacadeSpec states the laws a module promises ([RegLaws]) and
      proves the interface from them, with RegLabels for the labels of lists; C2ruFree has the
      functions that free what was read; RegModule makes the local store an instance and so
      discharges the laws.  RegTypes adds the law of types.
    - The registry behind a connection: RegRemote has the daemon's procedures
      (regrpc_server.c) and the client that calls them (regrpc_client.c), a module made from a
      module; RegRemoteSpec proves its laws from those of the server's, and RegRetry says what
      lost calls do.  RegRelay has the events the daemon writes to its clients (registryd.c)
      and the clients that read them (regrpc_client_cb.c), RegRelaySpec that they arrive.
      RegDaemon puts these, the store and the event loop together: the daemon from its start.
    - The protocol between them: Xdr has the routines of the XDR library as a class with laws,
      and RFC 4506 as an instance; RegXdr the encodings of the structures (regrpc_xdr.c,
      regrpc.h); RegStubs the dispatch of the server (regrpc_svc.c) and the functions of the
      client (regrpc_clnt.c).  RegStubsSpec proves that a call that travels as bytes is the
      call, given that its values are in the range of their C types; RegTyped that the store
      keeps them so; RegTravel concludes for every call and its retries, and RegWire for the
      daemon.
    - Programs over the registry: RegHttp, RegHttpSpec and RegHttpDemo are the Apache module
      (mod_registry/mod_registry.c); RegCtl, ShellScript, RegCtlSpec and RegCtlDemo the
      command line tool (nrregctl.c) and the shell that runs what it exports; RegFetch the
      checked settings of util.c.
    - The event system: AsyncState, AsyncWait (event/async_wait.c: registering), AsyncTimer
      (event/async_timer.c) and AsyncLoop (both files: running), with the client program as a
      parameter that is told which callback fires and answers with calls into the library;
      AsyncInv has the invariant, AsyncTick and AsyncEvents the two loops, AsyncTheorems the
      theorems and AsyncDemo a concrete client.  AsyncEpoll is the build with epoll, which
      simulates the other one.
    - The logger (log/r_log.c): RLog, RLogSpec, RLogDemo.  Statistics in shared memory
      (stats/nrstats.c): Stats, StatsSpec.  Plugins (plugin/internal/nr_plugin_int.c): Plugins,
      PluginsDemo.  The start-up of a program (share/nr_startup.c), which puts these and the
      registry together: AppStart, AppDemo.
    - Containers: the linked list (util/libekr/r_list.c) in RList and RListSpec, bit fields
      (r_bitfield.c) in RBitfield, counted data (r_data.c) in RData, packet buffers
      (util/p_buf.c) in PBuf, and the accounting allocator (r_memory.c) in RMemory.
    - Utilities: time arithmetic (r_time.c) in RTime, hexadecimal (util/hex.c) in Hex, shell
      quoting (util/escape.c) in Escape, addresses as text (util.c) in InetNtop, byte order
      and dumps (byteorder.c, util.c, mem_util.c) in ByteUtil, files (util.c, filename.c) in
      FileUtil, and threads and locks (threads/pthreads/pthread.c) in Threads.

    ** Conventions

    [Ok a s] is a return of zero with results [a]; [Err r s] a return of status [r]; both keep
    the state reached, since the code does not roll back.  [UB] is undefined behaviour (null,
    dangling and out-of-bounds accesses, failed asserts), so a theorem that a run is [Ok] or
    [Err] is also a memory-safety theorem.  Heaps are finite maps from locations; freeing
    removes the location and using it again is [UB].  Integers are [Z] wrapped at their width.
    A double is its 64 bits.  Memory allocation asks the state's list of answers, so a theorem
    can cover allocation failure; [mem_plenty] says that none fails.  Code outside of the
    repository (the C library's system calls, the XDR and RPC library, the dynamic linker, the
    functions of Apache, a client's callbacks) is a parameter or a list of answers in the state, with its
    documented behaviour as a hypothesis or a class where a theorem needs it.

    Recursion is structural, or carries fuel whose exhaustion is [UB] or [None], and the
    theorems prove that the fuel stated is enough: the length of a name for its ancestors
    (RegLocal) and for the dump of a subtree, whose names have at most 128 characters (RegCtl),
    one turn per byte for writing to a chain (PBuf), for reading and writing all of the data
    and for parsing what is unread (FileUtil, RegRelay), 64 doublings of a 64-bit size for the
    list of children (RegRemote) and 32 for the length of a bit field (RBitfield), eight digits
    of a 32-bit number (InetNtop), and the number of due timers for a clock update (AsyncTick:
    [update_time_runs] holds for every client that sets finitely many timers per tick).  The
    loop of RegHttp after a refused value does not end: there the theorem is that no fuel is
    enough.

    ** What the theorems show

    - The store: reachable states are trees of registries, every operation's effect on the
      view and the events it raises, read-after-write, listing, the types of names, that every
      value stays in the range of its C type, and that its text lists every value once.
    - Its interface, through any module: round trips of strings and of lists of structures.
      Through the connection: the laws again, reads of any length, and that repeated writes
      write once.  Events raised in the daemon are raised in every client that asked, in order
      and once each, from the daemon's start on.  That the calls and requests are encoded,
      dispatched and decoded by the generated stubs makes no difference to either.
    - Programs: what nrregctl exports is a script that restores it; a value put over HTTP is
      got back, and a refused one hangs the handler.
    - The table, the list, bit fields and counted data: refinement of abstract tables,
      sequences, sets and maps, enumeration, destruction without leaks.
    - The event system: memory safety under any client within the rules, exactness and
      termination of timer expiry, order of delivery in both builds, and the callbacks that the
      build with epoll leaves behind.
    - The logger's levels follow the registry and a message goes to exactly the destinations
      that admit it; a statistic is found again and kept apart; the plugins of a program are
      those compiled in and those listed, each initialised once.
    - Threads: the count is exact when updates do not overlap, and lost otherwise.
    - Utilities: functional correctness, bounds and round trips, with the checksum equal to
      its bit-serial definition and quoted strings read back by a shell.

    ** Not modelled

    Log messages of the components themselves (the logger's own state is r_log.c) and the
    expansion of formats by vfprintf and vsyslog; the text of doubles; system calls (sockets,
    select and epoll, the creation of shared memory, locks, files): their answers are
    parameters; the connections of the RPC library, and the memory its decoding takes;
    nrregctl's command that watches events for ever; OpenSSL and Berkeley DB (ssl_util.c, util_db.c), which are sequences of
    calls of libraries outside of the repository; getopt.c and queue.h, which are copies of
    other projects' code; signal handlers; the interactive shell's hooks; and the Windows
    variants.  What is left that could be: the Windows variant of async_wait.c, whose sockets
    are a list, and the formatting of messages in r_vlog. *)

From Stdlib Require Export ZArith Lia.
From stdpp Require Export base list gmap strings.

#[global] Set Default Goal Selector "!".

(** ** Status codes (src/util/libekr/r_errors.h) *)

Definition R_NO_MEMORY : Z := 1.
Definition R_NOT_FOUND : Z := 2.
Definition R_INTERNAL : Z := 3.
Definition R_ALREADY : Z := 4.
Definition R_EOD : Z := 5.
Definition R_BAD_ARGS : Z := 6.
Definition R_BAD_DATA : Z := 7.
Definition R_WOULDBLOCK : Z := 8.
Definition R_QUEUED : Z := 9.
Definition R_FAILED : Z := 10.
Definition R_REJECTED : Z := 11.
Definition R_INTERRUPTED : Z := 12.
Definition R_IO_ERROR : Z := 13.
Definition R_NOT_PERMITTED : Z := 14.
Definition R_RETRY : Z := 15.

(** The status [ABORT(a)] and [ERETURN(a)] really produce: a zero argument is
    turned into [-1] (r_macros.h), so a failing exit never looks like success. *)
Definition abort_code (a : Z) : Z := if Z.eqb a 0 then -1 else a.

Ltac unfold_codes :=
  unfold abort_code, R_NO_MEMORY, R_NOT_FOUND, R_INTERNAL, R_ALREADY, R_EOD, R_BAD_ARGS,
    R_BAD_DATA, R_WOULDBLOCK, R_QUEUED, R_FAILED, R_REJECTED, R_INTERRUPTED,
    R_IO_ERROR, R_NOT_PERMITTED, R_RETRY in *.

Lemma abort_code_nonzero a : abort_code a ≠ 0%Z.
Proof. unfold abort_code. destruct (Z.eqb_spec a 0); lia. Qed.

Lemma abort_code_id a : a ≠ 0%Z → abort_code a = a.
Proof. unfold abort_code. destruct (Z.eqb_spec a 0); done. Qed.

(** ** Machine integers *)

(** Conversion of an integer to an unsigned / signed type of [w] bits. *)
Definition wrap (w z : Z) : Z := (z mod 2 ^ w)%Z.
Definition swrap (w z : Z) : Z := ((z + 2 ^ (w - 1)) mod 2 ^ w - 2 ^ (w - 1))%Z.

Lemma wrap_range w z : (0 <= w → 0 <= wrap w z < 2 ^ w)%Z.
Proof. intros. apply Z.mod_pos_bound. lia. Qed.

Lemma wrap_small w z : (0 <= z < 2 ^ w → wrap w z = z)%Z.
Proof. apply Z.mod_small. Qed.

Lemma wrap_wrap w z : wrap w (wrap w z) = wrap w z.
Proof. unfold wrap. apply Zmod_mod. Qed.

Lemma wrap_add_l w a b : wrap w (wrap w a + b) = wrap w (a + b).
Proof. unfold wrap. apply Zplus_mod_idemp_l. Qed.

Lemma swrap_small w z : (0 < w → - 2 ^ (w - 1) <= z < 2 ^ (w - 1) → swrap w z = z)%Z.
Proof.
  intros Hw Hz. unfold swrap.
  assert (2 ^ w = 2 * 2 ^ (w - 1))%Z by (rewrite <- Z.pow_succ_r by lia; f_equal; lia).
  rewrite Z.mod_small; lia.
Qed.

(** ** Computations over a component's state

    [Ok a s]: the function returns 0 (its results in [a]); [Err r s]: it returns
    the non-zero status [r]; both keep the state reached, since the code does not
    roll back.  [UB]: it dereferences a null or dangling pointer, leaves an array,
    and the like. *)
Inductive res (S A : Type) : Type :=
| Ok (a : A) (s : S)
| Err (r : Z) (s : S)
| UB.
Arguments Ok {_ _} _ _.
Arguments Err {_ _} _ _.
Arguments UB {_ _}.

Definition M (S A : Type) : Type := S → res S A.

#[export] Instance M_ret {S} : MRet (M S) := λ A a s, Ok a s.
#[export] Instance M_bind {S} : MBind (M S) := λ A B f m s,
  match m s with
  | Ok a s' => f a s'
  | Err r s' => Err r s'
  | UB => UB
  end.

Section monad.
Context {S : Type}.

(** [ABORT(r)] *)
Definition abort {A} (r : Z) : M S A := λ s, Err (abort_code r) s.
Definition undef {A} : M S A := λ _, UB.
Definition get : M S S := λ s, Ok s s.
Definition gets {A} (f : S → A) : M S A := λ s, Ok (f s) s.
Definition modify (f : S → S) : M S unit := λ s, Ok () (f s).

(** [r = f(...)] with the status inspected by the caller instead of propagated. *)
Definition catch {A} (m : M S A) : M S (Z + A) := λ s,
  match m s with
  | Ok a s' => Ok (inr a) s'
  | Err r s' => Ok (inl r) s'
  | UB => UB
  end.

(** [(void)f(...)]: the status is dropped. *)
Definition ignore {A} (m : M S A) : M S unit := λ s,
  match m s with
  | Ok _ s' => Ok () s'
  | Err _ s' => Ok () s'
  | UB => UB
  end.

(** A pointer that has to be valid. *)
Definition from_option_ub {A} (o : option A) : M S A :=
  match o with Some a => mret a | None => undef end.

(** *** Weakest preconditions: no undefined behaviour, [Q] on success, [E] on
    a failing status. *)
Definition wp {A} (m : M S A) (s : S) (Q : A → S → Prop) (E : Z → S → Prop) : Prop :=
  match m s with
  | Ok a s' => Q a s'
  | Err r s' => E r s'
  | UB => False
  end.

Lemma wp_mono {A} (m : M S A) s (Q Q' : A → S → Prop) (E E' : Z → S → Prop) :
  wp m s Q E → (∀ a s', Q a s' → Q' a s') → (∀ r s', E r s' → E' r s') → wp m s Q' E'.
Proof. unfold wp. destruct (m s); naive_solver. Qed.

Lemma wp_ret {A} (a : A) s (Q : A → S → Prop) (E : Z → S → Prop) :
  Q a s → wp (mret a) s Q E.
Proof. done. Qed.

Lemma wp_bind {A B} (m : M S A) (k : A → M S B) s (Q : B → S → Prop) (E : Z → S → Prop) :
  wp m s (λ a s', wp (k a) s' Q E) E → wp (m ≫= k) s Q E.
Proof. unfold wp, mbind, M_bind. by destruct (m s). Qed.

Lemma wp_abort {A} r s (Q : A → S → Prop) (E : Z → S → Prop) :
  E (abort_code r) s → wp (abort r) s Q E.
Proof. done. Qed.

Lemma wp_get s (Q : S → S → Prop) (E : Z → S → Prop) : Q s s → wp get s Q E.
Proof. done. Qed.

Lemma wp_gets {A} (f : S → A) s (Q : A → S → Prop) (E : Z → S → Prop) :
  Q (f s) s → wp (gets f) s Q E.
Proof. done. Qed.

Lemma wp_modify (f : S → S) s (Q : unit → S → Prop) (E : Z → S → Prop) :
  Q () (f s) → wp (modify f) s Q E.
Proof. done. Qed.

Lemma wp_catch {A} (m : M S A) s (Q : Z + A → S → Prop) (E : Z → S → Prop) :
  wp m s (λ a s', Q (inr a) s') (λ r s', Q (inl r) s') → wp (catch m) s Q E.
Proof. unfold wp, catch. by destruct (m s). Qed.

Lemma wp_ignore {A} (m : M S A) s (Q : unit → S → Prop) (E : Z → S → Prop) :
  wp m s (λ _ s', Q () s') (λ _ s', Q () s') → wp (ignore m) s Q E.
Proof. unfold wp, ignore. by destruct (m s). Qed.

Lemma wp_eq_ok {A} (m : M S A) s a s' (Q : A → S → Prop) (E : Z → S → Prop) :
  m s = Ok a s' → Q a s' → wp m s Q E.
Proof. unfold wp. by intros ->. Qed.

Lemma wp_eq_err {A} (m : M S A) s r s' (Q : A → S → Prop) (E : Z → S → Prop) :
  m s = Err r s' → E r s' → wp m s Q E.
Proof. unfold wp. by intros ->. Qed.

Lemma wp_ok_inv {A} (m : M S A) s a s' (Q : A → S → Prop) (E : Z → S → Prop) :
  wp m s Q E → m s = Ok a s' → Q a s'.
Proof. unfold wp. intros H Heq. by rewrite Heq in H. Qed.

Lemma wp_err_inv {A} (m : M S A) s r s' (Q : A → S → Prop) (E : Z → S → Prop) :
  wp m s Q E → m s = Err r s' → E r s'.
Proof. unfold wp. intros H Heq. by rewrite Heq in H. Qed.

Lemma wp_no_ub {A} (m : M S A) s (Q : A → S → Prop) (E : Z → S → Prop) :
  wp m s Q E → m s ≠ UB.
Proof. unfold wp. by destruct (m s). Qed.

(** Running the first computation of a sequence. *)
Lemma bind_ok {A B} (m : M S A) (k : A → M S B) s a s' :
  m s = Ok a s' → (m ≫= k) s = k a s'.
Proof. unfold mbind, M_bind. by intros ->. Qed.

Lemma bind_err {A B} (m : M S A) (k : A → M S B) s r s' :
  m s = Err r s' → (m ≫= k) s = Err r s'.
Proof. unfold mbind, M_bind. by intros ->. Qed.

Lemma bind_ub {A B} (m : M S A) (k : A → M S B) s : m s = UB → (m ≫= k) s = UB.
Proof. unfold mbind, M_bind. by intros ->. Qed.

Lemma catch_ok {A} (m : M S A) s a s' : m s = Ok a s' → catch m s = Ok (inr a) s'.
Proof. unfold catch. by intros ->. Qed.

Lemma catch_err {A} (m : M S A) s r s' : m s = Err r s' → catch m s = Ok (inl r) s'.
Proof. unfold catch. by intros ->. Qed.

Lemma wp_success {A} (m : M S A) s (Q : A → S → Prop) :
  wp m s Q (λ _ _, False) → ∃ a s', m s = Ok a s' ∧ Q a s'.
Proof. unfold wp. destruct (m s); naive_solver. Qed.
End monad.

(** The first computation of a sequence runs as a hypothesis or a lemma says. *)
Tactic Notation "mstep" := erewrite bind_ok by done.
Tactic Notation "mstep" "using" uconstr(H) := erewrite bind_ok by (by apply H).

(** One step of symbolic execution of a monadic body. *)
Ltac wp_step :=
  lazymatch goal with
  | |- wp (mbind _ _) _ _ _ => apply wp_bind
  | |- wp (mret _) _ _ _ => apply wp_ret
  | |- wp (abort _) _ _ _ => apply wp_abort
  | |- wp get _ _ _ => apply wp_get
  | |- wp (gets _) _ _ _ => apply wp_gets
  | |- wp (modify _) _ _ _ => apply wp_modify
  | |- wp (catch _) _ _ _ => apply wp_catch
  | |- wp (ignore _) _ _ _ => apply wp_ignore
  end.
Ltac wp_steps := repeat (wp_step; cbn beta).

(** ** The allocator as the clients see it

    Each allocation asks the C library; whether it succeeds is not under the
    program's control.  A state carries the answers still to come; once they are
    used up every further allocation succeeds. *)
Class HasAlloc (S : Type) := {
  alloc_answers : S → list bool;
  set_alloc_answers : list bool → S → S;
}.
Class AllocLaws (S : Type) `{HasAlloc S} := {
  alloc_answers_set l s : alloc_answers (set_alloc_answers l s) = l;
  set_alloc_answers_set l l' s : set_alloc_answers l (set_alloc_answers l' s) = set_alloc_answers l s;
  set_alloc_answers_id s : set_alloc_answers (alloc_answers s) s = s;
}.

Definition next_answer (l : list bool) : bool := match l with [] => true | b :: _ => b end.

(** [RMALLOC]/[RCALLOC]: does the next allocation succeed? *)
Definition alloc_ok {S} `{HasAlloc S} : M S bool := λ s,
  Ok (next_answer (alloc_answers s)) (set_alloc_answers (tail (alloc_answers s)) s).

(** [if(!(p=RMALLOC(n))) ABORT(R_NO_MEMORY);] *)
Definition alloc_or_abort {S} `{HasAlloc S} : M S unit :=
  ok ← alloc_ok; if (ok : bool) then mret () else abort R_NO_MEMORY.

(** No allocation will fail. *)
Definition mem_plenty {S} `{HasAlloc S} (s : S) : Prop := alloc_answers s = [].

Lemma alloc_ok_plenty {S} `{AllocLaws S} (s : S) : mem_plenty s → alloc_ok s = Ok true s.
Proof.
  unfold mem_plenty, alloc_ok. intros Hs. rewrite Hs. cbn.
  by rewrite <- Hs, set_alloc_answers_id.
Qed.

Lemma alloc_or_abort_plenty {S} `{AllocLaws S} (s : S) :
  mem_plenty s → alloc_or_abort s = Ok () s.
Proof.
  intros Hs. unfold alloc_or_abort, mbind, M_bind. by rewrite alloc_ok_plenty.
Qed.

(** ** Lists *)

(** Index of the first element satisfying a boolean test. *)
Fixpoint index_where {A} (p : A → bool) (l : list A) : option nat :=
  match l with
  | [] => None
  | x :: l' => if p x then Some 0%nat else S <$> index_where p l'
  end.

Lemma index_where_Some {A} (p : A → bool) l i :
  index_where p l = Some i →
  (∃ x, l !! i = Some x ∧ p x = true) ∧ (∀ j x, (j < i)%nat → l !! j = Some x → p x = false).
Proof.
  revert i. induction l as [|x l IH]; intros i Hi; [done|]. cbn in Hi.
  destruct (p x) eqn:Hp.
  - injection Hi as <-. split; [by exists x | lia].
  - destruct (index_where p l) as [k|] eqn:Hk; [|done]. injection Hi as <-.
    destruct (IH k eq_refl) as [Hx Hbefore]. split; [done|].
    intros [|j] y Hj Hy; cbn in Hy; [congruence|]. eapply Hbefore; [|done]. lia.
Qed.

Lemma index_where_None {A} (p : A → bool) l :
  index_where p l = None ↔ (∀ x, x ∈ l → p x = false).
Proof.
  induction l as [|y l IH]; cbn.
  - split; [by intros _ x ?%not_elem_of_nil|done].
  - destruct (p y) eqn:Hp.
    + split; [done|]. intros H. specialize (H y). rewrite H in Hp; [done|]. by left.
    + rewrite fmap_None, IH. split.
      * intros H x [->|Hx]%elem_of_cons; [done|by apply H].
      * intros H x Hx. apply H. by right.
Qed.

Lemma foldl_ext {A B} (f g : A → B → A) a l : (∀ a b, f a b = g a b) → foldl f a l = foldl g a l.
Proof. intros Hfg. revert a. induction l as [|b l IH]; intros a; [done|]. cbn. by rewrite Hfg, IH. Qed.

(** Taking one element out of a list. *)
Lemma filter_absent {A} `{EqDecision A} (a : A) (l : list A) : a ∉ l → filter (λ x, x ≠ a) l = l.
Proof.
  induction l as [|b l IH]; intros Ha; [done|]. apply not_elem_of_cons in Ha as [Hab Ha].
  by rewrite filter_cons_True, IH.
Qed.

Lemma filter_split {A} `{EqDecision A} (a : A) (l l' : list A) :
  NoDup (l ++ a :: l') → filter (λ x, x ≠ a) (l ++ a :: l') = l ++ l'.
Proof.
  intros (_ & Hl & [Ha _]%NoDup_cons)%NoDup_app.
  rewrite filter_app, filter_cons_False, !filter_absent; [done|done| |by intros ?].
  intros Hin. destruct (Hl a Hin). by left.
Qed.
