(* ===== verification/CString.v ===== *)
(** * C strings

    A NUL-terminated string is the list of its characters before the terminator.
    The [<string.h>], [<strings.h>] and [<ctype.h>] functions the code calls, in
    the C locale. *)

From Stdlib Require Import Ascii.
From S2P Require Import Prelude.

Abbreviation cstring := (list ascii).

(** A literal. *)
Definition cstr (s : string) : cstring := String.list_ascii_of_string s.
Notation "$ s" := (cstr s) (at level 1, s at level 0, format "$ s").

Section ctype.
Local Open Scope Z_scope.

(** A character as an [unsigned char] and as the (signed) [char] of the port. *)
Definition uchar (c : ascii) : Z := Z.of_N (N_of_ascii c).
Definition schar (c : ascii) : Z := swrap 8 (uchar c).
Definition char_of (z : Z) : ascii := ascii_of_N (Z.to_N (wrap 8 z)).

Definition between (lo hi : ascii) (c : ascii) : bool :=
  (uchar lo <=? uchar c) && (uchar c <=? uchar hi).

Definition isspace (c : ascii) : bool := (uchar c =? 32) || ((9 <=? uchar c) && (uchar c <=? 13)).
Definition isprint (c : ascii) : bool := (32 <=? uchar c) && (uchar c <=? 126).
Definition isdigit (c : ascii) : bool := between "0" "9" c.
Definition isupper (c : ascii) : bool := between "A" "Z" c.
Definition islower (c : ascii) : bool := between "a" "z" c.
Definition isalnum (c : ascii) : bool := isdigit c || isupper c || islower c.
Definition tolower (c : ascii) : ascii := if isupper c then char_of (uchar c + 32) else c.

Lemma uchar_range c : 0 <= uchar c < 256.
Proof.
  unfold uchar. split; [lia|]. change 256 with (Z.of_N 256). apply N2Z.inj_lt.
  apply N_ascii_bounded.
Qed.

Lemma uchar_inj c d : uchar c = uchar d → c = d.
Proof.
  unfold uchar. intros H%N2Z.inj. rewrite <- (ascii_N_embedding c), <- (ascii_N_embedding d).
  by rewrite H.
Qed.

Lemma char_of_uchar c : char_of (uchar c) = c.
Proof.
  pose proof (uchar_range c). unfold char_of. rewrite wrap_small by (cbn; lia).
  unfold uchar. by rewrite N2Z.id, ascii_N_embedding.
Qed.

Lemma uchar_char_of z : 0 <= z < 256 → uchar (char_of z) = z.
Proof.
  intros Hz. unfold uchar, char_of. rewrite wrap_small by (cbn; lia).
  rewrite N_ascii_embedding by lia. lia.
Qed.
End ctype.

(** ** Strings *)

Definition strlen (s : cstring) : nat := length s.

(** [strcmp(a,b)==0] and [strcasecmp(a,b)==0]. *)
Definition streq (a b : cstring) : bool := bool_decide (a = b).
Definition strcaseeq (a b : cstring) : bool := bool_decide (tolower <$> a = tolower <$> b).

(** The sign of [strcasecmp(a,b)], as an order. *)
Fixpoint strcasele (a b : cstring) : bool :=
  match a, b with
  | [], _ => true
  | _ :: _, [] => false
  | x :: a', y :: b' =>
      if Z.ltb (uchar (tolower x)) (uchar (tolower y)) then true
      else if Z.eqb (uchar (tolower x)) (uchar (tolower y)) then strcasele a' b'
      else false
  end.

(** [strchr] / [strrchr]: offset of the first / last occurrence of a character
    other than the terminator. *)
Definition strchr (s : cstring) (c : ascii) : option nat := index_where (λ x, bool_decide (x = c)) s.
Definition strrchr (s : cstring) (c : ascii) : option nat :=
  (λ i, length s - 1 - i)%nat <$> strchr (reverse s) c.

(** [!strncmp(a,b,n)] for an [n] not beyond the end of [a]. *)
Definition strneq (a b : cstring) (n : nat) : bool := bool_decide (take n a = take n b).

(** The bytes of a string with its terminator. *)
Definition cbytes (s : cstring) : list Z := (uchar <$> s) ++ [0%Z].

(** No character of the list is the terminator. *)
Definition no_nul (s : cstring) : Prop := Forall (λ c, uchar c ≠ 0%Z) s.

#[export] Instance no_nul_dec s : Decision (no_nul s).
Proof. unfold no_nul. apply _. Defined.

Lemma cbytes_inj s t : cbytes s = cbytes t → s = t.
Proof.
  unfold cbytes. intros [H _]%app_inj_tail.
  revert t H. induction s as [|c s IH]; intros [|d t] H; cbn in H; try done.
  injection H as Hc H. f_equal; [by apply uchar_inj|by apply IH].
Qed.

Lemma length_cbytes s : length (cbytes s) = S (strlen s).
Proof. unfold cbytes, strlen. rewrite length_app, length_fmap. cbn. lia. Qed.

#[export] Instance cbytes_Inj : Inj (=) (=) cbytes.
Proof. intros s t. apply cbytes_inj. Qed.

Lemma strchr_Some s c i :
  strchr s c = Some i → s !! i = Some c ∧ c ∉ take i s.
Proof.
  intros [(x & Hx & Hp) Hbefore]%index_where_Some.
  apply bool_decide_eq_true in Hp as ->. split; [done|].
  intros (j & Hj)%list_elem_of_lookup. pose proof (lookup_lt_Some _ _ _ Hj) as Hlt.
  rewrite length_take in Hlt. rewrite lookup_take_lt in Hj by lia.
  specialize (Hbefore j c ltac:(lia) Hj). by rewrite bool_decide_eq_false in Hbefore.
Qed.

Lemma strchr_None s c : strchr s c = None ↔ c ∉ s.
Proof.
  unfold strchr. rewrite index_where_None. split.
  - intros H Hc. specialize (H c Hc). by rewrite bool_decide_eq_false in H.
  - intros H x Hx. rewrite bool_decide_eq_false. by intros ->.
Qed.

Lemma strrchr_Some s c i :
  strrchr s c = Some i → ∃ t, s = take i s ++ c :: t ∧ c ∉ t ∧ (i < length s)%nat.
Proof.
  unfold strrchr. intros (k & [Hk Hno]%strchr_Some & ->)%fmap_Some.
  apply reverse_lookup_Some in Hk as [Hk Hlt].
  exists (drop (S (length s - S k)) s).
  replace (length s - 1 - k)%nat with (length s - S k)%nat by lia.
  split_and!; [by rewrite take_drop_middle| |lia].
  rewrite take_reverse in Hno. rewrite elem_of_reverse in Hno.
  replace (S (length s - S k)) with (length s - k)%nat by lia. done.
Qed.

Lemma strrchr_None s c : strrchr s c = None ↔ c ∉ s.
Proof.
  unfold strrchr. by rewrite fmap_None, strchr_None, elem_of_reverse.
Qed.

Lemma streq_spec a b : streq a b = true ↔ a = b.
Proof. unfold streq. by rewrite bool_decide_eq_true. Qed.
