(* ===== verification/Numbers.v ===== *)
(** * Numbers as text

    The conversions of [printf] and [scanf] the programs use: decimal, and the hexadecimal
    and octal forms of [nrregctl]. *)

From Stdlib Require Import Ascii.
From stdpp Require Import pretty.
From S2P Require Import Prelude CString.
Local Open Scope Z_scope.

(** [printf] of an integer with [%d], [%u], [%lld] or [%llu]. *)
Definition print_int (z : Z) : cstring := cstr (pretty z).

Fixpoint skip_space (s : cstring) : cstring :=
  match s with
  | c :: s' => if isspace c then skip_space s' else s
  | [] => []
  end.
Fixpoint digits_value (acc : Z) (s : cstring) : Z :=
  match s with
  | c :: s' => if isdigit c then digits_value (10 * acc + (uchar c - 48)) s' else acc
  | [] => acc
  end.

(** The sign that may stand before the digits. *)
Definition read_sign (s : cstring) : bool * cstring :=
  match s with
  | "-"%char :: s' => (true, s')
  | "+"%char :: s' => (false, s')
  | _ => (false, s)
  end.

(** The value [scanf] reads for these conversions, before it is stored in the object: [None]
    is a matching failure. *)
Definition scan_int (s : cstring) : option Z :=
  let (neg, t) := read_sign (skip_space s) in
  match t with
  | c :: _ => if isdigit c then Some (if neg then - digits_value 0 t else digits_value 0 t) else None
  | [] => None
  end.

(** [atoi]; a number that is not an [int] is undefined. *)
Definition atoi (s : cstring) : option Z :=
  let (neg, t) := read_sign (skip_space s) in
  let v := if neg then - digits_value 0 t else digits_value 0 t in
  if (- 2 ^ 31 <=? v) && (v <? 2 ^ 31) then Some v else None.

(** ** Reading back *)

Lemma pretty_char_digit x :
  (x < 10)%N → isdigit (pretty_N_char x) = true ∧ uchar (pretty_N_char x) - 48 = Z.of_N x ∧ isspace (pretty_N_char x) = false.
Proof.
  intros Hx. destruct x as [|p]; [done|].
  do 4 (destruct p as [p|p|]; [| |by repeat split]); try lia; by repeat split.
Qed.

(** The digits of a number are read as the number. *)
Lemma read_digits x s :
  digits_value 0 (cstr (pretty_N_go x s)) = digits_value (Z.of_N x) (cstr s).
Proof.
  revert s. induction (N.lt_wf_0 x) as [x _ IH]; intros s.
  destruct (decide (x = 0)%N) as [->|Hx]; [by rewrite pretty_N_go_0|].
  rewrite pretty_N_go_step by lia. rewrite IH by (apply N.div_lt; lia).
  change (cstr (String ?c s)) with (c :: cstr s). cbn [digits_value].
  destruct (pretty_char_digit (x mod 10)) as (Hd & Hv & _); [apply N.mod_lt; lia|].
  change (cstr (String (pretty_N_char (x mod 10)) s)) with (pretty_N_char (x mod 10) :: cstr s). cbn [digits_value].
  rewrite Hd, Hv. f_equal. pose proof (N.div_mod' x 10). lia.
Qed.

(** The text of a number starts with a digit. *)
Lemma digits_head x s : (0 < x)%N → ∃ c t, pretty_N_go x s = String c t ∧ isdigit c = true ∧ isspace c = false.
Proof.
  revert s. induction (N.lt_wf_0 x) as [x _ IH]; intros s Hx.
  rewrite pretty_N_go_step by lia. destruct (decide (x / 10 = 0)%N) as [->|Hdiv].
  - rewrite pretty_N_go_0. destruct (pretty_char_digit (x mod 10)) as (Hd & _ & Hs); [apply N.mod_lt; lia|].
    by eexists _, _.
  - apply IH; [apply N.div_lt; lia|by apply N.neq_0_lt_0].
Qed.

Lemma print_nat_head (n : N) : ∃ c t, cstr (pretty n) = c :: t ∧ isdigit c = true ∧ isspace c = false.
Proof.
  unfold pretty, pretty_N. destruct (decide (n = 0)%N); [by eexists _, _|].
  destruct (digits_head n "") as (c & t & -> & Hd & Hs); [lia|]. by eexists _, _.
Qed.

Lemma print_nat_value (n : N) : digits_value 0 (cstr (pretty n)) = Z.of_N n.
Proof.
  unfold pretty, pretty_N. destruct (decide (n = 0)%N) as [->|]; [done|]. apply read_digits.
Qed.

Lemma digit_no_sign c : isdigit c = true → c ≠ "-"%char ∧ c ≠ "+"%char.
Proof. intros Hc. split; intros ->; by vm_compute in Hc. Qed.

Lemma read_sign_digit c t : isdigit c = true → read_sign (c :: t) = (false, c :: t).
Proof.
  intros [Hm Hp]%digit_no_sign. unfold read_sign.
  destruct c as [[] [] [] [] [] [] [] []]; done.
Qed.

(** A printed number is read back. *)
Lemma scan_print z : scan_int (print_int z) = Some z.
Proof.
  unfold print_int. destruct z as [|p|p]; [done| |].
  - change (cstr (pretty (Zpos p))) with (cstr (pretty (Npos p))).
    destruct (print_nat_head (Npos p)) as (c & t & Heq & Hd & Hs). pose proof (print_nat_value (Npos p)) as Hv.
    unfold scan_int. rewrite Heq in *. cbn [skip_space]. rewrite Hs, read_sign_digit, Hd, Hv by done. done.
  - change (cstr (pretty (Zneg p))) with ("-"%char :: cstr (pretty (Npos p))).
    destruct (print_nat_head (Npos p)) as (c & t & Heq & Hd & Hs). pose proof (print_nat_value (Npos p)) as Hv.
    unfold scan_int. rewrite Heq in *. cbn [skip_space read_sign]. change (isspace "-") with false. cbn [read_sign].
    by rewrite Hd, Hv.
Qed.

Lemma print_int_no_nul z : no_nul (print_int z).
Proof.
  assert (Hgo : ∀ x s, no_nul (cstr s) → no_nul (cstr (pretty_N_go x s))).
  { intros x. induction (N.lt_wf_0 x) as [x _ IH]; intros s Hs.
    destruct (decide (x = 0)%N) as [->|Hx]; [by rewrite pretty_N_go_0|].
    rewrite pretty_N_go_step by lia. apply IH; [apply N.div_lt; lia|].
    apply Forall_cons. split; [|done]. destruct (pretty_char_digit (x mod 10)) as (_ & Hv & _); [apply N.mod_lt; lia|]. intros H0. pose proof (N2Z.is_nonneg (x mod 10)) as Hnn. rewrite <- Hv, H0 in Hnn. lia. }
  assert (Hn : ∀ n : N, no_nul (cstr (pretty n))).
  { intros n. unfold pretty, pretty_N. case_decide; [by repeat constructor|]. apply Hgo. constructor. }
  unfold print_int. destruct z as [|p|p]; [by repeat constructor|apply (Hn (Npos p))|].
  change (cstr (pretty (Zneg p))) with ("-"%char :: cstr (pretty (Npos p))). apply Forall_cons. split; [done|apply Hn].
Qed.

Lemma pretty_go_length k x s : (x < 10 ^ N.of_nat k)%N → (length (cstr (pretty_N_go x s)) <= k + length (cstr s))%nat.
Proof.
  revert x s. induction k as [|k IH]; intros x s Hx.
  - cbn in Hx. assert (x = 0)%N as -> by lia. rewrite pretty_N_go_0. lia.
  - destruct (decide (x = 0)%N) as [->|Hx0]; [rewrite pretty_N_go_0; lia|].
    rewrite pretty_N_go_step by lia. rewrite Nat2N.inj_succ, N.pow_succ_r' in Hx.
    specialize (IH (x `div` 10)%N (String (pretty_N_char (x `mod` 10)) s) ltac:(apply N.Div0.div_lt_upper_bound; lia)).
    cbn [cstr String.list_ascii_of_string length] in IH. unfold cstr in *. lia.
Qed.

(** The text of a 64-bit number is short. *)
Lemma print_int_length z : - 2 ^ 64 < z < 2 ^ 64 → (length (print_int z) <= 21)%nat.
Proof.
  assert (Hn : ∀ p : positive, Zpos p < 2 ^ 64 → (length (cstr (pretty (Npos p))) <= 20)%nat).
  { intros p Hp. pose proof (pretty_go_length 20 (Npos p) "") as Hgo. cbn [cstr String.list_ascii_of_string length] in Hgo.
    unfold pretty, pretty_N. rewrite decide_False by done. rewrite Nat.add_0_r in Hgo. apply Hgo.
    change (10 ^ N.of_nat 20)%N with 100000000000000000000%N. change (2 ^ 64) with 18446744073709551616 in Hp. lia. }
  intros Hz. unfold print_int. destruct z as [|p|p]; [cbn; lia|transitivity 20%nat; [exact (Hn p ltac:(lia))|lia]|].
  change (cstr (pretty (Zneg p))) with ("-"%char :: cstr (pretty (Npos p))). cbn [length]. specialize (Hn p ltac:(lia)). lia.
Qed.
