(* ===== verification/RTime.v ===== *)
(** * Time values (src/util/libekr/r_time.c)

    [struct timeval] with its [long] fields as integers: the code computes with
    them only by addition and subtraction of clock readings, far from the ends of
    [long], while the conversions to [UINT8] wrap modulo 2^64 as written. *)

From S2P Require Import Prelude.
Local Open Scope Z_scope.

Record timeval := Timeval { tv_sec : Z; tv_usec : Z }.

#[export] Instance timeval_eq_dec : EqDecision timeval.
Proof. solve_decision. Defined.

(** The functions of the file report a status and fill in a result. *)
Definition outcome (A : Type) : Type := Z + A.

(** ** Operations *)

Definition r_timeval_diff (t1 t0 : timeval) : outcome timeval :=
  if tv_sec t0 >? tv_sec t1 then inl (abort_code R_BAD_ARGS)
  else if (tv_sec t0 =? tv_sec t1) && (tv_usec t0 >? tv_usec t1) then inl (abort_code R_BAD_ARGS)
  else if tv_usec t0 <=? tv_usec t1 then
    (* easy case *)
    inr (Timeval (tv_sec t1 - tv_sec t0) (tv_usec t1 - tv_usec t0))
  else
    (* hard case *)
    let d := tv_usec t0 - tv_usec t1 in
    if tv_sec t1 <? tv_sec t0 + 1 then inl (abort_code R_BAD_ARGS)
    else inr (Timeval (tv_sec t1 - (tv_sec t0 + 1)) (1000000 - d)).

Definition r_timeval_add (t1 t2 : timeval) : timeval :=
  let sec := tv_sec t1 + tv_sec t2 in
  let d := tv_usec t1 + tv_usec t2 in
  if d >? 1000000 then Timeval (sec + 1) (d - 1000000) else Timeval sec d.

Definition r_timeval_cmp (t1 t2 : timeval) : Z :=
  if tv_sec t1 >? tv_sec t2 then 1
  else if tv_sec t1 <? tv_sec t2 then -1
  else if tv_usec t1 >? tv_usec t2 then 1
  else if tv_usec t1 <? tv_usec t2 then -1
  else 0.

(** [UINT8] is 64 bits wide. *)
Definition r_timeval2int (tv : timeval) : Z :=
  let r := wrap 64 (tv_sec tv) in
  let r := wrap 64 (r * 1000000) in
  wrap 64 (r + tv_usec tv).

Definition r_int2timeval (t : Z) : timeval := Timeval (t / 1000000) (t mod 1000000).

(** The common start of the two functions below: [r_timeval_diff] is tried both
    ways round and [sign] remembers which attempt counts.  [None]: [tmp] would be
    read uninitialised. *)
Definition diff_either (t1 t0 : timeval) : option (outcome (Z * timeval)) :=
  match r_timeval_diff t1 t0 with
  | inr tmp => Some (inr (1, tmp))
  | inl r =>
      if r =? R_BAD_ARGS then
        match r_timeval_diff t0 t1 with
        | inr tmp => Some (inr (-1, tmp))
        | inl r' => Some (inl (abort_code r'))
        end
      else None
  end.

Definition r_timeval_diff_usec (t1 t0 : timeval) : option (outcome Z) :=
  match diff_either t1 t0 with
  | None => None
  | Some (inl r) => Some (inl r)
  | Some (inr (sign, tmp)) =>
      Some (inr ((tv_sec tmp * (1000 * 1000) + tv_usec tmp) * sign))
  end.

(** [/] is C's truncating division. *)
Definition r_timeval_diff_ms (t1 t0 : timeval) : option (outcome Z) :=
  match diff_either t1 t0 with
  | None => None
  | Some (inl r) => Some (inl r)
  | Some (inr (sign, tmp)) =>
      Some (inr ((tv_sec tmp * 1000 + Z.quot (tv_usec tmp) 1000) * sign))
  end.

(** ** Specification: a time value denotes a number of microseconds *)

Definition usecs (tv : timeval) : Z := tv_sec tv * 1000000 + tv_usec tv.
Definition normal (tv : timeval) : Prop := 0 <= tv_usec tv < 1000000.

#[export] Instance normal_dec tv : Decision (normal tv).
Proof. unfold normal. apply _. Defined.

Ltac time_cases :=
  unfold normal, usecs in *; cbn [tv_sec tv_usec] in *;
  repeat match goal with
  | t : timeval |- _ => destruct t as [? ?]; cbn [tv_sec tv_usec] in *
  end.

Lemma diff_cases t1 t0 :
  normal t1 → normal t0 →
  r_timeval_diff t1 t0 =
    if decide (usecs t0 <= usecs t1)
    then inr (r_int2timeval (usecs t1 - usecs t0))
    else inl R_BAD_ARGS.
Proof.
  destruct t1 as [s1 u1], t0 as [s0 u0]. unfold normal, usecs, r_timeval_diff, r_int2timeval.
  cbn [tv_sec tv_usec]. intros H1 H0. unfold_codes. cbn [Z.eqb].
  destruct (Z.gtb_spec s0 s1); [rewrite decide_False by lia; done|].
  destruct (Z.eqb_spec s0 s1) as [->|Hne]; cbn [andb].
  - destruct (Z.gtb_spec u0 u1); [rewrite decide_False by lia; done|].
    destruct (Z.leb_spec u0 u1); [|lia]. rewrite decide_True by lia.
    do 2 f_equal; Z.to_euclidean_division_equations; lia.
  - rewrite decide_True by lia. destruct (Z.leb_spec u0 u1).
    + do 2 f_equal; Z.to_euclidean_division_equations; lia.
    + destruct (Z.ltb_spec s1 (s0 + 1)); [lia|].
      do 2 f_equal; Z.to_euclidean_division_equations; lia.
Qed.

Lemma usecs_int2timeval t : usecs (r_int2timeval t) = t.
Proof. unfold usecs, r_int2timeval. cbn. Z.to_euclidean_division_equations; lia. Qed.

Lemma normal_int2timeval t : normal (r_int2timeval t).
Proof. unfold normal, r_int2timeval. cbn. apply Z.mod_pos_bound. lia. Qed.

Lemma diff_either_normal t1 t0 :
  normal t1 → normal t0 →
  diff_either t1 t0 =
    Some (inr (if decide (usecs t0 <= usecs t1)
               then (1, r_int2timeval (usecs t1 - usecs t0))
               else (-1, r_int2timeval (usecs t0 - usecs t1)))).
Proof.
  intros H1 H0. unfold diff_either. rewrite diff_cases by done.
  destruct (decide (usecs t0 <= usecs t1)); [done|].
  cbn. rewrite diff_cases by done. by rewrite decide_True by lia.
Qed.

(** ** Properties *)

(** on normalised time values [r_timeval_diff] computes the normalised time
    value of the difference whenever [t1] is not before [t0], and reports
    [R_BAD_ARGS] exactly when it is. *)
Theorem r_timeval_diff_correct t1 t0 :
  normal t1 → normal t0 →
  match r_timeval_diff t1 t0 with
  | inr d => usecs t0 <= usecs t1 ∧ normal d ∧ usecs d = usecs t1 - usecs t0
  | inl r => usecs t1 < usecs t0 ∧ r = R_BAD_ARGS
  end.
Proof.
  intros H1 H0. rewrite diff_cases by done. case_decide; [|split; [lia|done]].
  split_and!; [done|apply normal_int2timeval|apply usecs_int2timeval].
Qed.

Lemma r_timeval_diff_correct_witness :
  r_timeval_diff (Timeval 5 100) (Timeval 3 200) = inr (Timeval 1 999900) ∧
  match r_timeval_diff (Timeval 5 100) (Timeval 3 200) with
  | inr d => usecs (Timeval 3 200) <= usecs (Timeval 5 100) ∧ normal d ∧
      usecs d = usecs (Timeval 5 100) - usecs (Timeval 3 200)
  | inl r => usecs (Timeval 5 100) < usecs (Timeval 3 200) ∧ r = R_BAD_ARGS
  end.
Proof.
  split; [reflexivity|].
  apply (r_timeval_diff_correct (Timeval 5 100) (Timeval 3 200)); unfold normal; cbn; lia.
Defined.

(** the signed differences are defined for all normalised time values, in
    either order, and are the exact difference in microseconds and its
    truncation towards zero in milliseconds. *)
Theorem r_timeval_diff_signed t1 t0 :
  normal t1 → normal t0 →
  r_timeval_diff_usec t1 t0 = Some (inr (usecs t1 - usecs t0)) ∧
  r_timeval_diff_ms t1 t0 = Some (inr (Z.quot (usecs t1 - usecs t0) 1000)).
Proof.
  intros H1 H0. unfold r_timeval_diff_usec, r_timeval_diff_ms.
  rewrite diff_either_normal by done.
  case_decide; cbn; split; do 2 f_equal; Z.to_euclidean_division_equations; lia.
Qed.

Lemma r_timeval_diff_signed_witness :
  r_timeval_diff_usec (Timeval 1 5) (Timeval 2 0) = Some (inr (-999995)) ∧
  r_timeval_diff_ms (Timeval 1 5) (Timeval 2 0) = Some (inr (-999)).
Proof.
  apply (r_timeval_diff_signed (Timeval 1 5) (Timeval 2 0)); unfold normal; cbn; lia.
Defined.

(** [r_timeval_add] adds, but its result is a normalised time value exactly
    when the microseconds do not sum to 1000000: the carry test is [d>1000000]. *)
Theorem r_timeval_add_normal t1 t2 :
  normal t1 → normal t2 →
  usecs (r_timeval_add t1 t2) = usecs t1 + usecs t2 ∧
  (normal (r_timeval_add t1 t2) ↔ tv_usec t1 + tv_usec t2 ≠ 1000000).
Proof.
  intros H1 H2. unfold r_timeval_add.
  destruct (Z.gtb_spec (tv_usec t1 + tv_usec t2) 1000000); time_cases; lia.
Qed.

Lemma r_timeval_add_normal_witness :
  r_timeval_add (Timeval 0 400000) (Timeval 0 600000) = Timeval 0 1000000 ∧
  ¬ normal (r_timeval_add (Timeval 0 400000) (Timeval 0 600000)).
Proof.
  split; [reflexivity|].
  destruct (r_timeval_add_normal (Timeval 0 400000) (Timeval 0 600000)) as [_ Hn];
    [unfold normal; cbn; lia..|].
  rewrite Hn. cbn. lia.
Defined.

(** the integer representation round-trips both ways on the range of [UINT8],
    and [r_timeval_cmp] is the order of the integers. *)
Theorem r_timeval_int_roundtrip tv tv' :
  normal tv → normal tv' → 0 <= tv_sec tv → usecs tv < 2 ^ 64 →
  r_int2timeval (r_timeval2int tv) = tv ∧
  r_timeval2int (r_int2timeval (usecs tv)) = usecs tv ∧
  r_timeval_cmp tv tv' = Z.sgn (usecs tv - usecs tv').
Proof.
  intros Hn Hn' Hs Hb.
  assert (Hint : r_timeval2int tv = usecs tv).
  { unfold r_timeval2int, wrap. rewrite (Z.mod_small (tv_sec tv)) by (time_cases; lia).
    rewrite (Z.mod_small (tv_sec tv * 1000000)) by (time_cases; lia).
    apply Z.mod_small. time_cases; lia. }
  assert (Hback : r_int2timeval (usecs tv) = tv).
  { time_cases. unfold r_int2timeval. f_equal; Z.to_euclidean_division_equations; lia. }
  rewrite Hint, Hback, Hint. split_and!; [done|done|].
  unfold r_timeval_cmp. time_cases.
  repeat (case_match || (symmetry; apply Z.sgn_pos_iff) || (symmetry; apply Z.sgn_neg_iff)); lia.
Qed.

Lemma r_timeval_int_roundtrip_witness :
  r_int2timeval (r_timeval2int (Timeval 7 8)) = Timeval 7 8 ∧
  r_timeval2int (r_int2timeval (usecs (Timeval 7 8))) = usecs (Timeval 7 8) ∧
  r_timeval_cmp (Timeval 7 8) (Timeval 7 9) = Z.sgn (usecs (Timeval 7 8) - usecs (Timeval 7 9)).
Proof.
  apply (r_timeval_int_roundtrip (Timeval 7 8) (Timeval 7 9)); unfold normal, usecs; cbn; lia.
Defined.
