(* ===== verification/Crc32.v ===== *)
(** * CRC-32 (src/util/libekr/r_crc32.c) and the hash functions of r_assoc.c

    The table-driven checksum, proved equal to the bit-serial definition of the
    AUTODIN II polynomial that the table is generated from, and the two hash
    functions built for the hash table. *)

From S2P Require Import Prelude.
Local Open Scope Z_scope.

(** ** The code *)

Definition crctab : list Z := [
    0x00000000; 0x77073096; 0xee0e612c; 0x990951ba; 0x076dc419; 0x706af48f; 0xe963a535; 0x9e6495a3;
    0x0edb8832; 0x79dcb8a4; 0xe0d5e91e; 0x97d2d988; 0x09b64c2b; 0x7eb17cbd; 0xe7b82d07; 0x90bf1d91;
    0x1db71064; 0x6ab020f2; 0xf3b97148; 0x84be41de; 0x1adad47d; 0x6ddde4eb; 0xf4d4b551; 0x83d385c7;
    0x136c9856; 0x646ba8c0; 0xfd62f97a; 0x8a65c9ec; 0x14015c4f; 0x63066cd9; 0xfa0f3d63; 0x8d080df5;
    0x3b6e20c8; 0x4c69105e; 0xd56041e4; 0xa2677172; 0x3c03e4d1; 0x4b04d447; 0xd20d85fd; 0xa50ab56b;
    0x35b5a8fa; 0x42b2986c; 0xdbbbc9d6; 0xacbcf940; 0x32d86ce3; 0x45df5c75; 0xdcd60dcf; 0xabd13d59;
    0x26d930ac; 0x51de003a; 0xc8d75180; 0xbfd06116; 0x21b4f4b5; 0x56b3c423; 0xcfba9599; 0xb8bda50f;
    0x2802b89e; 0x5f058808; 0xc60cd9b2; 0xb10be924; 0x2f6f7c87; 0x58684c11; 0xc1611dab; 0xb6662d3d;
    0x76dc4190; 0x01db7106; 0x98d220bc; 0xefd5102a; 0x71b18589; 0x06b6b51f; 0x9fbfe4a5; 0xe8b8d433;
    0x7807c9a2; 0x0f00f934; 0x9609a88e; 0xe10e9818; 0x7f6a0dbb; 0x086d3d2d; 0x91646c97; 0xe6635c01;
    0x6b6b51f4; 0x1c6c6162; 0x856530d8; 0xf262004e; 0x6c0695ed; 0x1b01a57b; 0x8208f4c1; 0xf50fc457;
    0x65b0d9c6; 0x12b7e950; 0x8bbeb8ea; 0xfcb9887c; 0x62dd1ddf; 0x15da2d49; 0x8cd37cf3; 0xfbd44c65;
    0x4db26158; 0x3ab551ce; 0xa3bc0074; 0xd4bb30e2; 0x4adfa541; 0x3dd895d7; 0xa4d1c46d; 0xd3d6f4fb;
    0x4369e96a; 0x346ed9fc; 0xad678846; 0xda60b8d0; 0x44042d73; 0x33031de5; 0xaa0a4c5f; 0xdd0d7cc9;
    0x5005713c; 0x270241aa; 0xbe0b1010; 0xc90c2086; 0x5768b525; 0x206f85b3; 0xb966d409; 0xce61e49f;
    0x5edef90e; 0x29d9c998; 0xb0d09822; 0xc7d7a8b4; 0x59b33d17; 0x2eb40d81; 0xb7bd5c3b; 0xc0ba6cad;
    0xedb88320; 0x9abfb3b6; 0x03b6e20c; 0x74b1d29a; 0xead54739; 0x9dd277af; 0x04db2615; 0x73dc1683;
    0xe3630b12; 0x94643b84; 0x0d6d6a3e; 0x7a6a5aa8; 0xe40ecf0b; 0x9309ff9d; 0x0a00ae27; 0x7d079eb1;
    0xf00f9344; 0x8708a3d2; 0x1e01f268; 0x6906c2fe; 0xf762575d; 0x806567cb; 0x196c3671; 0x6e6b06e7;
    0xfed41b76; 0x89d32be0; 0x10da7a5a; 0x67dd4acc; 0xf9b9df6f; 0x8ebeeff9; 0x17b7be43; 0x60b08ed5;
    0xd6d6a3e8; 0xa1d1937e; 0x38d8c2c4; 0x4fdff252; 0xd1bb67f1; 0xa6bc5767; 0x3fb506dd; 0x48b2364b;
    0xd80d2bda; 0xaf0a1b4c; 0x36034af6; 0x41047a60; 0xdf60efc3; 0xa867df55; 0x316e8eef; 0x4669be79;
    0xcb61b38c; 0xbc66831a; 0x256fd2a0; 0x5268e236; 0xcc0c7795; 0xbb0b4703; 0x220216b9; 0x5505262f;
    0xc5ba3bbe; 0xb2bd0b28; 0x2bb45a92; 0x5cb36a04; 0xc2d7ffa7; 0xb5d0cf31; 0x2cd99e8b; 0x5bdeae1d;
    0x9b64c2b0; 0xec63f226; 0x756aa39c; 0x026d930a; 0x9c0906a9; 0xeb0e363f; 0x72076785; 0x05005713;
    0x95bf4a82; 0xe2b87a14; 0x7bb12bae; 0x0cb61b38; 0x92d28e9b; 0xe5d5be0d; 0x7cdcefb7; 0x0bdbdf21;
    0x86d3d2d4; 0xf1d4e242; 0x68ddb3f8; 0x1fda836e; 0x81be16cd; 0xf6b9265b; 0x6fb077e1; 0x18b74777;
    0x88085ae6; 0xff0f6a70; 0x66063bca; 0x11010b5c; 0x8f659eff; 0xf862ae69; 0x616bffd3; 0x166ccf45;
    0xa00ae278; 0xd70dd2ee; 0x4e048354; 0x3903b3c2; 0xa7672661; 0xd06016f7; 0x4969474d; 0x3e6e77db;
    0xaed16a4a; 0xd9d65adc; 0x40df0b66; 0x37d83bf0; 0xa9bcae53; 0xdebb9ec5; 0x47b2cf7f; 0x30b5ffe9;
    0xbdbdf21c; 0xcabac28a; 0x53b39330; 0x24b4a3a6; 0xbad03605; 0xcdd70693; 0x54de5729; 0x23d967bf;
    0xb3667a2e; 0xc4614ab8; 0x5d681b02; 0x2a6f2b94; 0xb40bbe37; 0xc30c8ea1; 0x5a05df1b; 0x2d02ef8d
  ].

(** An out-of-range index of the table would be undefined: [None]. *)
Definition crctab_at (i : Z) : option Z := if i <? 0 then None else crctab !! Z.to_nat i.

(** [CRC(crc, ch)] on a [u_int32_t].  The character is promoted to [int], so a
    negative [char] is sign-extended before the exclusive or; only its low eight
    bits survive the mask. *)
Definition CRC (crc ch : Z) : option Z :=
  t ← crctab_at (Z.land (Z.lxor crc ch) 255);
  Some (Z.lxor (Z.shiftr crc 8) t).

(** The loop over the buffer. *)
Fixpoint crc_loop (crc : Z) (buf : list Z) : option Z :=
  match buf with
  | [] => Some crc
  | ch :: buf' => crc' ← CRC crc ch; crc_loop crc' buf'
  end.

(** [~] on 32 bits. *)
Definition not32 (x : Z) : Z := wrap 32 (Z.lnot x).

(** [r_crc32(buf,dlen,&cval)] always returns 0; the result is [*cval].
    ([crc32_total] is computed by the same loop and never used.) *)
Definition r_crc32 (buf : list Z) : option Z :=
  crc ← crc_loop (not32 0) buf; Some (not32 crc).

(** [r_assoc_crc32_hash_compute]: [mask=~(0xffffffff<<bits)] in [UINT4]. *)
Definition r_assoc_crc32_hash_compute (data : list Z) (bits : Z) : option Z :=
  res ← r_crc32 data;
  Some (Z.land res (not32 (wrap 32 (Z.shiftl 0xffffffff bits)))).

(** [r_assoc_simple_hash_compute]: [h] is the [UINT4] conversion of an [int]
    expression; [char]s are signed. *)
Definition r_assoc_simple_hash_compute (key : list Z) (bits : Z) : option Z :=
  first ← key !! 0%nat;
  lst ← last key;
  let h := wrap 32 (first + lst * Z.of_nat (length key)) in
  Some (Z.land h (Z.shiftl 1 bits - 1)).

(** ** Reference: the bit-serial checksum

    One bit is shifted out at a time, low order bit first, and the reflected
    polynomial x^32 + x^26 + x^23 + x^22 + x^16 + x^12 + x^11 + x^10 + x^8 + x^7 +
    x^5 + x^4 + x^2 + x + 1 is subtracted when it was a one. *)
Definition poly : Z := 0xedb88320.

Definition bit_step (c : Z) : Z :=
  Z.lxor (Z.shiftr c 1) (if Z.testbit c 0 then poly else 0).

Definition byte_step (crc ch : Z) : Z := Nat.iter 8 bit_step (Z.lxor crc (Z.land ch 255)).

Definition crc_ref (buf : list Z) : Z := not32 (foldl byte_step (not32 0) buf).

(** ** The table-driven step computes the bit-serial one *)

Lemma bit_step_lxor a b : bit_step (Z.lxor a b) = Z.lxor (bit_step a) (bit_step b).
Proof.
  unfold bit_step. rewrite Z.shiftr_lxor, Z.lxor_spec.
  destruct (Z.testbit a 0), (Z.testbit b 0); cbn [xorb]; rewrite ?Z.lxor_0_r.
  - rewrite (Z.lxor_assoc _ poly), (Z.lxor_comm poly), Z.lxor_assoc, Z.lxor_nilpotent.
    by rewrite Z.lxor_0_r.
  - by rewrite !Z.lxor_assoc, (Z.lxor_comm poly).
  - by rewrite Z.lxor_assoc.
  - done.
Qed.

Lemma bit_steps_lxor n a b :
  Nat.iter n bit_step (Z.lxor a b) = Z.lxor (Nat.iter n bit_step a) (Nat.iter n bit_step b).
Proof. induction n as [|n IH]; [done|]. by rewrite !Nat.iter_succ, IH, bit_step_lxor. Qed.

Lemma bit_steps_high n d : Nat.iter n bit_step (Z.shiftl d (Z.of_nat n)) = d.
Proof.
  revert d. induction n as [|n IH]; intros d; [by rewrite Z.shiftl_0_r|].
  rewrite Nat.iter_succ_r. replace (bit_step _) with (Z.shiftl d (Z.of_nat n)); [apply IH|].
  unfold bit_step. rewrite Z.shiftl_spec_low by lia. rewrite Z.lxor_0_r.
  rewrite Z.shiftr_shiftl_l by lia. f_equal. lia.
Qed.

Lemma split_low_byte x : x = Z.lxor (Z.shiftl (Z.shiftr x 8) 8) (Z.land x 255).
Proof.
  change 255 with (Z.ones 8). apply Z.bits_inj'. intros i Hi.
  rewrite Z.lxor_spec, Z.land_spec, Z.testbit_ones_nonneg by lia.
  destruct (Z.ltb_spec i 8).
  - rewrite Z.shiftl_spec_low by lia. by rewrite andb_true_r.
  - rewrite Z.shiftl_spec_high, Z.shiftr_spec by lia.
    rewrite andb_false_r, xorb_false_r. f_equal. lia.
Qed.

Lemma crctab_bit_serial i : 0 <= i < 256 → crctab_at i = Some (Nat.iter 8 bit_step i).
Proof.
  intros Hi. rewrite <- (Z2Nat.id i) by lia.
  assert (Z.to_nat i < 256)%nat as Hn by lia. generalize (Z.to_nat i) Hn. clear.
  intros n Hn.
  assert (Forall (λ k, crctab_at (Z.of_nat k) = Some (Nat.iter 8 bit_step (Z.of_nat k)))
            (seq 0 256)) as Hall.
  { apply Forall_fold_right. vm_compute. repeat split. }
  rewrite Forall_forall in Hall. apply Hall, elem_of_seq. lia.
Qed.

Lemma land_255_range x : 0 <= Z.land x 255 < 256.
Proof. change 255 with (Z.ones 8). rewrite Z.land_ones by lia. apply Z.mod_pos_bound. lia. Qed.

Lemma CRC_bit_serial crc ch : CRC crc ch = Some (byte_step crc ch).
Proof.
  unfold CRC, byte_step. set (x := Z.lxor crc (Z.land ch 255)).
  assert (Hlow : Z.land (Z.lxor crc ch) 255 = Z.land x 255).
  { unfold x. change 255 with (Z.ones 8). apply Z.bits_inj'. intros i Hi.
    rewrite !Z.land_spec, !Z.lxor_spec, Z.land_spec.
    by destruct (Z.testbit (Z.ones 8) i); rewrite ?andb_true_r, ?andb_false_r. }
  assert (Hhigh : Z.shiftr x 8 = Z.shiftr crc 8).
  { unfold x. rewrite Z.shiftr_lxor. replace (Z.shiftr (Z.land ch 255) 8) with 0.
    { apply Z.lxor_0_r. }
    pose proof (land_255_range ch). rewrite Z.shiftr_div_pow2 by lia.
    symmetry. apply Z.div_small. cbn. lia. }
  rewrite Hlow, crctab_bit_serial by apply land_255_range. cbn [mbind option_bind].
  f_equal. rewrite <- Hhigh. rewrite (split_low_byte x) at 3. rewrite bit_steps_lxor.
  f_equal. symmetry. apply (bit_steps_high 8).
Qed.

Lemma crc_loop_bit_serial crc buf : crc_loop crc buf = Some (foldl byte_step crc buf).
Proof.
  revert crc. induction buf as [|ch buf IH]; intros crc; [done|].
  cbn [crc_loop foldl]. rewrite CRC_bit_serial. cbn. apply IH.
Qed.

(** C15: for every buffer [r_crc32] stays inside its table and computes the
    bit-serial CRC of the AUTODIN II polynomial (all-ones preset, complemented). *)
Theorem r_crc32_bit_serial buf : r_crc32 buf = Some (crc_ref buf).
Proof. unfold r_crc32. by rewrite crc_loop_bit_serial. Qed.

(** The published check value of the polynomial, on the bytes of "123456789". *)
Example r_crc32_check : r_crc32 [49; 50; 51; 52; 53; 54; 55; 56; 57] = Some 0xcbf43926.
Proof. reflexivity. Qed.

(** ** Hash functions for a table of [2^bits] chains *)

Lemma crc_ref_range buf : 0 <= crc_ref buf < 2 ^ 32.
Proof. apply wrap_range. lia. Qed.

Lemma hash_mask bits : 0 <= bits < 32 → not32 (wrap 32 (Z.shiftl 0xffffffff bits)) = Z.ones bits.
Proof.
  intros Hb. rewrite <- (Z2Nat.id bits) by lia.
  assert (Z.to_nat bits < 32)%nat as Hn by lia. generalize (Z.to_nat bits) Hn. clear.
  intros n Hn.
  assert (Forall (λ k, not32 (wrap 32 (Z.shiftl 0xffffffff (Z.of_nat k))) = Z.ones (Z.of_nat k))
            (seq 0 32)) as Hall.
  { apply Forall_fold_right. vm_compute. repeat split. }
  rewrite Forall_forall in Hall. apply Hall, elem_of_seq. lia.
Qed.

Lemma crc32_hash_eq data bits :
  0 <= bits < 32 → r_assoc_crc32_hash_compute data bits = Some (crc_ref data mod 2 ^ bits).
Proof.
  intros Hb. unfold r_assoc_crc32_hash_compute. rewrite r_crc32_bit_serial. cbn.
  by rewrite hash_mask, Z.land_ones by lia.
Qed.

Lemma simple_hash_eq key bits :
  key ≠ [] → 0 <= bits < 32 →
  ∃ h, r_assoc_simple_hash_compute key bits = Some (h mod 2 ^ bits).
Proof.
  intros Hk Hb. unfold r_assoc_simple_hash_compute.
  destruct key as [|x key]; [done|]. cbn [lookup list_lookup].
  destruct (last (x :: key)) as [y|] eqn:Hl; [|by apply last_None in Hl]. cbn.
  eexists. f_equal. rewrite Z.shiftl_1_l, Z.sub_1_r, <- Z.ones_equiv. apply Z.land_ones. lia.
Qed.

(** both hash functions always select one of the [2^bits] chains. *)
Theorem hash_in_range key bits :
  key ≠ [] → 0 <= bits < 32 →
  (∃ h, r_assoc_crc32_hash_compute key bits = Some h ∧ 0 <= h < 2 ^ bits) ∧
  (∃ h, r_assoc_simple_hash_compute key bits = Some h ∧ 0 <= h < 2 ^ bits).
Proof.
  intros Hk Hb. assert (0 < 2 ^ bits) by (apply Z.pow_pos_nonneg; lia). split.
  - rewrite crc32_hash_eq by done. eexists. split; [done|]. by apply Z.mod_pos_bound.
  - destruct (simple_hash_eq key bits) as [h ->]; [done..|].
    eexists. split; [done|]. by apply Z.mod_pos_bound.
Qed.

Lemma hash_in_range_witness :
  (∃ h, r_assoc_crc32_hash_compute [102; 111; 111; 0] 12 = Some h ∧ 0 <= h < 2 ^ 12) ∧
  (∃ h, r_assoc_simple_hash_compute [102; 111; 111; 0] 12 = Some h ∧ 0 <= h < 2 ^ 12).
Proof. apply (hash_in_range [102; 111; 111; 0] 12); [done|lia]. Defined.
