(* ===== verification/AssocSpec.v ===== *)
(** * What an associative array promises

    The contract of src/util/libekr/r_assoc.c: a table of chains of entries with
    distinct keys, each in the chain its hash selects, seen as a finite map.
    [RAssoc] proves that the pointer code implements these operations; the
    registry is built on them. *)

From S2P Require Import Prelude.

(** ** The interface to the hash function: it selects an existing chain. *)
Class HashSpec (hash : list Z → nat) (size : nat) := hash_bound k : (hash k < size)%nat.

Section spec.
(** [D]: the [void *] data; [F]: the copy/destroy function pointers. *)
Context {D F : Type}.

Record entry := Entry {
  e_key : list Z;
  e_data : D;
  e_copy : option F;
  e_destroy : option F;
}.

Record tbl := Tbl { t_chains : list (list entry); t_num : Z }.

Definition tbl_empty (size : nat) : tbl := Tbl (replicate size []) 0.

Section ops.
Context (hash : list Z → nat).

Definition has_key (k : list Z) (e : entry) : Prop := e_key e = k.
#[export] Instance has_key_dec k e : Decision (has_key k e).
Proof. unfold has_key. apply _. Defined.

(** The chain of a key, and the position and entry of the key in it. *)
Definition chain_of (t : tbl) (k : list Z) : list entry := default [] (t_chains t !! hash k).
Definition chain_find (k : list Z) (ch : list entry) : option (nat * entry) :=
  list_find (has_key k) ch.

Definition tbl_fetch (t : tbl) (k : list Z) : option entry :=
  snd <$> chain_find k (chain_of t k).

(** A new entry goes to the head of its chain, a replaced one stays in place;
    both count as one more element. *)
Definition tbl_put (t : tbl) (e : entry) : tbl :=
  let ch := chain_of t (e_key e) in
  Tbl (<[hash (e_key e) :=
          match chain_find (e_key e) ch with
          | Some (i, _) => <[i := e]> ch
          | None => e :: ch
          end]> (t_chains t))
      (wrap 32 (t_num t + 1)).

Definition tbl_remove (t : tbl) (k : list Z) : tbl :=
  match chain_find k (chain_of t k) with
  | Some (i, _) => Tbl (<[hash k := delete i (chain_of t k)]> (t_chains t)) (wrap 32 (t_num t - 1))
  | None => t
  end.

(** The order in which the iterator delivers the entries. *)
Definition tbl_elems (t : tbl) : list entry := concat (t_chains t).

Record tbl_ok (t : tbl) : Prop := {
  tbl_hash k : (hash k < length (t_chains t))%nat;
  tbl_place i ch e : t_chains t !! i = Some ch → e ∈ ch → hash (e_key e) = i;
  tbl_distinct i ch : t_chains t !! i = Some ch → NoDup (e_key <$> ch);
}.
End ops.
End spec.
Arguments entry : clear implicits.
Arguments tbl : clear implicits.

Section laws.
Context {D F : Type} (hash : list Z → nat).
Implicit Types (t : tbl D F) (e : entry D F) (k : list Z).

Lemma tbl_empty_ok size `{!HashSpec hash size} : tbl_ok (D:=D) (F:=F) hash (tbl_empty size).
Proof.
  split; unfold tbl_empty; cbn.
  - intros k. rewrite length_replicate. apply hash_bound.
  - intros i ch e [-> _]%lookup_replicate. by intros ?%not_elem_of_nil.
  - intros i ch [-> _]%lookup_replicate. constructor.
Qed.

Lemma tbl_fetch_empty size k : tbl_fetch (D:=D) (F:=F) hash (tbl_empty size) k = None.
Proof.
  unfold tbl_fetch, chain_of, tbl_empty. cbn.
  destruct (replicate size [] !! hash k) as [ch|] eqn:Hch; [|done].
  by apply lookup_replicate in Hch as [-> _].
Qed.

Lemma tbl_elems_empty size : tbl_elems (tbl_empty (D:=D) (F:=F) size) = [].
Proof. unfold tbl_elems, tbl_empty. cbn. by induction size. Qed.

Lemma chain_of_lookup t k : tbl_ok hash t → t_chains t !! hash k = Some (chain_of hash t k).
Proof.
  intros Hok. unfold chain_of. destruct (lookup_lt_is_Some_2 (t_chains t) (hash k)) as [ch Hch];
    [by apply Hok|]. by rewrite Hch.
Qed.

Lemma chain_find_Some k ch i e :
  chain_find k ch = Some (i, e) → ch !! i = Some e ∧ e_key e = k.
Proof. unfold chain_find. by intros (? & ? & _)%list_find_Some. Qed.

Lemma chain_find_None k (ch : list (entry D F)) :
  chain_find k ch = None ↔ k ∉ (e_key <$> ch).
Proof.
  unfold chain_find. rewrite list_find_None, Forall_forall, list_elem_of_fmap.
  unfold has_key. split.
  - intros H (e & -> & He). by apply (H e).
  - intros H e He <-. apply H. by exists e.
Qed.

Lemma chain_find_cons k ch e :
  chain_find k (e :: ch) =
    if decide (e_key e = k) then Some (0%nat, e) else prod_map S id <$> chain_find k ch.
Proof. done. Qed.

Lemma chain_find_unique k ch i e :
  NoDup (e_key <$> ch) → ch !! i = Some e → e_key e = k → chain_find k ch = Some (i, e).
Proof.
  intros Hnd Hi Hk. unfold chain_find. rewrite list_find_Some. split_and!; [done|done|].
  intros j e' Hj Hlt. unfold has_key. intros Hk'.
  assert (j = i); [|lia]. apply (NoDup_lookup (e_key <$> ch) _ _ k); [done|..].
  - by rewrite list_lookup_fmap, Hj, <- Hk'.
  - by rewrite list_lookup_fmap, Hi, <- Hk.
Qed.

Lemma tbl_fetch_key t k e : tbl_fetch hash t k = Some e → e_key e = k.
Proof. unfold tbl_fetch. by intros ([i e'] & [_ ?]%chain_find_Some & ->)%fmap_Some. Qed.

Lemma tbl_fetch_elem t e :
  tbl_ok hash t → e ∈ tbl_elems t ↔ tbl_fetch hash t (e_key e) = Some e.
Proof.
  intros Hok. unfold tbl_elems, tbl_fetch. rewrite list_elem_of_In, in_concat. split.
  - intros (ch & Hch%list_elem_of_In & He%list_elem_of_In).
    apply list_elem_of_lookup in Hch as [i Hi].
    assert (hash (e_key e) = i) as <- by by eapply tbl_place.
    apply list_elem_of_lookup in He as [j Hj].
    rewrite (chain_of_lookup t (e_key e)) in Hi by done. injection Hi as <-.
    erewrite chain_find_unique; [done| |done..].
    eapply tbl_distinct; [done|by apply chain_of_lookup].
  - intros ([i e'] & [He _]%chain_find_Some & ->)%fmap_Some. exists (chain_of hash t (e_key e')).
    rewrite <- !list_elem_of_In. split.
    + eapply list_elem_of_lookup_2. by apply chain_of_lookup.
    + by eapply list_elem_of_lookup_2.
Qed.

Lemma tbl_elems_NoDup t : tbl_ok hash t → NoDup (e_key <$> tbl_elems t).
Proof.
  intros Hok. unfold tbl_elems.
  assert (Hplace : ∀ i ch e, t_chains t !! i = Some ch → e ∈ ch → hash (e_key e) = (0 + i)%nat)
    by (intros; by eapply tbl_place).
  assert (Hnd : ∀ i ch, t_chains t !! i = Some ch → NoDup (e_key <$> ch))
    by (intros; by eapply tbl_distinct).
  clear Hok. revert Hplace Hnd. generalize 0%nat as n. induction (t_chains t) as [|ch chs IH];
    intros n Hplace Hnd; [constructor|].
  cbn. rewrite fmap_app, NoDup_app. split_and!.
  - by apply (Hnd 0%nat).
  - intros k (e & -> & He)%list_elem_of_fmap (e' & Hk & He')%list_elem_of_fmap.
    pose proof (Hplace 0%nat ch e eq_refl He) as Hn.
    apply list_elem_of_In, in_concat in He' as (ch' & Hch'%list_elem_of_In & He'%list_elem_of_In).
    apply list_elem_of_lookup in Hch' as [j Hj].
    pose proof (Hplace (S j) ch' e' Hj He'). rewrite Hk in Hn. lia.
  - apply (IH (S n)).
    + intros i ch' e Hi He. rewrite (Hplace (S i) ch' e Hi He). lia.
    + intros i ch' Hi. by apply (Hnd (S i)).
Qed.

(** *** Updates *)

Lemma chain_of_put t e k :
  tbl_ok hash t →
  chain_of hash (tbl_put hash t e) k =
    if decide (hash k = hash (e_key e)) then
      match chain_find (e_key e) (chain_of hash t (e_key e)) with
      | Some (i, _) => <[i := e]> (chain_of hash t (e_key e))
      | None => e :: chain_of hash t (e_key e)
      end
    else chain_of hash t k.
Proof.
  intros Hok. unfold tbl_put, chain_of at 1. cbn. case_decide as Hh.
  - rewrite Hh, list_lookup_insert_eq by apply Hok. done.
  - by rewrite list_lookup_insert_ne by congruence.
Qed.

(** Replacing an entry by one with the same key keeps the keys of the chain. *)
Lemma insert_same_keys (ch : list (entry D F)) i e e' :
  ch !! i = Some e' → e_key e' = e_key e → e_key <$> <[i := e]> ch = e_key <$> ch.
Proof.
  intros Hi Hk. rewrite list_fmap_insert. apply list_insert_id.
  by rewrite list_lookup_fmap, Hi, <- Hk.
Qed.

Lemma tbl_put_ok t e : tbl_ok hash t → tbl_ok hash (tbl_put hash t e).
Proof.
  intros Hok. unfold tbl_put. split; cbn.
  - intros k. rewrite length_insert. apply Hok.
  - intros i ch e' [(<- & <- & _)|[_ Hi]]%list_lookup_insert_Some; [|by eapply tbl_place].
    destruct (chain_find _ _) as [[j e0]|] eqn:Hf; intros He'.
    + apply list_elem_of_lookup in He' as [m Hm].
      apply list_lookup_insert_Some in Hm as [(_ & <- & _)|[_ Hm]]; [done|].
      eapply tbl_place; [done|by apply chain_of_lookup|by eapply list_elem_of_lookup_2].
    + apply elem_of_cons in He' as [->|He']; [done|].
      eapply tbl_place; [done|by apply chain_of_lookup|done].
  - intros i ch [(<- & <- & _)|[_ Hi]]%list_lookup_insert_Some; [|by eapply tbl_distinct].
    pose proof (tbl_distinct hash t Hok _ _ (chain_of_lookup t (e_key e) Hok)) as Hnd.
    destruct (chain_find _ _) as [[j e0]|] eqn:Hf.
    + apply chain_find_Some in Hf as [Hj Hk]. by rewrite (insert_same_keys _ _ _ e0).
    + cbn. constructor; [by apply chain_find_None|done].
Qed.

Lemma tbl_fetch_put_eq t e : tbl_ok hash t → tbl_fetch hash (tbl_put hash t e) (e_key e) = Some e.
Proof.
  intros Hok. unfold tbl_fetch. rewrite chain_of_put by done. rewrite decide_True by done.
  pose proof (tbl_distinct hash t Hok _ _ (chain_of_lookup t (e_key e) Hok)) as Hnd.
  destruct (chain_find (e_key e) (chain_of hash t (e_key e))) as [[j e0]|] eqn:Hf.
  - apply chain_find_Some in Hf as [Hj Hk].
    erewrite (chain_find_unique _ _ j e); [done| | |done].
    + by rewrite (insert_same_keys _ _ _ e0).
    + apply list_lookup_insert_eq. by eapply lookup_lt_Some.
  - by rewrite chain_find_cons, decide_True by done.
Qed.

Lemma chain_find_insert_ne k ch i e e' :
  NoDup (e_key <$> ch) → ch !! i = Some e' → e_key e' = e_key e → e_key e ≠ k →
  chain_find k (<[i := e]> ch) = chain_find k ch.
Proof.
  intros Hnd Hi Hk Hne. destruct (chain_find k ch) as [[j e0]|] eqn:Hf.
  - apply chain_find_Some in Hf as [Hj Hk0].
    apply chain_find_unique; [by rewrite (insert_same_keys _ _ _ e')| |done].
    rewrite list_lookup_insert_ne; [done|]. congruence.
  - apply chain_find_None. rewrite (insert_same_keys _ _ _ e') by done.
    by apply chain_find_None.
Qed.

Lemma tbl_fetch_put_ne t e k :
  tbl_ok hash t → e_key e ≠ k → tbl_fetch hash (tbl_put hash t e) k = tbl_fetch hash t k.
Proof.
  intros Hok Hne. unfold tbl_fetch. rewrite chain_of_put by done.
  case_decide as Hh; [|done].
  assert (chain_of hash t (e_key e) = chain_of hash t k) as -> by (unfold chain_of; by rewrite Hh).
  pose proof (tbl_distinct hash t Hok _ _ (chain_of_lookup t k Hok)) as Hnd.
  destruct (chain_find (e_key e) (chain_of hash t k)) as [[j e0]|] eqn:Hf.
  - apply chain_find_Some in Hf as [Hj Hk]. by rewrite (chain_find_insert_ne _ _ _ _ e0).
  - rewrite chain_find_cons, decide_False by done. by destruct (chain_find k _) as [[??]|].
Qed.

Lemma tbl_remove_ok t k : tbl_ok hash t → tbl_ok hash (tbl_remove hash t k).
Proof.
  intros Hok. unfold tbl_remove. destruct (chain_find _ _) as [[j e0]|] eqn:Hf; [|done].
  assert (Hsub : delete j (chain_of hash t k) `sublist_of` chain_of hash t k) by apply sublist_delete.
  split; cbn.
  - intros k'. rewrite length_insert. apply Hok.
  - intros i ch e' [(<- & <- & _)|[_ Hi]]%list_lookup_insert_Some He'; [|by eapply tbl_place].
    eapply tbl_place; [done|by apply chain_of_lookup|]. by eapply elem_of_sublist.
  - intros i ch [(<- & <- & _)|[_ Hi]]%list_lookup_insert_Some; [|by eapply tbl_distinct].
    eapply sublist_NoDup; [by eapply tbl_distinct, chain_of_lookup|].
    by apply fmap_sublist.
Qed.

Lemma chain_of_remove t k k' :
  tbl_ok hash t →
  chain_of hash (tbl_remove hash t k) k' =
    if decide (hash k' = hash k) then
      match chain_find k (chain_of hash t k) with
      | Some (i, _) => delete i (chain_of hash t k)
      | None => chain_of hash t k
      end
    else chain_of hash t k'.
Proof.
  intros Hok. unfold tbl_remove. case_decide as Hh.
  - destruct (chain_find k (chain_of hash t k)) as [[j e0]|] eqn:Hf.
    + unfold chain_of at 1. cbn. by rewrite Hh, list_lookup_insert_eq by apply Hok.
    + unfold chain_of. by rewrite Hh.
  - destruct (chain_find k (chain_of hash t k)) as [[j e0]|] eqn:Hf; [|done].
    unfold chain_of at 1. cbn. by rewrite list_lookup_insert_ne by congruence.
Qed.

Lemma tbl_fetch_remove_eq t k : tbl_ok hash t → tbl_fetch hash (tbl_remove hash t k) k = None.
Proof.
  intros Hok. unfold tbl_fetch. rewrite chain_of_remove by done. rewrite decide_True by done.
  pose proof (tbl_distinct hash t Hok _ _ (chain_of_lookup t k Hok)) as Hnd.
  destruct (chain_find k (chain_of hash t k)) as [[j e0]|] eqn:Hf; [|by rewrite Hf].
  apply fmap_None, chain_find_None. apply chain_find_Some in Hf as [Hj Hk].
  rewrite list_fmap_delete. intros Hin.
  assert (Hkj : (e_key <$> chain_of hash t k) !! j = Some k) by by rewrite list_lookup_fmap, Hj, <- Hk.
  apply delete_Permutation in Hkj. rewrite Hkj in Hnd. by apply NoDup_cons in Hnd as [? _].
Qed.

Lemma tbl_fetch_remove_ne t k k' :
  tbl_ok hash t → k ≠ k' → tbl_fetch hash (tbl_remove hash t k) k' = tbl_fetch hash t k'.
Proof.
  intros Hok Hne. unfold tbl_fetch. rewrite chain_of_remove by done. case_decide as Hh; [|done].
  assert (chain_of hash t k = chain_of hash t k') as -> by (unfold chain_of; by rewrite Hh).
  pose proof (tbl_distinct hash t Hok _ _ (chain_of_lookup t k' Hok)) as Hnd.
  destruct (chain_find k (chain_of hash t k')) as [[j e0]|] eqn:Hf; [|done].
  apply chain_find_Some in Hf as [Hj Hk].
  assert (Hperm := delete_Permutation _ _ _ Hj).
  assert (Hnd' : NoDup (e_key <$> delete j (chain_of hash t k'))).
  { rewrite list_fmap_delete. eapply sublist_NoDup; [done|apply sublist_delete]. }
  destruct (chain_find k' (chain_of hash t k')) as [[m e1]|] eqn:Hf'.
  - apply chain_find_Some in Hf' as [Hm Hk1]. cbn.
    assert (He1 : e1 ∈ delete j (chain_of hash t k')).
    { apply list_elem_of_lookup_2 in Hm. rewrite Hperm in Hm.
      apply elem_of_cons in Hm as [->|?]; [congruence|done]. }
    apply list_elem_of_lookup in He1 as [n Hn]. by erewrite chain_find_unique.
  - cbn. apply fmap_None, chain_find_None. apply chain_find_None in Hf'.
    intros Hin. apply Hf'. rewrite Hperm. by right.
Qed.

(** *** The elements of an updated table *)

Lemma delete_insert_same {A} (l : list A) i x : delete i (<[i:=x]> l) = delete i l.
Proof. by rewrite !delete_take_drop, take_insert_ge, drop_insert_lt by lia. Qed.

(** The chain of a key, in the middle of the others. *)
Lemma elems_split t k :
  tbl_ok hash t → ∃ before after,
    tbl_elems t = before ++ chain_of hash t k ++ after ∧
    ∀ ch, concat (<[hash k := ch]> (t_chains t)) = before ++ ch ++ after.
Proof.
  intros Hok. pose proof (chain_of_lookup t k Hok) as Hk.
  exists (concat (take (hash k) (t_chains t))), (concat (drop (S (hash k)) (t_chains t))).
  unfold tbl_elems. split.
  - rewrite <- (take_drop_middle _ _ _ Hk) at 1. by rewrite concat_app.
  - intros ch. rewrite insert_take_drop by apply (tbl_hash hash t Hok). by rewrite concat_app.
Qed.

Lemma tbl_elems_put_new t e :
  tbl_ok hash t → tbl_fetch hash t (e_key e) = None → tbl_elems (tbl_put hash t e) ≡ₚ e :: tbl_elems t.
Proof.
  intros Hok Hf. destruct (elems_split t (e_key e) Hok) as (b & a & -> & Hins).
  unfold tbl_fetch in Hf. apply fmap_None in Hf. unfold tbl_elems, tbl_put. cbn.
  rewrite Hf, Hins. cbn. by rewrite <- Permutation_middle.
Qed.

Lemma tbl_elems_put_old t e o :
  tbl_ok hash t → tbl_fetch hash t (e_key e) = Some o →
  ∃ rest, tbl_elems t ≡ₚ o :: rest ∧ tbl_elems (tbl_put hash t e) ≡ₚ e :: rest.
Proof.
  intros Hok Hf. destruct (elems_split t (e_key e) Hok) as (b & a & -> & Hins).
  unfold tbl_fetch in Hf. apply fmap_Some in Hf as ([i e'] & Hf & ->).
  pose proof (chain_find_Some _ _ _ _ Hf) as [Hi _]. unfold tbl_elems, tbl_put. cbn.
  rewrite Hf, Hins. exists (b ++ delete i (chain_of hash t (e_key e)) ++ a).
  assert (Hmid : ∀ x (l : list (entry D F)), b ++ (x :: l) ++ a ≡ₚ x :: b ++ l ++ a)
    by (intros x l; cbn; by rewrite <- Permutation_middle).
  split.
  - rewrite <- Hmid. by rewrite <- (delete_Permutation _ _ _ Hi).
  - rewrite <- Hmid, <- (delete_insert_same _ i e).
    rewrite <- (delete_Permutation _ i e); [done|].
    apply list_lookup_insert_eq. by eapply lookup_lt_Some.
Qed.

Lemma tbl_elems_remove t k o :
  tbl_ok hash t → tbl_fetch hash t k = Some o → tbl_elems t ≡ₚ o :: tbl_elems (tbl_remove hash t k).
Proof.
  intros Hok Hf. destruct (elems_split t k Hok) as (b & a & -> & Hins).
  unfold tbl_fetch in Hf. apply fmap_Some in Hf as ([i e'] & Hf & ->).
  pose proof (chain_find_Some _ _ _ _ Hf) as [Hi _]. unfold tbl_elems, tbl_remove. rewrite Hf. cbn.
  rewrite Hins. transitivity (b ++ (e' :: delete i (chain_of hash t k)) ++ a).
  - by rewrite <- (delete_Permutation _ _ _ Hi).
  - cbn. by rewrite <- Permutation_middle.
Qed.
End laws.
