(* ===== verification/RAssoc.v ===== *)
(** * The hash table, at the level of its pointers (src/util/libekr/r_assoc.c)

    Elements live in a heap and are linked by [prev]/[next] pointers into one
    doubly linked chain per hash value; every operation is the code's sequence of
    loads and stores, and a load through a null or freed pointer is undefined
    behaviour.  The theorems show that on well-formed tables no operation is
    undefined, that each implements its counterpart of [AssocSpec], and that the
    links are kept well formed. *)

From S2P Require Import Prelude AssocSpec Crc32.
Local Open Scope Z_scope.

Abbreviation loc := positive.

Definition R_ASSOC_REPLACE : Z := 1.
Definition R_ASSOC_NEW : Z := 2.

Section r_assoc.
(** [void *] data and the [copy]/[destroy] function pointers stored with it. *)
Context {D F : Type}.
(** What a stored copy constructor does: a new datum, or a failing status. *)
Context (call_copy : F → D → Z + D).
(** The null data pointer that [calloc] leaves in a fresh element. *)
Context (null_data : D).

Record r_assoc_el := El {
  key : list Z;            (* [key] and [key_len] *)
  data : D;
  prev : option loc;
  next : option loc;
  copy : option F;
  destroy : option F;
}.

Record r_assoc := Assoc {
  size : Z;
  bits : Z;
  hash_func : list Z → Z → option Z;
  chains : list (option loc);
  num_elements : Z;        (* UINT4 *)
}.

(** The store: tables, elements, the next fresh address, the allocator's
    answers, and the destructor calls made so far. *)
Record heap := Heap {
  tabs : gmap loc r_assoc;
  els : gmap loc r_assoc_el;
  brk : loc;
  answers : list bool;
  destroyed : list (F * D);
}.

#[export] Instance heap_alloc : HasAlloc heap := {
  alloc_answers := answers;
  set_alloc_answers l h := Heap (tabs h) (els h) (brk h) l (destroyed h);
}.
#[export] Instance heap_alloc_laws : AllocLaws heap.
Proof. split; [done|done|by intros []]. Qed.

(** ** Memory accesses *)

Definition set_tabs (f : gmap loc r_assoc → gmap loc r_assoc) (h : heap) : heap :=
  Heap (f (tabs h)) (els h) (brk h) (answers h) (destroyed h).
Definition set_els (f : gmap loc r_assoc_el → gmap loc r_assoc_el) (h : heap) : heap :=
  Heap (tabs h) (f (els h)) (brk h) (answers h) (destroyed h).

Definition load_tab (a : loc) : M heap r_assoc :=
  h ← get; from_option_ub (tabs h !! a).
Definition store_tab (a : loc) (t : r_assoc) : M heap unit := modify (set_tabs <[a := t]>).
Definition load_el (l : loc) : M heap r_assoc_el :=
  h ← get; from_option_ub (els h !! l).
Definition upd_el (f : r_assoc_el → r_assoc_el) (l : loc) : M heap unit :=
  _ ← load_el l; modify (set_els (alter f l)).
Definition free_el (l : loc) : M heap unit := _ ← load_el l; modify (set_els (delete l)).

Definition set_next (n : option loc) (e : r_assoc_el) : r_assoc_el :=
  El (key e) (data e) (prev e) n (copy e) (destroy e).
Definition set_prev (p : option loc) (e : r_assoc_el) : r_assoc_el :=
  El (key e) (data e) p (next e) (copy e) (destroy e).
Definition set_key (k : list Z) (e : r_assoc_el) : r_assoc_el :=
  El k (data e) (prev e) (next e) (copy e) (destroy e).
Definition set_content (d : D) (c x : option F) (e : r_assoc_el) : r_assoc_el :=
  El (key e) d (prev e) (next e) c x.

(** [RCALLOC(sizeof(r_assoc_el))]: a zeroed element, or [R_NO_MEMORY]. *)
Definition calloc_el : M heap loc :=
  alloc_or_abort;;
  h ← get;
  let l := brk h in
  modify (λ h, Heap (tabs h) (<[l := El [] null_data None None None None]> (els h))
                    (Pos.succ l) (answers h) (destroyed h));;
  mret l.

(** [chains[i]] *)
Definition load_chain (a : loc) (i : Z) : M heap (option loc) :=
  t ← load_tab a;
  if (i <? 0) then undef else from_option_ub (chains t !! Z.to_nat i).
Definition store_chain (a : loc) (i : Z) (p : option loc) : M heap unit :=
  t ← load_tab a;
  if (i <? 0) || (Z.of_nat (length (chains t)) <=? i) then undef
  else store_tab a (Assoc (size t) (bits t) (hash_func t) (<[Z.to_nat i := p]> (chains t))
                          (num_elements t)).
Definition add_num (a : loc) (n : Z) : M heap unit :=
  t ← load_tab a;
  store_tab a (Assoc (size t) (bits t) (hash_func t) (chains t) (wrap 32 (num_elements t + n))).

(** [if(bucket->destroy) bucket->destroy(bucket->data);] *)
Definition run_destroy (l : loc) : M heap unit :=
  e ← load_el l;
  match destroy e with
  | Some f => modify (λ h, Heap (tabs h) (els h) (brk h) (answers h) (destroyed h ++ [(f, data e)]))
  | None => mret ()
  end.

(** [p->next=v] / [p->prev=v] when [p] is not null. *)
Definition when_ptr (p : option loc) (f : loc → M heap unit) : M heap unit :=
  match p with Some l => f l | None => mret () end.

(** ** Operations *)

(** The loop of [r_assoc_fetch_bucket].  A chain has at most as many elements
    as the heap, so [fuel] one above that never runs out. *)
Fixpoint walk_chain (fuel : nat) (k : list Z) (bucket : option loc) : M heap loc :=
  match bucket with
  | None => abort R_NOT_FOUND
  | Some l =>
      match fuel with
      | O => undef
      | S fuel' =>
          e ← load_el l;
          if bool_decide (key e = k) then mret l else walk_chain fuel' k (next e)
      end
  end.

Definition hash_of (a : loc) (k : list Z) : M heap Z :=
  t ← load_tab a; from_option_ub (hash_func t k (bits t)).

Definition r_assoc_fetch_bucket (a : loc) (k : list Z) : M heap loc :=
  hash_value ← hash_of a k;
  bucket ← load_chain a hash_value;
  h ← get;
  walk_chain (S (base.size (els h))) k bucket.

Definition r_assoc_fetch (a : loc) (k : list Z) : M heap D :=
  bucket ← r_assoc_fetch_bucket a k;
  e ← load_el bucket;
  mret (data e).

(** The first branch of [r_assoc_insert]: a new element for a key that is not in
    the table, at the head of its chain. *)
Definition insert_head (a : loc) (k : list Z) : M heap loc :=
  hash_value ← hash_of a k;
  new_bucket ← calloc_el;
  ok ← alloc_ok;                       (* RMALLOC(len) *)
  if (ok : bool) then
    upd_el (set_key k) new_bucket;;
    head ← load_chain a hash_value;
    when_ptr head (upd_el (set_prev (Some new_bucket)));;
    upd_el (set_next head) new_bucket;;
    store_chain a hash_value (Some new_bucket);;
    mret new_bucket
  else free_el new_bucket;; abort R_NO_MEMORY.

Definition r_assoc_insert (a : loc) (k : list Z) (d : D) (cp ds : option F) (how : Z) : M heap unit :=
  r ← catch (r_assoc_fetch_bucket a k);
  bucket ←
    match r with
    | inl r => if r =? R_NOT_FOUND then insert_head a k else abort r
    | inr bucket =>
        if Z.land how R_ASSOC_REPLACE =? 0 then abort R_ALREADY
        else run_destroy bucket;; mret bucket
    end;
  upd_el (set_content d cp ds) bucket;;
  add_num a 1.

Definition r_assoc_delete (a : loc) (k : list Z) : M heap unit :=
  bucket ← r_assoc_fetch_bucket a k;
  b ← load_el bucket;
  match prev b with
  | Some p => upd_el (set_next (next b)) p
  | None => hash_value ← hash_of a k; store_chain a hash_value (next b)
  end;;
  when_ptr (next b) (upd_el (set_prev (prev b)));;
  run_destroy bucket;;
  free_el bucket;;
  add_num a (-1).

Definition r_assoc_num_elements (a : loc) : M heap Z := t ← load_tab a; mret (num_elements t).

(** *** Destruction *)

(** [destroy_assoc_chain] *)
Fixpoint destroy_assoc_chain (fuel : nat) (chain : option loc) : M heap unit :=
  match chain with
  | None => mret ()
  | Some l =>
      match fuel with
      | O => undef
      | S fuel' =>
          e ← load_el l;
          run_destroy l;;
          free_el l;;
          destroy_assoc_chain fuel' (next e)
      end
  end.

(** The loop of [r_assoc_destroy], [n] chains from [i] on. *)
Fixpoint destroy_chains (a : loc) (n : nat) (i : Z) : M heap unit :=
  match n with
  | O => mret ()
  | S n' =>
      chain ← load_chain a i;
      h ← get;
      destroy_assoc_chain (S (base.size (els h))) chain;;
      destroy_chains a n' (i + 1)
  end.

Definition r_assoc_destroy (a : loc) : M heap unit :=
  t ← load_tab a;
  destroy_chains a (Z.to_nat (size t)) 0;;
  modify (set_tabs (delete a)).

(** *** Creation *)

(** A table just allocated has no chain array: any [chains[i]] is out of range. *)
Definition calloc_tab (t : r_assoc) : M heap loc :=
  alloc_or_abort;;
  h ← get;
  let l := brk h in
  modify (λ h, Heap (<[l := t]> (tabs h)) (els h) (Pos.succ l) (answers h) (destroyed h));;
  mret l.

(** [if(_status) r_assoc_destroy(&assoc);] after a failed allocation. *)
Definition abandon (a : loc) (r : Z) {A} : M heap A := r_assoc_destroy a;; abort r.

(** [1<<bits] is defined below the sign bit only. *)
Definition r_assoc_create (hf : list Z → Z → option Z) (nbits : Z) : M heap loc :=
  if (nbits <? 0) || (31 <=? nbits) then undef
  else
    let sz := Z.shiftl 1 nbits in
    a ← calloc_tab (Assoc sz nbits hf [] 0);
    ok ← alloc_ok;
    if (ok : bool)
    then store_tab a (Assoc sz nbits hf (replicate (Z.to_nat sz) None) 0);; mret a
    else abandon a R_NO_MEMORY.

(** *** Copying *)

(** The body of the loop of [copy_assoc_chain] for one element: [ptr] is the last
    element of the copy so far.  The new element is linked before its datum and
    its key are copied. *)
Definition copy_el (knew ptr : option loc) : M heap (option loc * loc) :=
  tmp ← calloc_el;
  match knew with
  | None => mret ()
  | Some _ =>
      match ptr with
      | Some p => upd_el (set_next (Some tmp)) p;; upd_el (set_prev (Some p)) tmp
      | None => undef
      end
  end;;
  mret (match knew with None => Some tmp | Some _ => knew end, tmp).

Definition fill_el (ptr : loc) (old : r_assoc_el) : M heap unit :=
  upd_el (set_content null_data (copy old) (destroy old)) ptr;;
  match copy old with
  | Some f =>
      match call_copy f (data old) with
      | inl r => abort r
      | inr d => upd_el (set_content d (copy old) (destroy old)) ptr
      end
  | None => upd_el (set_content (data old) (copy old) (destroy old)) ptr
  end;;
  alloc_or_abort;;
  upd_el (set_key (key old)) ptr.

Fixpoint copy_loop (fuel : nat) (knew ptr old : option loc) : M heap (option loc) :=
  match old with
  | None => mret knew
  | Some o =>
      match fuel with
      | O => undef
      | S fuel' =>
          e ← load_el o;
          r ← catch (copy_el knew ptr);
          match r with
          | inl r =>
              (* out of memory: destroy what was copied *)
              h ← get;
              destroy_assoc_chain (S (base.size (els h))) knew;; abort r
          | inr (knew', p) =>
              r ← catch (fill_el p e);
              match r with
              | inl r =>
                  h ← get;
                  destroy_assoc_chain (S (base.size (els h))) knew';; abort r
              | inr _ => copy_loop fuel' knew' (Some p) (next e)
              end
          end
      end
  end.

Definition copy_assoc_chain (old : option loc) : M heap (option loc) :=
  h ← get; copy_loop (S (base.size (els h))) None None old.

(** The loop of [r_assoc_copy], [n] chains from [i] on. *)
Fixpoint copy_chains (knew old : loc) (n : nat) (i : Z) : M heap unit :=
  match n with
  | O => mret ()
  | S n' =>
      chain ← load_chain old i;
      c ← copy_assoc_chain chain;
      store_chain knew i c;;
      copy_chains knew old n' (i + 1)
  end.

Definition r_assoc_copy (old : loc) : M heap loc :=
  t ← load_tab old;
  knew ← calloc_tab (Assoc (size t) (bits t) (hash_func t) [] 0);
  ok ← alloc_ok;
  if (ok : bool) then
    store_tab knew (Assoc (size t) (bits t) (hash_func t) (replicate (Z.to_nat (size t)) None) 0);;
    r ← catch (copy_chains knew old (Z.to_nat (size t)) 0);
    match r with
    | inl r => abandon knew r
    | inr _ =>
        kt ← load_tab knew;
        store_tab knew (Assoc (size kt) (bits kt) (hash_func kt) (chains kt) (num_elements t));;
        mret knew
    end
  else abandon knew R_NO_MEMORY.

(** *** Iteration *)

Record r_assoc_iterator := Iter {
  it_assoc : loc;
  prev_chain : Z;
  it_prev : option loc;
  next_chain : Z;
  it_next : option loc;
}.

(** [for(i=...;i<size;i++) if(chains[i]!=0) {...; break;}], [n] chains left. *)
Fixpoint occupied_chain (a : loc) (n : nat) (i : Z) : M heap (option (Z * loc)) :=
  match n with
  | O => mret None
  | S n' =>
      hd ← load_chain a i;
      match hd with
      | Some l => mret (Some (i, l))
      | None => occupied_chain a n' (i + 1)
      end
  end.

Definition r_assoc_init_iter (a : loc) : M heap r_assoc_iterator :=
  t ← load_tab a;
  r ← occupied_chain a (Z.to_nat (size t)) 0;
  match r with
  | Some (i, l) => mret (Iter a (-1) None i (Some l))
  | None => mret (Iter a (-1) None (size t) None)
  end.

Definition r_assoc_iter (it : r_assoc_iterator) : M heap (list Z * D * r_assoc_iterator) :=
  match it_next it with
  | None => abort R_EOD
  | Some ret =>
      e ← load_el ret;
      match next e with
      | Some n =>
          mret (key e, data e, Iter (it_assoc it) (next_chain it) (Some ret) (next_chain it) (Some n))
      | None =>
          t ← load_tab (it_assoc it);
          r ← occupied_chain (it_assoc it) (Z.to_nat (size t - (next_chain it + 1))) (next_chain it + 1);
          match r with
          | Some (i, l) => mret (key e, data e, Iter (it_assoc it) (next_chain it) (Some ret) i (Some l))
          | None => mret (key e, data e, Iter (it_assoc it) (next_chain it) (Some ret) (next_chain it) None)
          end
      end
  end.

(** Delete the last returned value. *)
Definition r_assoc_iter_delete (it : r_assoc_iterator) : M heap unit :=
  p ← from_option_ub (it_prev it);
  e ← load_el p;
  match prev e with
  | None => store_chain (it_assoc it) (prev_chain it) (next e)
  | Some pp => upd_el (set_next (next e)) pp
  end;;
  when_ptr (next e) (upd_el (set_prev (prev e)));;
  run_destroy p;;
  add_num (it_assoc it) (-1);;
  free_el p.
End r_assoc.
Arguments r_assoc_el : clear implicits.
Arguments heap : clear implicits.

(** ** Representation *)

Section repr.
Context {D F : Type}.
Context (call_copy : F → D → Z + D) (null_data : D).
Implicit Types (h : heap D F) (m : gmap loc (r_assoc_el D F)) (e : entry D F).

(** A chain: the addresses of its elements with the entries they hold. *)
Abbreviation chain := (list (loc * entry D F)).
Implicit Types (c : chain) (cs : list chain) (t : r_assoc).

Definition ptr_at (c : chain) (j : nat) : option loc := fst <$> c !! j.
Definition prev_at (c : chain) (j : nat) : option loc :=
  match j with O => None | S i => ptr_at c i end.

Definition el_of (e : entry D F) (p n : option loc) : r_assoc_el D F :=
  El (e_key e) (e_data e) p n (e_copy e) (e_destroy e).

(** The heap holds the doubly linked list [c] starting at [hd]. *)
Definition chain_ok (m : gmap loc (r_assoc_el D F)) (hd : option loc) (c : chain) : Prop :=
  hd = ptr_at c 0 ∧
  ∀ j l e, c !! j = Some (l, e) → m !! l = Some (el_of e (prev_at c j) (ptr_at c (S j))).

Record tab_rep (h : heap D F) (t : r_assoc) (cs : list chain) (hash : list Z → nat) : Prop := {
  rep_len : length (chains t) = length cs;
  rep_size : size t = Z.of_nat (length cs);
  rep_chain i hd c : chains t !! i = Some hd → cs !! i = Some c → chain_ok (els h) hd c;
  rep_nodup : NoDup (concat cs).*1;
  rep_hash k : hash_func t k (bits t) = Some (Z.of_nat (hash k));
}.

Definition entries (c : chain) : list (entry D F) := c.*2.
Definition abs (cs : list chain) (n : Z) : tbl D F := Tbl (entries <$> cs) n.

(** [a] points to a well-formed table that stands for [T]. *)
Definition tab_spec (hash : list Z → nat) (h : heap D F) (a : loc) (T : tbl D F) : Prop :=
  ∃ t cs, tabs h !! a = Some t ∧ tab_rep h t cs hash ∧ T = abs cs (num_elements t) ∧
    tbl_ok hash T.

(** Addresses not yet handed out are unused. *)
Definition heap_ok (h : heap D F) : Prop :=
  ∀ l, (brk h <= l)%positive → els h !! l = None ∧ tabs h !! l = None.

(** *** Chains *)

Lemma chain_ok_frame m m' hd c :
  chain_ok m hd c → (∀ l, l ∈ c.*1 → m' !! l = m !! l) → chain_ok m' hd c.
Proof.
  intros [Hhd Hel] Hsame. split; [done|]. intros j l e Hj. rewrite Hsame; [by apply Hel|].
  apply list_elem_of_fmap. exists (l, e). split; [done|]. by eapply list_elem_of_lookup_2.
Qed.

Lemma ptr_at_lookup c j l : ptr_at c j = Some l ↔ ∃ e, c !! j = Some (l, e).
Proof.
  unfold ptr_at. rewrite fmap_Some. split.
  - intros ([l' e] & Hj & ->). eauto.
  - intros [e Hj]. by exists (l, e).
Qed.

Lemma chain_loc_unique c j j' l e e' :
  NoDup c.*1 → c !! j = Some (l, e) → c !! j' = Some (l, e') → j = j' ∧ e = e'.
Proof.
  intros Hnd Hj Hj'. assert (j = j') as <-.
  { apply (NoDup_lookup c.*1 _ _ l); [done|..]; by rewrite list_lookup_fmap, ?Hj, ?Hj'. }
  split; congruence.
Qed.

Lemma chain_loc_ne c j j' l l' e e' :
  NoDup c.*1 → c !! j = Some (l, e) → c !! j' = Some (l', e') → j ≠ j' → l ≠ l'.
Proof. intros Hnd Hj Hj' Hne ->. by destruct (chain_loc_unique c j j' l' e e'). Qed.

(** Linking a new element in front. *)
Definition link_prev (hd : option loc) (nb : loc) (m : gmap loc (r_assoc_el D F)) :
    gmap loc (r_assoc_el D F) :=
  match hd with Some o => alter (set_prev (Some nb)) o m | None => m end.

Lemma chain_ok_cons m hd c nb e :
  chain_ok m hd c → NoDup c.*1 → nb ∉ c.*1 →
  chain_ok (<[nb := el_of e None hd]> (link_prev hd nb m)) (Some nb) ((nb, e) :: c).
Proof.
  unfold link_prev. intros [Hhd Hel] Hnd Hnb. split; [done|]. intros [|j] l e' Hj.
  - injection Hj as <- <-. rewrite lookup_insert_eq. by rewrite Hhd.
  - change (c !! j = Some (l, e')) in Hj. assert (l ∈ c.*1) as Hl.
    { apply list_elem_of_fmap. exists (l, e'). split; [done|]. by eapply list_elem_of_lookup_2. }
    rewrite lookup_insert_ne by (intros ->; done).
    destruct hd as [o|].
    + symmetry in Hhd. apply ptr_at_lookup in Hhd as [eo Ho].
      destruct (decide (j = 0)%nat) as [->|Hj0].
      * rewrite Ho in Hj. injection Hj as <- <-. rewrite lookup_alter_eq.
        by rewrite (Hel 0%nat o eo Ho).
      * rewrite lookup_alter_ne by (by apply (chain_loc_ne c 0%nat j _ _ eo e')).
        rewrite (Hel j l e' Hj). destruct j; [done|]. done.
    + destruct c; [done|]. done.
Qed.

(** Changing the content of an element. *)
Lemma chain_ok_update m hd c j l e e' :
  chain_ok m hd c → NoDup c.*1 → c !! j = Some (l, e) → e_key e' = e_key e →
  chain_ok (alter (set_content (e_data e') (e_copy e') (e_destroy e')) l m) hd (<[j := (l, e')]> c).
Proof.
  intros [Hhd Hel] Hnd Hj Hk.
  assert (Hptr : ∀ i, ptr_at (<[j := (l, e')]> c) i = ptr_at c i).
  { intros i. unfold ptr_at. destruct (decide (i = j)) as [->|Hi].
    - rewrite list_lookup_insert_eq by (by eapply lookup_lt_Some). by rewrite Hj.
    - by rewrite list_lookup_insert_ne. }
  split; [by rewrite Hptr|]. intros i l0 e0 Hi.
  assert (Hprev : prev_at (<[j := (l, e')]> c) i = prev_at c i) by (destruct i; [done|apply Hptr]).
  rewrite Hptr, Hprev. apply list_lookup_insert_Some in Hi as [(<- & [= <- <-] & _)|[Hne Hi]].
  - rewrite lookup_alter_eq, (Hel j l e Hj). cbn. unfold set_content, el_of. cbn. by rewrite Hk.
  - rewrite lookup_alter_ne; [by apply Hel|]. by apply (chain_loc_ne c j i _ _ e e0).
Qed.

(** Unlinking an element: the stores of [r_assoc_delete] and
    [r_assoc_iter_delete]. *)
Definition unhook (m : gmap loc (r_assoc_el D F)) (p n : option loc) : gmap loc (r_assoc_el D F) :=
  let m1 := match p with Some q => alter (set_next n) q m | None => m end in
  match n with Some q => alter (set_prev p) q m1 | None => m1 end.
Definition unlink (m : gmap loc (r_assoc_el D F)) (p n : option loc) (l : loc) :
    gmap loc (r_assoc_el D F) := delete l (unhook m p n).

Lemma ptr_at_delete c j i :
  ptr_at (delete j c) i = if decide (i < j)%nat then ptr_at c i else ptr_at c (S i).
Proof.
  unfold ptr_at. case_decide.
  - by rewrite list_lookup_delete_lt.
  - by rewrite list_lookup_delete_ge by lia.
Qed.

Lemma ptr_at_iff c i k l e : NoDup c.*1 → c !! i = Some (l, e) → ptr_at c k = Some l ↔ k = i.
Proof.
  intros Hnd Hi. rewrite ptr_at_lookup. split; [|intros ->; eauto].
  intros [e' Hk]. by destruct (chain_loc_unique c k i l e' e).
Qed.

Lemma prev_at_iff c i k l e : NoDup c.*1 → c !! i = Some (l, e) → prev_at c k = Some l ↔ k = S i.
Proof.
  intros Hnd Hi. destruct k as [|k]; cbn; [by split|].
  rewrite (ptr_at_iff c i k l e) by done. lia.
Qed.

Lemma unlink_lookup m p n l l0 :
  l0 ≠ l →
  unlink m p n l !! l0 =
    (λ x, let x1 := if decide (p = Some l0) then set_next n x else x in
          if decide (n = Some l0) then set_prev p x1 else x1) <$> m !! l0.
Proof.
  intros Hne. unfold unlink, unhook. rewrite lookup_delete_ne by congruence.
  assert (Halter : ∀ q f (m' : gmap loc (r_assoc_el D F)),
    alter f q m' !! l0 = (if decide (Some q = Some l0) then f else id) <$> m' !! l0).
  { intros q f m'. rewrite lookup_alter. repeat case_decide; simplify_eq; try done.
    by rewrite option_fmap_id. }
  destruct n as [q|], p as [q'|]; rewrite ?Halter; destruct (m !! l0); cbn;
    repeat case_decide; done.
Qed.

Lemma unhook_ne m p n l : n ≠ Some l → p ≠ Some l → unhook m p n !! l = m !! l.
Proof.
  intros Hn Hp. unfold unhook.
  destruct n as [q|]; [rewrite lookup_alter_ne by congruence|];
    (destruct p as [q'|]; [by rewrite lookup_alter_ne by congruence|done]).
Qed.

Lemma chain_ok_delete m hd c j l e :
  chain_ok m hd c → NoDup c.*1 → c !! j = Some (l, e) →
  chain_ok (unlink m (prev_at c j) (ptr_at c (S j)) l)
           (match prev_at c j with Some _ => hd | None => ptr_at c (S j) end) (delete j c).
Proof.
  intros [Hhd Hel] Hnd Hj. pose proof (lookup_lt_Some _ _ _ Hj) as Hlt. split.
  - rewrite ptr_at_delete. destruct j as [|j]; [done|].
    destruct (lookup_lt_is_Some_2 c j ltac:(lia)) as [[l' e'] Hj'].
    cbn. unfold ptr_at at 1. rewrite Hj'. cbn. by rewrite decide_True by lia.
  - intros i l0 e0 Hi.
    set (k := if decide (i < j)%nat then i else S i).
    assert (Hk : c !! k = Some (l0, e0)).
    { rewrite list_lookup_delete in Hi. unfold k. by case_decide. }
    assert (Hkj : k ≠ j) by (unfold k; case_decide; lia).
    rewrite unlink_lookup by (eapply (chain_loc_ne c k j); done).
    rewrite (Hel _ _ _ Hk). cbn.
    rewrite (decide_ext (prev_at c j = Some l0) (j = S k)) by (by apply (prev_at_iff c k j l0 e0)).
    rewrite (decide_ext (ptr_at c (S j) = Some l0) (S j = k)) by (by apply (ptr_at_iff c k (S j) l0 e0)).
    f_equal. unfold set_next, set_prev, el_of. cbn.
    assert (Hprev : prev_at (delete j c) i = if decide (S j = k) then prev_at c j else prev_at c k).
    { unfold k. destruct i as [|i]; cbn.
      - destruct j as [|j]; [done|]. rewrite (decide_True (P:=(0 < S j)%nat)) by lia.
        by rewrite decide_False by lia.
      - rewrite ptr_at_delete. destruct (decide (S i < j)%nat).
        + by rewrite decide_True, decide_False by lia.
        + case_decide.
          * destruct j; [lia|]. rewrite decide_True by lia. cbn. f_equal. lia.
          * by rewrite decide_False by lia. }
    assert (Hnext : ptr_at (delete j c) (S i) = if decide (j = S k) then ptr_at c (S j) else ptr_at c (S k)).
    { rewrite ptr_at_delete. unfold k. repeat case_decide; try lia; done || (f_equal; lia). }
    rewrite Hprev, Hnext. repeat case_decide; done.
Qed.
End repr.

(** ** Memory accesses, as proof rules *)

Section access.
Context {D F : Type}.
Implicit Types (h : heap D F) (e : r_assoc_el D F).

Lemma wp_load_el l h e Q E : els h !! l = Some e → Q e h → wp (load_el l) h Q E.
Proof. intros He HQ. unfold load_el. wp_steps. by rewrite He. Qed.

Lemma wp_load_tab a h t Q E : tabs h !! a = Some t → Q t h → wp (load_tab a) h Q E.
Proof. intros Ht HQ. unfold load_tab. wp_steps. by rewrite Ht. Qed.

Lemma wp_upd_el f l h Q E :
  is_Some (els h !! l) → Q () (set_els (alter f l) h) → wp (upd_el f l) h Q E.
Proof. intros [e He] HQ. unfold upd_el. wp_steps. eapply wp_load_el; [done|]. by wp_steps. Qed.

Lemma wp_free_el l h Q E :
  is_Some (els h !! l) → Q () (set_els (delete l) h) → wp (free_el l) h Q E.
Proof. intros [e He] HQ. unfold free_el. wp_steps. eapply wp_load_el; [done|]. by wp_steps. Qed.

Lemma wp_when_ptr p f h Q E :
  match p with Some q => wp (f q) h Q E | None => Q () h end → wp (when_ptr p f) h Q E.
Proof. by destruct p. Qed.

Lemma wp_load_chain a (i : nat) h t hd Q E :
  tabs h !! a = Some t → chains t !! i = Some hd → Q hd h → wp (load_chain a (Z.of_nat i)) h Q E.
Proof.
  intros Ht Hhd HQ. unfold load_chain. wp_steps. eapply wp_load_tab; [done|].
  destruct (Z.ltb_spec (Z.of_nat i) 0); [lia|]. by rewrite Nat2Z.id, Hhd.
Qed.

Definition with_chain (t : r_assoc) (i : nat) (p : option loc) : r_assoc :=
  Assoc (size t) (bits t) (hash_func t) (<[i := p]> (chains t)) (num_elements t).
Definition with_num (t : r_assoc) (n : Z) : r_assoc :=
  Assoc (size t) (bits t) (hash_func t) (chains t) n.

Lemma wp_store_chain a (i : nat) p h t Q E :
  tabs h !! a = Some t → (i < length (chains t))%nat →
  Q () (set_tabs <[a := with_chain t i p]> h) → wp (store_chain a (Z.of_nat i) p) h Q E.
Proof.
  intros Ht Hi HQ. unfold store_chain. wp_steps. eapply wp_load_tab; [done|].
  destruct (Z.ltb_spec (Z.of_nat i) 0); [lia|].
  destruct (Z.leb_spec (Z.of_nat (length (chains t))) (Z.of_nat i)); [lia|]. cbn [orb].
  unfold store_tab. wp_steps. by rewrite Nat2Z.id.
Qed.

Lemma wp_add_num a n h t Q E :
  tabs h !! a = Some t →
  Q () (set_tabs <[a := with_num t (wrap 32 (num_elements t + n))]> h) → wp (add_num a n) h Q E.
Proof.
  intros Ht HQ. unfold add_num. wp_steps. eapply wp_load_tab; [done|].
  unfold store_tab. by wp_steps.
Qed.

Lemma wp_hash_of a k h t (v : Z) Q E :
  tabs h !! a = Some t → hash_func t k (bits t) = Some v → Q v h → wp (hash_of a k) h Q E.
Proof.
  intros Ht Hv HQ. unfold hash_of. wp_steps. eapply wp_load_tab; [done|]. by rewrite Hv.
Qed.

Definition log_destroy (f : option F) (d : D) : list (F * D) :=
  match f with Some f => [(f, d)] | None => [] end.
Definition add_destroyed (l : list (F * D)) (h : heap D F) : heap D F :=
  Heap (tabs h) (els h) (brk h) (answers h) (destroyed h ++ l).

Lemma wp_run_destroy l h e Q E :
  els h !! l = Some e → Q () (add_destroyed (log_destroy (destroy e) (data e)) h) →
  wp (run_destroy l) h Q E.
Proof.
  intros He HQ. unfold run_destroy. wp_steps. eapply wp_load_el; [done|].
  unfold log_destroy in HQ. destruct (destroy e); wp_steps; [done|].
  unfold add_destroyed in HQ. destruct h. cbn in *. by rewrite app_nil_r in HQ.
Qed.
End access.

(** ** The operations implement the specification *)

Section refinement.
Context {D F : Type} (call_copy : F → D → Z + D) (null_data : D).
Context (hash : list Z → nat).
Implicit Types (h : heap D F) (c : list (loc * entry D F)) (t : r_assoc) (T : tbl D F).
Implicit Types (m : gmap loc (r_assoc_el D F)) (l : loc).

Lemma chain_in_heap m hd c : chain_ok m hd c → NoDup c.*1 → (length c <= base.size m)%nat.
Proof.
  intros [_ Hel] Hnd. rewrite <- (length_fmap fst), <- size_dom.
  rewrite <- (size_list_to_set (C:=gset loc)) by done. apply subseteq_size.
  intros l Hl%elem_of_list_to_set. apply list_elem_of_fmap in Hl as ([l' e] & -> & He).
  apply list_elem_of_lookup in He as [j Hj]. apply elem_of_dom. cbn. rewrite (Hel j _ _ Hj). eauto.
Qed.

Lemma walk_chain_spec fuel k h hd c i :
  chain_ok (els h) hd c → (i <= length c)%nat → (length c - i < fuel)%nat →
  walk_chain fuel k (ptr_at c i) h =
    match chain_find k (entries (drop i c)) with
    | Some (j, _) => match c !! (i + j)%nat with Some (l, _) => Ok l h | None => UB end
    | None => Err R_NOT_FOUND h
    end.
Proof.
  intros Hc. revert i. induction fuel as [|fuel IH]; intros i Hi Hf; [lia|].
  unfold ptr_at. destruct (c !! i) as [[l e]|] eqn:Hci.
  - rewrite (drop_S _ (l, e) i) by done. cbn [fmap option_fmap option_map fst walk_chain].
    change (entries ((l, e) :: drop (S i) c)) with (e :: entries (drop (S i) c)).
    rewrite chain_find_cons. unfold mbind, M_bind at 1, load_el, mbind, M_bind, get.
    destruct Hc as [Hhd Hel]. rewrite (Hel _ _ _ Hci). cbn [from_option_ub mret M_ret].
    cbn [key el_of]. case_decide as Hk.
    + rewrite bool_decide_true by done. by rewrite Nat.add_0_r, Hci.
    + rewrite bool_decide_false by done. cbn [next el_of].
      apply lookup_lt_Some in Hci. rewrite IH by lia.
      destruct (chain_find k (entries (drop (S i) c))) as [[j e']|]; [|done].
      cbn. by replace (i + S j)%nat with (S (i + j)) by lia.
  - apply lookup_ge_None in Hci. rewrite drop_ge by done. done.
Qed.

Lemma chain_nodup cs i c : NoDup (concat cs).*1 → cs !! i = Some c → NoDup c.*1.
Proof.
  intros Hnd (l1 & l2 & ->)%list_elem_of_lookup_2%list_elem_of_split.
  rewrite concat_app in Hnd. cbn in Hnd. rewrite !fmap_app in Hnd.
  apply NoDup_app in Hnd as (_ & _ & Hnd). by apply NoDup_app in Hnd as (? & _).
Qed.

(** What a table in the heap gives about the chain of a key. *)
Lemma tab_rep_key h t cs n k :
  tab_rep h t cs hash → tbl_ok hash (abs cs n) →
  ∃ hd c, chains t !! hash k = Some hd ∧ cs !! hash k = Some c ∧
    chain_ok (els h) hd c ∧ NoDup c.*1 ∧ chain_of hash (abs cs n) k = entries c.
Proof.
  intros Hrep Hok. assert (Hlt : (hash k < length cs)%nat).
  { pose proof (tbl_hash hash _ Hok k) as H. unfold abs in H. cbn in H. by rewrite length_fmap in H. }
  destruct (lookup_lt_is_Some_2 cs (hash k) Hlt) as [c Hc].
  destruct (lookup_lt_is_Some_2 (chains t) (hash k)) as [hd Hhd].
  { by rewrite (rep_len _ _ _ _ Hrep). }
  exists hd, c. split_and!; try done.
  - by eapply rep_chain.
  - eapply chain_nodup; [apply Hrep|done].
  - unfold chain_of, abs. cbn. by rewrite list_lookup_fmap, Hc.
Qed.

Lemma tab_spec_chain h a T k :
  tab_spec hash h a T →
  ∃ t cs hd c, tabs h !! a = Some t ∧ tab_rep h t cs hash ∧ T = abs cs (num_elements t) ∧
    tbl_ok hash T ∧ chains t !! hash k = Some hd ∧ cs !! hash k = Some c ∧
    chain_ok (els h) hd c ∧ NoDup c.*1 ∧ chain_of hash T k = entries c.
Proof.
  intros (t & cs & Ht & Hrep & -> & Hok).
  destruct (tab_rep_key h t cs (num_elements t) k Hrep Hok) as (hd & c & ?).
  by exists t, cs, hd, c.
Qed.

(** [r_assoc_fetch_bucket] finds the element of the key, at its position. *)
Lemma wp_fetch_bucket_pos h a t cs hd c k (Q : loc → heap D F → Prop) (E : Z → heap D F → Prop) :
  tabs h !! a = Some t → tab_rep h t cs hash → chains t !! hash k = Some hd →
  chain_ok (els h) hd c → NoDup c.*1 →
  match chain_find k (entries c) with
  | Some (j, e) => ∀ l, c !! j = Some (l, e) → Q l h
  | None => E R_NOT_FOUND h
  end →
  wp (r_assoc_fetch_bucket a k) h Q E.
Proof.
  intros Ht Hrep Hhd Hc Hnd HQ.
  unfold r_assoc_fetch_bucket. wp_steps. eapply wp_hash_of; [done|by eapply rep_hash|].
  wp_steps. eapply wp_load_chain; [done..|]. wp_steps.
  pose proof (chain_in_heap _ _ _ Hc Hnd) as Hlen. destruct Hc as [-> Hel].
  unfold wp. rewrite (walk_chain_spec _ _ _ (ptr_at c 0)) by (done || lia).
  rewrite drop_0. destruct (chain_find k (entries c)) as [[j e]|] eqn:Hf; [|done].
  apply chain_find_Some in Hf as [Hj _]. unfold entries in Hj.
  rewrite list_lookup_fmap in Hj. cbn. destruct (c !! j) as [[l e']|] eqn:Hcj; [|done].
  cbn in Hj. injection Hj as ->. by apply HQ.
Qed.

(** *** Addresses of a table *)

Lemma elem_of_concat (cs : list (list (loc * entry D F))) x :
  x ∈ concat cs ↔ ∃ i c, cs !! i = Some c ∧ x ∈ c.
Proof.
  rewrite list_elem_of_In, in_concat. split.
  - intros (c & Hc%list_elem_of_In & Hx%list_elem_of_In).
    apply list_elem_of_lookup in Hc as [i Hi]. by exists i, c.
  - intros (i & c & Hi & Hx). exists c. rewrite <- !list_elem_of_In.
    split; [by eapply list_elem_of_lookup_2|done].
Qed.

Lemma elem_of_locs (cs : list (list (loc * entry D F))) l :
  l ∈ (concat cs).*1 ↔ ∃ i c, cs !! i = Some c ∧ l ∈ c.*1.
Proof.
  rewrite list_elem_of_fmap. split.
  - intros (x & -> & (i & c & Hi & Hx)%elem_of_concat). exists i, c. split; [done|].
    by apply list_elem_of_fmap_2.
  - intros (i & c & Hi & (x & -> & Hx)%list_elem_of_fmap). exists x. split; [done|].
    apply elem_of_concat. eauto.
Qed.

Lemma tab_rep_dom h t cs l : tab_rep h t cs hash → l ∈ (concat cs).*1 → is_Some (els h !! l).
Proof.
  intros Hrep (i & c & Hi & Hl)%elem_of_locs.
  destruct (lookup_lt_is_Some_2 (chains t) i) as [hd Hhd].
  { rewrite (rep_len _ _ _ _ Hrep). by eapply lookup_lt_Some. }
  destruct (rep_chain _ _ _ _ Hrep _ _ _ Hhd Hi) as [_ Hel].
  apply list_elem_of_fmap in Hl as ([l' e] & -> & [j Hj]%list_elem_of_lookup).
  cbn. rewrite (Hel _ _ _ Hj). eauto.
Qed.

(** Two chains of a table share no element. *)
Lemma chains_disjoint cs i j c c' l :
  NoDup (concat cs).*1 → cs !! i = Some c → cs !! j = Some c' → l ∈ c.*1 → l ∈ c'.*1 → i = j.
Proof.
  revert i j. induction cs as [|c0 cs IH]; intros i j Hnd Hi Hj Hl Hl'; [done|].
  cbn in Hnd. rewrite fmap_app in Hnd. apply NoDup_app in Hnd as (_ & Hdis & Hnd).
  destruct i as [|i], j as [|j]; cbn in Hi, Hj; simplify_eq; [done|..].
  - exfalso. apply (Hdis l Hl). apply elem_of_locs. eauto.
  - exfalso. apply (Hdis l Hl'). apply elem_of_locs. eauto.
  - f_equal. by apply IH.
Qed.

Lemma concat_insert_nodup cs i c c' :
  NoDup (concat cs).*1 → cs !! i = Some c → NoDup c'.*1 →
  (∀ l, l ∈ c'.*1 → l ∈ c.*1 ∨ l ∉ (concat cs).*1) →
  NoDup (concat (<[i := c']> cs)).*1.
Proof.
  intros Hnd Hi Hnd' Hnew. revert i Hi Hnd Hnew.
  induction cs as [|c0 cs IH]; intros i Hi Hnd Hnew; [done|].
  cbn in Hnd, Hnew. rewrite fmap_app in Hnd, Hnew. apply NoDup_app in Hnd as (Hnd0 & Hdis & Hnd).
  destruct i as [|i]; cbn in Hi; simplify_eq; cbn; rewrite fmap_app; apply NoDup_app.
  - split_and!; [done| |done]. intros l Hl Hl'. destruct (Hnew l Hl) as [Hl0|Hl0].
    + by apply (Hdis l).
    + apply Hl0, elem_of_app. by right.
  - split_and!; [done| |].
    + intros l Hl (j & cj & Hj & Hlj)%elem_of_locs.
      apply list_lookup_insert_Some in Hj as [(<- & <- & _)|[_ Hj]].
      * destruct (Hnew l Hlj) as [Hlc|Hlc].
        -- apply (Hdis l Hl), elem_of_locs. eauto.
        -- apply Hlc, elem_of_app. by left.
      * apply (Hdis l Hl), elem_of_locs. eauto.
    + apply IH; [done|done|]. intros l Hl. destruct (Hnew l Hl) as [?|Hlc]; [by left|right].
      intros Hin. apply Hlc, elem_of_app. by right.
Qed.

(** Replacing the chain of one index. *)
Lemma tab_rep_chain h h' t cs i c c' hd' n :
  tab_rep h t cs hash → cs !! i = Some c →
  chain_ok (els h') hd' c' → NoDup c'.*1 →
  (∀ l, l ∈ c'.*1 → l ∈ c.*1 ∨ els h !! l = None) →
  (∀ l, l ∉ c.*1 → l ∉ c'.*1 → els h' !! l = els h !! l) →
  tab_rep h' (with_num (with_chain t i hd') n) (<[i := c']> cs) hash.
Proof.
  intros Hrep Hi Hc' Hnd' Hnew Hsame.
  pose proof (rep_len _ _ _ _ Hrep) as Hlen. pose proof (rep_nodup _ _ _ _ Hrep) as Hnd.
  pose proof (lookup_lt_Some _ _ _ Hi) as Hlt.
  assert (Hnew' : ∀ l, l ∈ c'.*1 → l ∈ c.*1 ∨ l ∉ (concat cs).*1).
  { intros l Hl. destruct (Hnew l Hl) as [?|Hnone]; [by left|right]. intros Hin.
    destruct (tab_rep_dom _ _ _ _ Hrep Hin). congruence. }
  split; cbn.
  - by rewrite !length_insert.
  - by rewrite length_insert, (rep_size _ _ _ _ Hrep).
  - intros j hd0 c0 Hhd0 Hj. destruct (decide (i = j)) as [<-|Hne].
    + rewrite list_lookup_insert_eq in Hhd0 by lia. rewrite list_lookup_insert_eq in Hj by done.
      by simplify_eq.
    + rewrite list_lookup_insert_ne in Hhd0 by done. rewrite list_lookup_insert_ne in Hj by done.
      eapply chain_ok_frame; [by eapply rep_chain|]. intros l Hl.
      assert (Hlc : l ∉ c.*1) by (intros Hlc; by eapply Hne, chains_disjoint).
      apply Hsame; [done|]. intros [?|Hout]%Hnew'; [done|]. apply Hout, elem_of_locs. eauto.
  - by eapply concat_insert_nodup.
  - apply (rep_hash _ _ _ _ Hrep).
Qed.

(** The same, without the position. *)
Lemma wp_fetch_bucket h a T k (Q : loc → heap D F → Prop) (E : Z → heap D F → Prop) :
  tab_spec hash h a T →
  match tbl_fetch hash T k with
  | Some e => ∀ l, (∃ p n, els h !! l = Some (el_of e p n)) → Q l h
  | None => E R_NOT_FOUND h
  end →
  wp (r_assoc_fetch_bucket a k) h Q E.
Proof.
  intros Hspec HQ.
  destruct (tab_spec_chain h a T k Hspec) as
    (t & cs & hd & c & Ht & Hrep & -> & Hok & Hhd & Hcs & Hc & Hnd & Hch).
  eapply wp_fetch_bucket_pos; [done..|].
  unfold tbl_fetch in HQ. rewrite Hch in HQ.
  destruct (chain_find k (entries c)) as [[j e]|]; [|done].
  intros l Hj. apply HQ. destruct Hc as [_ Hel]. eauto.
Qed.

Lemma wp_calloc_el h (Q : loc → heap D F → Prop) (E : Z → heap D F → Prop) :
  (next_answer (answers h) = true →
   Q (brk h) (Heap (tabs h) (<[brk h := El [] null_data None None None None]> (els h))
                   (Pos.succ (brk h)) (tail (answers h)) (destroyed h))) →
  (next_answer (answers h) = false → E R_NO_MEMORY (set_alloc_answers (tail (answers h)) h)) →
  wp (calloc_el null_data) h Q E.
Proof.
  intros Ht Hf. unfold calloc_el, alloc_or_abort. wp_steps.
  unfold wp, alloc_ok. cbn. destruct (next_answer (answers h)); [by apply Ht|by apply Hf].
Qed.

Lemma wp_alloc_ok h (Q : bool → heap D F → Prop) (E : Z → heap D F → Prop) :
  Q (next_answer (answers h)) (set_alloc_answers (tail (answers h)) h) → wp alloc_ok h Q E.
Proof. done. Qed.

Lemma next_answer_plenty h : mem_plenty h → next_answer (answers h) = true.
Proof. unfold mem_plenty. cbn. by intros ->. Qed.

(** The stores of [r_assoc_insert] into a fresh element, put together. *)
Lemma insert_stores m nb hd k (d : D) (cp ds : option F) :
  (∀ o, hd = Some o → o ≠ nb) →
  alter (set_content d cp ds) nb
    (alter (set_next hd) nb
      (link_prev hd nb
        (alter (set_key k) nb (<[nb := El [] null_data None None None None]> m)))) =
  <[nb := el_of (Entry k d cp ds) None hd]> (link_prev hd nb m : gmap loc (r_assoc_el D F)).
Proof.
  intros Hne. apply map_eq. intros l. destruct (decide (l = nb)) as [->|Hl].
  - rewrite !lookup_alter_eq. destruct hd as [o|]; cbn.
    + rewrite lookup_alter_ne by (by apply Hne).
      by rewrite lookup_alter_eq, !lookup_insert_eq.
    + by rewrite lookup_alter_eq, !lookup_insert_eq.
  - rewrite !lookup_alter_ne, lookup_insert_ne by done. destruct hd as [o|]; cbn.
    + destruct (decide (o = l)) as [->|Ho].
      * rewrite !lookup_alter_eq, lookup_alter_ne, lookup_insert_ne by done. done.
      * by rewrite !lookup_alter_ne, lookup_insert_ne by done.
    + by rewrite lookup_alter_ne, lookup_insert_ne by done.
Qed.

Lemma tab_spec_answers h a T bs : tab_spec hash h a T → tab_spec hash (set_alloc_answers bs h) a T.
Proof. intros (t & cs & Ht & [] & HT). by exists t, cs. Qed.

Lemma is_Some_alter m (f : r_assoc_el D F → r_assoc_el D F) l l' :
  is_Some (m !! l) → is_Some (alter f l' m !! l).
Proof. intros [x Hx]. rewrite lookup_alter. case_decide; subst; rewrite ?Hx; eauto. Qed.

Lemma is_Some_link_prev m hd nb l : is_Some (m !! l) → is_Some (link_prev hd nb m !! l).
Proof. destruct hd; cbn; [apply is_Some_alter|done]. Qed.

Lemma wp_link_prev hd nb h (Q : unit → heap D F → Prop) (E : Z → heap D F → Prop) :
  (∀ o, hd = Some o → is_Some (els h !! o)) → Q () (set_els (link_prev hd nb) h) →
  wp (when_ptr hd (upd_el (set_prev (Some nb)))) h Q E.
Proof.
  intros Ho HQ. destruct hd as [o|]; cbn.
  - apply wp_upd_el; [by apply Ho|done].
  - wp_steps. by destruct h.
Qed.

(** The head of a chain is one of its elements. *)
Lemma chain_head_in m hd c o : chain_ok m hd c → hd = Some o → is_Some (m !! o) ∧ o ∈ c.*1.
Proof.
  intros [-> Hel] [e He]%ptr_at_lookup. rewrite (Hel _ _ _ He). split; [eauto|].
  apply list_elem_of_fmap. exists (o, e). split; [done|]. by eapply list_elem_of_lookup_2.
Qed.

Lemma chain_in_dom m hd c l : chain_ok m hd c → l ∈ c.*1 → is_Some (m !! l).
Proof.
  intros [_ Hel] ([l' e] & -> & [j Hj]%list_elem_of_lookup)%list_elem_of_fmap.
  cbn. rewrite (Hel _ _ _ Hj). eauto.
Qed.

Lemma link_prev_ne m hd nb l : hd ≠ Some l → link_prev hd nb m !! l = (m !! l : option (r_assoc_el D F)).
Proof. destruct hd as [o|]; cbn; [|done]. intros Hne. apply lookup_alter_ne. congruence. Qed.

(** What a call of [r_assoc_insert] does to the table [T]. *)
Definition insert_post (h : heap D F) (a : loc) T (e : entry D F) (how : Z) (h' : heap D F) : Prop :=
  tab_spec hash h' a (tbl_put hash T e) ∧ heap_ok h' ∧
  destroyed h' = destroyed h ++
    match tbl_fetch hash T (e_key e) with Some o => log_destroy (e_destroy o) (e_data o) | None => [] end ∧
  (tbl_fetch hash T (e_key e) = None ∨ Z.land how R_ASSOC_REPLACE ≠ 0).

Definition insert_fail (h : heap D F) (a : loc) T (k : list Z) (how : Z) (r : Z) (h' : heap D F) : Prop :=
  tab_spec hash h' a T ∧ heap_ok h' ∧ destroyed h' = destroyed h ∧
  match tbl_fetch hash T k with
  | Some _ => r = R_ALREADY ∧ Z.land how R_ASSOC_REPLACE = 0 ∧ h' = h
  | None => r = R_NO_MEMORY ∧ ¬ mem_plenty h
  end.

(** The state [r_assoc_insert] reaches for a new key. *)
Lemma insert_head_done h h' a T k d cp ds how t cs hd c :
  tabs h !! a = Some t → tab_rep h t cs hash → T = abs cs (num_elements t) → tbl_ok hash T →
  chains t !! hash k = Some hd → cs !! hash k = Some c → chain_ok (els h) hd c → NoDup c.*1 →
  chain_of hash T k = entries c → heap_ok h → chain_find k (entries c) = None →
  tabs h' = <[a := with_num (with_chain t (hash k) (Some (brk h))) (wrap 32 (num_elements t + 1))]> (tabs h) →
  els h' = <[brk h := el_of (Entry k d cp ds) None hd]> (link_prev hd (brk h) (els h)) →
  brk h' = Pos.succ (brk h) → destroyed h' = destroyed h →
  insert_post h a T (Entry k d cp ds) how h'.
Proof.
  intros Ht Hrep HT Hok Hhd Hcs Hc Hnd Hch Hheap Hf Htabs Hels Hbrk Hdes.
  assert (Hfetch : tbl_fetch hash T k = None) by (unfold tbl_fetch; by rewrite Hch, Hf).
  destruct (Hheap (brk h) ltac:(lia)) as [Hfresh Hfresht].
  assert (Hnb : brk h ∉ c.*1).
  { intros Hin. destruct (chain_in_dom _ _ _ _ Hc Hin). congruence. }
  assert (Hhds : ∀ l, l ∉ c.*1 → hd ≠ Some l).
  { intros l Hl ->. by destruct (chain_head_in _ _ _ _ Hc eq_refl). }
  unfold insert_post. cbn [e_key]. rewrite Hfetch, app_nil_r. split_and!; [| |done|by left].
  - exists (with_num (with_chain t (hash k) (Some (brk h))) (wrap 32 (num_elements t + 1))),
      (<[hash k := (brk h, Entry k d cp ds) :: c]> cs).
    split_and!.
    + by rewrite Htabs, lookup_insert_eq.
    + eapply tab_rep_chain; [done|done|..].
      * rewrite Hels. by apply chain_ok_cons.
      * cbn. by constructor.
      * cbn. intros l [->|?]%elem_of_cons; [by right|by left].
      * cbn. intros l Hl [Hlb _]%not_elem_of_cons.
        rewrite Hels, lookup_insert_ne by done. apply link_prev_ne. by apply Hhds.
    + subst T. unfold tbl_put. cbn [e_key]. rewrite Hch, Hf. unfold abs. cbn.
      by rewrite list_fmap_insert.
    + by apply tbl_put_ok.
  - intros l Hl. rewrite Hbrk in Hl. rewrite Htabs, Hels.
    destruct (Hheap l ltac:(lia)) as [Hl1 Hl2]. split.
    + rewrite lookup_insert_ne by lia. rewrite link_prev_ne; [done|].
      apply Hhds. intros Hin. destruct (chain_in_dom _ _ _ _ Hc Hin). congruence.
    + rewrite lookup_insert_ne; [done|]. intros ->. congruence.
Qed.

(** [insert_head] followed by the rest of [r_assoc_insert]. *)
Lemma wp_insert_head h a T k d cp ds how t cs hd c :
  tabs h !! a = Some t → tab_rep h t cs hash → T = abs cs (num_elements t) → tbl_ok hash T →
  chains t !! hash k = Some hd → cs !! hash k = Some c → chain_ok (els h) hd c → NoDup c.*1 →
  chain_of hash T k = entries c → heap_ok h → chain_find k (entries c) = None →
  wp (insert_head null_data a k) h
    (λ nb h', wp (upd_el (set_content d cp ds) nb;; add_num a 1) h'
                (λ _ h', insert_post h a T (Entry k d cp ds) how h')
                (λ r h', insert_fail h a T k how r h'))
    (λ r h', insert_fail h a T k how r h').
Proof.
  intros Ht Hrep HT Hok Hhd Hcs Hc Hnd Hch Hheap Hf.
  assert (Hfetch : tbl_fetch hash T k = None) by (unfold tbl_fetch; by rewrite Hch, Hf).
  assert (Hspec : tab_spec hash h a T) by (by exists t, cs).
  destruct (Hheap (brk h) ltac:(lia)) as [Hfresh Hfresht].
  unfold insert_head.
  wp_steps. eapply wp_hash_of; [done|by eapply rep_hash|].
  wp_steps. apply wp_calloc_el; intros Ha.
  2: { unfold insert_fail. rewrite Hfetch. split_and!; try done.
       - by apply tab_spec_answers.
       - intros Hm. by rewrite next_answer_plenty in Ha. }
  wp_steps. apply wp_alloc_ok. cbn [answers].
  destruct (next_answer (tail (answers h))) eqn:Ha2.
  2: { wp_steps. apply wp_free_el; cbn; [rewrite lookup_insert_eq; eauto|]. wp_steps.
       unfold insert_fail. rewrite Hfetch. split_and!; try done.
       - exists t, cs. split_and!; [done| |done..].
         destruct Hrep. split; [done..| |done|done]. cbn. intros i hd' c' Hi Hi'.
         rewrite delete_insert_id by done. by eapply rep_chain0.
       - intros l Hl. cbn in Hl |- *. rewrite delete_insert_id by done. apply Hheap. lia.
       - unfold mem_plenty. cbn. intros Hm. rewrite Hm in Ha2. done. }
  wp_steps. apply wp_upd_el; [cbn; rewrite lookup_insert_eq; eauto|].
  wp_steps. eapply wp_load_chain; [done..|].
  wp_steps. apply wp_link_prev.
  { intros o Ho. apply is_Some_alter. destruct (chain_head_in _ _ _ o Hc Ho) as [[x Hx] _].
    cbn. rewrite lookup_insert. case_decide; eauto. }
  wp_steps. apply wp_upd_el.
  { apply is_Some_link_prev, is_Some_alter. cbn. rewrite lookup_insert_eq. eauto. }
  wp_steps. eapply wp_store_chain; [done|by eapply lookup_lt_Some|].
  wp_steps. apply wp_upd_el.
  { apply is_Some_alter, is_Some_link_prev, is_Some_alter. cbn. rewrite lookup_insert_eq. eauto. }
  wp_steps. eapply wp_add_num; [cbn; by rewrite lookup_insert_eq|].
  cbn. eapply insert_head_done; try done.
  - cbn. by rewrite insert_insert_eq.
  - cbn. apply insert_stores. intros o Ho ->.
    destruct (chain_head_in _ _ _ _ Hc Ho) as [[? ?] _]. congruence.
Qed.

Lemma with_chain_id t i hd : chains t !! i = Some hd → with_chain t i hd = t.
Proof. intros Hi. unfold with_chain. rewrite list_insert_id by done. by destruct t. Qed.

Lemma keep_locs c j l (e e' : entry D F) : c !! j = Some (l, e) → (<[j := (l, e')]> c).*1 = c.*1.
Proof. intros Hj. rewrite list_fmap_insert. apply list_insert_id. by rewrite list_lookup_fmap, Hj. Qed.

(** The state [r_assoc_insert] reaches when it replaces an entry. *)
Lemma insert_replace_done h h' a T k d cp ds how t cs hd c j l e :
  tabs h !! a = Some t → tab_rep h t cs hash → T = abs cs (num_elements t) → tbl_ok hash T →
  chains t !! hash k = Some hd → cs !! hash k = Some c → chain_ok (els h) hd c → NoDup c.*1 →
  chain_of hash T k = entries c → heap_ok h → chain_find k (entries c) = Some (j, e) →
  c !! j = Some (l, e) → Z.land how R_ASSOC_REPLACE ≠ 0 →
  tabs h' = <[a := with_num t (wrap 32 (num_elements t + 1))]> (tabs h) →
  els h' = alter (set_content d cp ds) l (els h) →
  brk h' = brk h → destroyed h' = destroyed h ++ log_destroy (e_destroy e) (e_data e) →
  insert_post h a T (Entry k d cp ds) how h'.
Proof.
  intros Ht Hrep HT Hok Hhd Hcs Hc Hnd Hch Hheap Hf Hj Hhow Htabs Hels Hbrk Hdes.
  assert (Hfetch : tbl_fetch hash T k = Some e) by (unfold tbl_fetch; by rewrite Hch, Hf).
  pose proof (chain_find_Some _ _ _ _ Hf) as [_ Hk].
  unfold insert_post. cbn [e_key]. rewrite Hfetch. split_and!; [| |done|by right].
  - exists (with_num t (wrap 32 (num_elements t + 1))),
      (<[hash k := <[j := (l, Entry k d cp ds)]> c]> cs).
    split_and!.
    + by rewrite Htabs, lookup_insert_eq.
    + rewrite <- (with_chain_id t (hash k) hd) by done.
      eapply tab_rep_chain; [done|done|..].
      * rewrite Hels. eapply (chain_ok_update _ _ _ _ _ e (Entry k d cp ds)); [done..|].
        by rewrite Hk.
      * by rewrite (keep_locs _ _ _ e).
      * rewrite (keep_locs _ _ _ e) by done. intros l' Hl'. by left.
      * intros l' Hl' _. rewrite Hels. apply lookup_alter_ne. intros <-. apply Hl'.
        apply list_elem_of_fmap. exists (l, e). split; [done|]. by eapply list_elem_of_lookup_2.
    + subst T. unfold tbl_put. cbn [e_key]. rewrite Hch, Hf. unfold abs. cbn.
      rewrite list_fmap_insert. unfold entries. by rewrite list_fmap_insert.
    + by apply tbl_put_ok.
  - intros l' Hl'. rewrite Hbrk in Hl'. rewrite Htabs, Hels.
    destruct (Hheap l' ltac:(lia)) as [Hl1 Hl2]. split.
    + destruct (decide (l = l')) as [->|]; [by rewrite lookup_alter_eq, Hl1|by rewrite lookup_alter_ne].
    + rewrite lookup_insert_ne; [done|]. intros ->. congruence.
Qed.

(** C12: [r_assoc_insert] on the pointer structure implements the abstract
    insertion. It is never undefined; a new key goes to the head of its chain, an
    existing one is refused with [R_ALREADY] unless [R_ASSOC_REPLACE] is given, in
    which case the old datum is destroyed and replaced in place; only a failing
    allocation gives [R_NO_MEMORY], and a failing call leaves the table as it was. *)
Theorem r_assoc_insert_refines h a T k d cp ds how :
  tab_spec hash h a T → heap_ok h →
  wp (r_assoc_insert null_data a k d cp ds how) h
    (λ _ h', insert_post h a T (Entry k d cp ds) how h')
    (λ r h', insert_fail h a T k how r h').
Proof.
  intros Hspec Hheap.
  destruct (tab_spec_chain h a T k Hspec) as
    (t & cs & hd & c & Ht & Hrep & HT & Hok & Hhd & Hcs & Hc & Hnd & Hch).
  unfold r_assoc_insert. wp_steps. eapply wp_fetch_bucket_pos; [done..|].
  destruct (chain_find k (entries c)) as [[j e]|] eqn:Hf.
  - intros l Hj. wp_steps. pose proof (chain_ok_frame _ _ _ _ Hc (λ _ _, eq_refl)) as [_ Hel].
    destruct (Z.eqb_spec (Z.land how R_ASSOC_REPLACE) 0) as [Hhow|Hhow].
    + wp_steps. unfold insert_fail, tbl_fetch. rewrite Hch, Hf. done.
    + wp_steps. eapply wp_run_destroy; [by apply (Hel _ _ _ Hj)|].
      wp_steps. apply wp_upd_el; [cbn; rewrite (Hel _ _ _ Hj); eauto|].
      wp_steps. eapply wp_add_num; [done|]. by eapply insert_replace_done.
  - wp_steps. change (R_NOT_FOUND =? R_NOT_FOUND) with true. cbn iota.
    by apply (wp_insert_head h a T k d cp ds how t cs hd c).
Qed.

(** ** Deletion *)

Definition delete_post (h : heap D F) (a : loc) T (k : list Z) (e : entry D F) (h' : heap D F) : Prop :=
  tab_spec hash h' a (tbl_remove hash T k) ∧ heap_ok h' ∧
  destroyed h' = destroyed h ++ log_destroy (e_destroy e) (e_data e).

(** The same, with the chains that result. *)
Definition unlink_post (h : heap D F) (a : loc) T (k : list Z) (e : entry D F)
    (cs' : list (list (loc * entry D F))) (h' : heap D F) : Prop :=
  (∃ t', tabs h' !! a = Some t' ∧ tab_rep h' t' cs' hash ∧
     tbl_remove hash T k = abs cs' (num_elements t') ∧ tbl_ok hash (tbl_remove hash T k)) ∧
  heap_ok h' ∧ destroyed h' = destroyed h ++ log_destroy (e_destroy e) (e_data e).

Lemma unlink_post_delete h a T k e cs' h' : unlink_post h a T k e cs' h' → delete_post h a T k e h'.
Proof. intros [(t' & ? & ? & ? & ?) ?]. split; [|done]. by exists t', cs'. Qed.

(** Unhooking the element at position [j] of its chain, destroying and freeing
    it: the end of both [r_assoc_delete] and [r_assoc_iter_delete]. *)
Lemma unlink_done h h' a T k t cs hd c j l e :
  tabs h !! a = Some t → tab_rep h t cs hash → T = abs cs (num_elements t) → tbl_ok hash T →
  chains t !! hash k = Some hd → cs !! hash k = Some c → chain_ok (els h) hd c → NoDup c.*1 →
  chain_of hash T k = entries c → heap_ok h → chain_find k (entries c) = Some (j, e) →
  c !! j = Some (l, e) →
  tabs h' = <[a := with_num (with_chain t (hash k)
                (match prev_at c j with Some _ => hd | None => ptr_at c (S j) end))
                (wrap 32 (num_elements t - 1))]> (tabs h) →
  els h' = unlink (els h) (prev_at c j) (ptr_at c (S j)) l →
  brk h' = brk h → destroyed h' = destroyed h ++ log_destroy (e_destroy e) (e_data e) →
  unlink_post h a T k e (<[hash k := delete j c]> cs) h'.
Proof.
  intros Ht Hrep HT Hok Hhd Hcs Hc Hnd Hch Hheap Hf Hj Htabs Hels Hbrk Hdes.
  assert (Hptr : ∀ i l', ptr_at c i = Some l' → l' ∈ c.*1).
  { intros i l' [e' Hi]%ptr_at_lookup. apply list_elem_of_fmap. exists (l', e').
    split; [done|]. by eapply list_elem_of_lookup_2. }
  assert (Hprev : ∀ i l', prev_at c i = Some l' → l' ∈ c.*1) by (intros [|i] l'; [done|apply Hptr]).
  assert (Hout : ∀ l', l' ∉ c.*1 → els h' !! l' = els h !! l').
  { intros l' Hl'. rewrite Hels. rewrite unlink_lookup by (intros ->; apply Hl';
      apply (Hptr j); apply ptr_at_lookup; eauto).
    destruct (els h !! l'); [|done]. cbn.
    rewrite (decide_False (P:=prev_at c j = _)) by (intros ?%Hprev; done).
    by rewrite decide_False by (intros ?%Hptr; done). }
  split_and!; [| |done].
  - eexists. split_and!.
    + by rewrite Htabs, lookup_insert_eq.
    + eapply tab_rep_chain; [done|done|..].
      * rewrite Hels. by eapply chain_ok_delete.
      * rewrite list_fmap_delete. eapply sublist_NoDup; [done|apply sublist_delete].
      * rewrite list_fmap_delete. intros l' Hl'. left.
        eapply elem_of_sublist; [done|apply sublist_delete].
      * intros l' Hl' _. by apply Hout.
    + subst T. unfold tbl_remove. rewrite Hch, Hf. unfold abs. cbn.
      rewrite list_fmap_insert. unfold entries. by rewrite list_fmap_delete.
    + by apply tbl_remove_ok.
  - intros l' Hl'. rewrite Hbrk in Hl'. destruct (Hheap l' ltac:(lia)) as [Hl1 Hl2]. split.
    + rewrite Hout; [done|]. intros Hin. destruct (chain_in_dom _ _ _ _ Hc Hin). congruence.
    + rewrite Htabs, lookup_insert_ne; [done|]. intros ->. congruence.
Qed.

(** The two stores that unhook an element, whichever way its predecessor is
    found. *)
Lemma wp_unhook h a t i p n l hd (st : M (heap D F) unit) (K : M (heap D F) unit)
    (Q : unit → heap D F → Prop) (E : Z → heap D F → Prop) :
  tabs h !! a = Some t → chains t !! i = Some hd →
  (∀ q, p = Some q → q ≠ l ∧ is_Some (els h !! q)) → (∀ q, n = Some q → q ≠ l ∧ is_Some (els h !! q)) →
  (∀ (Q' : unit → heap D F → Prop),
     Q' () (set_tabs <[a := with_chain t i n]> h) → wp st h Q' E) →
  wp K (Heap (<[a := with_chain t i (match p with Some _ => hd | None => n end)]> (tabs h))
             (unhook (els h) p n) (brk h) (answers h) (destroyed h)) Q E →
  wp (match p with Some q => upd_el (set_next n) q | None => st end) h
     (λ _ h', wp (when_ptr n (upd_el (set_prev p));; K) h' Q E) E.
Proof.
  unfold unhook. intros Ht Hhd Hp Hn Hst HQ. destruct p as [q|].
  - rewrite with_chain_id in HQ by done. rewrite insert_id in HQ by done.
    apply wp_upd_el; [by apply Hp|]. wp_steps. apply wp_when_ptr. destruct n as [q'|]; [|exact HQ].
    apply wp_upd_el; [cbn; apply is_Some_alter; by apply Hn|exact HQ].
  - apply Hst. wp_steps. apply wp_when_ptr. destruct n as [q'|]; [|exact HQ].
    apply wp_upd_el; [by apply Hn|exact HQ].
Qed.

(** The stores that unhook the element at position [j] leave it readable. *)
Lemma wp_unhook_at h a t hd c j l e (st K : M (heap D F) unit)
    (Q : unit → heap D F → Prop) (E : Z → heap D F → Prop) :
  tabs h !! a = Some t → chains t !! hash (e_key e) = Some hd →
  chain_ok (els h) hd c → NoDup c.*1 → c !! j = Some (l, e) →
  (∀ (Q' : unit → heap D F → Prop),
     Q' () (set_tabs <[a := with_chain t (hash (e_key e)) (ptr_at c (S j))]> h) → wp st h Q' E) →
  (unhook (els h) (prev_at c j) (ptr_at c (S j)) !! l = Some (el_of e (prev_at c j) (ptr_at c (S j))) →
   wp K (Heap (<[a := with_chain t (hash (e_key e))
                    (match prev_at c j with Some _ => hd | None => ptr_at c (S j) end)]> (tabs h))
             (unhook (els h) (prev_at c j) (ptr_at c (S j))) (brk h) (answers h) (destroyed h)) Q E) →
  wp (match prev_at c j with Some q => upd_el (set_next (ptr_at c (S j))) q | None => st end) h
     (λ _ h', wp (when_ptr (ptr_at c (S j)) (upd_el (set_prev (prev_at c j)));; K) h' Q E) E.
Proof.
  intros Ht Hhd [_ Hel] Hnd Hj Hst HK.
  assert (Hpn : ∀ i q, i ≠ j → ptr_at c i = Some q → q ≠ l ∧ is_Some (els h !! q)).
  { intros i q Hi [e' Hq]%ptr_at_lookup. split; [by eapply (chain_loc_ne c i j)|].
    rewrite (Hel _ _ _ Hq). eauto. }
  eapply (wp_unhook h a t (hash (e_key e)) (prev_at c j) (ptr_at c (S j)) l hd); [done..| | | |].
  - intros q Hq. destruct j as [|j]; [done|]. apply (Hpn j); [lia|done].
  - intros q Hq. apply (Hpn (S j)); [lia|done].
  - exact Hst.
  - apply HK. rewrite <- (Hel _ _ _ Hj).
    apply unhook_ne; [intros Hq; by destruct (Hpn (S j) l ltac:(lia) Hq)|].
    destruct j as [|j]; [done|]. intros Hq. by destruct (Hpn j l ltac:(lia) Hq).
Qed.

(** C13: [r_assoc_delete] implements the abstract removal: the element is unhooked
    from its doubly linked chain wherever it stands, its datum is destroyed, and
    the count drops; a missing key gives [R_NOT_FOUND] and changes nothing. *)
Theorem r_assoc_delete_refines h a T k :
  tab_spec hash h a T → heap_ok h →
  wp (r_assoc_delete a k) h
    (λ _ h', ∃ e, tbl_fetch hash T k = Some e ∧ delete_post h a T k e h')
    (λ r h', r = R_NOT_FOUND ∧ tbl_fetch hash T k = None ∧ h' = h).
Proof.
  intros Hspec Hheap.
  destruct (tab_spec_chain h a T k Hspec) as
    (t & cs & hd & c & Ht & Hrep & HT & Hok & Hhd & Hcs & Hc & Hnd & Hch).
  unfold r_assoc_delete. wp_steps. eapply wp_fetch_bucket_pos; [done..|].
  assert (Hfetch : tbl_fetch hash T k = snd <$> chain_find k (entries c))
    by (unfold tbl_fetch; by rewrite Hch).
  destruct (chain_find k (entries c)) as [[j e]|] eqn:Hf; [|done].
  intros l Hj. pose proof (chain_find_Some _ _ _ _ Hf) as [_ <-].
  wp_steps. eapply wp_load_el; [by apply Hc|]. wp_steps. cbn [prev next el_of].
  eapply (wp_unhook_at h a t hd c j l e); [done..| |].
  - intros Q' HQ'. wp_steps. eapply wp_hash_of; [done|by eapply rep_hash|].
    by eapply wp_store_chain; [done|eapply lookup_lt_Some|].
  - intros Hl'. wp_steps. eapply wp_run_destroy; [exact Hl'|]. wp_steps.
    apply wp_free_el; [cbn; rewrite Hl'; eauto|]. wp_steps.
    eapply wp_add_num; [cbn; by rewrite lookup_insert_eq|].
    exists e. rewrite Hfetch. split; [done|]. eapply unlink_post_delete, unlink_done; try done.
    cbn. by rewrite insert_insert_eq.
Qed.
End refinement.

(** ** Fetching, creating and iterating *)

Section lifecycle.
Context {D F : Type} (call_copy : F → D → Z + D) (null_data : D).
Context (hash : list Z → nat).
Implicit Types (h : heap D F) (c : list (loc * entry D F)) (t : r_assoc) (T : tbl D F).
Implicit Types (l : loc) (cs : list (list (loc * entry D F))) (it : r_assoc_iterator).

(** [r_assoc_fetch] returns the datum stored under the key, and [R_NOT_FOUND]
    for a key that is not in the table; the store is untouched either way. *)
Theorem r_assoc_fetch_refines h a T k :
  tab_spec hash h a T →
  r_assoc_fetch a k h =
    match tbl_fetch hash T k with Some e => Ok (e_data e) h | None => Err R_NOT_FOUND h end.
Proof.
  intros Hspec.
  assert (Hwp : wp (r_assoc_fetch a k) h
            (λ d h', h' = h ∧ ∃ e, tbl_fetch hash T k = Some e ∧ d = e_data e)
            (λ r h', h' = h ∧ r = R_NOT_FOUND ∧ tbl_fetch hash T k = None)).
  { unfold r_assoc_fetch. wp_steps. eapply wp_fetch_bucket; [done|].
    destruct (tbl_fetch hash T k) as [e|] eqn:He; [|done].
    intros l (p & n & Hl). wp_steps. eapply wp_load_el; [done|]. wp_steps. eauto. }
  unfold wp in Hwp. destruct (r_assoc_fetch a k h).
  - by destruct Hwp as (-> & e & -> & ->).
  - by destruct Hwp as (-> & -> & ->).
  - done.
Qed.

(** *** Creation *)

Lemma concat_replicate_nil {A} n : concat (replicate n (@nil A)) = [].
Proof. by induction n. Qed.

(** [r_assoc_create] makes an empty table of [2^bits] chains; when memory
    runs out for the table itself it reports [R_NO_MEMORY]. *)
Theorem r_assoc_create_empty h (hf : list Z → Z → option Z) nbits :
  HashSpec hash (Z.to_nat (2 ^ nbits)) → 0 <= nbits < 31 →
  (∀ k, hf k nbits = Some (Z.of_nat (hash k))) → heap_ok h →
  (answers h = [] ∨ next_answer (answers h) = false) →
  wp (r_assoc_create (D:=D) (F:=F) hf nbits) h
    (λ a h', tab_spec hash h' a (tbl_empty (Z.to_nat (2 ^ nbits))) ∧ heap_ok h' ∧ els h' = els h)
    (λ r h', r = R_NO_MEMORY ∧ tabs h' = tabs h ∧ els h' = els h).
Proof.
  intros Hhash Hbits Hhf Hheap Hmem. unfold r_assoc_create.
  destruct (Z.ltb_spec nbits 0), (Z.leb_spec 31 nbits); try lia. cbn [orb].
  rewrite Z.shiftl_1_l. unfold calloc_tab, alloc_or_abort. wp_steps. apply wp_alloc_ok. cbn beta.
  destruct Hmem as [Hmem|Hmem]; [|rewrite Hmem; by wp_steps].
  rewrite Hmem. cbn [next_answer]. wp_steps. cbn [answers].
  apply wp_alloc_ok. cbn. unfold store_tab. wp_steps.
  split_and!; [| |done].
  - eexists _, (replicate (Z.to_nat (2 ^ nbits)) []). split_and!.
    + cbn. by rewrite lookup_insert_eq.
    + split; cbn.
      * by rewrite !length_replicate.
      * rewrite length_replicate. lia.
      * intros i hd c [-> _]%lookup_replicate [-> _]%lookup_replicate. by split.
      * rewrite concat_replicate_nil. constructor.
      * done.
    + unfold abs, tbl_empty. cbn. by rewrite fmap_replicate.
    + by apply tbl_empty_ok.
  - intros l Hl. cbn in Hl |- *. destruct (Hheap l ltac:(lia)). split; [done|].
    rewrite !lookup_insert_ne by lia. done.
Qed.

(** when the table is allocated but its chain array is not, the clean-up of
    [r_assoc_create] walks the chains of the table that has none. *)
Theorem r_assoc_create_oom h (hf : list Z → Z → option Z) nbits :
  0 <= nbits < 31 → answers h = [true; false] →
  r_assoc_create (D:=D) (F:=F) hf nbits h = UB.
Proof.
  intros Hbits Hmem. unfold r_assoc_create.
  destruct (Z.ltb_spec nbits 0), (Z.leb_spec 31 nbits); try lia. cbn [orb].
  unfold calloc_tab, alloc_or_abort, mbind, M_bind, alloc_ok. cbn. rewrite Hmem. cbn.
  unfold abandon, r_assoc_destroy, load_tab, mbind, M_bind, get. cbn. rewrite lookup_insert_eq. cbn.
  rewrite Z.shiftl_1_l.
  assert (Hpos : 0 < 2 ^ nbits) by (apply Z.pow_pos_nonneg; lia).
  destruct (Z.to_nat (2 ^ nbits)) eqn:Hn; [lia|]. cbn.
  unfold load_chain, load_tab, mbind, M_bind, get. cbn. by rewrite lookup_insert_eq.
Qed.

(** *** Iteration *)

(** The elements an iterator has still to deliver. *)
Definition iter_rest a cs it (rest : list (loc * entry D F)) : Prop :=
  it_assoc it = a ∧
  ((it_next it = None ∧ rest = []) ∨
   (∃ n c j, next_chain it = Z.of_nat n ∧ cs !! n = Some c ∧ (j < length c)%nat ∧
      it_next it = ptr_at c j ∧ rest = drop j c ++ concat (drop (S n) cs))).

(** The element an iterator delivered last: what [r_assoc_iter_delete] removes.
    What comes next is in the same chain, or in a later one, or there is nothing. *)
Definition iter_last cs it l (e : entry D F) (rest : list (loc * entry D F)) : Prop :=
  ∃ n c j, prev_chain it = Z.of_nat n ∧ cs !! n = Some c ∧ c !! j = Some (l, e) ∧
    it_prev it = Some l ∧ rest = drop (S j) c ++ concat (drop (S n) cs) ∧
    ((next_chain it = Z.of_nat n ∧ drop (S j) c ≠ [] ∧ it_next it = ptr_at c (S j)) ∨
     (Z.of_nat n < next_chain it ∧ drop (S j) c = []) ∨
     (it_next it = None ∧ rest = [])).

Lemma occupied_chain_spec h a t cs n i :
  tabs h !! a = Some t → tab_rep h t cs hash → (i + n = length cs)%nat →
  occupied_chain a n (Z.of_nat i) h =
    match index_where (λ c, bool_decide (c ≠ [])) (drop i cs) with
    | Some j =>
        match ptr_at (default [] (cs !! (i + j)%nat)) 0 with
        | Some l => Ok (Some (Z.of_nat (i + j), l)) h
        | None => UB
        end
    | None => Ok None h
    end.
Proof.
  intros Ht Hrep. revert i. induction n as [|n IH]; intros i Hlen.
  - rewrite drop_ge by lia. done.
  - destruct (lookup_lt_is_Some_2 cs i ltac:(lia)) as [c Hc].
    destruct (lookup_lt_is_Some_2 (chains t) i) as [hd Hhd]; [rewrite (rep_len _ _ _ _ Hrep); lia|].
    rewrite (drop_S _ c i) by done. cbn [occupied_chain index_where].
    unfold mbind, M_bind at 1.
    assert (load_chain a (Z.of_nat i) h = Ok hd h) as ->.
    { unfold load_chain, load_tab, mbind, M_bind, get. rewrite Ht. cbn.
      destruct (Z.ltb_spec (Z.of_nat i) 0); [lia|]. by rewrite Nat2Z.id, Hhd. }
    destruct (rep_chain _ _ _ _ Hrep _ _ _ Hhd Hc) as [-> _].
    destruct c as [|[l e] c].
    + rewrite bool_decide_false by (intros H; by apply H). cbn.
      replace (Z.of_nat i + 1) with (Z.of_nat (S i)) by lia. rewrite IH by lia.
      destruct (index_where _ (drop (S i) cs)) as [j|]; [|done]. cbn.
      by replace (i + S j)%nat with (S (i + j)) by lia.
    + rewrite bool_decide_true by done. cbn. by rewrite Nat.add_0_r, Hc.
Qed.

(** The first chain that is not empty, and what follows it. *)
Lemma occupied_rest cs i :
  match index_where (λ c, bool_decide (c ≠ [])) (drop i cs) with
  | Some j => ∃ x c, cs !! (i + j)%nat = Some (x :: c) ∧
                concat (drop i cs) = (x :: c) ++ concat (drop (S (i + j)) cs)
  | None => concat (drop i cs) = []
  end.
Proof.
  remember (drop i cs) as ds eqn:Hds. revert i Hds. induction ds as [|c ds IH]; intros i Hds; [done|].
  assert (Hc : cs !! i = Some c).
  { rewrite <- (Nat.add_0_r i), <- lookup_drop, <- Hds. done. }
  assert (Hd : ds = drop (S i) cs).
  { rewrite (drop_S _ c i Hc) in Hds. by injection Hds. }
  cbn [index_where]. destruct c as [|x c].
  - rewrite bool_decide_false by (intros H; by apply H). specialize (IH (S i) Hd).
    destruct (index_where _ ds) as [j|]; [|done]. cbn.
    by replace (i + S j)%nat with (S i + j)%nat by lia.
  - rewrite bool_decide_true by done. rewrite Nat.add_0_r. exists x, c. split; [done|].
    cbn. by rewrite Hd.
Qed.

Lemma load_tab_ok h a t : tabs h !! a = Some t → load_tab a h = Ok t h.
Proof. intros Ht. unfold load_tab. mstep. by rewrite Ht. Qed.

Lemma load_el_ok h l e : els h !! l = Some e → load_el l h = Ok e h.
Proof. intros He. unfold load_el. mstep. by rewrite He. Qed.

Lemma init_iter_spec h a t cs :
  tabs h !! a = Some t → tab_rep h t cs hash →
  ∃ it, r_assoc_init_iter a h = Ok it h ∧ iter_rest a cs it (concat cs).
Proof.
  intros Ht Hrep. unfold r_assoc_init_iter. mstep using load_tab_ok.
  rewrite (rep_size _ _ _ _ Hrep), Nat2Z.id.
  pose proof (occupied_rest cs 0) as Hocc.
  pose proof (occupied_chain_spec h a t cs (length cs) 0 Ht Hrep eq_refl) as Hrun.
  destruct (index_where _ (drop 0 cs)) as [j|].
  - destruct Hocc as ([l e] & c & Hc & Hconcat). rewrite Hc in Hrun. cbn in Hrun.
    erewrite bind_ok by exact Hrun. eexists. split; [done|]. split; [done|].
    right. exists j, ((l, e) :: c), 0%nat. split_and!; try done. cbn. lia.
  - erewrite bind_ok by exact Hrun. eexists. split; [done|]. split; [done|].
    left. by rewrite drop_0 in Hocc.
Qed.

(** Advancing past the last element of chain [n]. *)
Lemma iter_advance h a t cs n :
  tabs h !! a = Some t → tab_rep h t cs hash → (n < length cs)%nat →
  ∃ r, occupied_chain a (Z.to_nat (Z.of_nat (length cs) - (Z.of_nat n + 1))) (Z.of_nat n + 1) h = Ok r h ∧
    match r with
    | Some (i, l) =>
        ∃ m e c', i = Z.of_nat m ∧ (n < m)%nat ∧ cs !! m = Some ((l, e) :: c') ∧
          concat (drop (S n) cs) = ((l, e) :: c') ++ concat (drop (S m) cs)
    | None => concat (drop (S n) cs) = []
    end.
Proof.
  intros Ht Hrep Hn. replace (Z.of_nat n + 1) with (Z.of_nat (S n)) by lia.
  rewrite (occupied_chain_spec h a t cs _ (S n)) by (done || lia).
  pose proof (occupied_rest cs (S n)) as Hocc.
  destruct (index_where _ (drop (S n) cs)) as [m|].
  - destruct Hocc as ([l e] & c' & Hc' & Hconcat). rewrite Hc'. eexists. split; [done|].
    exists (S n + m)%nat, e, c'. split_and!; try done. lia.
  - eexists. by split.
Qed.

(** One step of the iterator delivers the first of the remaining elements. *)
Lemma iter_spec h a t cs it rest :
  tabs h !! a = Some t → tab_rep h t cs hash → iter_rest a cs it rest →
  match rest with
  | [] => r_assoc_iter it h = Err R_EOD h
  | (l, e) :: rest' =>
      ∃ it', r_assoc_iter it h = Ok (e_key e, e_data e, it') h ∧ iter_rest a cs it' rest' ∧
        iter_last cs it' l e rest'
  end.
Proof.
  intros Ht Hrep [Hit [[Hn ->]|(n & c & j & Hnc & Hc & Hj & Hn & ->)]].
  { unfold r_assoc_iter. by rewrite Hn. }
  destruct (lookup_lt_is_Some_2 c j Hj) as [[l e] Hcj]. rewrite (drop_S _ (l, e) j) by done.
  cbn [app]. pose proof (lookup_lt_Some _ _ _ Hc) as Hlt.
  destruct (lookup_lt_is_Some_2 (chains t) n) as [hd Hhd]; [by rewrite (rep_len _ _ _ _ Hrep)|].
  destruct (rep_chain _ _ _ _ Hrep _ _ _ Hhd Hc) as [_ Hel].
  assert (Hptr : it_next it = Some l) by (rewrite Hn; apply ptr_at_lookup; eauto).
  unfold r_assoc_iter. rewrite Hptr. erewrite bind_ok by by apply load_el_ok, (Hel _ _ _ Hcj).
  cbn [next el_of]. destruct (ptr_at c (S j)) as [l'|] eqn:Hnext.
  - apply ptr_at_lookup in Hnext as [e' Hj']. pose proof (lookup_lt_Some _ _ _ Hj').
    eexists. split; [done|]. split.
    + split; [done|]. right. exists n, c, (S j). cbn. unfold ptr_at. by rewrite Hj'.
    + exists n, c, j. cbn. rewrite (drop_S _ _ _ Hj'). split_and!; try done.
      left. unfold ptr_at. by rewrite Hj'.
  - assert (length c <= S j)%nat.
    { apply lookup_ge_None. unfold ptr_at in Hnext. by destruct (c !! S j). }
    rewrite Hit, Hnc. mstep using load_tab_ok. rewrite (rep_size _ _ _ _ Hrep).
    destruct (iter_advance h a t cs n Ht Hrep Hlt) as (r & Hrun & Hr).
    erewrite bind_ok by exact Hrun. rewrite drop_ge by done. cbn [app].
    destruct r as [[i l']|].
    + destruct Hr as (m & e' & c' & -> & Hnm & Hc' & Hconcat). eexists. split; [done|]. split.
      * split; [done|]. right. exists m, ((l', e') :: c'), 0%nat. split_and!; try done. cbn. lia.
      * exists n, c, j. cbn. rewrite (drop_ge c) by done. split_and!; try done. right; left. split; [lia|done].
    + rewrite Hr. eexists. split; [done|]. split; [split; [done|by left]|].
      exists n, c, j. cbn. rewrite Hr, (drop_ge c) by done. split_and!; try done. right; by right.
Qed.

(** The loop every user of an iterator writes: [while(!r_assoc_iter(...))]. *)
Fixpoint collect (fuel : nat) (it : r_assoc_iterator) : M (heap D F) (list (list Z * D)) :=
  match fuel with
  | O => undef
  | S fuel' =>
      r ← catch (r_assoc_iter it);
      match r with
      | inl r => if r =? R_EOD then mret [] else abort r
      | inr (k, d, it') => l ← collect fuel' it'; mret ((k, d) :: l)
      end
  end.
Definition iterate_all (a : loc) : M (heap D F) (list (list Z * D)) :=
  it ← r_assoc_init_iter a; h ← get; collect (S (base.size (els h))) it.

Lemma collect_spec fuel h a t cs it rest :
  tabs h !! a = Some t → tab_rep h t cs hash → iter_rest a cs it rest → (length rest < fuel)%nat →
  collect fuel it h = Ok ((λ x, (e_key x.2, e_data x.2)) <$> rest) h.
Proof.
  intros Ht Hrep. revert it rest. induction fuel as [|fuel IH]; intros it rest Hit Hf; [lia|].
  pose proof (iter_spec h a t cs it rest Ht Hrep Hit) as Hstep. cbn [collect].
  unfold mbind, M_bind, catch. destruct rest as [|[l e] rest].
  - by rewrite Hstep.
  - destruct Hstep as (it' & -> & Hit' & _). cbn in Hf. rewrite (IH it' rest) by (done || lia). done.
Qed.

Lemma abs_elems cs n : tbl_elems (abs cs n) = (concat cs).*2.
Proof.
  unfold tbl_elems, abs. cbn. change (entries <$> cs) with (map (map snd) cs).
  by rewrite <- concat_map.
Qed.

Lemma tab_rep_size h t cs : tab_rep h t cs hash → (length (concat cs) <= base.size (els h))%nat.
Proof.
  intros Hrep. rewrite <- (length_fmap fst), <- size_dom.
  rewrite <- (size_list_to_set (C:=gset loc)) by apply (rep_nodup _ _ _ _ Hrep).
  apply subseteq_size. intros l Hl%elem_of_list_to_set. apply elem_of_dom.
  by eapply tab_rep_dom.
Qed.

(** iterating delivers every element exactly once, in the order of the chains,
    and then [R_EOD]; it ends and changes nothing. *)
Theorem iterate_all_elems h a T :
  tab_spec hash h a T →
  iterate_all a h = Ok ((λ e, (e_key e, e_data e)) <$> tbl_elems T) h.
Proof.
  intros (t & cs & Ht & Hrep & -> & Hok). unfold iterate_all, mbind, M_bind, get.
  destruct (init_iter_spec h a t cs Ht Hrep) as (it & -> & Hit).
  rewrite (collect_spec _ h a t cs it (concat cs)); [|done..|].
  - rewrite abs_elems. by rewrite <- list_fmap_compose.
  - rewrite Nat.lt_succ_r. by eapply tab_rep_size.
Qed.

(** *** Deleting while iterating *)

Lemma drop_delete_same (c : list (loc * entry D F)) j :
  (j < length c)%nat → drop j (delete j c) = drop (S j) c.
Proof.
  intros Hj. rewrite delete_take_drop, drop_app_length'; [done|]. rewrite length_take. lia.
Qed.

(** An iterator stays good when the element it delivered last is unlinked. *)
Lemma iter_rest_delete a cs it n c j l e rest :
  iter_rest a cs it rest → prev_chain it = Z.of_nat n → cs !! n = Some c → c !! j = Some (l, e) →
  rest = drop (S j) c ++ concat (drop (S n) cs) →
  ((next_chain it = Z.of_nat n ∧ drop (S j) c ≠ [] ∧ it_next it = ptr_at c (S j)) ∨
   (Z.of_nat n < next_chain it ∧ drop (S j) c = []) ∨ (it_next it = None ∧ rest = [])) →
  iter_rest a (<[n := delete j c]> cs) it rest.
Proof.
  intros [Hit Hrest] Hpc Hc Hj Hr [(Hnc & Hne & Hnext)|[[Hlt Hend]|Hnone]];
    (split; [done|]); [| |by left].
  - right. exists n, (delete j c), j. pose proof (lookup_lt_Some _ _ _ Hj).
    assert (S j < length c)%nat.
    { destruct (decide (S j < length c)%nat); [done|]. exfalso. apply Hne, drop_ge. lia. }
    split_and!; [done| | | |].
    + apply list_lookup_insert_eq. by eapply lookup_lt_Some.
    + rewrite length_delete; [lia|]. rewrite Hj. eauto.
    + rewrite Hnext, ptr_at_delete. by rewrite decide_False by lia.
    + rewrite Hr, drop_delete_same by done. by rewrite drop_insert_lt by lia.
  - destruct Hrest as [?|(n' & c' & j' & Hn' & Hc' & Hj' & Hp' & Hr')]; [by left|right].
    exists n', c', j'. split_and!; [done| |done|done|].
    + rewrite list_lookup_insert_ne by lia. done.
    + by rewrite drop_insert_lt by lia.
Qed.

Lemma iter_delete_spec h a t cs it l e rest :
  tabs h !! a = Some t → tab_rep h t cs hash → tbl_ok hash (abs cs (num_elements t)) → heap_ok h →
  iter_rest a cs it rest → iter_last cs it l e rest →
  wp (r_assoc_iter_delete it) h
    (λ _ h', ∃ cs', unlink_post hash h a (abs cs (num_elements t)) (e_key e) e cs' h' ∧
       iter_rest a cs' it rest)
    (λ _ _, False).
Proof.
  intros Ht Hrep Hok Hheap Hrest (n & c & j & Hpc & Hcs & Hj & Hprev & Hr & Hcase).
  assert (Hn : hash (e_key e) = n).
  { eapply (tbl_place hash _ Hok n (entries c)).
    - unfold abs. cbn. by rewrite list_lookup_fmap, Hcs.
    - unfold entries. apply list_elem_of_fmap. exists (l, e). split; [done|].
      by eapply list_elem_of_lookup_2. }
  subst n. destruct (tab_rep_key hash h t cs (num_elements t) (e_key e) Hrep Hok) as
    (hd & c0 & Hhd & Hc0 & Hc & Hnd & Hch). simplify_eq.
  assert (Hf : chain_find (e_key e) (entries c) = Some (j, e)).
  { apply chain_find_unique; [|by unfold entries; rewrite list_lookup_fmap, Hj|done].
    rewrite <- Hch. eapply tbl_distinct; [done|by apply chain_of_lookup]. }
  unfold r_assoc_iter_delete. rewrite Hprev. wp_steps. cbn [from_option_ub]. wp_steps.
  eapply wp_load_el; [by apply Hc|]. wp_steps. cbn [prev next el_of].
  destruct Hrest as [Hit Hrest]. rewrite Hit, Hpc.
  eapply (wp_unhook_at hash h a t hd c j l e); [done..| |].
  - intros Q' HQ'. by eapply wp_store_chain; [done|eapply lookup_lt_Some|].
  - intros Hl'. wp_steps. eapply wp_run_destroy; [exact Hl'|]. wp_steps.
    eapply wp_add_num; [cbn; by rewrite lookup_insert_eq|]. wp_steps.
    apply wp_free_el; [cbn; rewrite Hl'; eauto|].
    exists (<[hash (e_key e) := delete j c]> cs). split.
    + eapply unlink_done; try done. cbn. by rewrite insert_insert_eq.
    + eapply iter_rest_delete; done.
Qed.

(** Removing every element through an iterator. *)
Fixpoint drain (fuel : nat) (it : r_assoc_iterator) : M (heap D F) unit :=
  match fuel with
  | O => undef
  | S fuel' =>
      r ← catch (r_assoc_iter it);
      match r with
      | inl r => if r =? R_EOD then mret () else abort r
      | inr (_, _, it') => r_assoc_iter_delete it';; drain fuel' it'
      end
  end.
Definition drain_all (a : loc) : M (heap D F) unit :=
  it ← r_assoc_init_iter a; h ← get; drain (S (base.size (els h))) it.

(** Abstractly: removing the keys of [es] one after the other. *)
Definition remove_all T (es : list (entry D F)) : tbl D F :=
  foldl (λ T e, tbl_remove hash T (e_key e)) T es.

Lemma remove_all_fetch T es k :
  tbl_ok hash T → tbl_ok hash (remove_all T es) ∧
  tbl_fetch hash (remove_all T es) k = if decide (k ∈ e_key <$> es) then None else tbl_fetch hash T k.
Proof.
  revert T. induction es as [|e es IH]; intros T Hok; [by rewrite decide_False by set_solver|].
  change (remove_all T (e :: es)) with (remove_all (tbl_remove hash T (e_key e)) es).
  rewrite fmap_cons.
  destruct (IH (tbl_remove hash T (e_key e))) as [Hok' ->]; [by apply tbl_remove_ok|].
  split; [done|]. destruct (decide (k = e_key e)) as [->|Hne].
  - rewrite (decide_True (P:=e_key e ∈ _ :: _)) by set_solver. case_decide; [done|].
    by apply tbl_fetch_remove_eq.
  - rewrite tbl_fetch_remove_ne by done.
    by rewrite (decide_ext (k ∈ e_key e :: _) (k ∈ e_key <$> es)) by set_solver.
Qed.

Lemma remove_all_elems T : tbl_ok hash T → tbl_elems (remove_all T (tbl_elems T)) = [].
Proof.
  intros Hok. apply elem_of_nil_inv. intros e He.
  destruct (remove_all_fetch T (tbl_elems T) (e_key e) Hok) as [Hok' Hf].
  apply (tbl_fetch_elem hash) in He; [|done]. rewrite Hf in He. case_decide as Hk; [done|].
  apply Hk, list_elem_of_fmap_2, (tbl_fetch_elem hash); done.
Qed.

Definition log_all (es : list (entry D F)) : list (F * D) :=
  concat ((λ e, log_destroy (e_destroy e) (e_data e)) <$> es).

Lemma drain_spec fuel h a t cs it rest :
  tabs h !! a = Some t → tab_rep h t cs hash → tbl_ok hash (abs cs (num_elements t)) → heap_ok h →
  iter_rest a cs it rest → (length rest < fuel)%nat →
  wp (drain fuel it) h
    (λ _ h', tab_spec hash h' a (remove_all (abs cs (num_elements t)) rest.*2) ∧ heap_ok h' ∧
       destroyed h' = destroyed h ++ log_all rest.*2)
    (λ _ _, False).
Proof.
  revert h t cs it rest. induction fuel as [|fuel IH]; intros h t cs it rest Ht Hrep Hok Hheap Hit Hf; [lia|].
  pose proof (iter_spec h a t cs it rest Ht Hrep Hit) as Hstep. cbn [drain].
  destruct rest as [|[l e] rest].
  - wp_step. eapply wp_eq_ok; [by apply catch_err|]. cbn beta iota.
    change (R_EOD =? R_EOD) with true. cbn iota. wp_step. split_and!; [|done|].
    + by exists t, cs.
    + cbn. by rewrite app_nil_r.
  - destruct Hstep as (it' & Hrun & Hit' & Hlast). wp_step.
    eapply wp_eq_ok; [by apply catch_ok|]. cbn beta iota. wp_step.
    eapply wp_mono; [by eapply iter_delete_spec| |done].
    intros [] h' (cs' & ((t' & Ht' & Hrep' & Habs & Hok') & Hheap' & Hdes) & Hit''). cbn beta.
    cbn in Hf. eapply wp_mono; [eapply (IH h' t' cs' it' rest); try done; [by rewrite <- Habs|lia]| |done].
    cbn beta. intros [] h'' (Hspec & Hheap'' & ->). rewrite <- Habs in Hspec.
    split_and!; [done|done|]. unfold log_all. cbn. by rewrite Hdes, <- app_assoc.
Qed.

(** deleting through an iterator is safe: a table can be emptied while it is
    iterated, each element's destructor runs once, in the order of the iteration,
    and the iterator never follows a pointer to a freed element. *)
Theorem drain_all_empties h a T :
  tab_spec hash h a T → heap_ok h →
  wp (drain_all a) h
    (λ _ h', ∃ T', tab_spec hash h' a T' ∧ tbl_elems T' = [] ∧ heap_ok h' ∧
       destroyed h' = destroyed h ++ log_all (tbl_elems T))
    (λ _ _, False).
Proof.
  intros (t & cs & Ht & Hrep & -> & Hok) Hheap. unfold drain_all.
  destruct (init_iter_spec h a t cs Ht Hrep) as (it & Hrun & Hit).
  wp_step. eapply wp_eq_ok; [done|]. cbn beta. wp_steps.
  rewrite abs_elems. eapply wp_mono; [eapply drain_spec; try done| |done].
  - apply Nat.lt_succ_r. by eapply tab_rep_size.
  - cbn beta. intros [] h' (Hspec & Hheap' & Hdes). eexists. split_and!; [done| |done|done].
    rewrite <- (abs_elems cs (num_elements t)). by apply remove_all_elems.
Qed.

(** *** Destruction *)

(** [h'] is [h] with the elements at [ls] freed and destructor calls added. *)
Definition freed h (ls : list loc) (log : list (F * D)) h' : Prop :=
  tabs h' = tabs h ∧ brk h' = brk h ∧ answers h' = answers h ∧ destroyed h' = destroyed h ++ log ∧
  ∀ l, els h' !! l = if decide (l ∈ ls) then None else els h !! l.

Lemma freed_refl h : freed h [] [] h.
Proof. split_and!; [done..|by rewrite app_nil_r|]. intros l. by rewrite decide_False by set_solver. Qed.

Lemma freed_trans h h' h'' ls ls' log log' :
  freed h ls log h' → freed h' ls' log' h'' → freed h (ls ++ ls') (log ++ log') h''.
Proof.
  intros (Ht & Hb & Ha & Hd & He) (Ht' & Hb' & Ha' & Hd' & He').
  split_and!; [congruence|congruence|congruence|by rewrite Hd', Hd, app_assoc|].
  intros l. rewrite He', He. rewrite (decide_ext (l ∈ ls ++ ls') (l ∈ ls' ∨ l ∈ ls)) by set_solver.
  repeat case_decide; tauto.
Qed.

Lemma log_all_app es es' : log_all (es ++ es') = log_all es ++ log_all es'.
Proof. unfold log_all. by rewrite fmap_app, concat_app. Qed.

Lemma destroy_chain_spec fuel h c i :
  (∀ j l e, (i <= j)%nat → c !! j = Some (l, e) →
     els h !! l = Some (el_of e (prev_at c j) (ptr_at c (S j)))) →
  NoDup c.*1 → (length c - i < fuel)%nat →
  wp (destroy_assoc_chain fuel (ptr_at c i)) h
    (λ _ h', freed h (drop i c).*1 (log_all (drop i c).*2) h') (λ _ _, False).
Proof.
  revert h i. induction fuel as [|fuel IH]; intros h i Hel Hnd Hf; [lia|].
  destruct (c !! i) as [[l e]|] eqn:Hi.
  - assert (ptr_at c i = Some l) as -> by (apply ptr_at_lookup; eauto).
    pose proof (Hel i l e (le_n i) Hi) as Hl. pose proof (lookup_lt_Some _ _ _ Hi).
    cbn [destroy_assoc_chain]. wp_step. eapply wp_load_el; [done|]. wp_step.
    eapply wp_run_destroy; [done|]. wp_step. apply wp_free_el; [cbn; eauto|]. cbn [next el_of].
    eapply wp_mono; [apply IH; [|done|lia]| |done].
    + intros j l' e' Hj Hj'. cbn.
      rewrite lookup_delete_ne by (by apply (chain_loc_ne c i j _ _ e e'); [..|lia]).
      apply Hel; [lia|done].
    + cbn beta. intros _ h' Hfreed. rewrite (drop_S _ _ _ Hi).
      change (((l, e) :: drop (S i) c).*1) with ([l] ++ (drop (S i) c).*1).
      change (((l, e) :: drop (S i) c).*2) with ([e] ++ (drop (S i) c).*2).
      rewrite log_all_app. eapply freed_trans; [|exact Hfreed].
      split_and!; [done..| |]; cbn.
      * unfold log_all. cbn. by rewrite app_nil_r.
      * intros l'. case_decide as Hin.
        -- assert (l' = l) as -> by set_solver. by rewrite lookup_delete_eq.
        -- rewrite lookup_delete_ne by set_solver. done.
  - assert (ptr_at c i = None) as -> by (unfold ptr_at; by rewrite Hi).
    apply lookup_ge_None in Hi. rewrite drop_ge by done. cbn [destroy_assoc_chain]. wp_step. apply freed_refl.
Qed.

Lemma destroy_chains_spec n h a t cs i :
  tabs h !! a = Some t → length (chains t) = length cs → (i + n = length cs)%nat →
  NoDup (concat cs).*1 →
  (∀ j hd c, (i <= j)%nat → chains t !! j = Some hd → cs !! j = Some c → chain_ok (els h) hd c) →
  wp (destroy_chains a n (Z.of_nat i)) h
    (λ _ h', freed h (concat (drop i cs)).*1 (log_all (concat (drop i cs)).*2) h') (λ _ _, False).
Proof.
  intros Ht Hlen. revert h i Ht. induction n as [|n IH]; intros h i Ht Hn Hnd Hok.
  { rewrite drop_ge by lia. cbn [destroy_chains]. wp_step. apply freed_refl. }
  destruct (lookup_lt_is_Some_2 cs i ltac:(lia)) as [c Hc].
  destruct (lookup_lt_is_Some_2 (chains t) i ltac:(lia)) as [hd Hhd].
  pose proof (Hok i hd c (le_n i) Hhd Hc) as Hch. pose proof (chain_nodup _ _ _ Hnd Hc) as Hndc.
  pose proof (chain_in_heap _ _ _ Hch Hndc) as Hsz. destruct Hch as [-> Hel].
  cbn [destroy_chains]. wp_step. eapply wp_load_chain; [done..|]. wp_steps.
  eapply wp_mono; [apply destroy_chain_spec; [intros; by apply Hel|done|lia]| |done].
  cbn beta. intros _ h' Hfreed. replace (Z.of_nat i + 1) with (Z.of_nat (S i)) by lia.
  pose proof Hfreed as (Ht' & _ & _ & _ & Hels'). rewrite drop_0 in Hfreed, Hels'.
  eapply wp_mono; [apply IH; [by rewrite Ht'|lia|done|]| |done].
  - intros j hd' c' Hj Hhd' Hc'. eapply chain_ok_frame; [by apply (Hok j); [lia|..]|].
    intros l Hl. rewrite Hels'. apply decide_False. intros Hl'.
    assert (i = j); [|lia]. by eapply chains_disjoint.
  - cbn beta. intros _ h'' Hfreed'. rewrite (drop_S _ _ _ Hc). cbn [concat].
    rewrite !fmap_app, log_all_app. by eapply freed_trans.
Qed.

(** C14: [r_assoc_destroy] frees the table and every element of it, and nothing
    else, and runs the destructor of every element exactly once. *)
Theorem r_assoc_destroy_frees h a T :
  tab_spec hash h a T →
  wp (r_assoc_destroy a) h
    (λ _ h', tabs h' = delete a (tabs h) ∧ destroyed h' = destroyed h ++ log_all (tbl_elems T) ∧
       els h' ⊆ els h ∧ (base.size (els h') + length (tbl_elems T) = base.size (els h))%nat)
    (λ _ _, False).
Proof.
  intros (t & cs & Ht & Hrep & -> & Hok). rewrite abs_elems. unfold r_assoc_destroy. wp_step.
  eapply wp_load_tab; [done|]. wp_step. rewrite (rep_size _ _ _ _ Hrep), Nat2Z.id.
  eapply wp_mono; [eapply (destroy_chains_spec _ h a t cs 0); try done| |done].
  - apply Hrep.
  - apply Hrep.
  - intros j hd c _. apply Hrep.
  - cbn beta. intros _ h' (Ht' & Hb & _ & Hd & Hels). rewrite drop_0 in Hd, Hels. wp_step. cbn [tabs set_tabs els destroyed].
    split_and!; [by rewrite Ht'|done| |].
    + apply map_subseteq_spec. intros l e. rewrite Hels. by case_decide.
    + rewrite <- !size_dom.
      assert (Hdom : dom (els h') = dom (els h) ∖ list_to_set (C:=gset loc) (concat cs).*1).
      { apply set_eq. intros l. rewrite elem_of_difference, !elem_of_dom, elem_of_list_to_set, Hels.
        case_decide; [|tauto]. split; [by intros [? ?]|tauto]. }
      rewrite Hdom, size_difference.
      * rewrite size_list_to_set by apply (rep_nodup _ _ _ _ Hrep).
        pose proof (tab_rep_size _ _ _ Hrep). rewrite !length_fmap, size_dom. lia.
      * intros l Hl%elem_of_list_to_set. apply elem_of_dom. by eapply tab_rep_dom.
Qed.
End lifecycle.

(** ** A concrete table

    Two chains, selected by the CRC hash; three string keys, two of which share a
    chain.  The theorems above are instantiated on it. *)

Section demo.
Definition demo_hash (k : list Z) : nat := Z.to_nat (crc_ref k mod 2 ^ 1).

Lemma demo_hash_eq k : r_assoc_crc32_hash_compute k 1 = Some (Z.of_nat (demo_hash k)).
Proof.
  rewrite crc32_hash_eq by lia. unfold demo_hash.
  rewrite Z2Nat.id; [done|]. by apply Z.mod_pos_bound.
Qed.

#[export] Instance demo_hash_bound : HashSpec demo_hash (Z.to_nat (2 ^ 1)).
Proof.
  intros k. unfold demo_hash. apply Z2Nat.inj_lt; [by apply Z.mod_pos_bound|done|].
  by apply Z.mod_pos_bound.
Qed.

Definition demo_empty : heap Z nat := Heap ∅ ∅ 1 [] [].
Definition demo_a : entry Z nat := Entry [97; 0] 10 None (Some 7%nat).
Definition demo_b : entry Z nat := Entry [98; 0] 20 None None.
Definition demo_c : entry Z nat := Entry [99; 0] 30 None (Some 8%nat).
Definition demo_tbl : tbl Z nat :=
  foldl (tbl_put demo_hash) (tbl_empty (Z.to_nat (2 ^ 1))) [demo_a; demo_b; demo_c].
Definition demo_assoc : r_assoc := Assoc 2 1 r_assoc_crc32_hash_compute [Some 3%positive; Some 4%positive] 3.
Definition demo_heap : heap Z nat :=
  Heap {[1%positive := demo_assoc]}
       {[2%positive := el_of demo_a (Some 4%positive) None; 3%positive := el_of demo_b None None;
         4%positive := el_of demo_c None (Some 2%positive)]} 5 [] [].
Definition demo_run : M (heap Z nat) loc :=
  a ← r_assoc_create r_assoc_crc32_hash_compute 1;
  r_assoc_insert 0 a [97; 0] 10 None (Some 7%nat) R_ASSOC_NEW;;
  r_assoc_insert 0 a [98; 0] 20 None None R_ASSOC_NEW;;
  r_assoc_insert 0 a [99; 0] 30 None (Some 8%nat) R_ASSOC_NEW;;
  mret a.

(** The heap above is the one the code builds. *)
Example demo_run_heap :
  match demo_run demo_empty with
  | Ok a h => a = 1%positive ∧ els h = els demo_heap ∧ brk h = brk demo_heap ∧
              chains <$> tabs h !! a = Some (chains demo_assoc)
  | _ => False
  end.
Proof. vm_compute. done. Qed.

Lemma demo_empty_ok : heap_ok demo_empty.
Proof. done. Qed.

Lemma demo_heap_ok : heap_ok demo_heap.
Proof.
  intros l Hl. change (5 <= l)%positive in Hl. unfold demo_heap. cbn [els tabs].
  rewrite !lookup_insert_ne by lia. by rewrite !lookup_singleton_ne by lia.
Qed.

Lemma demo_tbl_ok : tbl_ok demo_hash demo_tbl.
Proof. unfold demo_tbl. cbn [foldl]. do 3 apply tbl_put_ok. exact (tbl_empty_ok demo_hash _). Qed.

Lemma demo_spec : tab_spec demo_hash demo_heap 1 demo_tbl.
Proof.
  exists demo_assoc, [[(3%positive, demo_b)]; [(4%positive, demo_c); (2%positive, demo_a)]].
  split_and!; [done| |vm_compute; reflexivity|apply demo_tbl_ok].
  split; [done|done| | |apply demo_hash_eq].
  - intros [|[|i]] hd c Hhd Hc; [| |done]; injection Hhd as <-; injection Hc as <-;
      (split; [done|]); intros [|[|j]] l e Hj; try done; by injection Hj as <- <-.
  - cbn. repeat constructor; set_solver.
Qed.

Lemma r_assoc_insert_refines_witness :
  wp (r_assoc_insert 0 1%positive [98; 0] 21 None None R_ASSOC_REPLACE) demo_heap
    (λ _ h', insert_post demo_hash demo_heap 1 demo_tbl (Entry [98; 0] 21 None None) R_ASSOC_REPLACE h')
    (λ r h', insert_fail demo_hash demo_heap 1 demo_tbl [98; 0] R_ASSOC_REPLACE r h').
Proof. apply r_assoc_insert_refines; [apply demo_spec|apply demo_heap_ok]. Defined.

Lemma r_assoc_delete_refines_witness :
  wp (r_assoc_delete 1%positive [97; 0]) demo_heap
    (λ _ h', ∃ e, tbl_fetch demo_hash demo_tbl [97; 0] = Some e ∧
       delete_post demo_hash demo_heap 1 demo_tbl [97; 0] e h')
    (λ r h', r = R_NOT_FOUND ∧ tbl_fetch demo_hash demo_tbl [97; 0] = None ∧ h' = demo_heap).
Proof. apply r_assoc_delete_refines; [apply demo_spec|apply demo_heap_ok]. Defined.

Lemma r_assoc_fetch_refines_witness :
  r_assoc_fetch 1%positive [97; 0] demo_heap = Ok 10 demo_heap.
Proof. 
  rewrite (r_assoc_fetch_refines _ _ _ _ _ demo_spec).
  by replace (tbl_fetch demo_hash demo_tbl [97; 0]) with (Some demo_a) by (vm_compute; reflexivity).
Defined.

Lemma r_assoc_create_empty_witness :
  wp (r_assoc_create r_assoc_crc32_hash_compute 1) demo_empty
    (λ a h', tab_spec demo_hash h' a (tbl_empty (Z.to_nat (2 ^ 1))) ∧ heap_ok h' ∧ els h' = els demo_empty)
    (λ r h', r = R_NO_MEMORY ∧ tabs h' = tabs demo_empty ∧ els h' = els demo_empty).
Proof.
  apply r_assoc_create_empty;
    [apply demo_hash_bound|lia|apply demo_hash_eq|apply demo_empty_ok|by left].
Defined.

Lemma r_assoc_create_oom_witness :
  r_assoc_create r_assoc_crc32_hash_compute 12 (Heap ∅ ∅ 1 [true; false] [] : heap Z nat) = UB.
Proof. apply r_assoc_create_oom; [lia|done]. Defined.

Lemma iterate_all_elems_witness :
  iterate_all 1%positive demo_heap = Ok [([98; 0], 20); ([99; 0], 30); ([97; 0], 10)] demo_heap.
Proof. 
  rewrite (iterate_all_elems _ _ _ _ demo_spec).
  by replace (tbl_elems demo_tbl) with [demo_b; demo_c; demo_a] by (vm_compute; reflexivity).
Defined.

Lemma drain_all_empties_witness :
  wp (drain_all 1%positive) demo_heap
    (λ _ h', ∃ T', tab_spec demo_hash h' 1 T' ∧ tbl_elems T' = [] ∧ heap_ok h' ∧
       destroyed h' = destroyed demo_heap ++ log_all (tbl_elems demo_tbl))
    (λ _ _, False).
Proof. apply drain_all_empties; [apply demo_spec|apply demo_heap_ok]. Defined.

Lemma r_assoc_destroy_frees_witness :
  wp (r_assoc_destroy 1%positive) demo_heap
    (λ _ h', tabs h' = delete 1%positive (tabs demo_heap) ∧
       destroyed h' = destroyed demo_heap ++ log_all (tbl_elems demo_tbl) ∧
       els h' ⊆ els demo_heap ∧
       (base.size (els h') + length (tbl_elems demo_tbl) = base.size (els demo_heap))%nat)
    (λ _ _, False).
Proof. apply (r_assoc_destroy_frees demo_hash). apply demo_spec. Defined.
End demo.
