(* ===== verification/RegNames.v ===== *)
(** * Registry names (registry.c, registry_local.c, registrycb.c)

    Names like ["foo.bar.baz"]: when they are legal, how a child's name is built
    from untrusted text, the chain of ancestors a name has, and the subtree test of
    the iterating operations. *)

From Stdlib Require Import Ascii.
From S2P Require Import Prelude CString.
Local Open Scope char_scope.

Definition NR_REG_MAX_NR_REGISTRY_LEN : nat := 128.
Definition NR_REG_MAX_TYPE_LEN : nat := 32.

(** [NR_TOP_LEVEL_REGISTRY] *)
Definition NR_TOP_LEVEL_REGISTRY : cstring := [].

(** ** Types *)

Inductive reg_type : Type :=
| NR_REG_TYPE_CHAR | NR_REG_TYPE_UCHAR | NR_REG_TYPE_INT2 | NR_REG_TYPE_UINT2
| NR_REG_TYPE_INT4 | NR_REG_TYPE_UINT4 | NR_REG_TYPE_INT8 | NR_REG_TYPE_UINT8
| NR_REG_TYPE_DOUBLE | NR_REG_TYPE_BYTES | NR_REG_TYPE_STRING | NR_REG_TYPE_REGISTRY.

#[export] Instance reg_type_eq_dec : EqDecision reg_type.
Proof. solve_decision. Defined.

Definition type_code (t : reg_type) : Z :=
  match t with
  | NR_REG_TYPE_CHAR => 0 | NR_REG_TYPE_UCHAR => 1 | NR_REG_TYPE_INT2 => 2 | NR_REG_TYPE_UINT2 => 3
  | NR_REG_TYPE_INT4 => 4 | NR_REG_TYPE_UINT4 => 5 | NR_REG_TYPE_INT8 => 6 | NR_REG_TYPE_UINT8 => 7
  | NR_REG_TYPE_DOUBLE => 8 | NR_REG_TYPE_BYTES => 9 | NR_REG_TYPE_STRING => 10
  | NR_REG_TYPE_REGISTRY => 11
  end.

Definition typenames : list cstring :=
  [$"char"; $"UCHAR"; $"INT2"; $"UINT2"; $"INT4"; $"UINT4"; $"INT8"; $"UINT8"; $"double"; $"Data";
   $"string"; $"registry"].

Definition nr_reg_type_name (type : Z) : option cstring :=
  if Z.ltb type (type_code NR_REG_TYPE_CHAR) || Z.ltb (type_code NR_REG_TYPE_REGISTRY) type then None
  else typenames !! Z.to_nat type.

(** The status on the left, the type's number on the right. *)
Definition nr_reg_compute_type (typename : cstring) : Z + Z :=
  match index_where (λ n, strcaseeq n typename) typenames with
  | Some i => inr (Z.of_nat i)
  | None => inl (abort_code R_BAD_ARGS)
  end.

(** ** Legal names *)

(** A character that may not appear in a name. *)
Definition bad_char (c : ascii) : bool := isspace c || negb (isprint c) || bool_decide (c = "/").

(** Does [nr_reg_is_valid] return 0?  Its only other status is [R_BAD_ARGS].  The
    name is a string, so looking for its terminator in the first 128 bytes is
    comparing its length with 128. *)
Definition nr_reg_is_valid (name : cstring) : bool :=
  if negb (strlen name <? NR_REG_MAX_NR_REGISTRY_LEN)%nat then false
  else
    let length := strlen name in
    if bool_decide (name !! 0%nat = Some ".") then false
    else if (0 <? strlen name)%nat && bool_decide (name !! (length - 1)%nat = Some ".") then false
    else negb (existsb bad_char name).

(** ** Building names *)

(** One iteration of the loop of [NR_reg_make_registry]. *)
Definition sanitize (c : ascii) : ascii :=
  if isspace c || bool_decide (c = ".") || bool_decide (c = "/") || negb (isprint c) then "_" else c.

(** The status on the left, the name on the right. *)
Definition NR_reg_make_registry (parent child : cstring) : Z + cstring :=
  if negb (nr_reg_is_valid parent) then inl (abort_code R_BAD_ARGS)
  else if bool_decide (child !! 0%nat = Some ".") then inl (abort_code R_BAD_ARGS)
  else
    let plen := strlen parent in
    let clen := strlen child in
    if (NR_REG_MAX_NR_REGISTRY_LEN <? plen + clen + 2)%nat then inl (abort_code R_BAD_ARGS)
    else
      let out := parent ++ (if bool_decide (parent = []) then [] else ["."]) ++ (sanitize <$> child) in
      if (clen =? 0)%nat || bool_decide (child !! (clen - 1)%nat = Some ".")
      then inl (abort_code R_BAD_ARGS)
      else inr out.

Definition nr_c2ru_make_registry (parent child : cstring) : Z + cstring :=
  NR_reg_make_registry parent child.

(** The loop of [NR_reg_make_child_registry]: [rest] is [&descendant[length]]. *)
Fixpoint child_end (rest : cstring) (generation : Z) (length : nat) : option nat :=
  match rest with
  | [] => Some length
  | c :: rest' =>
      if bool_decide (c = ".") && Z.eqb generation 0 then Some length
      else
        let generation := if bool_decide (c = ".") then (generation - 1)%Z else generation in
        if (NR_REG_MAX_NR_REGISTRY_LEN <=? S length)%nat then None
        else child_end rest' generation (S length)
  end.

(** [!strncasecmp(a,b,strlen(a))] *)
Definition strncaseprefix (a b : cstring) : bool :=
  bool_decide (tolower <$> a = tolower <$> take (strlen a) b).

Definition NR_reg_make_child_registry (parent descendant : cstring) (generation : Z) : Z + cstring :=
  let length := strlen parent in
  if negb (strncaseprefix parent descendant) then inl (abort_code R_BAD_ARGS)
  else
    match child_end (drop length descendant) generation length with
    | Some length => inr (take length descendant)
    | None => inl (abort_code R_BAD_ARGS)
    end.

(** ** Ancestors and subtrees *)

(** The parent [nr_reg_set_parent_registries] creates; a name without a period has
    none. *)
Definition parent_of (name : cstring) : option cstring :=
  (λ dot, take dot name) <$> strrchr name ".".

(** The next name whose callbacks [nr_reg_raise_event_recurse] looks up. *)
Definition up (tmp : cstring) : cstring :=
  match strrchr tmp "." with
  | Some c => take c tmp
  | None => []
  end.

(** The test of [nr_reg_local_iter]: is [name] in the subtree of [prefix]? *)
Definition iter_match (prefix name : cstring) : bool :=
  let prefixl := strlen prefix in
  let namel := strlen name in
  (prefixl =? 0)%nat
  || (((namel =? prefixl)%nat || ((prefixl <? namel)%nat && bool_decide (name !! prefixl = Some ".")))
      && strneq prefix name prefixl).

(** The test of [nr_reg_local_find_children], on a name in the subtree. *)
Definition is_child (prefix name : cstring) : bool :=
  let prefixl := strlen prefix in
  ((prefixl =? 0)%nat || bool_decide (name !! prefixl = Some "."))
  && negb (bool_decide (name !! prefixl = None))
  && bool_decide (strchr (drop (prefixl + 1) name) "." = None).

(** What [nr_reg_local_count_children] counts, on a name in the subtree. *)
Definition counts_child (prefix name : cstring) : bool :=
  let prefixl := strlen prefix in
  if bool_decide (name !! prefixl = Some ".") then bool_decide (strchr (drop (prefixl + 1) name) "." = None)
  else negb (bool_decide (name !! 0%nat = None)) && (prefixl =? 0)%nat.

(** The names the events of [name] are raised on, from [name] up to the root. *)
Fixpoint up_chain (fuel : nat) (tmp : cstring) : list cstring :=
  tmp :: match fuel with
         | O => []
         | S fuel' => match tmp with [] => [] | _ :: _ => up_chain fuel' (up tmp) end
         end.
Definition lineage (name : cstring) : list cstring := up_chain (strlen name) name.

(** The names between [name] and the root, both excluded, nearest first: what
    creating [name] has to find or create as registries. *)
Fixpoint ancestors_upto (fuel : nat) (name : cstring) : list cstring :=
  match fuel with
  | O => []
  | S fuel' => match parent_of name with Some p => p :: ancestors_upto fuel' p | None => [] end
  end.
Definition ancestors (name : cstring) : list cstring := ancestors_upto (strlen name) name.

(** ** Facts *)

Section facts.
Implicit Types (p n r : cstring) (c : ascii).

Lemma parent_of_Some n p :
  parent_of n = Some p → ∃ r, n = p ++ "." :: r ∧ "." ∉ r ∧ (length p < length n)%nat.
Proof.
  unfold parent_of. intros (i & (r & Hn & Hr & Hlt)%strrchr_Some & ->)%fmap_Some.
  exists r. split_and!; [done..|]. rewrite length_take. lia.
Qed.

Lemma parent_of_None n : parent_of n = None ↔ "." ∉ n.
Proof. unfold parent_of. by rewrite fmap_None, strrchr_None. Qed.

Lemma parent_of_app p r : "." ∉ r → parent_of (p ++ "." :: r) = Some p.
Proof.
  intros Hr. destruct (parent_of (p ++ "." :: r)) as [q|] eqn:Hq.
  - apply parent_of_Some in Hq as (r' & Heq & Hr' & _). f_equal.
    revert q Heq. induction p as [|c p IH]; intros [|d q] Heq; cbn in Heq; simplify_eq.
    + done.
    + exfalso. apply Hr. set_solver.
    + exfalso. apply Hr'. set_solver.
    + f_equal. by apply IH.
  - apply parent_of_None in Hq. exfalso. apply Hq. set_solver.
Qed.

Lemma up_parent n : up n = default [] (parent_of n).
Proof. unfold up, parent_of. by destruct (strrchr n "."). Qed.

Lemma up_shorter n : n ≠ [] → (length (up n) < length n)%nat.
Proof.
  intros Hn. rewrite up_parent. destruct (parent_of n) as [p|] eqn:Hp; cbn.
  - by apply parent_of_Some in Hp as (r & _ & _ & ?).
  - destruct n; [done|]. cbn. lia.
Qed.

(** Fuel above the length changes nothing. *)
Lemma up_chain_fuel f n : (length n <= f)%nat → up_chain f n = lineage n.
Proof.
  unfold lineage, strlen. revert f.
  induction (Nat.lt_wf_0_projected length n) as [n _ IH]; intros f Hf.
  destruct n as [|c n]; [by destruct f|]. destruct f as [|f]; [cbn in Hf; lia|].
  cbn [length up_chain]. f_equal.
  pose proof (up_shorter (c :: n) ltac:(done)) as Hlt. cbn in Hlt, Hf.
  rewrite (IH _ Hlt f), (IH _ Hlt (length n)) by lia. done.
Qed.

Lemma lineage_unfold n : lineage n = n :: match n with [] => [] | _ :: _ => lineage (up n) end.
Proof.
  destruct n as [|c n]; [done|]. unfold lineage at 1. cbn [strlen length up_chain]. f_equal.
  apply up_chain_fuel. pose proof (up_shorter (c :: n) ltac:(done)) as Hlt. cbn in Hlt |- *. lia.
Qed.

Lemma ancestors_fuel f n : (length n <= f)%nat → ancestors_upto f n = ancestors n.
Proof.
  unfold ancestors, strlen. revert f.
  induction (Nat.lt_wf_0_projected length n) as [n _ IH]; intros f Hf.
  destruct n as [|c n]; [by destruct f|]. destruct f as [|f]; [cbn in Hf; lia|].
  cbn [length ancestors_upto]. destruct (parent_of (c :: n)) as [p|] eqn:Hp; [|done]. f_equal.
  apply parent_of_Some in Hp as (_ & _ & _ & Hlt). cbn in Hlt, Hf.
  rewrite (IH _ Hlt f), (IH _ Hlt (length n)) by lia. done.
Qed.

Lemma ancestors_unfold n :
  ancestors n = match parent_of n with Some p => p :: ancestors p | None => [] end.
Proof.
  destruct n as [|c n]; [done|]. unfold ancestors at 1. cbn [strlen length ancestors_upto].
  destruct (parent_of (c :: n)) as [p|] eqn:Hp; [|done]. f_equal.
  apply ancestors_fuel. apply parent_of_Some in Hp as (_ & _ & _ & Hlt). cbn in Hlt. lia.
Qed.

(** Splitting at a period that is not the last. *)
Lemma list_prefix_dot p q r' r :
  "." ∉ r → q ++ "." :: r = p ++ "." :: r' → p = q ∨ ∃ s, q = p ++ "." :: s.
Proof.
  intros Hr. revert p. induction q as [|c q IH]; intros [|d p] Heq; cbn in Heq; simplify_eq.
  - by left.
  - exfalso. apply Hr. set_solver.
  - right. by exists q.
  - destruct (IH p) as [->|[s ->]]; [done|by left|]. right. by exists s.
Qed.

(** *** Legal names *)

Record valid (n : cstring) : Prop := {
  valid_length : (length n < 128)%nat;
  valid_first : n !! 0%nat ≠ Some ".";
  valid_last : last n ≠ Some ".";
  valid_chars c : c ∈ n → bad_char c = false;
}.

Lemma last_index n : last n = n !! (length n - 1)%nat.
Proof. rewrite last_lookup. by rewrite Nat.sub_1_r. Qed.

Lemma nr_reg_is_valid_spec n : nr_reg_is_valid n = true ↔ valid n.
Proof.
  unfold nr_reg_is_valid, strlen, NR_REG_MAX_NR_REGISTRY_LEN.
  destruct (Nat.ltb_spec (length n) 128) as [Hlen|Hlen]; cbn [negb]; [|split; [done|by intros []; lia]].
  case_bool_decide as Hfst; [split; [done|by intros []]|].
  rewrite <- last_index. destruct (Nat.ltb_spec 0 (length n)) as [Hpos|Hpos]; cbn [andb].
  - case_bool_decide as Hlst; [split; [done|by intros []]|].
    rewrite negb_true_iff, <- not_true_iff_false, existsb_exists. split.
    + intros Hbad. split; [done..|]. intros c Hc. apply not_true_iff_false. intros Hb.
      apply Hbad. exists c. by rewrite <- list_elem_of_In.
    + intros Hv (c & Hc%list_elem_of_In & Hb). by rewrite (valid_chars n Hv c Hc) in Hb.
  - destruct n; [|cbn in Hpos; lia]. split; [|done]. intros _. split; [done..|]. set_solver.
Qed.

Lemma valid_root : valid [].
Proof. split; cbn; [lia|done|done|set_solver]. Qed.

Lemma valid_no_nul n : valid n → no_nul n.
Proof.
  intros Hv. apply Forall_forall. intros c Hc%list_elem_of_In H0.
  pose proof (valid_chars n Hv c) as Hb. unfold bad_char, isprint in Hb. rewrite H0 in Hb.
  rewrite orb_true_r in Hb. specialize (Hb ltac:(by apply list_elem_of_In)). done.
Qed.

Lemma sanitize_good c : bad_char (sanitize c) = false ∧ sanitize c ≠ ".".
Proof.
  unfold sanitize. destruct (_ || _) eqn:Hc; [done|].
  rewrite !orb_false_iff, !bool_decide_eq_false, negb_false_iff in Hc.
  destruct Hc as [[[Hs Hdot] Hslash] Hp]. split; [|done].
  unfold bad_char. by rewrite Hs, Hp, bool_decide_eq_false_2.
Qed.

Lemma sanitize_id c : bad_char c = false → c ≠ "." → sanitize c = c.
Proof.
  unfold bad_char, sanitize. rewrite !orb_false_iff, bool_decide_eq_false.
  intros [[-> ->] Hs] Hd. by rewrite !bool_decide_eq_false_2.
Qed.

Lemma sanitized_no_dot r : "." ∉ sanitize <$> r.
Proof. intros (c & Hc & _)%list_elem_of_fmap. by destruct (sanitize_good c) as [_ ?]. Qed.

(** A registry, a period and a legal component. *)
Definition join p r : cstring := p ++ (if bool_decide (p = []) then [] else ["."]) ++ r.

Lemma join_valid p r :
  valid p → r ≠ [] → "." ∉ r → (∀ c, c ∈ r → bad_char c = false) → (length p + length r + 2 <= 128)%nat →
  valid (join p r).
Proof.
  intros Hp Hr Hdot Hgood Hlen. unfold join. split.
  - rewrite !length_app. case_bool_decide; cbn; lia.
  - destruct p as [|c p]; [|apply (valid_first _ Hp)]. cbn. destruct r as [|c r]; [done|].
    intros [= ->]. set_solver.
  - rewrite !last_app. destruct r as [|x r] using rev_ind; [done|]. rewrite last_snoc.
    intros [= ->]. set_solver.
  - intros c Hc. rewrite !elem_of_app in Hc. destruct Hc as [Hc|[Hc|Hc]].
    + by apply (valid_chars _ Hp).
    + case_bool_decide; [set_solver|]. by apply list_elem_of_singleton in Hc as ->.
    + by apply Hgood.
Qed.

Lemma join_up p r : "." ∉ r → r ≠ [] → up (join p r) = p.
Proof.
  intros Hr Hne. rewrite up_parent. unfold join. case_bool_decide as Hp.
  - subst. rewrite (proj2 (parent_of_None _)); done.
  - cbn. by rewrite parent_of_app.
Qed.

Lemma make_registry_run parent child :
  match NR_reg_make_registry parent child with
  | inr out =>
      nr_reg_is_valid out = true ∧ up out = parent ∧ out ≠ [] ∧
      (Forall (λ c, bad_char c = false ∧ c ≠ ".") child → out = join parent child)
  | inl r =>
      r = R_BAD_ARGS ∧
      (nr_reg_is_valid parent = false ∨ child = [] ∨ child !! 0%nat = Some "." ∨ last child = Some "." ∨
       (128 < length parent + length child + 2)%nat)
  end.
Proof.
  unfold NR_reg_make_registry, strlen, NR_REG_MAX_NR_REGISTRY_LEN.
  change (abort_code R_BAD_ARGS) with R_BAD_ARGS.
  destruct (nr_reg_is_valid parent) eqn:Hv; cbn [negb]; [|by split; [|left]].
  case_bool_decide as Hfst; [tauto|].
  destruct (Nat.ltb_spec 128 (length parent + length child + 2)); [tauto|].
  rewrite <- last_index.
  destruct (Nat.eqb_spec (length child) 0) as [H0|H0]; cbn [orb].
  { split; [done|]. right; left. by apply nil_length_inv. }
  case_bool_decide as Hlst; [tauto|].
  assert (Hne : sanitize <$> child ≠ []) by (by destruct child).
  change (parent ++ _) with (join parent (sanitize <$> child)). split_and!.
  - apply nr_reg_is_valid_spec, join_valid; [by apply nr_reg_is_valid_spec|done|apply sanitized_no_dot| |].
    + intros c (d & -> & _)%list_elem_of_fmap. apply sanitize_good.
    + rewrite length_fmap. lia.
  - by apply join_up; [apply sanitized_no_dot|].
  - unfold join. destruct parent; [by cbn|done].
  - intros Hgood. f_equal. rewrite <- (list_fmap_id child) at 2.
    apply list_fmap_ext. intros i c Hc. rewrite Forall_lookup in Hgood.
    destruct (Hgood i c Hc). by apply sanitize_id.
Qed.

(** a name [NR_reg_make_registry] builds is legal and is a child of the parent it
    was built on, whatever the child's text is; it refuses exactly an illegal parent,
    a child that is empty or begins or ends with a period, and names that do not fit. *)
Theorem make_registry_child parent child :
  match NR_reg_make_registry parent child with
  | inr out =>
      nr_reg_is_valid out = true ∧ up out = parent ∧ out ≠ [] ∧
      (Forall (λ c, bad_char c = false ∧ c ≠ ".") child → out = join parent child)
  | inl r =>
      r = R_BAD_ARGS ∧
      (nr_reg_is_valid parent = false ∨ child = [] ∨ child !! 0%nat = Some "." ∨ last child = Some "." ∨
       (128 < length parent + length child + 2)%nat)
  end.
Proof. apply make_registry_run. Qed.

(** *** Subtrees *)

Lemma iter_match_spec p n : iter_match p n = true ↔ p = [] ∨ n = p ∨ ∃ r, n = p ++ "." :: r.
Proof.
  unfold iter_match, strneq, strlen.
  rewrite orb_true_iff, andb_true_iff, orb_true_iff, andb_true_iff, !bool_decide_eq_true.
  rewrite !Nat.eqb_eq, Nat.ltb_lt, (firstn_all2 p) by done. split.
  - intros [H0|[[Hlen|[Hlen Hdot]] Hpre]]; [by left; apply nil_length_inv| |].
    + right; left. by rewrite Hpre, firstn_all2 by lia.
    + right; right. exists (drop (S (length p)) n). rewrite Hpre at 1.
      by rewrite take_drop_middle.
  - intros [->|[->|[r ->]]]; [by left| |].
    + right. rewrite firstn_all2 by done. tauto.
    + right. rewrite length_app, list_lookup_middle, take_app_length by done. cbn.
      split; [|done]. right. split; [lia|done].
Qed.

Lemma iter_match_refl n : iter_match n n = true.
Proof. apply iter_match_spec. tauto. Qed.

Lemma iter_match_up p n : n ≠ [] → iter_match p n = true ↔ n = p ∨ iter_match p (up n) = true.
Proof.
  intros Hn. rewrite !iter_match_spec, up_parent.
  destruct (parent_of n) as [q|] eqn:Hq; cbn.
  - apply parent_of_Some in Hq as (r & -> & Hr & _). split.
    + intros [->|[->|[r' Heq]]]; [tauto|tauto|].
      destruct (list_prefix_dot p q r' r Hr Heq) as [->|[s ->]]; [tauto|]. right; right; right. eauto.
    + intros [->|[->|[->|[s ->]]]]; [tauto|tauto|right; right; eauto|].
      right; right. exists (s ++ "." :: r). by rewrite <- app_assoc.
  - apply parent_of_None in Hq. split.
    + intros [->|[->|[r ->]]]; [tauto|tauto|]. exfalso. apply Hq. set_solver.
    + intros [->|[->|[<-|[s Hs]]]]; [tauto|tauto|tauto|]. by destruct p.
Qed.

Lemma name_ind (P : cstring → Prop) : P [] → (∀ n, n ≠ [] → P (up n) → P n) → ∀ n, P n.
Proof.
  intros H0 HS n. induction (Nat.lt_wf_0_projected length n) as [n _ IH].
  destruct (decide (n = [])) as [->|Hn]; [done|]. apply HS; [done|]. by apply IH, up_shorter.
Qed.

Lemma lineage_spec p n : p ∈ lineage n ↔ iter_match p n = true.
Proof.
  induction n as [|n Hn IH] using name_ind.
  - rewrite lineage_unfold, list_elem_of_singleton, iter_match_spec.
    split; [by left|]. intros [?|[?|[r Hr]]]; [done|done|]. by destruct p.
  - rewrite lineage_unfold, iter_match_up, <- IH by done. destruct n; [done|].
    rewrite elem_of_cons. by split; intros [?|?]; [left|right|left|right].
Qed.

Lemma lineage_NoDup n : NoDup (lineage n).
Proof.
  induction n as [|n Hn IH] using name_ind; [repeat constructor; set_solver|].
  rewrite lineage_unfold. destruct n as [|c n]; [done|]. constructor; [|done].
  rewrite lineage_spec, iter_match_spec. pose proof (up_shorter (c :: n) Hn) as Hlt.
  intros [?|[Heq|[r Heq]]]; [done| |]; rewrite Heq in Hlt; [lia|].
  rewrite length_app in Hlt. lia.
Qed.

Lemma lineage_ancestors n : n ≠ [] → valid n → lineage n = n :: ancestors n ++ [[]].
Proof.
  intros Hn Hv. assert (Hfirst : n !! 0%nat ≠ Some ".") by apply Hv. clear Hv.
  revert Hn Hfirst. induction n as [|n Hn IH] using name_ind; intros ? Hfirst; [done|].
  rewrite lineage_unfold, ancestors_unfold. destruct n as [|c n]; [done|]. f_equal.
  rewrite up_parent in IH |- *. destruct (parent_of (c :: n)) as [p|] eqn:Hp; [|done]. cbn in IH |- *.
  apply parent_of_Some in Hp as (r & Heq & _ & _).
  destruct p as [|d p]; [by injection Heq as -> _|]. injection Heq as -> _. by apply IH.
Qed.

Lemma not_eq_None_Some_nil n : (n !! 0%nat ≠ None) ↔ n ≠ [].
Proof. by destruct n. Qed.

Lemma is_child_alt p n : p ≠ [] → counts_child p n = is_child p n.
Proof.
  intros Hp. unfold counts_child, is_child, strlen.
  destruct (Nat.eqb_spec (length p) 0) as [H0|H0]; [by apply nil_length_inv in H0|]. cbn [orb].
  case_bool_decide as Hd; cbn [andb]; [|by rewrite andb_false_r].
  rewrite Hd. by rewrite (bool_decide_eq_false_2 (Some "." = None)).
Qed.

(** An immediate child, for the iterating operations: a name whose parent is the
    prefix. *)
Lemma is_child_spec p n :
  valid n → iter_match p n = true → is_child p n = true ↔ n ≠ [] ∧ up n = p.
Proof.
  intros Hv Hm. unfold is_child, strlen.
  rewrite !andb_true_iff, orb_true_iff, negb_true_iff, !bool_decide_eq_true, bool_decide_eq_false.
  rewrite strchr_None, Nat.eqb_eq, up_parent.
  apply iter_match_spec in Hm as [->|[->|[r ->]]].
  - change (length []) with 0%nat. rewrite not_eq_None_Some_nil.
    assert (Hdot : "." ∉ drop (0 + 1) n ↔ parent_of n = None).
    { rewrite parent_of_None. destruct n as [|c n]; [done|]. cbn. rewrite drop_0.
      pose proof (valid_first _ Hv). set_solver. }
    rewrite Hdot. destruct (parent_of n) as [q|] eqn:Hq; cbn; [|tauto].
    apply parent_of_Some in Hq as (r & Heq & _). split; [by intros [_ ?]|].
    intros [_ ->]. subst n. by destruct (valid_first _ Hv).
  - rewrite (lookup_ge_None_2 p (length p)) by done. split; [by intros [[_ ?] _]|]. intros [Hne Hup].
    pose proof (up_shorter p Hne) as Hlt. rewrite up_parent, Hup in Hlt. lia.
  - rewrite list_lookup_middle, drop_app_add' by (done || lia). cbn.
    destruct (decide ("." ∈ r)) as [Hr|Hr].
    + split; [tauto|]. intros [_ Hup]. exfalso.
      destruct (parent_of (p ++ "." :: r)) as [q|] eqn:Hq; cbn in Hup; subst.
      * apply parent_of_Some in Hq as (r' & Heq & Hr' & _).
        apply app_inv_head in Heq. injection Heq as ->. done.
      * apply parent_of_None in Hq. set_solver.
    + rewrite parent_of_app by done. cbn. split; intros _.
      * split; [by destruct p|done].
      * split; [split; [by right|done]|done].
Qed.

Lemma counts_child_spec p n :
  valid n → iter_match p n = true →
  counts_child p n = true ↔ n ≠ [] ∧ (p = [] ∨ up n = p).
Proof.
  intros Hv Hm. destruct (decide (p = [])) as [->|Hp].
  - unfold counts_child. cbn. destruct n as [|c n]; cbn.
    + split; [done|by intros [? _]].
    + case_bool_decide as Hc; [injection Hc as ->; by destruct (valid_first _ Hv)|].
      split; [|done]. intros _. split; [done|by left].
  - rewrite (is_child_alt p n) by done. rewrite is_child_spec by done. tauto.
Qed.

(** *** The name of a descendant's ancestor *)

(** How many periods a string has. *)
Definition dots n : nat := length (filter (λ c, c = ".") n).

Lemma dots_cons c n : dots (c :: n) = ((if decide (c = ".") then 1 else 0) + dots n)%nat.
Proof. unfold dots. rewrite filter_cons. by case_decide. Qed.

Lemma child_end_spec rest g k m :
  child_end rest g k = Some m → (0 <= g)%Z →
  ∃ j, (m = k + j)%nat ∧ (j <= length rest)%nat ∧ (rest !! j = None ∨ rest !! j = Some ".") ∧
    (rest !! j = Some "." → dots (take j rest) = Z.to_nat g) ∧
    (Z.of_nat (dots (take j rest)) <= g)%Z.
Proof.
  revert g k. induction rest as [|c rest IH]; intros g k Hend Hg; cbn [child_end] in Hend.
  { injection Hend as <-. exists 0%nat. split_and!; [lia|cbn; lia|by left|done|cbn; lia]. }
  destruct (bool_decide (c = ".") && (g =? 0)%Z) eqn:Hstop.
  { apply andb_true_iff in Hstop as [->%bool_decide_eq_true ->%Z.eqb_eq]. injection Hend as <-.
    exists 0%nat. split_and!; [lia|cbn; lia|by right|done|cbn; lia]. }
  destruct (NR_REG_MAX_NR_REGISTRY_LEN <=? S k)%nat; [done|].
  apply IH in Hend as (j & -> & Hj & Hat & Hd & Hle).
  - exists (S j). cbn [length lookup list_lookup take]. rewrite dots_cons.
    case_bool_decide; [rewrite decide_True by done|rewrite decide_False by done];
      (split_and!; [lia|lia|done| |lia]); intros H1; specialize (Hd H1); lia.
  - apply andb_false_iff in Hstop. case_bool_decide; [|done].
    destruct Hstop as [?|?%Z.eqb_neq]; [done|lia].
Qed.

Lemma child_end_total rest g k : (k + length rest < 128)%nat → is_Some (child_end rest g k).
Proof.
  revert g k. induction rest as [|c rest IH]; intros g k Hlen; cbn [child_end]; [eauto|].
  cbn in Hlen. destruct (_ && _); [eauto|].
  unfold NR_REG_MAX_NR_REGISTRY_LEN. destruct (Nat.leb_spec 128 (S k)); [lia|]. apply IH. lia.
Qed.

(** for a legal descendant of the parent, [NR_reg_make_child_registry] cuts the
    descendant at the end of a component: the result is the descendant itself or one
    of its ancestors, and has [generation] periods beyond the parent if the descendant
    goes that deep. *)
Theorem make_child_registry_cut parent n generation :
  valid n → iter_match parent n = true → (0 <= generation)%Z →
  ∃ child, NR_reg_make_child_registry parent n generation = inr child ∧
    child `prefix_of` n ∧ parent `prefix_of` child ∧
    (child = n ∨ n !! length child = Some ".") ∧
    (child ≠ n → dots (drop (length parent) child) = Z.to_nat generation) ∧
    (Z.of_nat (dots (drop (length parent) child)) <= generation)%Z.
Proof.
  intros Hv Hm Hg. unfold NR_reg_make_child_registry, strncaseprefix, strlen.
  assert (Hpre : parent = take (length parent) n).
  { apply iter_match_spec in Hm as [->|[->|[r ->]]]; [done|by rewrite firstn_all2|].
    by rewrite take_app_length. }
  rewrite bool_decide_eq_true_2 by (by rewrite <- Hpre). cbn [negb].
  pose proof (valid_length _ Hv) as Hlen. assert (Hle : (length parent <= length n)%nat).
  { rewrite Hpre, length_take. lia. }
  destruct (child_end_total (drop (length parent) n) generation (length parent)) as [m Hend].
  { rewrite length_drop. lia. }
  rewrite Hend. apply child_end_spec in Hend as (j & -> & Hj & Hat & Hd & Hdle); [|done].
  rewrite length_drop in Hj. rewrite lookup_drop in Hat, Hd.
  assert (Htake : take j (drop (length parent) n) = drop (length parent) (take (length parent + j) n)).
  { rewrite skipn_firstn_comm. f_equal. lia. }
  exists (take (length parent + j) n). split_and!; [done|apply prefix_take| | | |].
  - rewrite Hpre at 1. replace (take (length parent) n) with (take (length parent) (take (length parent + j) n)).
    { apply prefix_take. }
    rewrite take_take. f_equal. lia.
  - rewrite length_take, Nat.min_l by lia. destruct Hat as [Hat|Hat]; [left|by right].
    apply take_ge. by apply lookup_ge_None in Hat.
  - intros Hne. rewrite <- Htake. apply Hd. destruct Hat as [Hat|Hat]; [|done].
    exfalso. apply Hne, take_ge. by apply lookup_ge_None in Hat.
  - by rewrite <- Htake.
Qed.

(** the type names and the type numbers determine each other, whatever the case
    the name is written in. *)
Theorem type_name_roundtrip (t : reg_type) (name : cstring) :
  (∃ s, nr_reg_type_name (type_code t) = Some s ∧ nr_reg_compute_type s = inr (type_code t)) ∧
  (nr_reg_compute_type name = inr (type_code t) ↔
   ∃ s, nr_reg_type_name (type_code t) = Some s ∧ strcaseeq s name = true).
Proof.
  split; [destruct t; (eexists; split; [reflexivity|vm_compute; reflexivity])|].
  unfold nr_reg_compute_type. split.
  - destruct (index_where _ _) as [i|] eqn:Hi; [|done]. intros [= Hcode].
    apply index_where_Some in Hi as [(s & Hs & Heq) _]. exists s. split; [|done].
    rewrite <- Hcode. unfold nr_reg_type_name.
    assert (i < 12)%nat by (by apply lookup_lt_Some in Hs).
    destruct (Z.ltb_spec (Z.of_nat i) (type_code NR_REG_TYPE_CHAR)); [cbn in *; lia|].
    destruct (Z.ltb_spec (type_code NR_REG_TYPE_REGISTRY) (Z.of_nat i)); [cbn in *; lia|].
    by rewrite Nat2Z.id.
  - intros (s & Hs & Heq). unfold strcaseeq in Heq. apply bool_decide_eq_true in Heq.
    assert (Hext : index_where (λ n, strcaseeq n name) typenames =
                   index_where (λ n, strcaseeq n s) typenames).
    { unfold strcaseeq. by rewrite Heq. }
    rewrite Hext. clear Hext Heq. destruct t; injection Hs as <-; vm_compute; reflexivity.
Qed.
End facts.

(** ** Instances *)

Lemma make_child_registry_cut_witness :
  ∃ child, NR_reg_make_child_registry $"cfg" $"cfg.net.ip.addr" 1 = inr child ∧
    child `prefix_of` $"cfg.net.ip.addr" ∧ $"cfg" `prefix_of` child ∧
    (child = $"cfg.net.ip.addr" ∨ $"cfg.net.ip.addr" !! length child = Some ".") ∧
    (child ≠ $"cfg.net.ip.addr" → dots (drop (length $"cfg") child) = Z.to_nat 1) ∧
    (Z.of_nat (dots (drop (length $"cfg") child)) <= 1)%Z.
Proof.
  apply make_child_registry_cut; [by apply nr_reg_is_valid_spec|done|lia].
Defined.

Example make_registry_ex : NR_reg_make_registry $"cfg" $"a b/c.d" = inr $"cfg.a_b_c_d".
Proof. reflexivity. Qed.
Example make_child_ex : NR_reg_make_child_registry $"cfg" $"cfg.net.ip.addr" 1 = inr $"cfg.net".
Proof. reflexivity. Qed.
