(* ===== verification/RegState.v ===== *)
(** * The registry's memory

    The globals of the registry (registry_local.c: [nr_registry]; registrycb.c:
    [nr_registry_callbacks]; registry.c: [reg_vtbl]) and the objects they point to:
    the nodes, the callback tables and the callback records.  A node lives in the
    heap and the tables hold its address, so that a node that is freed while a table
    still points to it is a dangling pointer, whose use is undefined.

    The tables are used through the contract of [AssocSpec], with the two
    allocations an insertion makes; [RAssoc] proves r_assoc.c against it. *)

From Stdlib Require Import Ascii.
From S2P Require Import Prelude CString Crc32 AssocSpec RegNames.
Local Open Scope Z_scope.

Abbreviation loc := positive.

(** The destructors the registry stores in its tables. *)
Inductive dtor : Type := nr_reg_rfree | nr_reg_assoc_destroy | nr_reg_info_free.

#[export] Instance dtor_eq_dec : EqDecision dtor.
Proof. solve_decision. Defined.
#[export] Instance reg_entry_eq_dec : EqDecision (entry loc dtor).
Proof. solve_decision. Defined.

Abbreviation atbl := (tbl loc dtor).

(** [nr_scalar_registry_node] (which also stands for registries) and
    [nr_array_registry_node].  A scalar is the value at its type; a double is its 64
    bits.  [data] is the whole buffer, which may be larger than [length]. *)
Inductive node : Type :=
| ScalarNode (type : reg_type) (scalar : Z)
| ArrayNode (type : reg_type) (length : Z) (data : list Z).

Definition node_type (n : node) : reg_type :=
  match n with ScalarNode t _ => t | ArrayNode t _ _ => t end.

(** [nr_reg_cb_info]; [cb] is the address of the callback function. *)
Record nr_reg_cb_info := CbInfo {
  cbi_action : Z;
  cbi_cb : Z;
  cbi_arg : Z;
  cbi_name : cstring;
}.

Inductive obj : Type :=
| ONode (n : node)
| OAssoc (t : atbl)
| OInfo (i : nr_reg_cb_info).

(** A call [cb(cb_arg, action, name)]. *)
Record cb_call := CbCall { call_cb : Z; call_arg : Z; call_action : Z; call_name : cstring }.

Record reg_state := RegState {
  objs : gmap loc obj;
  brk : loc;
  answers : list bool;
  nr_registry : option atbl;
  nr_registry_callbacks : option atbl;
  reg_vtbl : bool;              (* NR_reg_init(NR_REG_MODE_LOCAL) was called *)
  calls : list cb_call;         (* the callback invocations so far *)
}.

(** Before anything was called. *)
Definition reg_initial : reg_state := RegState ∅ 1 [] None None false [].

#[export] Instance reg_alloc : HasAlloc reg_state := {
  alloc_answers := answers;
  set_alloc_answers l s :=
    RegState (objs s) (brk s) l (nr_registry s) (nr_registry_callbacks s) (reg_vtbl s) (calls s);
}.
#[export] Instance reg_alloc_laws : AllocLaws reg_state.
Proof. split; [done|done|by intros []]. Qed.

Abbreviation R := (M reg_state).

(** ** Objects *)

Definition set_objs (f : gmap loc obj → gmap loc obj) (s : reg_state) : reg_state :=
  RegState (f (objs s)) (brk s) (answers s) (nr_registry s) (nr_registry_callbacks s) (reg_vtbl s) (calls s).
Definition add_obj (o : obj) (s : reg_state) : reg_state :=
  RegState (<[brk s := o]> (objs s)) (Pos.succ (brk s)) (answers s) (nr_registry s)
           (nr_registry_callbacks s) (reg_vtbl s) (calls s).
Definition add_call (c : cb_call) (s : reg_state) : reg_state :=
  RegState (objs s) (brk s) (answers s) (nr_registry s) (nr_registry_callbacks s) (reg_vtbl s)
           (calls s ++ [c]).

(** [RCALLOC] of an object, initialised. *)
Definition calloc (o : obj) : R loc :=
  alloc_or_abort;;
  s ← get;
  modify (add_obj o);;
  mret (brk s).

(** [RFREE] of a valid pointer; freeing twice is undefined. *)
Definition rfree (l : loc) : R unit :=
  s ← get;
  match objs s !! l with
  | Some _ => modify (set_objs (delete l))
  | None => undef
  end.

Definition load_node (l : loc) : R node :=
  s ← get; match objs s !! l with Some (ONode n) => mret n | _ => undef end.
Definition store_node (l : loc) (n : node) : R unit :=
  _ ← load_node l; modify (set_objs <[l := ONode n]>).
Definition load_info (l : loc) : R nr_reg_cb_info :=
  s ← get; match objs s !! l with Some (OInfo i) => mret i | _ => undef end.
Definition store_info (l : loc) (i : nr_reg_cb_info) : R unit :=
  _ ← load_info l; modify (set_objs <[l := OInfo i]>).

(** ** Tables *)

(** The two global tables and the per-name callback tables. *)
Inductive tref : Type := TReg | TCbs | TObj (l : loc).

Definition tref_bits (r : tref) : Z := match r with TReg | TCbs => 12 | TObj _ => 5 end.
Definition crc_chain (bits : Z) (k : list Z) : nat :=
  Z.to_nat (default 0 (r_assoc_crc32_hash_compute k bits)).
Definition tref_hash (r : tref) : list Z → nat := crc_chain (tref_bits r).
Definition empty_tab (bits : Z) : atbl := tbl_empty (Z.to_nat (2 ^ bits)).

Definition load_assoc (r : tref) : R atbl :=
  s ← get;
  match r with
  | TReg => from_option_ub (nr_registry s)
  | TCbs => from_option_ub (nr_registry_callbacks s)
  | TObj l => match objs s !! l with Some (OAssoc t) => mret t | _ => undef end
  end.
Definition put_assoc (r : tref) (t : atbl) (s : reg_state) : reg_state :=
  match r with
  | TReg => RegState (objs s) (brk s) (answers s) (Some t) (nr_registry_callbacks s) (reg_vtbl s) (calls s)
  | TCbs => RegState (objs s) (brk s) (answers s) (nr_registry s) (Some t) (reg_vtbl s) (calls s)
  | TObj l => set_objs <[l := OAssoc t]> s
  end.
Definition store_assoc (r : tref) (t : atbl) : R unit := modify (put_assoc r t).

(** Running a stored destructor.  The tables inside callback tables hold records
    only, so destroying one never destroys another. *)
Definition run_leaf (f : option dtor) (l : loc) : R unit :=
  match f with
  | Some (nr_reg_rfree | nr_reg_info_free) => rfree l
  | Some nr_reg_assoc_destroy => undef
  | None => mret ()
  end.
Fixpoint destroy_entries (es : list (entry loc dtor)) : R unit :=
  match es with
  | [] => mret ()
  | e :: es' => run_leaf (e_destroy e) (e_data e);; destroy_entries es'
  end.
Definition assoc_destroy (l : loc) : R unit :=
  t ← load_assoc (TObj l);
  destroy_entries (tbl_elems t);;
  rfree l.
Definition run_dtor (f : option dtor) (l : loc) : R unit :=
  match f with
  | Some nr_reg_assoc_destroy => assoc_destroy l
  | _ => run_leaf f l
  end.

(** [r_assoc_create] for a table of its own: when the chain array cannot be
    allocated its clean-up is undefined ([RAssoc.r_assoc_create_oom]). *)
Definition assoc_create (bits : Z) : R loc :=
  alloc_or_abort;;
  ok ← alloc_ok;
  if (ok : bool) then
    s ← get; modify (add_obj (OAssoc (empty_tab bits)));; mret (brk s)
  else undef.

Definition assoc_fetch (r : tref) (k : list Z) : R loc :=
  t ← load_assoc r;
  match tbl_fetch (tref_hash r) t k with
  | Some e => mret (e_data e)
  | None => abort R_NOT_FOUND
  end.

(** [r_assoc_insert]; [replace] is whether [R_ASSOC_REPLACE] is given. *)
Definition assoc_insert (r : tref) (k : list Z) (d : loc) (ds : dtor) (replace : bool) : R unit :=
  t ← load_assoc r;
  match tbl_fetch (tref_hash r) t k with
  | Some e =>
      if replace then run_dtor (e_destroy e) (e_data e) else abort R_ALREADY
  | None => alloc_or_abort;; alloc_or_abort
  end;;
  store_assoc r (tbl_put (tref_hash r) t (Entry k d None (Some ds))).

Definition assoc_delete (r : tref) (k : list Z) : R unit :=
  t ← load_assoc r;
  match tbl_fetch (tref_hash r) t k with
  | Some e => store_assoc r (tbl_remove (tref_hash r) t k);; run_dtor (e_destroy e) (e_data e)
  | None => abort R_NOT_FOUND
  end.

Definition assoc_num_elements (r : tref) : R Z := t ← load_assoc r; mret (swrap 32 (t_num t)).

(** The name a table key stands for: the bytes before its terminator. *)
Definition key_name (k : list Z) : option cstring :=
  match last k with
  | Some 0 => Some (char_of <$> removelast k)
  | _ => None
  end.

(** ** Facts *)

#[export] Instance crc_chain_spec bits : 0 <= bits < 32 → HashSpec (crc_chain bits) (Z.to_nat (2 ^ bits)).
Proof.
  intros Hb k. unfold crc_chain. rewrite crc32_hash_eq by done. cbn.
  assert (0 < 2 ^ bits) by (apply Z.pow_pos_nonneg; lia).
  pose proof (Z.mod_pos_bound (crc_ref k) (2 ^ bits) ltac:(done)). lia.
Qed.

Lemma empty_tab_ok r : tbl_ok (tref_hash r) (empty_tab (tref_bits r)).
Proof.
  apply tbl_empty_ok. apply crc_chain_spec. destruct r; cbn; lia.
Qed.

Lemma key_name_cbytes n : no_nul n → key_name (cbytes n) = Some n.
Proof.
  intros _. unfold key_name, cbytes. rewrite last_snoc, removelast_last. f_equal.
  rewrite <- list_fmap_compose. rewrite <- (list_fmap_id n) at 2. apply list_fmap_ext.
  intros i c _. apply char_of_uchar.
Qed.
