(* ===== verification/RegCb.v ===== *)
(** * Registry callbacks (src/registry/registrycb.c)

    Registration of callbacks on names, and the events the store raises.  An event on
    a name runs the callbacks registered for its action on the name and on every
    ancestor, up to the root.  A callback itself is the client's code: the model
    records its invocation, and takes it not to call back into the registry. *)

From Stdlib Require Import Ascii.
From S2P Require Import Prelude CString Crc32 AssocSpec RegNames RegState.
Local Open Scope Z_scope.

Definition NR_REG_CB_ACTION_ADD : Z := 1.
Definition NR_REG_CB_ACTION_CHANGE : Z := 2.
Definition NR_REG_CB_ACTION_DELETE : Z := 4.
Definition NR_REG_CB_ACTION_FINAL : Z := 64.

Definition CB_ACTIONS : list Z :=
  [NR_REG_CB_ACTION_ADD; NR_REG_CB_ACTION_DELETE; NR_REG_CB_ACTION_CHANGE; NR_REG_CB_ACTION_FINAL].

Definition nr_reg_action_name (action : Z) : cstring :=
  if action =? NR_REG_CB_ACTION_ADD then $"add"
  else if action =? NR_REG_CB_ACTION_DELETE then $"delete"
  else if action =? NR_REG_CB_ACTION_CHANGE then $"change"
  else if action =? NR_REG_CB_ACTION_FINAL then $"final"
  else $"*Unknown*".

Definition nr_reg_cb_init : R unit :=
  s ← get;
  match nr_registry_callbacks s with
  | Some _ => mret ()
  | None =>
      alloc_or_abort;;
      ok ← alloc_ok;
      if (ok : bool) then store_assoc TCbs (empty_tab 12) else undef
  end.

(** The loop over [CB_ACTIONS]. *)
Definition nr_reg_validate_action (action : Z) : R unit :=
  if existsb (Z.eqb action) CB_ACTIONS then mret () else abort R_BAD_ARGS.

(** [n] bytes of an address, least significant first. *)
Fixpoint le_bytes (n : nat) (z : Z) : list Z :=
  match n with O => [] | S n' => z mod 256 :: le_bytes n' (z / 256) end.

(** The bytes of the callback's address followed by the action. *)
Definition compute_cb_id (cb action : Z) : list Z := le_bytes 8 cb ++ [action mod 256].

(** The clean-up of [nr_reg_register_callback]: with [create_assoc] it passes the
    address of its local pointer, not the table, to [nr_reg_assoc_destroy], which
    takes it for a table. *)
Definition register_cleanup (create_assoc : bool) {A} (m : R A) : R A :=
  if create_assoc then
    r ← catch m; match r with inr a => mret a | inl _ => undef end
  else m.

(** The rest of [nr_reg_register_callback] once the name's table is known. *)
Definition register_info (assoc : loc) (name : cstring) (action cb cb_arg : Z) : R unit :=
  let cb_id := compute_cb_id cb action in
  r ← catch (assoc_fetch (TObj assoc) cb_id);
  match r with
  | inr info => store_info info (CbInfo action cb cb_arg name)
  | inl r =>
      if r =? R_NOT_FOUND then
        info ← calloc (OInfo (CbInfo action cb cb_arg name));
        r ← catch (assoc_insert (TObj assoc) cb_id info nr_reg_info_free false);
        match r with
        | inr _ => mret ()
        | inl r => rfree info;; abort r
        end
      else abort r
  end.

Definition nr_reg_register_callback (name : cstring) (action cb cb_arg : Z) : R unit :=
  if cb =? 0 then abort R_BAD_ARGS
  else
    s ← get;
    match nr_registry_callbacks s with
    | None => abort R_FAILED
    | Some _ =>
        if negb (nr_reg_is_valid name) then abort R_BAD_ARGS
        else
          nr_reg_validate_action action;;
          r ← catch (assoc_fetch TCbs (cbytes name));
          match r with
          | inr assoc => register_info assoc name action cb cb_arg
          | inl r =>
              if r =? R_NOT_FOUND then
                register_cleanup true
                  (assoc ← assoc_create 5;
                   assoc_insert TCbs (cbytes name) assoc nr_reg_assoc_destroy false;;
                   register_info assoc name action cb cb_arg)
              else abort r
          end
    end.

Definition nr_reg_unregister_callback (name : cstring) (action cb : Z) : R unit :=
  if cb =? 0 then abort R_BAD_ARGS
  else
    s ← get;
    match nr_registry_callbacks s with
    | None => abort R_FAILED
    | Some _ =>
        if negb (nr_reg_is_valid name) then abort R_BAD_ARGS
        else
          nr_reg_validate_action action;;
          r ← catch (assoc_fetch TCbs (cbytes name));
          match r with
          | inl r => if r =? R_NOT_FOUND then mret () else abort r
          | inr assoc =>
              r ← catch (assoc_delete (TObj assoc) (compute_cb_id cb action));
              match r with
              | inl r => if r =? R_NOT_FOUND then mret () else abort r
              | inr _ => mret ()
              end;;
              size ← assoc_num_elements (TObj assoc);
              if (size : Z) =? 0 then assoc_delete TCbs (cbytes name) else mret ()
          end
    end.

(** ** Events *)

(** The loop over the callbacks of one name. *)
Fixpoint invoke_all (es : list (entry loc dtor)) (action : Z) (name : cstring) : R unit :=
  match es with
  | [] => mret ()
  | e :: es' =>
      info ← load_info (e_data e);
      (if cbi_action info =? action
       then modify (add_call (CbCall (cbi_cb info) (cbi_arg info) action name))
       else mret ());;
      invoke_all es' action name
  end.

(** The callbacks registered on [tmp]; none is not an error. *)
Definition raise_on (name tmp : cstring) (action : Z) : R unit :=
  r ← catch (assoc_fetch TCbs (cbytes tmp));
  match r with
  | inl r => if r =? R_NOT_FOUND then mret () else abort r
  | inr assoc => t ← load_assoc (TObj assoc); invoke_all (tbl_elems t) action name
  end.

(** [nr_reg_raise_event_recurse] with a non-null [tmp].  Each call shortens [tmp], so
    a fuel above its length is enough. *)
Fixpoint raise_from (fuel : nat) (name tmp : cstring) (action : Z) : R unit :=
  match fuel with
  | O => undef
  | S fuel' =>
      raise_on name tmp action;;
      if (0 <? strlen tmp)%nat then raise_from fuel' name (up tmp) action else mret ()
  end.

(** [nr_reg_raise_event_recurse(name, 0, action)]: works on a copy of the name. *)
Definition nr_reg_raise_event_recurse (name : cstring) (action : Z) : R unit :=
  alloc_or_abort;;
  raise_from (S (strlen name)) name name action.

Definition nr_reg_raise_event (name : cstring) (action : Z) : R unit :=
  nr_reg_validate_action action;;
  count ← assoc_num_elements TCbs;
  if 0 <? (count : Z) then nr_reg_raise_event_recurse name action else mret ().

(** ** The public functions: an action is a set of bits *)

(** The loop over [CB_ACTIONS], and the bits it leaves. *)
Fixpoint each_action (f : Z → R unit) (acts : list Z) (action : Z) : R Z :=
  match acts with
  | [] => mret action
  | a :: acts' =>
      if Z.land action a =? 0 then each_action f acts' action
      else f a;; each_action f acts' (Z.ldiff action a)
  end.

Definition NR_reg_register_callback (name : cstring) (action cb cb_arg : Z) : R unit :=
  rest ← each_action (λ a, nr_reg_register_callback name a cb cb_arg) CB_ACTIONS action;
  if (rest : Z) =? 0 then mret () else abort R_BAD_ARGS.

Definition NR_reg_unregister_callback (name : cstring) (action cb : Z) : R unit :=
  rest ← each_action (λ a, nr_reg_unregister_callback name a cb) CB_ACTIONS action;
  if (rest : Z) =? 0 then mret () else abort R_BAD_ARGS.

(** ** What is registered *)

(** The callback records of one name, in the order they are run. *)
Definition infos (o : gmap loc obj) (t : atbl) : list nr_reg_cb_info :=
  omap (λ e, match o !! e_data e with Some (OInfo i) => Some i | _ => None end) (tbl_elems t).
Definition regs (o : gmap loc obj) (tc : atbl) (name : cstring) : list nr_reg_cb_info :=
  match e ← tbl_fetch (tref_hash TCbs) tc (cbytes name); o !! e_data e with
  | Some (OAssoc t) => infos o t
  | _ => []
  end.
Definition registered (s : reg_state) (name : cstring) : list nr_reg_cb_info :=
  match nr_registry_callbacks s with Some tc => regs (objs s) tc name | None => [] end.

(** The calls an event makes: of the callbacks of one name, and of its lineage. *)
Definition calls_of (action : Z) (name : cstring) (l : list nr_reg_cb_info) : list cb_call :=
  i ← filter (λ i, cbi_action i = action) l; [CbCall (cbi_cb i) (cbi_arg i) action name].
Definition event_calls (s : reg_state) (action : Z) (name : cstring) : list cb_call :=
  p ← lineage name; calls_of action name (registered s p).

(** The table of one name: a record of its own under the identifier of each callback. *)
Record sub_wf (o : gmap loc obj) (t : atbl) : Prop := {
  sw_ok : tbl_ok (crc_chain 5) t;
  sw_num : t_num t = Z.of_nat (length (tbl_elems t)) ∧ t_num t < 2 ^ 31;
  sw_info x : x ∈ tbl_elems t → ∃ i, o !! e_data x = Some (OInfo i) ∧
    e_key x = compute_cb_id (cbi_cb i) (cbi_action i) ∧ 0 <= cbi_cb i < 2 ^ 64 ∧ cbi_action i ∈ CB_ACTIONS;
  sw_destroy x : x ∈ tbl_elems t → e_destroy x = Some nr_reg_info_free;
  sw_ptrs : NoDup (e_data <$> tbl_elems t);
}.

(** The table of the names: a table of its own under each, and no record in two. *)
Record cbs_wf (o : gmap loc obj) (tc : atbl) : Prop := {
  cw_ok : tbl_ok (tref_hash TCbs) tc;
  cw_num : t_num tc = Z.of_nat (length (tbl_elems tc)) ∧ t_num tc < 2 ^ 31;
  cw_destroy e : e ∈ tbl_elems tc → e_destroy e = Some nr_reg_assoc_destroy;
  cw_sub e : e ∈ tbl_elems tc → ∃ t, o !! e_data e = Some (OAssoc t) ∧ sub_wf o t;
  cw_inj e e' : e ∈ tbl_elems tc → e' ∈ tbl_elems tc → e_data e = e_data e' → e = e';
  cw_disj e e' t t' x x' : e ∈ tbl_elems tc → e' ∈ tbl_elems tc → e ≠ e' →
    o !! e_data e = Some (OAssoc t) → o !! e_data e' = Some (OAssoc t') →
    x ∈ tbl_elems t → x' ∈ tbl_elems t' → e_data x ≠ e_data x';
}.

(** The callback tables are well formed. *)
Definition cb_ok (s : reg_state) : Prop :=
  ∃ tc, nr_registry_callbacks s = Some tc ∧ cbs_wf (objs s) tc.

(** A state with more calls made. *)
Definition add_calls (l : list cb_call) (s : reg_state) : reg_state :=
  RegState (objs s) (brk s) (answers s) (nr_registry s) (nr_registry_callbacks s) (reg_vtbl s)
           (calls s ++ l).

(** ** Facts *)

Section facts.
Implicit Types (s : reg_state) (name p : cstring) (es : list (entry loc dtor)).

Lemma cb_ok_wf s tc : cb_ok s → nr_registry_callbacks s = Some tc → cbs_wf (objs s) tc.
Proof. intros (tc' & -> & Hwf). by intros [= ->]. Qed.

Lemma cbs_fetch o tc n e :
  cbs_wf o tc → tbl_fetch (tref_hash TCbs) tc (cbytes n) = Some e →
  e ∈ tbl_elems tc ∧ e_key e = cbytes n ∧ ∃ t, o !! e_data e = Some (OAssoc t) ∧ sub_wf o t.
Proof.
  intros Hwf He. pose proof (tbl_fetch_key _ _ _ _ He) as Hk.
  assert (Hin : e ∈ tbl_elems tc) by (apply (tbl_fetch_elem (tref_hash TCbs)); [apply Hwf|by rewrite Hk]).
  split_and!; [done|done|by apply (cw_sub o tc)].
Qed.

Lemma add_calls_nil s : add_calls [] s = s.
Proof. destruct s. unfold add_calls. cbn. by rewrite app_nil_r. Qed.

Lemma add_calls_app l l' s : add_calls l' (add_calls l s) = add_calls (l ++ l') s.
Proof. unfold add_calls. cbn. by rewrite app_assoc. Qed.

Lemma calls_of_cons action name i l :
  calls_of action name (i :: l) =
    (if decide (cbi_action i = action) then [CbCall (cbi_cb i) (cbi_arg i) action name] else []) ++
    calls_of action name l.
Proof. unfold calls_of. rewrite filter_cons. by case_decide. Qed.

Lemma event_calls_cons s action name p ps :
  (q ← p :: ps; calls_of action name (registered s q)) =
  calls_of action name (registered s p) ++ (q ← ps; calls_of action name (registered s q)).
Proof. done. Qed.

Lemma load_info_ok s l i : objs s !! l = Some (OInfo i) → load_info l s = Ok i s.
Proof. intros Hl. unfold load_info. mstep. by rewrite Hl. Qed.

Lemma invoke_all_spec es action name s :
  (∀ e, e ∈ es → ∃ i, objs s !! e_data e = Some (OInfo i)) →
  invoke_all es action name s =
    Ok () (add_calls (calls_of action name
      (omap (λ e, match objs s !! e_data e with Some (OInfo i) => Some i | _ => None end) es)) s).
Proof.
  revert s. induction es as [|e es IH]; intros s Hes; cbn [invoke_all].
  { cbn. by rewrite add_calls_nil. }
  destruct (Hes e) as [i Hi]; [by left|].
  mstep using load_info_ok. cbn [omap list_omap]. rewrite Hi, calls_of_cons.
  destruct (Z.eqb_spec (cbi_action i) action) as [Ha|Ha].
  - mstep. rewrite decide_True by done.
    change (add_call ?c s) with (add_calls [c] s).
    rewrite IH; [|intros e' He'; apply Hes; by right]. by rewrite add_calls_app.
  - mstep. rewrite decide_False by done.
    rewrite IH; [done|]. intros e' He'. apply Hes. by right.
Qed.

Lemma assoc_fetch_TCbs s tc k :
  nr_registry_callbacks s = Some tc →
  assoc_fetch TCbs k s =
    match tbl_fetch (tref_hash TCbs) tc k with Some e => Ok (e_data e) s | None => Err R_NOT_FOUND s end.
Proof.
  intros Htc. unfold assoc_fetch, load_assoc, mbind, M_bind, get. rewrite Htc. cbn.
  by destruct (tbl_fetch _ tc k).
Qed.

(** The callbacks of one name. *)
Lemma raise_one s tc name p action :
  nr_registry_callbacks s = Some tc → cb_ok s →
  raise_on name p action s = Ok () (add_calls (calls_of action name (registered s p)) s).
Proof.
  intros Htc Hok. pose proof (assoc_fetch_TCbs s tc (cbytes p) Htc) as Hfetch.
  unfold raise_on, registered, regs. rewrite Htc. cbn.
  destruct (tbl_fetch (tref_hash TCbs) tc (cbytes p)) as [e|] eqn:He; cbn.
  - mstep using catch_ok.
    destruct (cbs_fetch _ _ _ _ (cb_ok_wf s tc Hok Htc) He) as (_ & _ & t & Ht & Hsub). rewrite Ht.
    erewrite bind_ok; [|unfold load_assoc; mstep; by rewrite Ht].
    apply invoke_all_spec. intros x Hx. destruct (sw_info _ _ Hsub x Hx) as (i & Hi & _). eauto.
  - mstep using catch_err. cbn. by rewrite add_calls_nil.
Qed.

Lemma cb_ok_add_calls l s : cb_ok s → cb_ok (add_calls l s).
Proof. done. Qed.

Lemma raise_from_spec fuel s tc name p action :
  nr_registry_callbacks s = Some tc → cb_ok s → (length p < fuel)%nat →
  raise_from fuel name p action s =
    Ok () (add_calls (q ← lineage p; calls_of action name (registered s q)) s).
Proof.
  revert p s. induction fuel as [|fuel IH]; intros p s Htc Hok Hf; [lia|].
  cbn [raise_from]. rewrite (lineage_unfold p), event_calls_cons, <- add_calls_app.
  erewrite bind_ok by by eapply raise_one.
  destruct (Nat.ltb_spec 0 (strlen p)) as [Hp|Hp]; unfold strlen in Hp.
  - destruct p as [|c p]; [cbn in Hp; lia|].
    pose proof (up_shorter (c :: p) ltac:(done)) as Hlt.
    rewrite IH; [done|done|by apply cb_ok_add_calls|lia].
  - destruct p; [|cbn in Hp; lia]. cbn. by rewrite add_calls_nil.
Qed.

Lemma registered_root_empty s tc name :
  nr_registry_callbacks s = Some tc → cb_ok s → t_num tc = 0 → registered s name = [].
Proof.
  intros Htc Hok Hnum. unfold registered, regs. rewrite Htc. cbn.
  destruct (tbl_fetch (tref_hash TCbs) tc (cbytes name)) as [e|] eqn:He; [|done]. exfalso.
  pose proof (cb_ok_wf s tc Hok Htc) as Hwf. destruct (cbs_fetch _ _ _ _ Hwf He) as [Hin _].
  destruct (cw_num _ _ Hwf) as [Hlen _]. rewrite Hnum in Hlen.
  destruct (tbl_elems tc); [by apply not_elem_of_nil in Hin|]. cbn in Hlen. lia.
Qed.

Lemma load_assoc_TCbs s tc : nr_registry_callbacks s = Some tc → load_assoc TCbs s = Ok tc s.
Proof. intros Htc. unfold load_assoc. mstep. by rewrite Htc. Qed.

Lemma raise_event_spec s name action :
  cb_ok s → mem_plenty s → action ∈ CB_ACTIONS →
  nr_reg_raise_event name action s = Ok () (add_calls (event_calls s action name) s).
Proof.
  intros Hok Hmem Hact. destruct Hok as (tc & Htc & Hwf). pose proof (cw_num _ _ Hwf) as [Hnum Hbound].
  assert (Hok : cb_ok s) by by exists tc.
  unfold nr_reg_raise_event. erewrite bind_ok.
  2: { unfold nr_reg_validate_action. rewrite (proj2 (existsb_exists _ _)); [done|].
       exists action. rewrite <- list_elem_of_In, Z.eqb_refl. done. }
  erewrite bind_ok.
  2: { unfold assoc_num_elements. mstep using load_assoc_TCbs. done. }
  rewrite swrap_small by (cbn; lia).
  destruct (Z.ltb_spec 0 (t_num tc)).
  - unfold nr_reg_raise_event_recurse. mstep using alloc_or_abort_plenty.
    unfold strlen. erewrite raise_from_spec; [done|done|done|lia].
  - unfold event_calls. replace (p ← lineage name; _) with (@nil cb_call); [by rewrite add_calls_nil|].
    assert (Hz : t_num tc = 0) by lia. induction (lineage name) as [|p ps IH]; [done|].
    rewrite event_calls_cons, <- IH. unfold calls_of.
    by rewrite (registered_root_empty s tc p Htc Hok Hz).
Qed.
End facts.
