(* ===== verification/RegLocal.v ===== *)
(** * The local registry store (src/registry/registry_local.c)

    The operations of the local module, as the code performs them: every node is an
    object in the heap, the global table maps the bytes of a name to the node's
    address, creating a name creates its ancestors through the module table, and
    every change raises an event.  Log messages are not modelled. *)

From Stdlib Require Import Ascii.
From stdpp Require Import sorting.
From S2P Require Import Prelude CString AssocSpec RegNames RegState RegCb.
Local Open Scope Z_scope.

(** ** Values *)

(** A double is given by its 64 bits; [==] on doubles is not equality of bits. *)
Definition dbl_nan (d : Z) : bool := 0x7ff0000000000000 <? Z.land d 0x7fffffffffffffff.
Definition dbl_zero (d : Z) : bool := Z.land d 0x7fffffffffffffff =? 0.
Definition dbl_eq (a b : Z) : bool :=
  negb (dbl_nan a) && negb (dbl_nan b) && ((a =? b) || (dbl_zero a && dbl_zero b)).

(** [!=] at a scalar type. *)
Definition scalar_ne (type : reg_type) (a b : Z) : bool :=
  match type with
  | NR_REG_TYPE_DOUBLE => negb (dbl_eq a b)
  | _ => negb (a =? b)
  end.

Definition is_array (type : reg_type) : bool :=
  match type with NR_REG_TYPE_BYTES | NR_REG_TYPE_STRING => true | _ => false end.

(** What [RCALLOC(sizeof(nr_array_registry_node)+length)] leaves for the data: the
    structure's own tail is four bytes. *)
Definition array_buf (data : list Z) : list Z := data ++ replicate 4 0.

(** ** Fetching *)

Definition nr_reg_fetch_node (name : cstring) (type : reg_type) : R loc :=
  if negb (nr_reg_is_valid name) then abort R_BAD_ARGS
  else
    node ← assoc_fetch TReg (cbytes name);
    n ← load_node node;
    if bool_decide (node_type n = type) then mret node else abort R_FAILED.

Definition nr_reg_get_data (node : loc) : R Z :=
  n ← load_node node;
  match n with
  | ScalarNode NR_REG_TYPE_REGISTRY _ => abort R_INTERNAL
  | ScalarNode type v => if is_array type then abort R_INTERNAL else mret v
  | ArrayNode _ _ _ => abort R_INTERNAL
  end.

Definition nr_reg_get (name : cstring) (type : reg_type) : R Z :=
  node ← nr_reg_fetch_node name type;
  nr_reg_get_data node.

(** [memcpy(out, node->array.data, node->array.length)] *)
Definition read_array (node : loc) (size : Z) : R (list Z) :=
  n ← load_node node;
  match n with
  | ArrayNode _ len buf =>
      if size <? len then abort R_BAD_ARGS
      else if Z.of_nat (length buf) <? len then undef
      else mret (take (Z.to_nat len) buf)
  | ScalarNode _ _ => undef
  end.

Definition nr_reg_get_array (name : cstring) (type : reg_type) (size : Z) : R (list Z) :=
  node ← nr_reg_fetch_node name type;
  read_array node size.

Definition nr_reg_compute_length (name : cstring) (n : node) : Z :=
  match n with
  | ArrayNode NR_REG_TYPE_STRING len _ => wrap 32 (len - 1)
  | ArrayNode _ len _ => len
  | ScalarNode NR_REG_TYPE_CHAR _ => 1
  | ScalarNode NR_REG_TYPE_UCHAR _ => 1
  | ScalarNode (NR_REG_TYPE_INT2 | NR_REG_TYPE_UINT2) _ => 2
  | ScalarNode (NR_REG_TYPE_INT4 | NR_REG_TYPE_UINT4) _ => 4
  | ScalarNode (NR_REG_TYPE_INT8 | NR_REG_TYPE_UINT8) _ => 8
  | ScalarNode NR_REG_TYPE_DOUBLE _ => 8
  | ScalarNode _ _ => Z.of_nat (strlen name)
  end.

Definition fetch_any (name : cstring) : R node :=
  if negb (nr_reg_is_valid name) then abort R_BAD_ARGS
  else node ← assoc_fetch TReg (cbytes name); load_node node.

Definition nr_reg_local_get_length (name : cstring) : R Z :=
  n ← fetch_any name; mret (nr_reg_compute_length name n).

Definition nr_reg_local_get_type (name : cstring) : R cstring :=
  n ← fetch_any name;
  match nr_reg_type_name (type_code (node_type n)) with
  | Some str => mret str
  | None => abort R_BAD_ARGS
  end.

Definition nr_reg_local_get_registry (name : cstring) : R cstring :=
  _ ← nr_reg_fetch_node name NR_REG_TYPE_REGISTRY; mret name.

(** ** Storing *)

Section store.
(** [NR_reg_set_registry], which the store calls back for the parent. *)
Context (set_registry : cstring → R unit).

Definition nr_reg_set_parent_registries (name : cstring) : R unit :=
  alloc_or_abort;;                     (* r_strdup *)
  match parent_of name with
  | Some parent => set_registry parent
  | None => mret ()
  end.

Definition nr_reg_insert_node (name : cstring) (node : loc) : R unit :=
  if negb (nr_reg_is_valid name) then abort R_BAD_ARGS
  else
    assoc_insert TReg (cbytes name) node nr_reg_rfree false;;
    nr_reg_set_parent_registries name;;
    nr_reg_raise_event name NR_REG_CB_ACTION_ADD.

Definition nr_reg_change_node (name : cstring) (node old : loc) : R unit :=
  if negb (nr_reg_is_valid name) then abort R_BAD_ARGS
  else
    (if bool_decide (old = node) then mret ()
     else assoc_insert TReg (cbytes name) node nr_reg_rfree true);;
    nr_reg_raise_event name NR_REG_CB_ACTION_CHANGE.

(** The [switch] of [nr_reg_set]: did the stored value differ? *)
Definition assign_scalar (node : loc) (type : reg_type) (data : Z) : R bool :=
  match type with
  | NR_REG_TYPE_REGISTRY => mret false
  | NR_REG_TYPE_BYTES | NR_REG_TYPE_STRING => abort R_INTERNAL
  | _ =>
      n ← load_node node;
      match n with
      | ScalarNode t v =>
          if scalar_ne type v data then store_node node (ScalarNode t data);; mret true else mret false
      | ArrayNode _ _ _ => undef
      end
  end.

(** A node created by a call that then fails is freed, whether or not it is in the
    table by then. *)
Definition nr_reg_set (name : cstring) (type : reg_type) (data : Z) : R unit :=
  r ← catch (nr_reg_fetch_node name type);
  match r with
  | inr node =>
      changed ← assign_scalar node type data;
      if (changed : bool) then nr_reg_change_node name node node else mret ()
  | inl r =>
      if r =? R_NOT_FOUND then
        node ← calloc (ONode (ScalarNode type 0));
        r ← catch (_ ← assign_scalar node type data; nr_reg_insert_node name node);
        match r with
        | inr _ => mret ()
        | inl r => rfree node;; abort r
        end
      else abort r
  end.

(** [old->array.length != length || memcmp(old->array.data, data, length)] *)
Definition array_differs (old_len : Z) (old_buf data : list Z) : bool :=
  negb (old_len =? Z.of_nat (length data)) || bool_decide (take (length data) old_buf ≠ data).

Definition nr_reg_set_array (name : cstring) (type : reg_type) (data : list Z) : R unit :=
  let len := Z.of_nat (length data) in
  let node_data := ArrayNode type (wrap 32 len) (array_buf data) in
  r ← catch (nr_reg_fetch_node name type);
  match r with
  | inl r =>
      if r =? R_NOT_FOUND then node ← calloc (ONode node_data); nr_reg_insert_node name node
      else abort r
  | inr old =>
      n ← load_node old;
      match n with
      | ArrayNode _ old_len old_buf =>
          if array_differs old_len old_buf data then
            if old_len <? len then
              node ← calloc (ONode node_data);
              nr_reg_change_node name node old
            else
              store_node old (ArrayNode type (wrap 32 len) (data ++ drop (length data) old_buf));;
              nr_reg_change_node name old old
          else mret ()
      | ScalarNode _ _ => undef
      end
  end.
End store.

(** [nr_reg_local_set_registry] and the store call each other through the module
    table; a parent is shorter than its child, so a fuel above the length of the name
    is enough. *)
Fixpoint set_registry_upto (fuel : nat) (name : cstring) : R unit :=
  match fuel with
  | O => undef
  | S fuel' =>
      nr_reg_set
        (λ parent, s ← get; if reg_vtbl s then set_registry_upto fuel' parent else undef)
        name NR_REG_TYPE_REGISTRY 0
  end.

Definition nr_reg_local_set_registry (name : cstring) : R unit :=
  set_registry_upto (S (strlen name)) name.

(** [NR_reg_set_registry]: a call through the null module table is undefined. *)
Definition NR_reg_set_registry (name : cstring) : R unit :=
  s ← get; if reg_vtbl s then nr_reg_local_set_registry name else undef.

Definition nr_reg_local_set_scalar (name : cstring) (type : reg_type) (data : Z) : R unit :=
  nr_reg_set NR_reg_set_registry name type data.
Definition nr_reg_local_set_bytes (name : cstring) (data : list Z) : R unit :=
  nr_reg_set_array NR_reg_set_registry name NR_REG_TYPE_BYTES data.
Definition nr_reg_local_set_string (name data : cstring) : R unit :=
  nr_reg_set_array NR_reg_set_registry name NR_REG_TYPE_STRING (cbytes data).

Definition nr_reg_local_get_bytes (name : cstring) (size : Z) : R (list Z) :=
  nr_reg_get_array name NR_REG_TYPE_BYTES size.
(** The bytes written to [out], the terminator among them. *)
Definition nr_reg_local_get_string (name : cstring) (size : Z) : R (list Z) :=
  nr_reg_get_array name NR_REG_TYPE_STRING size.

(** ** Iterating *)

(** [nr_reg_local_iter]: [action] works on what [ptr] points to.  The entries are
    those of the table when the iteration starts: an action removes at most the entry
    it is given, which an iterator survives ([RAssoc.drain_all_empties]). *)
Section iter.
Context {A : Type}.

Fixpoint iter_entries (prefix : cstring) (action : A → entry loc dtor → cstring → R A)
    (es : list (entry loc dtor)) (ptr : A) : R A :=
  match es with
  | [] => mret ptr
  | e :: es' =>
      match key_name (e_key e) with
      | None => mret ptr
      | Some name =>
          if iter_match prefix name
          then ptr ← action ptr e name; iter_entries prefix action es' ptr
          else iter_entries prefix action es' ptr
      end
  end.

Definition nr_reg_local_iter (prefix : cstring) (action : A → entry loc dtor → cstring → R A)
    (ptr : A) : R A :=
  t ← load_assoc TReg;
  iter_entries prefix action (tbl_elems t) ptr.
End iter.

(** [r_assoc_iter_delete] of the entry just delivered. *)
Definition nr_reg_local_iter_delete (ptr : unit) (e : entry loc dtor) (name : cstring) : R unit :=
  t ← load_assoc TReg;
  store_assoc TReg (tbl_remove (tref_hash TReg) t (e_key e));;
  run_dtor (e_destroy e) (e_data e).

(** [ptr]: the children written so far; [size]: the room the caller has. *)
Definition nr_reg_local_find_children (size : nat) (prefix : cstring) (ptr : list cstring)
    (e : entry loc dtor) (name : cstring) : R (list cstring) :=
  if is_child prefix name then
    if (size <=? length ptr)%nat then undef
    else
      let ptr := ptr ++ [take (NR_REG_MAX_NR_REGISTRY_LEN - 1) name] in
      if (size <=? length ptr)%nat then abort R_INTERRUPTED else mret ptr
  else mret ptr.

Definition nr_reg_local_count_children (prefix : cstring) (ptr : Z) (e : entry loc dtor)
    (name : cstring) : R Z :=
  mret (if counts_child prefix name then wrap 32 (ptr + 1) else ptr).

Definition nr_reg_local_del (name : cstring) : R unit :=
  if negb (nr_reg_is_valid name) then abort R_BAD_ARGS
  else
    nr_reg_local_iter name nr_reg_local_iter_delete ();;
    nr_reg_raise_event name NR_REG_CB_ACTION_DELETE;;
    if strcaseeq name NR_TOP_LEVEL_REGISTRY then nr_reg_local_set_registry NR_TOP_LEVEL_REGISTRY
    else mret ().

Definition nr_reg_local_get_child_count (parent : cstring) : R Z :=
  if negb (nr_reg_is_valid parent) then abort R_BAD_ARGS
  else
    _ ← nr_reg_fetch_node parent NR_REG_TYPE_REGISTRY;
    nr_reg_local_iter parent (nr_reg_local_count_children parent) 0.

(** [qsort] by [strcasecmp]; the order of names that differ in case only is not
    determined by the code. *)
Definition casele (a b : cstring) : Prop := strcasele a b = true.
#[export] Instance casele_dec : RelDecision casele.
Proof. unfold casele. intros a b. apply _. Defined.

Definition nr_reg_local_get_children (parent : cstring) (size : nat) : R (list cstring) :=
  if negb (nr_reg_is_valid parent) then abort R_BAD_ARGS
  else
    r ← catch (nr_reg_local_iter parent (nr_reg_local_find_children size parent) []);
    match r with
    | inr children => mret (merge_sort casele children)
    | inl r => if r =? R_INTERRUPTED then abort R_BAD_ARGS else abort r
    end.

Definition nr_reg_local_fin (name : cstring) : R unit :=
  nr_reg_raise_event name NR_REG_CB_ACTION_FINAL.

(** ** Initialisation *)

Definition nr_reg_local_init : R unit :=
  s ← get;
  match nr_registry s with
  | Some _ => mret ()
  | None =>
      alloc_or_abort;;
      ok ← alloc_ok;
      (if (ok : bool) then store_assoc TReg (empty_tab 12) else undef);;
      nr_reg_cb_init;;
      nr_reg_local_set_registry NR_TOP_LEVEL_REGISTRY
  end.
