(* ===== verification/RegInv.v ===== *)
(** * The registry's invariant

    A well-formed registry: every entry of the table has a legal name for key and
    points to a node of its own, and what is not yet allocated is unused.  The view
    of a state maps names to values; the lemmas say how each access to the table and
    the heap changes it.  [RegSpec] builds the operations' specifications on them. *)

From Stdlib Require Import Ascii.
From S2P Require Import Prelude CString AssocSpec RegNames RegState RegCb RegLocal.
Local Open Scope Z_scope.

(** ** Views *)

Inductive value : Type :=
| VScalar (type : reg_type) (v : Z)
| VArray (type : reg_type) (bytes : list Z).

Definition VRegistry : value := VScalar NR_REG_TYPE_REGISTRY 0.

Definition value_type (v : value) : reg_type :=
  match v with VScalar t _ => t | VArray t _ => t end.

Definition node_value (n : node) : value :=
  match n with
  | ScalarNode t v => VScalar t v
  | ArrayNode t len buf => VArray t (take (Z.to_nat len) buf)
  end.

(** A node's type decides its shape, and an array fits its buffer. *)
Definition node_wf (n : node) : Prop :=
  match n with
  | ScalarNode t v => is_array t = false ∧ (t = NR_REG_TYPE_REGISTRY → v = 0)
  | ArrayNode t len buf => is_array t = true ∧ 0 <= len < 2 ^ 32 ∧ len <= Z.of_nat (length buf)
  end.

Abbreviation reg_hash := (tref_hash TReg).

Definition node_of (t : atbl) (o : gmap loc obj) (n : cstring) : option (loc * node) :=
  e ← tbl_fetch reg_hash t (cbytes n);
  match o !! e_data e with Some (ONode nd) => Some (e_data e, nd) | _ => None end.

Definition ptrs (t : atbl) : list loc := e_data <$> tbl_elems t.

Record tab_wf (t : atbl) (o : gmap loc obj) : Prop := {
  tw_ok : tbl_ok reg_hash t;
  tw_destroy e : e ∈ tbl_elems t → e_destroy e = Some nr_reg_rfree;
  tw_key e : e ∈ tbl_elems t → ∃ n, e_key e = cbytes n ∧ valid n;
  tw_node e : e ∈ tbl_elems t → ∃ nd, o !! e_data e = Some (ONode nd) ∧ node_wf nd;
  tw_ptrs : NoDup (ptrs t);
}.

(** ** The table and the heap *)

Section tables.
Implicit Types (t : atbl) (o : gmap loc obj) (e : entry loc dtor) (n m : cstring) (l : loc).

Lemma node_of_elem t o n l nd :
  tab_wf t o →
  node_of t o n = Some (l, nd) ↔
    ∃ e, e ∈ tbl_elems t ∧ e_key e = cbytes n ∧ e_data e = l ∧ o !! l = Some (ONode nd).
Proof.
  intros Hwf. unfold node_of. split.
  - intros (e & He & Hl)%bind_Some. exists e.
    pose proof (tbl_fetch_key _ _ _ _ He) as Hk. split_and!; [|done|..].
    + apply (tbl_fetch_elem reg_hash); [apply Hwf|]. by rewrite Hk.
    + destruct (o !! e_data e) as [[]|]; by simplify_eq.
    + destruct (o !! e_data e) as [[]|] eqn:Ho; simplify_eq. done.
  - intros (e & He & Hk & <- & Ho).
    apply (tbl_fetch_elem reg_hash) in He; [|apply Hwf]. rewrite Hk in He. rewrite He. cbn. by rewrite Ho.
Qed.

Lemma node_of_fetch t o n :
  tab_wf t o →
  match tbl_fetch reg_hash t (cbytes n) with
  | Some e => ∃ nd, node_of t o n = Some (e_data e, nd) ∧ o !! e_data e = Some (ONode nd) ∧ node_wf nd ∧
                e ∈ tbl_elems t ∧ e_key e = cbytes n ∧ valid n
  | None => node_of t o n = None
  end.
Proof.
  intros Hwf. unfold node_of. destruct (tbl_fetch reg_hash t (cbytes n)) as [e|] eqn:He; [|done].
  pose proof (tbl_fetch_key _ _ _ _ He) as Hk.
  assert (Hin : e ∈ tbl_elems t) by (apply (tbl_fetch_elem reg_hash); [apply Hwf|by rewrite Hk]).
  destruct (tw_node _ _ Hwf e Hin) as (nd & Ho & Hnd). exists nd. cbn. rewrite Ho.
  split_and!; try done. destruct (tw_key _ _ Hwf e Hin) as (n' & Hk' & Hv).
  rewrite Hk in Hk'. by apply cbytes_inj in Hk' as ->.
Qed.

(** Nothing in the table is touched. *)
Lemma tab_wf_frame t o o' :
  tab_wf t o → (∀ l, l ∈ ptrs t → o' !! l = o !! l) →
  tab_wf t o' ∧ ∀ n, node_of t o' n = node_of t o n.
Proof.
  intros Hwf Hsame.
  assert (He : ∀ e, e ∈ tbl_elems t → o' !! e_data e = o !! e_data e)
    by (intros e He; by apply Hsame, list_elem_of_fmap_2).
  split.
  - destruct Hwf as [? ? ? Hnode ?]. split; try done. intros e Hin. rewrite He by done. by apply Hnode.
  - intros n. pose proof (node_of_fetch t o n Hwf) as Hf. unfold node_of in *.
    destruct (tbl_fetch _ _ _) as [e|]; [|done]. destruct Hf as (nd & _ & _ & _ & Hin & _).
    cbn. by rewrite He.
Qed.

(** Two entries that point to the same node are the same entry. *)
Lemma ptr_inj t o e e' :
  tab_wf t o → e ∈ tbl_elems t → e' ∈ tbl_elems t → e_data e = e_data e' → e = e'.
Proof.
  intros Hwf [i Hi]%list_elem_of_lookup [j Hj]%list_elem_of_lookup Heq.
  assert (i = j) as ->; [|congruence].
  apply (NoDup_lookup (ptrs t) _ _ (e_data e)); [apply Hwf|..]; unfold ptrs;
    rewrite list_lookup_fmap, ?Hi, ?Hj; cbn; congruence.
Qed.

Lemma node_of_inj t o n m l nd nd' :
  tab_wf t o → node_of t o n = Some (l, nd) → node_of t o m = Some (l, nd') → n = m.
Proof.
  intros Hwf (e & He & Hk & Hl & _)%node_of_elem (e' & He' & Hk' & Hl' & _)%node_of_elem; [|done..].
  apply cbytes_inj. rewrite <- Hk, <- Hk'. f_equal. eapply ptr_inj; [done..|]. congruence.
Qed.

(** A node is overwritten in place. *)
Lemma tab_wf_update t o n l nd nd' :
  tab_wf t o → node_of t o n = Some (l, nd) → node_wf nd' →
  tab_wf t (<[l := ONode nd']> o) ∧
  ∀ m, node_of t (<[l := ONode nd']> o) m = if decide (m = n) then Some (l, nd') else node_of t o m.
Proof.
  intros Hwf Hn Hnd'.
  assert (Hwf' : tab_wf t (<[l := ONode nd']> o)).
  { destruct Hwf as [? ? ? Hnode ?]. split; try done. intros e He.
    rewrite lookup_insert. case_decide; [eauto|by apply Hnode]. }
  split; [done|]. intros m. apply node_of_elem in Hn as (e & He & Hk & Hl & Ho); [|done].
  case_decide as Hm.
  - subst m. apply node_of_elem; [done|]. exists e. by rewrite lookup_insert_eq.
  - unfold node_of. pose proof (node_of_fetch t o m Hwf) as Hf.
    destruct (tbl_fetch reg_hash t (cbytes m)) as [e'|]; [|done]. cbn.
    destruct Hf as (nd0 & _ & _ & _ & He' & Hk' & _).
    rewrite lookup_insert_ne; [done|]. intros Heq. apply Hm, cbytes_inj.
    rewrite <- Hk, <- Hk'. f_equal. eapply ptr_inj; [done..|]. congruence.
Qed.

Definition reg_entry n l : entry loc dtor := Entry (cbytes n) l None (Some nr_reg_rfree).

(** A new name is entered. *)
Lemma tab_wf_put_new t o n l nd :
  tab_wf t o → node_of t o n = None → valid n → o !! l = Some (ONode nd) → node_wf nd → l ∉ ptrs t →
  tab_wf (tbl_put reg_hash t (reg_entry n l)) o ∧
  ∀ m, node_of (tbl_put reg_hash t (reg_entry n l)) o m =
         if decide (m = n) then Some (l, nd) else node_of t o m.
Proof.
  intros Hwf Hn Hv Ho Hnd Hl.
  assert (Hnone : tbl_fetch reg_hash t (e_key (reg_entry n l)) = None).
  { pose proof (node_of_fetch t o n Hwf) as Hf. cbn. destruct (tbl_fetch _ _ _); [|done].
    destruct Hf as (? & ? & _). congruence. }
  pose proof (tbl_elems_put_new _ _ _ (tw_ok _ _ Hwf) Hnone) as Hperm.
  assert (Hin : ∀ e, e ∈ tbl_elems (tbl_put reg_hash t (reg_entry n l)) ↔ e = reg_entry n l ∨ e ∈ tbl_elems t)
    by (intros e; rewrite Hperm; apply elem_of_cons).
  split.
  - destruct Hwf as [Hok ? ? ? Hptrs]. split.
    + by apply tbl_put_ok.
    + intros e [->|?]%Hin; [done|auto].
    + intros e [->|?]%Hin; [by exists n|auto].
    + intros e [->|?]%Hin; [by exists nd|auto].
    + unfold ptrs in *. rewrite Hperm. by constructor.
  - intros m. unfold node_of. case_decide as Hm.
    + subst m. erewrite (tbl_fetch_put_eq _ t (reg_entry n l)) by apply Hwf. cbn. by rewrite Ho.
    + rewrite tbl_fetch_put_ne; [done|apply Hwf|]. cbn. by intros <-%cbytes_inj.
Qed.

(** The node of a name is replaced, and the old one freed. *)
Lemma tab_wf_put_old t o n old l ndo nd :
  tab_wf t o → node_of t o n = Some (old, ndo) → o !! l = Some (ONode nd) → node_wf nd → l ∉ ptrs t →
  tab_wf (tbl_put reg_hash t (reg_entry n l)) (delete old o) ∧
  ∀ m, node_of (tbl_put reg_hash t (reg_entry n l)) (delete old o) m =
         if decide (m = n) then Some (l, nd) else node_of t o m.
Proof.
  intros Hwf Hn Ho Hnd Hl.
  pose proof (node_of_fetch t o n Hwf) as Hf.
  destruct (tbl_fetch reg_hash t (cbytes n)) as [eo|] eqn:Heo; [|congruence].
  destruct Hf as (nd0 & Hn' & _ & _ & Hin & Hk & Hv). rewrite Hn in Hn'. injection Hn' as -> <-.
  destruct (tbl_elems_put_old _ t (reg_entry n l) eo (tw_ok _ _ Hwf) Heo) as (rest & Hp & Hp').
  assert (Hnd0 : NoDup (e_data eo :: (e_data <$> rest))).
  { change (NoDup (e_data <$> (eo :: rest))). rewrite <- Hp. apply Hwf. }
  assert (Hold : l ≠ e_data eo).
  { intros ->. apply Hl. unfold ptrs. by apply list_elem_of_fmap_2. }
  assert (Hrest : ∀ e, e ∈ rest → e ∈ tbl_elems t ∧ e_data e ≠ e_data eo).
  { intros e He. split; [rewrite Hp; by right|]. intros Heq. inversion Hnd0 as [|? ? Hno _].
    apply Hno. rewrite <- Heq. by apply list_elem_of_fmap_2. }
  split.
  - destruct Hwf as [Hok ? ? Hnode Hptrs]. split.
    + by apply tbl_put_ok.
    + intros e. rewrite Hp'. intros [->|[? _]%Hrest]%elem_of_cons; [done|auto].
    + intros e. rewrite Hp'. intros [->|[? _]%Hrest]%elem_of_cons; [by exists n|auto].
    + intros e. rewrite Hp'. intros [->|[? ?]%Hrest]%elem_of_cons.
      * exists nd. by rewrite lookup_delete_ne.
      * rewrite lookup_delete_ne by done. auto.
    + unfold ptrs. rewrite Hp'. cbn. inversion Hnd0. constructor; [|done].
      intros Hlr. apply Hl. unfold ptrs. rewrite Hp. cbn. by right.
  - intros m. unfold node_of. case_decide as Hm.
    + subst m. erewrite (tbl_fetch_put_eq _ t (reg_entry n l)) by apply Hwf. cbn.
      by rewrite lookup_delete_ne, Ho.
    + rewrite tbl_fetch_put_ne; [|apply Hwf|cbn; by intros <-%cbytes_inj].
      pose proof (node_of_fetch t o m Hwf) as Hfm.
      destruct (tbl_fetch reg_hash t (cbytes m)) as [e|]; [|done]. cbn.
      destruct Hfm as (_ & _ & _ & _ & Hin' & Hk' & _).
      rewrite lookup_delete_ne; [done|]. intros Heq. apply Hm, cbytes_inj.
      rewrite <- Hk, <- Hk'. f_equal. by eapply ptr_inj.
Qed.

(** A name is removed and its node freed. *)
Lemma tab_wf_remove t o n l nd :
  tab_wf t o → node_of t o n = Some (l, nd) →
  tab_wf (tbl_remove reg_hash t (cbytes n)) (delete l o) ∧
  ∀ m, node_of (tbl_remove reg_hash t (cbytes n)) (delete l o) m =
         if decide (m = n) then None else node_of t o m.
Proof.
  intros Hwf Hn. pose proof (node_of_fetch t o n Hwf) as Hf.
  destruct (tbl_fetch reg_hash t (cbytes n)) as [eo|] eqn:Heo; [|congruence].
  destruct Hf as (nd0 & Hn' & _ & _ & Hin & Hk & _). rewrite Hn in Hn'. injection Hn' as -> <-.
  pose proof (tbl_elems_remove _ t (cbytes n) eo (tw_ok _ _ Hwf) Heo) as Hp.
  assert (Hnd0 : NoDup (e_data eo :: (e_data <$> tbl_elems (tbl_remove reg_hash t (cbytes n))))).
  { change (NoDup (e_data <$> (eo :: tbl_elems (tbl_remove reg_hash t (cbytes n))))). rewrite <- Hp.
    apply Hwf. }
  assert (Hrest : ∀ e, e ∈ tbl_elems (tbl_remove reg_hash t (cbytes n)) →
            e ∈ tbl_elems t ∧ e_data e ≠ e_data eo).
  { intros e He. split; [rewrite Hp; by right|]. intros Heq. inversion Hnd0 as [|? ? Hno _].
    apply Hno. rewrite <- Heq. by apply list_elem_of_fmap_2. }
  split.
  - destruct Hwf as [Hok ? ? Hnode Hptrs]. split.
    + by apply tbl_remove_ok.
    + intros e [? _]%Hrest. auto.
    + intros e [? _]%Hrest. auto.
    + intros e [? ?]%Hrest. rewrite lookup_delete_ne by done. auto.
    + by inversion Hnd0.
  - intros m. unfold node_of. case_decide as Hm.
    + subst m. by rewrite tbl_fetch_remove_eq by apply Hwf.
    + rewrite tbl_fetch_remove_ne; [|apply Hwf|by intros ?%cbytes_inj].
      pose proof (node_of_fetch t o m Hwf) as Hfm.
      destruct (tbl_fetch reg_hash t (cbytes m)) as [e|]; [|done]. cbn.
      destruct Hfm as (_ & _ & _ & _ & Hin' & Hk' & _).
      rewrite lookup_delete_ne; [done|]. intros Heq. apply Hm, cbytes_inj.
      rewrite <- Hk, <- Hk'. f_equal. by eapply ptr_inj.
Qed.
End tables.

(** ** States *)

Record reg_wf (s : reg_state) : Prop := {
  rw_tab : ∃ t, nr_registry s = Some t ∧ tab_wf t (objs s);
  rw_fresh l : (brk s <= l)%positive → objs s !! l = None;
}.

Definition node_at (s : reg_state) (n : cstring) : option (loc * node) :=
  t ← nr_registry s; node_of t (objs s) n.

(** What the registry holds. *)
Abbreviation view := (cstring → option value).
Definition reg_view (s : reg_state) : view := λ n, node_value ∘ snd <$> node_at s n.

Definition upd (v : view) (n : cstring) (x : option value) : view :=
  λ m, if decide (m = n) then x else v m.

(** A registry in local mode with enough memory. *)
Record good (s : reg_state) : Prop := {
  g_wf : reg_wf s;
  g_cb : cb_ok s;
  g_mem : mem_plenty s;
  g_vtbl : reg_vtbl s = true;
}.

(** From [s] to [s'] the view becomes [v] and the calls [evs] are made; what is
    registered stays. *)
Record evolves (s s' : reg_state) (v : view) (evs : list cb_call) : Prop := {
  ev_good : good s';
  ev_cbs n : registered s' n = registered s n;
  ev_view n : reg_view s' n = v n;
  ev_calls : calls s' = calls s ++ evs;
}.

(** A node that is in no table. *)
Definition fresh_node (s : reg_state) (l : loc) (nd : node) : Prop :=
  objs s !! l = Some (ONode nd) ∧ ∀ t, nr_registry s = Some t → l ∉ ptrs t.

Section states.
Implicit Types (s : reg_state) (n m : cstring) (l : loc) (nd : node) (v : view).

Lemma event_calls_same s s' a n :
  (∀ p, registered s' p = registered s p) → event_calls s' a n = event_calls s a n.
Proof.
  intros Hsame. unfold event_calls. induction (lineage n) as [|p ps IH]; [done|].
  by rewrite !event_calls_cons, Hsame, IH.
Qed.

Lemma evolves_refl s : good s → evolves s s (reg_view s) [].
Proof. intros Hg. split; [done..|]. by rewrite app_nil_r. Qed.

Lemma evolves_trans s s' s'' v v' evs evs' :
  evolves s s' v evs → evolves s' s'' v' evs' → evolves s s'' v' (evs ++ evs').
Proof.
  intros [? Hcb _ Hc] [? Hcb' ? Hc']. split; [done| |done|].
  - intros n. by rewrite Hcb', Hcb.
  - by rewrite Hc', Hc, app_assoc.
Qed.

Lemma evolves_ext s s' v v' evs : evolves s s' v evs → (∀ n, v' n = v n) → evolves s s' v' evs.
Proof. intros [? ? Hv ?] Heq. split; [done..| |done]. intros n. by rewrite Heq. Qed.

(** Two steps of which the first makes no call. *)
Lemma evolves_then s s' s'' v v' evs :
  evolves s s' v [] → evolves s' s'' v' evs → evolves s s'' v' evs.
Proof. apply evolves_trans. Qed.

(** *** Framing the callback tables *)

Lemma infos_frame o o' (t : atbl) :
  (∀ x, x ∈ tbl_elems t → o' !! e_data x = o !! e_data x) → infos o' t = infos o t.
Proof.
  unfold infos. intros Hsame. induction (tbl_elems t) as [|e es IH]; [done|]. cbn.
  rewrite Hsame by by left. rewrite IH; [done|]. intros e' He'. apply Hsame. by right.
Qed.

(** Tables and records are as they were. *)
Definition same_cbs (o o' : gmap loc obj) : Prop :=
  ∀ l x, o !! l = Some x → (∀ nd, x ≠ ONode nd) → o' !! l = Some x.

Lemma sub_wf_frame o o' t : sub_wf o t → same_cbs o o' → sub_wf o' t ∧ infos o' t = infos o t.
Proof.
  intros [Hok Hnum Hinfo Hd Hp] Hsame.
  assert (Hx : ∀ x, x ∈ tbl_elems t → o' !! e_data x = o !! e_data x).
  { intros x Hx. destruct (Hinfo x Hx) as (i & Hi & _). by rewrite Hi, (Hsame _ _ Hi). }
  split; [|by apply infos_frame]. split; try done. intros x Hin. rewrite Hx by done. by apply Hinfo.
Qed.

Lemma cbs_frame o o' tc :
  cbs_wf o tc → same_cbs o o' → cbs_wf o' tc ∧ ∀ n, regs o' tc n = regs o tc n.
Proof.
  intros Hwf Hsame.
  assert (Hsub : ∀ e, e ∈ tbl_elems tc → o' !! e_data e = o !! e_data e).
  { intros e He. destruct (cw_sub _ _ Hwf e He) as (t & Ht & _). by rewrite Ht, (Hsame _ _ Ht). }
  split.
  - destruct Hwf as [? ? ? Hs ? Hdisj]. split; try done.
    + intros e He. destruct (Hs e He) as (t & Ht & Hw). exists t. rewrite Hsub by done.
      split; [done|]. by eapply sub_wf_frame.
    + intros e e' t t' x x' He He' Hne Ht Ht'. rewrite Hsub in Ht, Ht' by done.
      by apply (Hdisj e e' t t' x x').
  - intros n. unfold regs.
    destruct (tbl_fetch (tref_hash TCbs) tc (cbytes n)) as [e|] eqn:He; [|done]. cbn.
    destruct (cbs_fetch _ _ _ _ Hwf He) as (Hin & _ & t & Ht & Hw). rewrite Hsub, Ht by done.
    by eapply sub_wf_frame.
Qed.

Lemma cb_frame s s' :
  cb_ok s → nr_registry_callbacks s' = nr_registry_callbacks s → same_cbs (objs s) (objs s') →
  cb_ok s' ∧ ∀ n, registered s' n = registered s n.
Proof.
  intros (tc & Htc & Hwf) Hcb Hsame. destruct (cbs_frame _ _ _ Hwf Hsame) as [Hwf' Hregs]. split.
  - exists tc. by rewrite Hcb.
  - intros n. unfold registered. by rewrite Hcb, Htc.
Qed.

(** The general form of a step on the nodes and the table. *)
Lemma evolves_step s (t t' : atbl) o' b' v :
  good s → nr_registry s = Some t → tab_wf t' o' → (∀ l, (b' <= l)%positive → o' !! l = None) →
  (∀ l o, objs s !! l = Some o → (∀ nd, o ≠ ONode nd) → o' !! l = Some o) →
  (∀ n, node_value ∘ snd <$> node_of t' o' n = v n) →
  evolves s (RegState o' b' (answers s) (Some t') (nr_registry_callbacks s) (reg_vtbl s) (calls s)) v [].
Proof.
  intros [Hwf Hcb Hmem Hvt] Ht Hwf' Hb Hsame Hv.
  destruct (cb_frame s (RegState o' b' (answers s) (Some t') (nr_registry_callbacks s) (reg_vtbl s) (calls s)))
    as [Hcb' Hreg]; [done..|].
  split; [split; [split; [by exists t'|done]|done..]|done| |by rewrite app_nil_r].
  intros n. unfold reg_view, node_at. cbn. apply Hv.
Qed.

Lemma good_tab s : good s → ∃ t, nr_registry s = Some t ∧ tab_wf t (objs s).
Proof. by intros [[? _] _ _ _]. Qed.

Lemma ptrs_alloc s t l : good s → nr_registry s = Some t → l ∈ ptrs t → ∃ nd, objs s !! l = Some (ONode nd).
Proof.
  intros Hg Ht Hl. destruct (good_tab s Hg) as (t' & Ht' & Hwf). rewrite Ht in Ht'. injection Ht' as <-.
  apply list_elem_of_fmap in Hl as (e & -> & He). destruct (tw_node _ _ Hwf e He) as (nd & ? & _). eauto.
Qed.

Lemma reg_state_eta s t :
  nr_registry s = Some t →
  s = RegState (objs s) (brk s) (answers s) (Some t) (nr_registry_callbacks s) (reg_vtbl s) (calls s).
Proof. destruct s. cbn. by intros ->. Qed.

(** *** The accesses *)

Lemma calloc_node s nd :
  good s → ∃ s1, calloc (ONode nd) s = Ok (brk s) s1 ∧ evolves s s1 (reg_view s) [] ∧
    fresh_node s1 (brk s) nd.
Proof.
  intros Hg. destruct (good_tab s Hg) as (t & Ht & Hwf).
  exists (add_obj (ONode nd) s). split; [|split].
  - unfold calloc. erewrite bind_ok by apply alloc_or_abort_plenty, Hg. done.
  - pose proof (rw_fresh s (g_wf s Hg) (brk s) (Pos.le_refl _)) as Hb.
    assert (Hp : ∀ l, l ∈ ptrs t → l ≠ brk s).
    { intros l Hl ->. destruct (ptrs_alloc s t (brk s) Hg Ht Hl). congruence. }
    destruct (tab_wf_frame t (objs s) (<[brk s := ONode nd]> (objs s)) Hwf) as [Hwf' Hsame].
    { intros l Hl. rewrite lookup_insert_ne; [done|]. intros Heq. by apply (Hp l). }
    unfold add_obj. rewrite Ht. eapply evolves_step; [done..| | |].
    + intros l Hl. rewrite lookup_insert_ne by lia. apply (g_wf s Hg). lia.
    + intros l o Ho _. rewrite lookup_insert_ne; [done|]. congruence.
    + intros n. unfold reg_view, node_at. rewrite Ht. cbn. by rewrite Hsame.
  - split; [cbn; by rewrite lookup_insert_eq|]. intros t' Ht' Hl. cbn in Ht'.
    pose proof (rw_fresh s (g_wf s Hg) (brk s) (Pos.le_refl _)) as Hb.
    destruct (ptrs_alloc s t' (brk s) Hg Ht' Hl). congruence.
Qed.

Lemma load_node_ok s l nd : objs s !! l = Some (ONode nd) → load_node l s = Ok nd s.
Proof. intros Hl. unfold load_node. mstep. by rewrite Hl. Qed.

Lemma store_node_run s l nd nd' :
  objs s !! l = Some (ONode nd) → store_node l nd' s = Ok () (set_objs <[l := ONode nd']> s).
Proof. intros Hl. unfold store_node. by mstep using load_node_ok. Qed.

Lemma node_at_objs s n l nd : good s → node_at s n = Some (l, nd) → objs s !! l = Some (ONode nd) ∧ node_wf nd ∧ valid n.
Proof.
  intros Hg. destruct (good_tab s Hg) as (t & Ht & Hwf). unfold node_at. rewrite Ht. cbn. intros Hn.
  pose proof (node_of_fetch t (objs s) n Hwf) as Hf.
  destruct (tbl_fetch reg_hash t (cbytes n)); [|congruence].
  destruct Hf as (nd0 & Hn' & ? & ? & _ & _ & ?). rewrite Hn in Hn'. by injection Hn' as -> ->.
Qed.

Lemma store_in_place s n l nd nd' :
  good s → node_at s n = Some (l, nd) → node_wf nd' →
  ∃ s1, store_node l nd' s = Ok () s1 ∧ evolves s s1 (upd (reg_view s) n (Some (node_value nd'))) [] ∧
    node_at s1 n = Some (l, nd').
Proof.
  intros Hg Hn Hnd'. destruct (node_at_objs s n l nd Hg Hn) as (Ho & _ & _).
  destruct (good_tab s Hg) as (t & Ht & Hwf). unfold node_at in Hn. rewrite Ht in Hn. cbn in Hn.
  destruct (tab_wf_update t (objs s) n l nd nd' Hwf Hn Hnd') as [Hwf' Hsame].
  exists (set_objs <[l := ONode nd']> s). split; [by eapply store_node_run|]. split.
  - unfold set_objs. rewrite Ht. eapply evolves_step; [done..| | |].
    + intros l' Hl'. rewrite lookup_insert_ne; [by apply (g_wf s Hg)|]. intros <-.
      pose proof (rw_fresh s (g_wf s Hg) l Hl'). congruence.
    + intros l' o Ho' Hno. rewrite lookup_insert_ne; [done|]. intros <-. rewrite Ho in Ho'.
      injection Ho' as <-. by destruct (Hno nd).
    + intros m. rewrite Hsame. unfold upd, reg_view, node_at. rewrite Ht. cbn. by case_decide.
  - unfold node_at. cbn. rewrite Ht. cbn. rewrite Hsame. by rewrite decide_True.
Qed.

Lemma store_fresh s l nd nd' :
  good s → fresh_node s l nd →
  ∃ s1, store_node l nd' s = Ok () s1 ∧ evolves s s1 (reg_view s) [] ∧ fresh_node s1 l nd'.
Proof.
  intros Hg [Ho Hl]. destruct (good_tab s Hg) as (t & Ht & Hwf). specialize (Hl t Ht).
  destruct (tab_wf_frame t (objs s) (<[l := ONode nd']> (objs s)) Hwf) as [Hwf' Hsame].
  { intros l' Hl'. rewrite lookup_insert_ne; [done|]. by intros <-. }
  exists (set_objs <[l := ONode nd']> s). split; [by eapply store_node_run|]. split.
  - unfold set_objs. rewrite Ht. eapply evolves_step; [done..| | |].
    + intros l' Hl'. rewrite lookup_insert_ne; [by apply (g_wf s Hg)|]. intros <-.
      pose proof (rw_fresh s (g_wf s Hg) l Hl'). congruence.
    + intros l' o Ho' Hno. rewrite lookup_insert_ne; [done|]. intros <-. rewrite Ho in Ho'.
      injection Ho' as <-. by destruct (Hno nd).
    + intros m. rewrite Hsame. unfold reg_view, node_at. by rewrite Ht.
  - split; [cbn; by rewrite lookup_insert_eq|]. cbn. intros t' Ht'. congruence.
Qed.

Lemma load_assoc_TReg s t : nr_registry s = Some t → load_assoc TReg s = Ok t s.
Proof. intros Ht. unfold load_assoc. mstep. by rewrite Ht. Qed.

Lemma insert_new s n l nd :
  good s → fresh_node s l nd → node_wf nd → valid n → reg_view s n = None →
  ∃ s1, assoc_insert TReg (cbytes n) l nr_reg_rfree false s = Ok () s1 ∧
    evolves s s1 (upd (reg_view s) n (Some (node_value nd))) [] ∧ node_at s1 n = Some (l, nd).
Proof.
  intros Hg [Ho Hl] Hnd Hv Hn. destruct (good_tab s Hg) as (t & Ht & Hwf). specialize (Hl t Ht).
  unfold reg_view in Hn. apply fmap_None in Hn. unfold node_at in Hn. rewrite Ht in Hn. cbn in Hn.
  destruct (tab_wf_put_new t (objs s) n l nd Hwf Hn Hv Ho Hnd Hl) as [Hwf' Hsame].
  exists (put_assoc TReg (tbl_put reg_hash t (reg_entry n l)) s). split; [|split].
  - unfold assoc_insert. mstep using load_assoc_TReg.
    pose proof (node_of_fetch t (objs s) n Hwf) as Hf.
    destruct (tbl_fetch (tref_hash TReg) t (cbytes n)); [destruct Hf as (? & ? & _); congruence|].
    erewrite bind_ok; [done|]. erewrite bind_ok by apply alloc_or_abort_plenty, Hg.
    apply alloc_or_abort_plenty, Hg.
  - cbn [put_assoc]. eapply evolves_step; [done..|apply (g_wf s Hg)|done|].
    intros m. rewrite Hsame. unfold upd, reg_view, node_at. rewrite Ht. cbn. by case_decide.
  - unfold node_at. cbn. rewrite Hsame. by rewrite decide_True.
Qed.

Lemma rfree_ok s l o : objs s !! l = Some o → rfree l s = Ok () (set_objs (delete l) s).
Proof. intros Hl. unfold rfree. mstep. by rewrite Hl. Qed.

Lemma insert_replace s n old ndo l nd :
  good s → node_at s n = Some (old, ndo) → fresh_node s l nd → node_wf nd →
  ∃ s1, assoc_insert TReg (cbytes n) l nr_reg_rfree true s = Ok () s1 ∧
    evolves s s1 (upd (reg_view s) n (Some (node_value nd))) [].
Proof.
  intros Hg Hn [Ho Hl] Hnd. destruct (node_at_objs s n old ndo Hg Hn) as (Hold & _ & _).
  destruct (good_tab s Hg) as (t & Ht & Hwf). specialize (Hl t Ht).
  unfold node_at in Hn. rewrite Ht in Hn. cbn in Hn.
  destruct (tab_wf_put_old t (objs s) n old l ndo nd Hwf Hn Ho Hnd Hl) as [Hwf' Hsame].
  exists (put_assoc TReg (tbl_put reg_hash t (reg_entry n l)) (set_objs (delete old) s)). split.
  - unfold assoc_insert. mstep using load_assoc_TReg.
    pose proof (node_of_fetch t (objs s) n Hwf) as Hf.
    destruct (tbl_fetch (tref_hash TReg) t (cbytes n)) as [e|] eqn:He; [|congruence].
    destruct Hf as (nd0 & Hn' & _ & _ & Hin & _). rewrite Hn in Hn'. injection Hn' as -> <-.
    erewrite bind_ok; [done|]. rewrite (tw_destroy _ _ Hwf e Hin). cbn. by eapply rfree_ok.
  - cbn [put_assoc set_objs objs brk answers nr_registry_callbacks reg_vtbl calls].
    eapply evolves_step; [done..| | |].
    + intros l' Hl'. apply lookup_delete_None. right. by apply (g_wf s Hg).
    + intros l' o Ho' Hno. rewrite lookup_delete_ne; [done|]. intros <-. rewrite Hold in Ho'.
      injection Ho' as <-. by destruct (Hno ndo).
    + intros m. rewrite Hsame. unfold upd, reg_view, node_at. rewrite Ht. cbn. by case_decide.
Qed.

Lemma remove_entry s n l nd (e : entry loc dtor) :
  good s → node_at s n = Some (l, nd) → e_key e = cbytes n → e_data e = l → e_destroy e = Some nr_reg_rfree →
  ∃ s1, nr_reg_local_iter_delete () e n s = Ok () s1 ∧ evolves s s1 (upd (reg_view s) n None) [] ∧
    ∀ m, node_at s1 m = if decide (m = n) then None else node_at s m.
Proof.
  intros Hg Hn Hk <- Hd. destruct (node_at_objs s n _ nd Hg Hn) as (Ho & _ & _).
  destruct (good_tab s Hg) as (t & Ht & Hwf). unfold node_at in Hn. rewrite Ht in Hn. cbn in Hn.
  destruct (tab_wf_remove t (objs s) n (e_data e) nd Hwf Hn) as [Hwf' Hsame].
  exists (set_objs (delete (e_data e)) (put_assoc TReg (tbl_remove reg_hash t (cbytes n)) s)). split.
  - unfold nr_reg_local_iter_delete. mstep using load_assoc_TReg.
    unfold store_assoc. mstep. rewrite Hd, Hk. cbn. by eapply rfree_ok.
  - split; [|intros m; unfold node_at; cbn; by rewrite Hsame, Ht].
    unfold set_objs, put_assoc. cbn [objs brk answers nr_registry nr_registry_callbacks reg_vtbl calls].
    eapply evolves_step; [done..| | |].
    + intros l' Hl'. apply lookup_delete_None. right. by apply (g_wf s Hg).
    + intros l' o Ho' Hno. rewrite lookup_delete_ne; [done|]. intros <-. rewrite Ho in Ho'.
      injection Ho' as <-. by destruct (Hno nd).
    + intros m. rewrite Hsame. unfold upd, reg_view, node_at. rewrite Ht. cbn. by case_decide.
Qed.

Lemma raise_good s n a :
  good s → a ∈ CB_ACTIONS →
  ∃ s1, nr_reg_raise_event n a s = Ok () s1 ∧ evolves s s1 (reg_view s) (event_calls s a n).
Proof.
  intros [Hwf Hcb Hmem Hvt] Ha. eexists. split; [by apply raise_event_spec|].
  split; [|done..]. split; [by destruct Hwf|by apply cb_ok_add_calls|done..].
Qed.
End states.
