(* ===== verification/RegSpec.v ===== *)
(** * The registry store's specification

    What the operations of [RegLocal] do to the view of a well-formed registry, and
    which callbacks they run. *)

From Stdlib Require Import Ascii.
From stdpp Require Import sorting.
From S2P Require Import Prelude CString AssocSpec RegNames RegState RegCb RegLocal RegInv.
Local Open Scope Z_scope.

(** ** Paths *)

(** The first names of a path, up to one that exists. *)
Fixpoint missing (v : view) (ps : list cstring) : list cstring :=
  match ps with
  | [] => []
  | p :: ps' => match v p with None => p :: missing v ps' | Some _ => [] end
  end.

(** The path can be created: its names are legal up to one that exists, and that one
    is a registry. *)
Fixpoint creatable (v : view) (ps : list cstring) : Prop :=
  match ps with
  | [] => True
  | p :: ps' =>
      valid p ∧ match v p with
                | None => creatable v ps'
                | Some x => value_type x = NR_REG_TYPE_REGISTRY
                end
  end.

Definition fill (v : view) (ps : list cstring) : view :=
  λ m, if decide (m ∈ ps) then Some VRegistry else v m.

(** The calls of the [ADD] events of several names. *)
Definition add_events (s : reg_state) (ps : list cstring) : list cb_call :=
  p ← ps; event_calls s NR_REG_CB_ACTION_ADD p.

(** What creating [n] does beside entering [n] itself: its missing ancestors, nearest
    first. *)
Definition new_parents (v : view) (n : cstring) : list cstring := missing v (ancestors n).

(** Every name but the root has a registry for parent, and the root is one. *)
Record tree_ok (v : view) : Prop := {
  tree_root : v [] = Some VRegistry;
  tree_parent n x : v n = Some x → n ≠ [] → ∃ y, v (up n) = Some y ∧ value_type y = NR_REG_TYPE_REGISTRY;
}.

(** ** Facts *)

Section paths.
Implicit Types (v : view) (n m p : cstring) (ps : list cstring).

Lemma missing_sub v ps p : p ∈ missing v ps → p ∈ ps ∧ v p = None.
Proof.
  induction ps as [|q ps IH]; cbn; [set_solver|]. destruct (v q) eqn:Hq; [set_solver|].
  intros [->|Hp]%elem_of_cons; [split; [by left|done]|]. destruct (IH Hp). split; [by right|done].
Qed.

Lemma missing_upd v n x ps : n ∉ ps → missing (upd v n x) ps = missing v ps.
Proof.
  intros Hn. induction ps as [|p ps IH]; [done|]. apply not_elem_of_cons in Hn as [Hp Hn]. cbn.
  rewrite IH by done. unfold upd. by rewrite decide_False by done.
Qed.

Lemma creatable_upd v n x ps : n ∉ ps → creatable (upd v n x) ps ↔ creatable v ps.
Proof.
  intros Hn. induction ps as [|p ps IH]; [done|]. apply not_elem_of_cons in Hn as [Hp Hn]. cbn.
  assert (upd v n x p = v p) as -> by (unfold upd; by rewrite decide_False by done).
  destruct (v p); [done|]. by rewrite IH.
Qed.

Lemma missing_ext v v' ps : (∀ m, v m = v' m) → missing v ps = missing v' ps.
Proof. intros Heq. induction ps as [|p ps IH]; [done|]. cbn. by rewrite Heq, IH. Qed.

Lemma creatable_ext v v' ps : (∀ m, v m = v' m) → creatable v' ps → creatable v ps.
Proof. intros Heq. induction ps as [|p ps IH]; [done|]. cbn. rewrite Heq. destruct (v' p); naive_solver. Qed.

Lemma fill_ext v v' ps m : (∀ m, v m = v' m) → fill v ps m = fill v' ps m.
Proof. intros Heq. unfold fill. by rewrite Heq. Qed.

Lemma ancestors_shorter n p : p ∈ ancestors n → (length p < length n)%nat.
Proof.
  induction (Nat.lt_wf_0_projected length n) as [n _ IH]. rewrite ancestors_unfold.
  destruct (parent_of n) as [q|] eqn:Hq; [|set_solver].
  apply parent_of_Some in Hq as (_ & _ & _ & Hlt).
  intros [->|Hp]%elem_of_cons; [done|]. specialize (IH q Hlt Hp). lia.
Qed.

Lemma not_in_ancestors n : n ∉ ancestors n.
Proof. intros H%ancestors_shorter. lia. Qed.

Lemma fill_upd v n x ps m : n ∉ ps → fill (upd v n x) ps m = upd (fill v ps) n x m.
Proof.
  intros Hn. unfold fill, upd. destruct (decide (m = n)) as [->|]; [|done].
  by rewrite decide_False by done.
Qed.

Lemma fill_nil v m : fill v [] m = v m.
Proof. unfold fill. by rewrite decide_False by set_solver. Qed.
End paths.

Section ops.
Implicit Types (s : reg_state) (n m p : cstring) (l : loc) (nd : node) (v : view).

(** *** Fetching *)

Lemma node_type_value nd : value_type (node_value nd) = node_type nd.
Proof. by destruct nd. Qed.

Lemma assoc_fetch_node s n :
  good s →
  assoc_fetch TReg (cbytes n) s =
    match node_at s n with Some (l, _) => Ok l s | None => Err R_NOT_FOUND s end.
Proof.
  intros Hg. destruct (good_tab s Hg) as (t & Ht & Hwf).
  unfold assoc_fetch. mstep using load_assoc_TReg.
  unfold node_at. rewrite Ht. cbn. pose proof (node_of_fetch t (objs s) n Hwf) as Hf.
  destruct (tbl_fetch (tref_hash TReg) t (cbytes n)) as [e|].
  - by destruct Hf as (nd & -> & _).
  - by rewrite Hf.
Qed.

Lemma fetch_node_spec s n ty :
  good s →
  nr_reg_fetch_node n ty s =
    if nr_reg_is_valid n then
      match node_at s n with
      | Some (l, nd) => if decide (node_type nd = ty) then Ok l s else Err R_FAILED s
      | None => Err R_NOT_FOUND s
      end
    else Err R_BAD_ARGS s.
Proof.
  intros Hg. unfold nr_reg_fetch_node. destruct (nr_reg_is_valid n); cbn [negb]; [|done].
  pose proof (assoc_fetch_node s n Hg) as Hfetch.
  destruct (node_at s n) as [[l nd]|] eqn:Hn; [|by erewrite bind_err by done].
  mstep. destruct (node_at_objs s n l nd Hg Hn) as (Ho & _).
  mstep using load_node_ok. case_decide as Hd.
  - by rewrite bool_decide_eq_true_2.
  - by rewrite bool_decide_eq_false_2.
Qed.

Lemma view_node s n x :
  reg_view s n = Some x ↔ ∃ l nd, node_at s n = Some (l, nd) ∧ node_value nd = x.
Proof.
  unfold reg_view. rewrite fmap_Some. split.
  - intros ([l nd] & Hn & ->). eauto.
  - intros (l & nd & Hn & <-). by exists (l, nd).
Qed.

Lemma view_none s n : reg_view s n = None ↔ node_at s n = None.
Proof. unfold reg_view. apply fmap_None. Qed.

Lemma view_valid s n x : good s → reg_view s n = Some x → valid n.
Proof. intros Hg (l & nd & Hn & _)%view_node. by destruct (node_at_objs s n l nd Hg Hn) as (_ & _ & ?). Qed.

(** *** Creating a name and its ancestors *)

(** The contract of the [set_registry] the store calls back. *)
Definition sets_registry (setr : cstring → R unit) p : Prop :=
  ∀ s, good s → creatable (reg_view s) (p :: ancestors p) →
    ∃ s', setr p s = Ok () s' ∧
      evolves s s' (fill (reg_view s) (missing (reg_view s) (p :: ancestors p)))
              (add_events s (reverse (missing (reg_view s) (p :: ancestors p)))).

Lemma add_events_cons s p ps :
  add_events s (p :: ps) = event_calls s NR_REG_CB_ACTION_ADD p ++ add_events s ps.
Proof. done. Qed.

Lemma add_events_same s s' ps :
  (∀ p, registered s' p = registered s p) → add_events s' ps = add_events s ps.
Proof.
  intros Hsame. induction ps as [|p ps IH]; [done|].
  by rewrite !add_events_cons, IH, (event_calls_same s s').
Qed.

Lemma add_events_app s ps qs : add_events s (ps ++ qs) = add_events s ps ++ add_events s qs.
Proof. unfold add_events. by rewrite bind_app. Qed.

Lemma add_events_one s p : add_events s [p] = event_calls s NR_REG_CB_ACTION_ADD p.
Proof. unfold add_events. cbn. by rewrite app_nil_r. Qed.

Lemma insert_node_spec setr s n l nd :
  good s → fresh_node s l nd → node_wf nd → valid n → reg_view s n = None →
  (∀ p, parent_of n = Some p → sets_registry setr p) → creatable (reg_view s) (ancestors n) →
  ∃ s', nr_reg_insert_node setr n l s = Ok () s' ∧
    evolves s s' (upd (fill (reg_view s) (new_parents (reg_view s) n)) n (Some (node_value nd)))
            (add_events s (reverse (n :: new_parents (reg_view s) n))).
Proof.
  intros Hg Hfresh Hnd Hv Hn Hset Hpath.
  destruct (insert_new s n l nd Hg Hfresh Hnd Hv Hn) as (s1 & Hrun1 & Hev1 & _).
  assert (Hparents : ∃ s2, nr_reg_set_parent_registries setr n s1 = Ok () s2 ∧
    evolves s s2 (upd (fill (reg_view s) (new_parents (reg_view s) n)) n (Some (node_value nd)))
            (add_events s (reverse (new_parents (reg_view s) n)))).
  { unfold nr_reg_set_parent_registries, new_parents.
    erewrite bind_ok by apply alloc_or_abort_plenty, (ev_good _ _ _ _ Hev1).
    pose proof (not_in_ancestors n) as Hnot. rewrite ancestors_unfold in Hnot, Hpath |- *.
    destruct (parent_of n) as [p|] eqn:Hp.
    - assert (Hup : ∀ m, reg_view s1 m = upd (reg_view s) n (Some (node_value nd)) m) by apply Hev1.
      assert (Hmiss : missing (reg_view s1) (p :: ancestors p) = missing (reg_view s) (p :: ancestors p)).
      { rewrite <- (missing_upd (reg_view s) n (Some (node_value nd))) by done. by apply missing_ext. }
      destruct (Hset p eq_refl s1) as (s2 & Hrun2 & Hev2); [apply Hev1| |].
      { apply (creatable_ext _ _ _ Hup). by apply creatable_upd. }
      exists s2. split; [done|]. rewrite Hmiss in Hev2.
      rewrite (add_events_same s s1) in Hev2 by apply Hev1.
      eapply evolves_ext; [by eapply evolves_then|]. intros m.
      rewrite <- fill_upd; [by apply fill_ext|]. intros [? _]%missing_sub. done.
    - exists s1. split; [done|]. eapply evolves_ext; [exact Hev1|]. intros m. cbn.
      unfold upd. by rewrite fill_nil. }
  destruct Hparents as (s2 & Hrun2 & Hev2).
  destruct (raise_good s2 n NR_REG_CB_ACTION_ADD) as (s3 & Hrun3 & Hev3);
    [apply Hev2|by left|].
  exists s3. split.
  - unfold nr_reg_insert_node. rewrite (proj2 (nr_reg_is_valid_spec n)) by done. cbn [negb].
    mstep. by mstep.
  - rewrite (event_calls_same s s2) in Hev3 by apply Hev2.
    rewrite reverse_cons, add_events_app, add_events_one.
    eapply evolves_ext; [by eapply evolves_trans|]. intros m. symmetry. apply Hev2.
Qed.

(** What is stored when [data] is assigned over [old]: the two differ only for
    doubles that are equal without being identical. *)
Definition stored (ty : reg_type) (old data : Z) : Z := if scalar_ne ty old data then data else old.

Definition is_scalar (ty : reg_type) : bool :=
  match ty with
  | NR_REG_TYPE_BYTES | NR_REG_TYPE_STRING | NR_REG_TYPE_REGISTRY => false
  | _ => true
  end.

Lemma assign_scalar_run s ty l (v data : Z) :
  objs s !! l = Some (ONode (ScalarNode ty v)) → is_scalar ty = true →
  assign_scalar l ty data s =
    if scalar_ne ty v data then Ok true (set_objs <[l := ONode (ScalarNode ty data)]> s) else Ok false s.
Proof.
  intros Ho Hty. assert (Hcase : ∀ (m : R bool), m =
      (n ← load_node l;
       match n with
       | ScalarNode t v => if scalar_ne ty v data then store_node l (ScalarNode t data);; mret true else mret false
       | ArrayNode _ _ _ => undef
       end) →
    m s = if scalar_ne ty v data then Ok true (set_objs <[l := ONode (ScalarNode ty data)]> s) else Ok false s).
  { intros m ->. mstep using load_node_ok. cbn beta iota.
    destruct (scalar_ne ty v data); [|done].
    by erewrite bind_ok by by eapply store_node_run. }
  apply Hcase. by destruct ty.
Qed.

Lemma assign_fresh s ty l data :
  good s → fresh_node s l (ScalarNode ty 0) → is_array ty = false → (ty = NR_REG_TYPE_REGISTRY → data = 0) →
  ∃ b s1, assign_scalar l ty data s = Ok b s1 ∧ evolves s s1 (reg_view s) [] ∧
    fresh_node s1 l (ScalarNode ty (stored ty 0 data)).
Proof.
  intros Hg Hfresh Harr Hreg. destruct (decide (ty = NR_REG_TYPE_REGISTRY)) as [->|Hne].
  - rewrite Hreg by done. exists false, s. split_and!; [done|by apply evolves_refl|exact Hfresh].
  - assert (Hty : is_scalar ty = true) by (by destruct ty).
    pose proof (assign_scalar_run s ty l 0 data (proj1 Hfresh) Hty) as Hrun.
    unfold stored. destruct (scalar_ne ty 0 data).
    + destruct (store_fresh s l (ScalarNode ty 0) (ScalarNode ty data) Hg Hfresh) as (s1 & Hs & Hev & Hf).
      erewrite store_node_run in Hs by apply Hfresh. injection Hs as <-. eauto.
    + exists false, s. split_and!; [done|by apply evolves_refl|done].
Qed.

(** [nr_reg_set] of a name that is not there. *)
Lemma nr_reg_set_creates setr s n ty data :
  good s → valid n → is_array ty = false → (ty = NR_REG_TYPE_REGISTRY → data = 0) →
  reg_view s n = None → (∀ p, parent_of n = Some p → sets_registry setr p) →
  creatable (reg_view s) (ancestors n) →
  ∃ s', nr_reg_set setr n ty data s = Ok () s' ∧
    evolves s s' (upd (fill (reg_view s) (new_parents (reg_view s) n)) n (Some (VScalar ty (stored ty 0 data))))
            (add_events s (reverse (n :: new_parents (reg_view s) n))).
Proof.
  intros Hg Hv Harr Hreg Hn Hset Hpath.
  destruct (calloc_node s (ScalarNode ty 0) Hg) as (s1 & Hrun1 & Hev1 & Hfresh1).
  destruct (assign_fresh s1 ty (brk s) data) as (b & s2 & Hrun2 & Hev2 & Hfresh2);
    [apply Hev1|done|done|done|].
  assert (Hview : ∀ m, reg_view s2 m = reg_view s m).
  { intros m. rewrite (ev_view _ _ _ _ Hev2). apply Hev1. }
  pose proof (evolves_trans _ _ _ _ _ _ _ Hev1 Hev2) as Hev12. cbn in Hev12.
  destruct (insert_node_spec setr s2 n (brk s) (ScalarNode ty (stored ty 0 data)))
    as (s3 & Hrun3 & Hev3); [apply Hev2|done| |done|by rewrite Hview|done| |].
  { split; [done|]. intros ->. rewrite Hreg by done. done. }
  { by apply (creatable_ext _ _ _ Hview). }
  exists s3. split.
  - unfold nr_reg_set. erewrite bind_ok.
    2: { apply catch_err. rewrite fetch_node_spec by done.
         rewrite (proj2 (nr_reg_is_valid_spec n)) by done. rewrite (proj1 (view_none s n) Hn). done. }
    cbn beta iota. change (R_NOT_FOUND =? R_NOT_FOUND) with true. cbn iota.
    mstep. erewrite bind_ok; [|apply catch_ok; by mstep]. done.
  - assert (Hnp : new_parents (reg_view s2) n = new_parents (reg_view s) n)
      by by apply missing_ext.
    rewrite Hnp, (add_events_same s s2) in Hev3 by apply Hev12.
    eapply evolves_ext; [by eapply evolves_then|]. intros m. unfold upd. case_decide; [done|].
    by apply fill_ext.
Qed.

Lemma fill_cons v p ps m : fill v (p :: ps) m = upd (fill v ps) p (Some VRegistry) m.
Proof.
  unfold fill, upd. destruct (decide (m = p)) as [->|Hne].
  - by rewrite decide_True by by left.
  - by rewrite (decide_ext (m ∈ p :: ps) (m ∈ ps)) by set_solver.
Qed.

(** A registry that exists is left alone; otherwise it is created with its missing
    ancestors. *)
Lemma set_registry_upto_spec fuel p : (length p < fuel)%nat → sets_registry (set_registry_upto fuel) p.
Proof.
  revert p. induction fuel as [|fuel IH]; intros p Hf s Hg [Hv Hpath]; [lia|].
  cbn [set_registry_upto missing]. destruct (reg_view s p) as [x|] eqn:Hx.
  - exists s. split; [|eapply evolves_ext; [by apply evolves_refl|]; intros m; by rewrite fill_nil].
    apply view_node in Hx as (l & nd & Hn & <-). rewrite node_type_value in Hpath.
    unfold nr_reg_set. erewrite bind_ok.
    2: { apply catch_ok. rewrite fetch_node_spec by done.
         rewrite (proj2 (nr_reg_is_valid_spec p)), Hn, decide_True by done. done. }
    done.
  - destruct (nr_reg_set_creates
      (λ parent, s ← get; if reg_vtbl s then set_registry_upto fuel parent else undef)
      s p NR_REG_TYPE_REGISTRY 0) as (s' & Hrun & Hev); [done..| |done|].
    { intros q Hq s1 Hg1 Hpath1. mstep. rewrite (g_vtbl s1 Hg1).
      apply (IH q); [|done|done]. apply parent_of_Some in Hq as (_ & _ & _ & ?). lia. }
    exists s'. split; [done|]. eapply evolves_ext; [exact Hev|]. intros m. apply fill_cons.
Qed.

Lemma NR_reg_set_registry_spec p : sets_registry NR_reg_set_registry p.
Proof.
  intros s Hg Hpath. unfold NR_reg_set_registry. mstep. rewrite (g_vtbl s Hg).
  apply set_registry_upto_spec; [unfold strlen; lia|done..].
Qed.

(** *** Changing a name *)

Lemma change_in_place s n l nd nd' :
  good s → node_at s n = Some (l, nd) → node_wf nd' →
  ∃ s', (_ ← store_node l nd'; nr_reg_change_node n l l) s = Ok () s' ∧
    evolves s s' (upd (reg_view s) n (Some (node_value nd'))) (event_calls s NR_REG_CB_ACTION_CHANGE n).
Proof.
  intros Hg Hn Hnd'. destruct (node_at_objs s n l nd Hg Hn) as (_ & _ & Hv).
  destruct (store_in_place s n l nd nd' Hg Hn Hnd') as (s1 & Hrun1 & Hev1 & _).
  destruct (raise_good s1 n NR_REG_CB_ACTION_CHANGE) as (s2 & Hrun2 & Hev2); [apply Hev1|set_solver|].
  exists s2. split.
  - mstep. unfold nr_reg_change_node.
    rewrite (proj2 (nr_reg_is_valid_spec n)), bool_decide_eq_true_2 by done. cbn [negb].
    by mstep.
  - rewrite (event_calls_same s s1) in Hev2 by apply Hev1.
    eapply evolves_ext; [by eapply evolves_then|]. intros m. symmetry. apply Hev1.
Qed.

(** [nr_reg_local_set_*] for scalars. A name that is not there is entered, with a
    registry for each of its missing ancestors, and an [ADD] event is raised on each
    new name, outermost first; a name of the same type gets the new value, with a
    [CHANGE] event exactly when the value differs; a name of another type is refused.
    Nothing else changes. *)
Lemma set_scalar_run s n ty data :
  good s → valid n → is_scalar ty = true →
  match reg_view s n with
  | None =>
      creatable (reg_view s) (ancestors n) →
      ∃ s', nr_reg_local_set_scalar n ty data s = Ok () s' ∧
        evolves s s'
          (upd (fill (reg_view s) (new_parents (reg_view s) n)) n (Some (VScalar ty (stored ty 0 data))))
          (add_events s (reverse (n :: new_parents (reg_view s) n)))
  | Some (VScalar ty' old) =>
      if decide (ty' = ty) then
        ∃ s', nr_reg_local_set_scalar n ty data s = Ok () s' ∧
          evolves s s' (upd (reg_view s) n (Some (VScalar ty (stored ty old data))))
            (if scalar_ne ty old data then event_calls s NR_REG_CB_ACTION_CHANGE n else [])
      else nr_reg_local_set_scalar n ty data s = Err R_FAILED s
  | Some (VArray _ _) => nr_reg_local_set_scalar n ty data s = Err R_FAILED s
  end.
Proof.
  intros Hg Hv Hty. destruct (reg_view s n) as [x|] eqn:Hx.
  2: { intros Hpath. apply nr_reg_set_creates; try done; [by destruct ty|by intros ->|].
       intros p _. apply NR_reg_set_registry_spec. }
  apply view_node in Hx as (l & nd & Hn & <-). pose proof (node_at_objs s n l nd Hg Hn) as (Ho & Hnd & _).
  assert (Hother : node_type nd ≠ ty → nr_reg_local_set_scalar n ty data s = Err R_FAILED s).
  { intros Hne. unfold nr_reg_local_set_scalar, nr_reg_set. erewrite bind_ok.
    2: { apply catch_err. rewrite fetch_node_spec by done.
         by rewrite (proj2 (nr_reg_is_valid_spec n)), Hn, decide_False by done. }
    done. }
  destruct nd as [ty' old|ty' len buf]; cbn [node_value node_type] in *.
  2: { apply Hother. intros ->. by destruct Hnd as [Harr _], ty. }
  case_decide as Heq; [subst ty'|by apply Hother].
  assert (Hrun : nr_reg_local_set_scalar n ty data s =
    (changed ← assign_scalar l ty data; if (changed : bool) then nr_reg_change_node n l l else mret ()) s).
  { unfold nr_reg_local_set_scalar, nr_reg_set. erewrite bind_ok.
    2: { apply catch_ok. rewrite fetch_node_spec by done.
         by rewrite (proj2 (nr_reg_is_valid_spec n)), Hn, decide_True by done. }
    done. }
  rewrite Hrun. pose proof (assign_scalar_run s ty l old data Ho Hty) as Hassign. unfold stored.
  destruct (scalar_ne ty old data); erewrite bind_ok by exact Hassign.
  - destruct (change_in_place s n l (ScalarNode ty old) (ScalarNode ty data)) as (s' & Hs' & Hev);
      [done|done|split; [by destruct ty|by intros ->]|].
    exists s'. split; [|done]. erewrite bind_ok in Hs' by by eapply store_node_run. done.
  - exists s. split; [done|]. eapply evolves_ext; [by apply evolves_refl|]. intros m.
    unfold upd. case_decide; [|done]. subst m. symmetry. apply view_node. by exists l, (ScalarNode ty old).
Qed.

(** *** Reading *)

Lemma stored_spec ty old data :
  (ty ≠ NR_REG_TYPE_DOUBLE → stored ty old data = data) ∧
  (ty = NR_REG_TYPE_DOUBLE →
   stored ty old data = data ∨ dbl_zero (stored ty old data) = true ∧ dbl_zero data = true).
Proof.
  unfold stored. split.
  - intros Hne. assert (Hs : ∀ a b, scalar_ne ty a b = negb (a =? b)) by (intros; by destruct ty).
    rewrite Hs. by destruct (Z.eqb_spec old data).
  - intros ->. cbn [scalar_ne]. destruct (dbl_eq old data) eqn:Heq; cbn [negb]; [|by left].
    unfold dbl_eq in Heq. apply andb_true_iff in Heq as [_ [Heq|[? ?]%andb_true_iff]%orb_true_iff]; [|by right].
    left. by apply Z.eqb_eq in Heq.
Qed.

(** [nr_reg_local_get_*] for scalars: the value under a legal name of the right
    type, and the error that tells the three other cases apart; reading changes
    nothing. *)
Lemma get_scalar_run s n ty :
  good s → is_scalar ty = true →
  nr_reg_get n ty s =
    if nr_reg_is_valid n then
      match reg_view s n with
      | None => Err R_NOT_FOUND s
      | Some (VScalar ty' w) => if decide (ty' = ty) then Ok w s else Err R_FAILED s
      | Some (VArray _ _) => Err R_FAILED s
      end
    else Err R_BAD_ARGS s.
Proof.
  intros Hg Hty. unfold nr_reg_get. pose proof (fetch_node_spec s n ty Hg) as Hf.
  destruct (nr_reg_is_valid n); [|by erewrite bind_err by done].
  unfold reg_view. destruct (node_at s n) as [[l nd]|] eqn:Hn; cbn; [|by erewrite bind_err by done].
  destruct (node_at_objs s n l nd Hg Hn) as (Ho & Hnd & _).
  destruct nd as [ty' w|ty' len buf]; cbn in Hf |- *.
  - case_decide as Hd; [subst ty'|by erewrite bind_err by done].
    mstep. unfold nr_reg_get_data. mstep using load_node_ok.
    by destruct ty.
  - destruct Hnd as [Harr _]. rewrite decide_False in Hf by (intros ->; by destruct ty).
    by erewrite bind_err by done.
Qed.

(** What was set is what is read back, whatever was there before; a double zero
    may come back with the other sign. *)
Theorem get_after_set s n ty data s' :
  good s → valid n → is_scalar ty = true →
  creatable (reg_view s) (n :: ancestors n) ∨ value_type <$> reg_view s n = Some ty →
  nr_reg_local_set_scalar n ty data s = Ok () s' →
  ∃ w, nr_reg_get n ty s' = Ok w s' ∧
    (ty ≠ NR_REG_TYPE_DOUBLE → w = data) ∧
    (ty = NR_REG_TYPE_DOUBLE → w = data ∨ dbl_zero w = true ∧ dbl_zero data = true).
Proof.
  intros Hg Hv Hty Hpre Hset. pose proof (set_scalar_run s n ty data Hg Hv Hty) as Hspec.
  assert (Hget : ∀ old s1 v' evs, nr_reg_local_set_scalar n ty data s = Ok () s1 →
    evolves s s1 (upd v' n (Some (VScalar ty (stored ty old data)))) evs →
    nr_reg_get n ty s' = Ok (stored ty old data) s').
  { intros old s1 v' evs Hrun Hev. rewrite Hset in Hrun. injection Hrun as <-.
    rewrite get_scalar_run by (done || apply Hev).
    rewrite (proj2 (nr_reg_is_valid_spec n)), (ev_view _ _ _ _ Hev) by done.
    unfold upd. by rewrite !decide_True by done. }
  destruct (reg_view s n) as [[ty' old|ty' bs]|] eqn:Hx.
  - case_decide as Heq.
    + destruct Hspec as (s1 & Hrun & Hev). eexists. split; [by eapply Hget|apply stored_spec].
    + rewrite Hspec in Hset. done.
  - rewrite Hspec in Hset. done.
  - destruct Hspec as (s1 & Hrun & Hev).
    { destruct Hpre as [[_ Hpath]|?]; [by rewrite Hx in Hpath|done]. }
    eexists. split; [by eapply Hget|apply stored_spec].
Qed.

(** *** Byte strings *)

Lemma array_differs_spec len buf (data : list Z) :
  0 <= len <= Z.of_nat (length buf) →
  array_differs len buf data = negb (bool_decide (take (Z.to_nat len) buf = data)).
Proof.
  intros Hlen. unfold array_differs. destruct (Z.eqb_spec len (Z.of_nat (length data))) as [->|Hne]; cbn.
  - rewrite Nat2Z.id. by repeat case_bool_decide.
  - rewrite bool_decide_eq_false_2; [done|]. intros <-. rewrite length_take in Hne. lia.
Qed.

Lemma new_array_wf ty (data : list Z) :
  is_array ty = true → Z.of_nat (length data) < 2 ^ 32 →
  node_wf (ArrayNode ty (wrap 32 (Z.of_nat (length data))) (array_buf data)) ∧
  node_value (ArrayNode ty (wrap 32 (Z.of_nat (length data))) (array_buf data)) = VArray ty data.
Proof.
  intros Hty Hlen. rewrite wrap_small by lia. unfold array_buf. cbn.
  rewrite length_app, Nat2Z.id, take_app_length. split; [|done]. split_and!; [done|lia|done|lia].
Qed.

Lemma overwrite_array_wf ty (data buf : list Z) :
  is_array ty = true → Z.of_nat (length data) < 2 ^ 32 →
  node_wf (ArrayNode ty (wrap 32 (Z.of_nat (length data))) (data ++ drop (length data) buf)) ∧
  node_value (ArrayNode ty (wrap 32 (Z.of_nat (length data))) (data ++ drop (length data) buf)) =
    VArray ty data.
Proof.
  intros Hty Hlen. rewrite wrap_small by lia. cbn.
  rewrite length_app, Nat2Z.id, take_app_length. split; [|done]. split_and!; [done|lia|done|lia].
Qed.

(** A larger buffer is allocated, entered in place of the old one, and the old one is
    freed. *)
Lemma change_realloc s n old nd nd' :
  good s → node_at s n = Some (old, nd) → node_wf nd' →
  ∃ s', (node ← calloc (ONode nd'); nr_reg_change_node n node old) s = Ok () s' ∧
    evolves s s' (upd (reg_view s) n (Some (node_value nd'))) (event_calls s NR_REG_CB_ACTION_CHANGE n).
Proof.
  intros Hg Hn Hnd'. destruct (node_at_objs s n old nd Hg Hn) as (Ho & _ & Hv).
  destruct (calloc_node s nd' Hg) as (s1 & Hrun1 & Hev1 & Hfresh).
  assert (Hold : old ≠ brk s).
  { intros ->. by rewrite (rw_fresh s (g_wf s Hg) (brk s) (Pos.le_refl _)) in Ho. }
  assert (Hn1 : node_at s1 n = Some (old, nd)).
  { unfold calloc in Hrun1. erewrite bind_ok in Hrun1 by apply alloc_or_abort_plenty, Hg.
    injection Hrun1 as <-. destruct (good_tab s Hg) as (t & Ht & Hwf).
    unfold node_at in Hn |- *. cbn. rewrite Ht in Hn |- *. cbn in Hn |- *.
    rewrite <- Hn. apply (tab_wf_frame t (objs s)); [done|]. intros l Hl.
    rewrite lookup_insert_ne; [done|]. intros <-.
    destruct (ptrs_alloc s t _ Hg Ht Hl) as [? Hl'].
    by rewrite (rw_fresh s (g_wf s Hg) (brk s) (Pos.le_refl _)) in Hl'. }
  destruct (insert_replace s1 n old nd (brk s) nd') as (s2 & Hrun2 & Hev2); [apply Hev1|done..|].
  destruct (raise_good s2 n NR_REG_CB_ACTION_CHANGE) as (s3 & Hrun3 & Hev3); [apply Hev2|set_solver|].
  pose proof (evolves_then _ _ _ _ _ _ Hev1 Hev2) as Hev12.
  exists s3. split.
  - mstep. unfold nr_reg_change_node.
    rewrite (proj2 (nr_reg_is_valid_spec n)), bool_decide_eq_false_2 by done. cbn [negb].
    by mstep.
  - rewrite (event_calls_same s s2) in Hev3 by apply Hev12.
    eapply evolves_ext; [by eapply evolves_then|]. intros m. rewrite (ev_view _ _ _ _ Hev2).
    unfold upd. case_decide; [done|]. symmetry. apply Hev1.
Qed.

(** [nr_reg_local_set_bytes] and [nr_reg_local_set_string]: as for scalars, and
    both when the old buffer is reused and when it is replaced; writing the bytes that
    are there raises no event. *)
Lemma set_array_run s n ty (data : list Z) :
  good s → valid n → is_array ty = true → Z.of_nat (length data) < 2 ^ 32 →
  match reg_view s n with
  | None =>
      creatable (reg_view s) (ancestors n) →
      ∃ s', nr_reg_set_array NR_reg_set_registry n ty data s = Ok () s' ∧
        evolves s s' (upd (fill (reg_view s) (new_parents (reg_view s) n)) n (Some (VArray ty data)))
          (add_events s (reverse (n :: new_parents (reg_view s) n)))
  | Some (VArray ty' old) =>
      if decide (ty' = ty) then
        ∃ s', nr_reg_set_array NR_reg_set_registry n ty data s = Ok () s' ∧
          evolves s s' (upd (reg_view s) n (Some (VArray ty data)))
            (if decide (old = data) then [] else event_calls s NR_REG_CB_ACTION_CHANGE n)
      else nr_reg_set_array NR_reg_set_registry n ty data s = Err R_FAILED s
  | Some (VScalar _ _) => nr_reg_set_array NR_reg_set_registry n ty data s = Err R_FAILED s
  end.
Proof.
  intros Hg Hv Hty Hlen. destruct (new_array_wf ty data Hty Hlen) as [Hnew Hval].
  pose proof (fetch_node_spec s n ty Hg) as Hf. rewrite (proj2 (nr_reg_is_valid_spec n) Hv) in Hf.
  unfold nr_reg_set_array. cbv zeta. destruct (reg_view s n) as [x|] eqn:Hx.
  2: { intros Hpath. rewrite (proj1 (view_none s n) Hx) in Hf.
       mstep using catch_err. cbn beta iota.
       change (R_NOT_FOUND =? R_NOT_FOUND) with true. cbn iota.
       edestruct (calloc_node s) as (s1 & Hrun1 & Hev1 & Hfresh1); [done|].
       mstep.
       destruct (insert_node_spec NR_reg_set_registry s1 n (brk s) _ (ev_good _ _ _ _ Hev1) Hfresh1 Hnew Hv)
         as (s2 & Hrun2 & Hev2).
       - by rewrite (ev_view _ _ _ _ Hev1).
       - intros p _. apply NR_reg_set_registry_spec.
       - by apply (creatable_ext _ _ _ (ev_view _ _ _ _ Hev1)).
       - exists s2. split; [done|]. rewrite Hval in Hev2. unfold new_parents in *.
         rewrite (missing_ext _ _ _ (ev_view _ _ _ _ Hev1)), (add_events_same s s1) in Hev2 by apply Hev1.
         eapply evolves_ext; [by eapply evolves_then|]. intros m. unfold upd. case_decide; [done|].
         symmetry. apply fill_ext, Hev1. }
  apply view_node in Hx as (l & nd & Hn & <-). rewrite Hn in Hf.
  destruct (node_at_objs s n l nd Hg Hn) as (Ho & Hnd & _).
  destruct nd as [ty' w|ty' len buf]; cbn [node_value node_type] in Hf |- *.
  { destruct Hnd as [Harr _]. rewrite decide_False in Hf by (intros ->; by rewrite Hty in Harr).
    by mstep using catch_err. }
  case_decide as Heq; [subst ty'|by mstep using catch_err].
  mstep using catch_ok. cbn beta iota.
  mstep using load_node_ok. cbn beta iota.
  destruct Hnd as (_ & Hl & Hlb). rewrite array_differs_spec by lia.
  case_decide as Hsame.
  - rewrite bool_decide_eq_true_2 by done. cbn [negb]. exists s. split; [done|].
    eapply evolves_ext; [by apply evolves_refl|]. intros m. unfold upd. case_decide; [|done]. subst m.
    symmetry. apply view_node. exists l, (ArrayNode ty len buf). by rewrite <- Hsame.
  - rewrite bool_decide_eq_false_2 by done. cbn [negb]. destruct (len <? Z.of_nat (length data)).
    + destruct (change_realloc s n l _ _ Hg Hn Hnew) as (s' & Hrun & Hev). rewrite Hval in Hev. eauto.
    + destruct (overwrite_array_wf ty data buf Hty Hlen) as [Hw Hwv].
      destruct (change_in_place s n l _ _ Hg Hn Hw) as (s' & Hrun & Hev). rewrite Hwv in Hev. eauto.
Qed.

(** [nr_reg_local_get_bytes] and [nr_reg_local_get_string]: the bytes under the
    name, if the caller has room for them. *)
Lemma get_array_run s n ty size :
  good s → is_array ty = true →
  nr_reg_get_array n ty size s =
    if nr_reg_is_valid n then
      match reg_view s n with
      | None => Err R_NOT_FOUND s
      | Some (VArray ty' bs) =>
          if decide (ty' = ty)
          then if size <? Z.of_nat (length bs) then Err R_BAD_ARGS s else Ok bs s
          else Err R_FAILED s
      | Some (VScalar _ _) => Err R_FAILED s
      end
    else Err R_BAD_ARGS s.
Proof.
  intros Hg Hty. unfold nr_reg_get_array. pose proof (fetch_node_spec s n ty Hg) as Hf.
  destruct (nr_reg_is_valid n); [|by erewrite bind_err by done].
  unfold reg_view. destruct (node_at s n) as [[l nd]|] eqn:Hn; cbn; [|by erewrite bind_err by done].
  destruct (node_at_objs s n l nd Hg Hn) as (Ho & Hnd & _).
  destruct nd as [ty' w|ty' len buf]; cbn in Hf |- *.
  - destruct Hnd as [Harr _]. rewrite decide_False in Hf by (intros ->; by rewrite Hty in Harr).
    by erewrite bind_err by done.
  - case_decide as Hd; [subst ty'|by erewrite bind_err by done].
    mstep. unfold read_array. mstep using load_node_ok.
    destruct Hnd as (_ & Hl & Hlb). cbn beta iota. rewrite length_take.
    replace (Z.of_nat (Z.to_nat len `min` length buf)) with len by lia.
    destruct (size <? len); [done|]. by destruct (Z.ltb_spec (Z.of_nat (length buf)) len); [lia|].
Qed.

Lemma fetch_any_run s n l nd :
  good s → valid n → node_at s n = Some (l, nd) → fetch_any n s = Ok nd s.
Proof.
  intros Hg Hv Hn. unfold fetch_any. rewrite (proj2 (nr_reg_is_valid_spec n)) by done. cbn [negb].
  pose proof (assoc_fetch_node s n Hg) as Hf. rewrite Hn in Hf. mstep.
  by apply load_node_ok, (node_at_objs s n l nd).
Qed.

(** A string under a name, and its length. *)
Lemma string_read s n d size :
  good s → valid n → reg_view s n = Some (VArray NR_REG_TYPE_STRING (cbytes d)) →
  nr_reg_local_get_length n s = Ok (Z.of_nat (length d)) s ∧
  nr_reg_local_get_string n size s =
    if size <? Z.of_nat (length d) + 1 then Err R_BAD_ARGS s else Ok (cbytes d) s.
Proof.
  intros Hg Hv Hview. pose proof (length_cbytes d) as Hcb. unfold strlen in Hcb. split.
  - apply view_node in Hview as (l & nd & Hat & Hval).
    unfold nr_reg_local_get_length. erewrite bind_ok by by eapply fetch_any_run.
    destruct (node_at_objs s n l nd Hg Hat) as (_ & Hnd & _).
    destruct nd as [ty w|ty len buf]; [done|]. injection Hval as -> Hbuf.
    destruct Hnd as (_ & Hl & Hb). assert (Hlen' : len = Z.of_nat (S (length d))).
    { rewrite <- Hcb, <- Hbuf, length_take. lia. }
    cbn. rewrite wrap_small by lia. unfold mret, M_ret. f_equal. lia.
  - unfold nr_reg_local_get_string. rewrite get_array_run by done.
    rewrite (proj2 (nr_reg_is_valid_spec n)), Hview, decide_True, Hcb by done.
    by replace (Z.of_nat (S (length d))) with (Z.of_nat (length d) + 1) by lia.
Qed.
End ops.
