(* ===== verification/RegTree.v ===== *)
(** * The registry as a tree

    Deletion of subtrees, listing of children, initialisation, the invariant that the
    names form a tree, and what a failing creation leaves behind. *)

From Stdlib Require Import Ascii.
From stdpp Require Import sorting.
From S2P Require Import Prelude CString AssocSpec RegNames RegState RegCb RegLocal RegInv RegSpec.
Local Open Scope Z_scope.

Section names.
Implicit Types (s : reg_state) (n m p : cstring) (t : atbl) (v : view).

(** The names in the table, in the order of iteration. *)
Definition tab_names (es : list (entry loc dtor)) : list cstring := omap (λ e, key_name (e_key e)) es.
Definition reg_names s : list cstring :=
  match nr_registry s with Some t => tab_names (tbl_elems t) | None => [] end.

(** An entry of a well-formed table. *)
Definition named (e : entry loc dtor) n : Prop := e_key e = cbytes n ∧ valid n.

Lemma key_name_named e n : named e n → key_name (e_key e) = Some n.
Proof. intros [-> Hv]. by apply key_name_cbytes, valid_no_nul. Qed.

Lemma good_named s t e : good s → nr_registry s = Some t → e ∈ tbl_elems t → ∃ n, named e n.
Proof.
  intros Hg Ht He. destruct (good_tab s Hg) as (t' & Ht' & Hwf). rewrite Ht in Ht'. injection Ht' as <-.
  destruct (tw_key _ _ Hwf e He) as (n & ? & ?). by exists n.
Qed.

Lemma tab_names_elem es n :
  (∀ e, e ∈ es → ∃ n, named e n) → n ∈ tab_names es ↔ ∃ e, e ∈ es ∧ named e n.
Proof.
  intros Hes. unfold tab_names. rewrite list_elem_of_omap. split.
  - intros (e & He & Hk). destruct (Hes e He) as [n' Hn']. rewrite (key_name_named e n') in Hk by done.
    injection Hk as <-. eauto.
  - intros (e & He & Hn). exists e. split; [done|by apply key_name_named].
Qed.

Lemma reg_names_view s n : good s → n ∈ reg_names s ↔ is_Some (reg_view s n).
Proof.
  intros Hg. destruct (good_tab s Hg) as (t & Ht & Hwf). unfold reg_names. rewrite Ht.
  rewrite tab_names_elem by (intros e He; by eapply good_named). split.
  - intros (e & He & Hk & Hv). destruct (tw_node _ _ Hwf e He) as (nd & Ho & _).
    exists (node_value nd). apply view_node. exists (e_data e), nd. split; [|done].
    unfold node_at. rewrite Ht. cbn. apply node_of_elem; [done|]. by exists e.
  - intros [x Hx]. pose proof (view_valid s n x Hg Hx) as Hv.
    apply view_node in Hx as (l & nd & Hn & _). unfold node_at in Hn. rewrite Ht in Hn. cbn in Hn.
    apply node_of_elem in Hn as (e & He & Hk & _); [|done]. by exists e.
Qed.

Lemma tab_names_NoDup es :
  (∀ e, e ∈ es → ∃ n, named e n) → NoDup (e_key <$> es) → NoDup (tab_names es).
Proof.
  induction es as [|e es IH]; intros Hes Hnd; cbn; [constructor|].
  destruct (Hes e) as [n Hn]; [by left|]. rewrite (key_name_named e n) by done.
  cbn in Hnd. apply NoDup_cons in Hnd as [Hno Hnd].
  assert (Hes' : ∀ e', e' ∈ es → ∃ n, named e' n) by (intros e' He'; apply Hes; by right).
  constructor; [|by apply IH]. rewrite tab_names_elem by done. intros (e' & He' & Hk & _).
  apply Hno. destruct Hn as [-> _]. rewrite <- Hk. by apply list_elem_of_fmap_2.
Qed.

Lemma reg_names_NoDup s : good s → NoDup (reg_names s).
Proof.
  intros Hg. destruct (good_tab s Hg) as (t & Ht & Hwf). unfold reg_names. rewrite Ht.
  apply tab_names_NoDup; [intros e He; by eapply good_named|].
  apply (tbl_elems_NoDup reg_hash). apply Hwf.
Qed.

Lemma tab_names_cons e es n : named e n → tab_names (e :: es) = n :: tab_names es.
Proof. intros Hn. unfold tab_names. cbn. by rewrite (key_name_named e n). Qed.

(** *** Reading iterations *)

Lemma iter_fold {A} (f : A → cstring → A) (action : A → entry loc dtor → cstring → R A) prefix es ptr s :
  (∀ e, e ∈ es → ∃ n, named e n) → (∀ ptr e n, action ptr e n s = Ok (f ptr n) s) →
  iter_entries prefix action es ptr s =
    Ok (foldl (λ ptr n, if iter_match prefix n then f ptr n else ptr) ptr (tab_names es)) s.
Proof.
  intros Hes Hact. revert ptr. induction es as [|e es IH]; intros ptr; [done|].
  assert (Hes' : ∀ e', e' ∈ es → ∃ n, named e' n) by (intros e' He'; apply Hes; by right).
  destruct (Hes e) as [n Hn]; [by left|]. rewrite (tab_names_cons e es n) by done.
  cbn [iter_entries foldl]. rewrite (key_name_named e n) by done.
  destruct (iter_match prefix n); [|by apply IH].
  erewrite bind_ok by apply Hact. by apply IH.
Qed.

Lemma find_run size prefix cs e n s :
  valid n → (length cs < size)%nat →
  nr_reg_local_find_children size prefix cs e n s =
    if is_child prefix n
    then if (length (cs ++ [n]) <? size)%nat then Ok (cs ++ [n]) s else Err R_INTERRUPTED s
    else Ok cs s.
Proof.
  intros Hv Hlen. unfold nr_reg_local_find_children. destruct (is_child prefix n); [|done].
  destruct (Nat.leb_spec size (length cs)); [lia|].
  assert (take (NR_REG_MAX_NR_REGISTRY_LEN - 1) n = n) as ->.
  { apply take_ge. pose proof (valid_length n Hv). unfold NR_REG_MAX_NR_REGISTRY_LEN. lia. }
  cbv zeta. by destruct (Nat.leb_spec size (length (cs ++ [n]))), (Nat.ltb_spec (length (cs ++ [n])) size);
    try lia.
Qed.

Lemma iter_find size prefix es cs s :
  (∀ e, e ∈ es → ∃ n, named e n) → (length cs < size)%nat →
  iter_entries prefix (nr_reg_local_find_children size prefix) es cs s =
    let cs' := cs ++ filter (λ n, iter_match prefix n && is_child prefix n) (tab_names es) in
    if (length cs' <? size)%nat then Ok cs' s else Err R_INTERRUPTED s.
Proof.
  revert cs. induction es as [|e es IH]; intros cs Hes Hlen.
  { change (tab_names []) with (@nil cstring). rewrite filter_nil, app_nil_r. cbn zeta.
    by destruct (Nat.ltb_spec (length cs) size); [|lia]. }
  assert (Hes' : ∀ e', e' ∈ es → ∃ n, named e' n) by (intros e' He'; apply Hes; by right).
  destruct (Hes e) as [n Hn]; [by left|]. rewrite (tab_names_cons e es n) by done.
  cbn [iter_entries]. rewrite (key_name_named e n) by done. cbn zeta. rewrite filter_cons.
  destruct (iter_match prefix n) eqn:Hm; cbn [andb]; [|by apply IH].
  pose proof (find_run size prefix cs e n s (proj2 Hn) Hlen) as Hrun.
  destruct (is_child prefix n); cbn [Is_true].
  - rewrite decide_True by done. rewrite (cons_middle n cs), app_assoc.
    destruct (Nat.ltb_spec (length (cs ++ [n])) size) as [Hroom|Hfull].
    + mstep. by apply IH.
    + erewrite bind_err by done. rewrite (length_app (cs ++ [n])).
      match goal with |- context [(?a <? size)%nat] => destruct (Nat.ltb_spec a size) end; [lia|done].
  - mstep. by apply IH.
Qed.

(** The children of a registry. *)
Definition child_names s p : list cstring :=
  filter (λ n, iter_match p n && is_child p n) (reg_names s).

Lemma child_names_spec s p n :
  good s → n ∈ child_names s p ↔ is_Some (reg_view s n) ∧ n ≠ [] ∧ up n = p.
Proof.
  intros Hg. unfold child_names. rewrite list_elem_of_filter, reg_names_view by done. split.
  - intros [Hm Hx]. apply Is_true_true, andb_true_iff in Hm as [Hm Hc]. split; [done|].
    destruct Hx as [x Hx]. apply is_child_spec; [by eapply view_valid|done|done].
  - intros (Hx & Hne & Hup). split; [|done]. apply Is_true_true, andb_true_iff.
    assert (Hm : iter_match p n = true).
    { apply iter_match_up; [done|]. right. rewrite Hup. apply iter_match_refl. }
    split; [done|]. destruct Hx as [x Hx]. apply is_child_spec; [by eapply view_valid|done|done].
Qed.

#[export] Instance casele_total : Total casele.
Proof.
  intros a. induction a as [|x a IH]; intros b; [by left|]. destruct b as [|y b]; [by right|].
  unfold casele in *. cbn. destruct (Z.ltb_spec (uchar (tolower x)) (uchar (tolower y))); [by left|].
  destruct (Z.ltb_spec (uchar (tolower y)) (uchar (tolower x))); [by right|].
  assert (uchar (tolower x) = uchar (tolower y)) as -> by lia. rewrite Z.eqb_refl. apply IH.
Qed.

Lemma get_children_run s p size :
  good s → valid p → (0 < size)%nat →
  ∃ cs, NoDup cs ∧ Sorted casele cs ∧
    (∀ n, n ∈ cs ↔ is_Some (reg_view s n) ∧ n ≠ [] ∧ up n = p) ∧
    nr_reg_local_get_children p size s =
      if (length cs <? size)%nat then Ok cs s else Err R_BAD_ARGS s.
Proof.
  intros Hg Hv Hsize. exists (merge_sort casele (child_names s p)).
  pose proof (merge_sort_Permutation casele (child_names s p)) as Hperm. split_and!.
  - rewrite Hperm. unfold child_names. apply NoDup_filter, reg_names_NoDup. done.
  - apply Sorted_merge_sort. apply _.
  - intros n. rewrite Hperm. by apply child_names_spec.
  - rewrite (Permutation_length Hperm). unfold nr_reg_local_get_children.
    rewrite (proj2 (nr_reg_is_valid_spec p)) by done. cbn [negb].
    destruct (good_tab s Hg) as (t & Ht & Hwf).
    assert (Hrun : nr_reg_local_iter p (nr_reg_local_find_children size p) [] s =
      if (length (child_names s p) <? size)%nat then Ok (child_names s p) s else Err R_INTERRUPTED s).
    { unfold nr_reg_local_iter. mstep using load_assoc_TReg.
      rewrite iter_find by (try done; intros e He; by eapply good_named).
      cbn zeta. unfold child_names, reg_names. by rewrite Ht. }
    destruct (length (child_names s p) <? size)%nat.
    + by mstep using catch_ok.
    + by mstep using catch_err.
Qed.


Lemma fold_count (q : cstring → bool) k ns :
  wrap 32 k = k →
  foldl (λ ptr n, if q n then wrap 32 (ptr + 1) else ptr) k ns =
    wrap 32 (k + Z.of_nat (length (filter (λ n, q n) ns))).
Proof.
  revert k. induction ns as [|n ns IH]; intros k Hk; cbn [foldl]; [by rewrite Z.add_0_r|].
  rewrite filter_cons. destruct (q n) eqn:Hq; cbn [Is_true]; [|by apply IH].
  rewrite decide_True, IH by (done || apply wrap_wrap). cbn [length].
  rewrite wrap_add_l. f_equal. lia.
Qed.

Lemma child_count_run s p l :
  good s → valid p → node_at s p = Some (l, ScalarNode NR_REG_TYPE_REGISTRY 0) →
  ∃ ns, NoDup ns ∧
    (∀ n, n ∈ ns ↔ is_Some (reg_view s n) ∧ n ≠ [] ∧ (p = [] ∨ up n = p)) ∧
    nr_reg_local_get_child_count p s = Ok (wrap 32 (Z.of_nat (length ns))) s.
Proof.
  intros Hg Hv Hreg. exists (filter (λ n, iter_match p n && counts_child p n) (reg_names s)).
  split_and!.
  - apply NoDup_filter, reg_names_NoDup. done.
  - intros n. rewrite list_elem_of_filter, reg_names_view by done. split.
    + intros [[Hm Hc]%Is_true_true%andb_true_iff [x Hx]].
      split; [eauto|]. apply counts_child_spec; [by eapply view_valid|done|done].
    + intros (Hx & Hne & Hup). split; [|done]. apply Is_true_true, andb_true_iff.
      assert (Hm : iter_match p n = true).
      { destruct Hup as [->|Hup]; [by apply iter_match_spec; left|].
        apply iter_match_up; [done|]. right. rewrite Hup. apply iter_match_refl. }
      split; [done|]. destruct Hx as [x Hx]. apply counts_child_spec; [by eapply view_valid|done|done].
  - unfold nr_reg_local_get_child_count. rewrite (proj2 (nr_reg_is_valid_spec p)) by done. cbn [negb].
    destruct (good_tab s Hg) as (t & Ht & Hwf).
    erewrite bind_ok.
    2: { rewrite fetch_node_spec by done. rewrite (proj2 (nr_reg_is_valid_spec p)), Hreg by done.
         by rewrite decide_True. }
    unfold nr_reg_local_iter. mstep using load_assoc_TReg.
    rewrite (iter_fold (λ ptr n, if counts_child p n then wrap 32 (ptr + 1) else ptr));
      [|intros e He; by eapply good_named|done].
    f_equal. unfold reg_names. rewrite Ht.
    rewrite <- (Z.add_0_l (Z.of_nat _)), <- (fold_count (λ n, iter_match p n && counts_child p n)) by done.
    apply foldl_ext. intros k n. by destruct (iter_match p n), (counts_child p n).
Qed.

(** [nr_reg_local_get_child_count] is the number of children for every registry but
    the root, for which it is the number of all the names but the root's own (modulo
    [2^32]). *)
Theorem child_count_spec s p l :
  good s → valid p → node_at s p = Some (l, ScalarNode NR_REG_TYPE_REGISTRY 0) →
  ∃ ns, NoDup ns ∧
    (∀ n, n ∈ ns ↔ is_Some (reg_view s n) ∧ n ≠ [] ∧ (p = [] ∨ up n = p)) ∧
    nr_reg_local_get_child_count p s = Ok (wrap 32 (Z.of_nat (length ns))) s.
Proof. apply child_count_run. Qed.

(** *** Deletion *)

Lemma iter_delete_entries p es s :
  good s → NoDup (e_key <$> es) →
  (∀ e, e ∈ es → ∃ n nd, named e n ∧ e_destroy e = Some nr_reg_rfree ∧ node_at s n = Some (e_data e, nd)) →
  ∃ s', iter_entries p nr_reg_local_iter_delete es () s = Ok () s' ∧
    evolves s s'
      (λ m, if decide (iter_match p m = true ∧ m ∈ tab_names es) then None else reg_view s m) [].
Proof.
  revert s. induction es as [|e es IH]; intros s Hg Hnd Hes.
  { exists s. split; [done|]. eapply evolves_ext; [by apply evolves_refl|]. intros m.
    rewrite decide_False; [done|]. intros [_ Hin]. by apply not_elem_of_nil in Hin. }
  cbn in Hnd. apply NoDup_cons in Hnd as [Hno Hnd].
  destruct (Hes e) as (n & nd & Hn & Hd & Hat); [by left|].
  rewrite (tab_names_cons e es n) by done. cbn [iter_entries]. rewrite (key_name_named e n) by done.
  assert (Hout : n ∉ tab_names es).
  { rewrite tab_names_elem; [|intros e' He'; destruct (Hes e') as (n' & _ & ? & _); [by right|eauto]].
    intros (e' & He' & Hk' & _). apply Hno. destruct Hn as [-> _]. rewrite <- Hk'.
    by apply list_elem_of_fmap_2. }
  destruct (iter_match p n) eqn:Hm.
  - destruct (remove_entry s n (e_data e) nd e) as (s1 & Hrun1 & Hev1 & Hat1); [done..|by destruct Hn|done|done|].
    destruct (IH s1) as (s2 & Hrun2 & Hev2); [apply Hev1|done| |].
    { intros e' He'. destruct (Hes e') as (n' & nd' & Hn' & Hd' & Hat'); [by right|].
      exists n', nd'. split_and!; [done|done|]. rewrite Hat1, decide_False; [done|]. intros ->.
      apply Hno. destruct Hn as [-> _], Hn' as [Hk' _]. rewrite <- Hk'. by apply list_elem_of_fmap_2. }
    exists s2. split; [by mstep|].
    eapply evolves_ext; [by eapply evolves_then|]. intros m. cbn beta.
    rewrite (ev_view _ _ _ _ Hev1). unfold upd.
    destruct (decide (m = n)) as [->|Hne].
    + rewrite (decide_True (P:=iter_match p n = true ∧ _)) by set_solver. by case_decide.
    + by rewrite (decide_ext (_ ∧ m ∈ n :: _) (iter_match p m = true ∧ m ∈ tab_names es)) by set_solver.
  - destruct (IH s) as (s2 & Hrun2 & Hev2); [done|done| |].
    { intros e' He'. apply Hes. by right. }
    exists s2. split; [done|]. eapply evolves_ext; [done|]. intros m.
    apply decide_ext. rewrite elem_of_cons. split; [|tauto]. intros [Hmm [->|?]]; [congruence|tauto].
Qed.

Lemma iter_delete_all p s :
  good s →
  ∃ s', nr_reg_local_iter p nr_reg_local_iter_delete () s = Ok () s' ∧
    evolves s s' (λ m, if iter_match p m then None else reg_view s m) [].
Proof.
  intros Hg. destruct (good_tab s Hg) as (t & Ht & Hwf).
  destruct (iter_delete_entries p (tbl_elems t) s Hg) as (s' & Hrun & Hev).
  - apply (tbl_elems_NoDup reg_hash), Hwf.
  - intros e He. destruct (tw_key _ _ Hwf e He) as (n & Hk & Hv), (tw_node _ _ Hwf e He) as (nd & Ho & _).
    exists n, nd. split_and!; [done|by apply (tw_destroy _ _ Hwf)|].
    unfold node_at. rewrite Ht. cbn. apply node_of_elem; [done|]. by exists e.
  - exists s'. split; [unfold nr_reg_local_iter; by mstep using load_assoc_TReg|].
    eapply evolves_ext; [done|]. intros m. pose proof (reg_names_view s m Hg) as Hnames.
    unfold reg_names in Hnames. rewrite Ht in Hnames.
    cbn beta. destruct (iter_match p m) eqn:Hm; [|rewrite decide_False; [done|by intros [? _]]].
    case_decide as Hin; [done|]. destruct (reg_view s m) as [x|] eqn:Hx; [|done].
    exfalso. apply Hin. split; [done|]. apply Hnames. eauto.
Qed.

(** [nr_reg_local_del] removes the name and everything below it, frees the nodes,
    leaves every other name as it was, and raises one [DELETE] event on the name; the
    root is created again. A name that is not there is deleted all the same. *)
Lemma del_run s n :
  good s → valid n →
  ∃ s', nr_reg_local_del n s = Ok () s' ∧
    if decide (n = []) then
      evolves s s' (λ m, if decide (m = []) then Some VRegistry else None)
        (event_calls s NR_REG_CB_ACTION_DELETE [] ++ event_calls s NR_REG_CB_ACTION_ADD [])
    else
      evolves s s' (λ m, if iter_match n m then None else reg_view s m)
        (event_calls s NR_REG_CB_ACTION_DELETE n).
Proof.
  intros Hg Hv. destruct (iter_delete_all n s Hg) as (s1 & Hrun1 & Hev1).
  destruct (raise_good s1 n NR_REG_CB_ACTION_DELETE) as (s2 & Hrun2 & Hev2); [apply Hev1|set_solver|].
  rewrite (event_calls_same s s1) in Hev2 by apply Hev1.
  pose proof (evolves_then _ _ _ _ _ _ Hev1 Hev2) as Hev12.
  assert (Hrun12 : nr_reg_local_del n s =
    (if strcaseeq n NR_TOP_LEVEL_REGISTRY then nr_reg_local_set_registry NR_TOP_LEVEL_REGISTRY else mret ()) s2).
  { unfold nr_reg_local_del. rewrite (proj2 (nr_reg_is_valid_spec n)) by done. cbn [negb].
    mstep. by mstep. }
  rewrite Hrun12. assert (Hview : ∀ m, reg_view s2 m = if iter_match n m then None else reg_view s m).
  { intros m. rewrite (ev_view _ _ _ _ Hev2). apply Hev1. }
  case_decide as Hroot.
  - subst n. change (strcaseeq [] NR_TOP_LEVEL_REGISTRY) with true. cbn iota.
    destruct (set_registry_upto_spec 1 [] ltac:(cbn; lia) s2) as (s3 & Hrun3 & Hev3); [apply Hev12| |].
    { cbn [creatable]. rewrite Hview. cbn. split; [apply valid_root|done]. }
    assert (Hmiss : missing (reg_view s2) ([] :: ancestors []) = [[]]) by (cbn [missing]; by rewrite Hview).
    rewrite Hmiss, reverse_singleton in Hev3.
    rewrite (add_events_same s s2) in Hev3 by apply Hev12.
    exists s3. split; [done|]. rewrite add_events_one in Hev3.
    eapply evolves_ext; [by eapply evolves_trans|]. intros m. rewrite fill_cons. unfold upd.
    rewrite fill_nil, Hview. by repeat case_decide.
  - assert (strcaseeq n NR_TOP_LEVEL_REGISTRY = false) as ->.
    { unfold strcaseeq. apply bool_decide_eq_false. intros Heq. by apply fmap_nil_inv in Heq. }
    exists s2. split; [done|]. eapply evolves_ext; [done|]. intros m. symmetry. apply Hev1.
Qed.
End names.

(** ** The tree is kept *)

Section tree.
Implicit Types (n m p q : cstring) (v : view).

Lemma fill_in v ps m : m ∈ ps → fill v ps m = Some VRegistry.
Proof. intros Hm. unfold fill. by rewrite decide_True. Qed.

Lemma fill_old v ps m x : v m = Some x → (∀ p, p ∈ ps → v p = None) → fill v ps m = Some x.
Proof.
  intros Hm Hps. unfold fill. case_decide as Hin; [|done]. apply Hps in Hin. congruence.
Qed.

(** The parent of a name on a path that can be created is on it too, or exists. *)
Lemma creatable_parent v n p :
  creatable v (ancestors n) → p = n ∨ p ∈ new_parents v n → p ≠ [] → v [] = Some VRegistry →
  up p ∈ new_parents v n ∨ ∃ x, v (up p) = Some x ∧ value_type x = NR_REG_TYPE_REGISTRY.
Proof.
  unfold new_parents. induction (Nat.lt_wf_0_projected length n) as [n _ IH].
  rewrite (ancestors_unfold n). intros Hc Hp Hne Hroot.
  destruct (parent_of n) as [q|] eqn:Hq; cbn in Hc |- *.
  - destruct Hc as [Hvq Hc]. destruct Hp as [->|Hp].
    + rewrite (up_parent n), Hq. cbn. destruct (v q) as [x|]; [right; eauto|left; by left].
    + cbn in Hp. destruct (v q) as [x|]; [by apply not_elem_of_nil in Hp|].
      apply elem_of_cons in Hp.
      pose proof (parent_of_Some _ _ Hq) as (_ & _ & _ & Hlt).
      destruct (IH q Hlt Hc Hp Hne Hroot) as [?|?]; [left; by right|by right].
  - right. destruct Hp as [->|Hp]; [|by apply not_elem_of_nil in Hp].
    rewrite up_parent, Hq. cbn. by exists VRegistry.
Qed.

Lemma tree_create v n x :
  tree_ok v → v n = None → creatable v (ancestors n) →
  tree_ok (upd (fill v (new_parents v n)) n (Some x)).
Proof.
  intros [Hroot Hpar] Hn Hc.
  assert (Hnew : ∀ p, p ∈ new_parents v n → v p = None) by (intros p [_ Hp]%missing_sub; exact Hp).
  assert (Hold : ∀ m y, v m = Some y → upd (fill v (new_parents v n)) n (Some x) m = Some y).
  { intros m y Hm. unfold upd. rewrite decide_False by congruence. by apply fill_old. }
  split; [by apply Hold|]. intros m y Hm Hne.
  assert (Hcase : (m = n ∨ m ∈ new_parents v n) ∨ v m = Some y).
  { unfold upd in Hm. case_decide; [tauto|]. unfold fill in Hm. case_decide; tauto. }
  destruct Hcase as [Hin|Hv].
  - destruct (creatable_parent v n m Hc Hin Hne Hroot) as [Hup|(z & Hz & Hzt)].
    + exists VRegistry. split; [|done]. unfold upd. rewrite decide_False; [by apply fill_in|].
      intros Heq. rewrite Heq in Hup. apply missing_sub in Hup as [Hup _]. by apply (not_in_ancestors n).
    + exists z. split; [by apply Hold|done].
  - destruct (Hpar m y Hv Hne) as (z & Hz & Hzt). exists z. split; [by apply Hold|done].
Qed.

Lemma tree_change v n old x :
  tree_ok v → v n = Some old → value_type old = value_type x → value_type x ≠ NR_REG_TYPE_REGISTRY →
  tree_ok (upd v n (Some x)).
Proof.
  intros [Hroot Hpar] Hn Hty Hne. split.
  - unfold upd. rewrite decide_False; [done|]. intros <-. rewrite Hroot in Hn. injection Hn as <-.
    by rewrite <- Hty in Hne.
  - intros m y Hm Hm0. assert (Hv : ∃ y', v m = Some y').
    { unfold upd in Hm. case_decide; [subst; eauto|eauto]. }
    destruct Hv as [y' Hv]. destruct (Hpar m y' Hv Hm0) as (z & Hz & Hzt). exists z.
    split; [|done]. unfold upd. rewrite decide_False; [done|]. intros Heq. rewrite Heq, Hn in Hz.
    injection Hz as ->. by rewrite <- Hty in Hne.
Qed.

Lemma tree_delete v n :
  tree_ok v → n ≠ [] → tree_ok (λ m, if iter_match n m then None else v m).
Proof.
  intros [Hroot Hpar] Hn. split.
  - destruct (iter_match n []) eqn:Hm; [|done]. apply iter_match_spec in Hm as [?|[?|[r Hr]]]; [done|done|].
    by destruct n.
  - intros m y Hm Hne. destruct (iter_match n m) eqn:Hmm; [done|].
    destruct (Hpar m y Hm Hne) as (z & Hz & Hzt). exists z. split; [|done].
    destruct (iter_match n (up m)) eqn:Hup; [|done].
    rewrite (proj2 (iter_match_up n m Hne)) in Hmm by by right. done.
Qed.

Lemma tree_fresh : tree_ok (λ m, if decide (m = []) then Some VRegistry else None).
Proof. split; [done|]. intros n x Hn Hne. by rewrite decide_False in Hn. Qed.

Lemma tree_ext v v' : (∀ m, v' m = v m) → tree_ok v → tree_ok v'.
Proof.
  intros Heq [Hroot Hpar]. split; [by rewrite Heq|]. intros n x Hn Hne. rewrite Heq in Hn.
  rewrite Heq. by eapply Hpar.
Qed.
End tree.

(** ** Runs of the store *)

(** The operations that change the store. *)
Inductive reg_op : Type :=
| SetScalar (name : cstring) (type : reg_type) (data : Z)
| SetBytes (name : cstring) (data : list Z)
| SetString (name data : cstring)
| Del (name : cstring).

Definition run_op (op : reg_op) : R unit :=
  match op with
  | SetScalar name type data => nr_reg_local_set_scalar name type data
  | SetBytes name data => nr_reg_local_set_bytes name data
  | SetString name data => nr_reg_local_set_string name data
  | Del name => nr_reg_local_del name
  end.

(** A call that enters a name must be able to create its ancestors. *)
Definition legal (v : view) (op : reg_op) : Prop :=
  match op with
  | SetScalar name type _ => valid name ∧ is_scalar type = true ∧ (v name = None → creatable v (ancestors name))
  | SetBytes name data =>
      valid name ∧ Z.of_nat (length data) < 2 ^ 32 ∧ (v name = None → creatable v (ancestors name))
  | SetString name data =>
      valid name ∧ Z.of_nat (length data) + 1 < 2 ^ 32 ∧ (v name = None → creatable v (ancestors name))
  | Del name => valid name
  end.

(** The registry just initialised. *)
Definition started (s : reg_state) : Prop :=
  nr_reg_local_init (RegState ∅ 1 [] None None true []) = Ok () s.

Inductive reachable : reg_state → Prop :=
| reach_init s : started s → reachable s
| reach_step s op s' : reachable s → legal (reg_view s) op → run_op op s = Ok () s' → reachable s'.

Section runs.
Implicit Types (s : reg_state) (n : cstring).

Lemma empty_good c :
  good (RegState ∅ 1 [] (Some (empty_tab 12)) (Some (empty_tab 12)) true c).
Proof.
  pose proof (empty_tab_ok TReg) as Hok. pose proof (empty_tab_ok TCbs) as Hok'.
  assert (Hel : tbl_elems (empty_tab 12 : atbl) = []) by apply tbl_elems_empty.
  split; [| |done|done].
  - split; [|done]. eexists. split; [done|]. split; [done|..]; unfold ptrs; rewrite Hel; cbn;
      try constructor; intros e He; by apply not_elem_of_nil in He.
  - assert (Hno : ∀ e, e ∉ tbl_elems (empty_tab 12 : atbl)) by (intros e; rewrite Hel; apply not_elem_of_nil).
    eexists. split; [done|]. split; [done|by rewrite Hel|..]; intros e **; by destruct (Hno e).
Qed.

Lemma empty_view c n : reg_view (RegState ∅ 1 [] (Some (empty_tab 12)) (Some (empty_tab 12)) true c) n = None.
Proof.
  apply view_none. unfold node_at, node_of. cbn [nr_registry objs mbind option_bind].
  unfold empty_tab. by rewrite tbl_fetch_empty.
Qed.

(** Initialisation succeeds and leaves a registry that holds the root and nothing
    else, with no callback registered. *)
Lemma init_run : ∃ s, started s ∧ good s ∧ (∀ n, registered s n = []) ∧ calls s = [] ∧
  ∀ n, reg_view s n = if decide (n = []) then Some VRegistry else None.
Proof.
  set (s0 := RegState ∅ 1 [] (Some (empty_tab 12)) (Some (empty_tab 12)) true []).
  destruct (set_registry_upto_spec 1 [] ltac:(cbn; lia) s0) as (s & Hrun & Hev).
  - apply empty_good.
  - cbn [creatable]. unfold s0. rewrite empty_view. split; [apply valid_root|done].
  - assert (Hmiss : missing (reg_view s0) ([] :: ancestors []) = [[]])
      by (cbn [missing]; unfold s0; by rewrite empty_view).
    rewrite Hmiss in Hev.
    assert (Hreg : ∀ n, registered s0 n = []).
    { intros n. unfold registered, regs, s0. cbn [nr_registry_callbacks].
      unfold empty_tab. by rewrite tbl_fetch_empty. }
    exists s. split_and!.
    + unfold started, nr_reg_local_init. mstep. cbn [nr_registry].
      exact Hrun.
    + apply Hev.
    + intros n. rewrite (ev_cbs _ _ _ _ Hev). apply Hreg.
    + rewrite (ev_calls _ _ _ _ Hev), reverse_singleton, add_events_one. unfold event_calls.
      change (lineage []) with ([[]] : list cstring). by rewrite event_calls_cons, Hreg.
    + intros n. rewrite (ev_view _ _ _ _ Hev), fill_cons. unfold upd, s0. rewrite fill_nil, empty_view.
      by repeat case_decide.
Qed.

(** The calls of a sequence of events on legal names. *)
Definition raises s (evs : list cb_call) : Prop :=
  ∃ l : list (Z * cstring), Forall (λ e, e.1 ∈ CB_ACTIONS ∧ valid e.2) l ∧ evs = (e ← l; event_calls s e.1 e.2).

Lemma raises_nil s : raises s [].
Proof. by exists []. Qed.

Lemma raises_one s a n : a ∈ CB_ACTIONS → valid n → raises s (event_calls s a n).
Proof. intros Ha Hv. exists [(a, n)]. split; [by constructor|]. cbn. by rewrite app_nil_r. Qed.

Lemma raises_app s evs evs' : raises s evs → raises s evs' → raises s (evs ++ evs').
Proof.
  intros (l & Hl & ->) (l' & Hl' & ->). exists (l ++ l'). split; [by apply Forall_app|]. by rewrite bind_app.
Qed.

Lemma raises_adds s n :
  valid n → creatable (reg_view s) (ancestors n) → raises s (add_events s (reverse (n :: new_parents (reg_view s) n))).
Proof.
  intros Hv Hc. exists ((λ p, (NR_REG_CB_ACTION_ADD, p)) <$> reverse (n :: new_parents (reg_view s) n)). split.
  - apply Forall_fmap, Forall_reverse, Forall_cons. split; [split; [by left|done]|]. unfold new_parents.
    induction (ancestors n) as [|p ps IH]; cbn; [constructor|]. destruct Hc as [Hp Hc].
    destruct (reg_view s p); constructor; [split; [by left|done]|by apply IH].
  - unfold add_events. induction (reverse _) as [|p ps IH]; [done|]. cbn. by rewrite IH.
Qed.

(** What a legal operation does: it succeeds, keeps the registry good and a tree and raises
    events on legal names, or it is refused for the type of the name and changes nothing. *)
Definition run_well s (m : R unit) : Prop :=
  (∃ s' v evs, m s = Ok () s' ∧ evolves s s' v evs ∧ tree_ok v ∧ raises s evs) ∨ m s = Err R_FAILED s.

Lemma run_array_well s name ty data :
  good s → tree_ok (reg_view s) → valid name → is_array ty = true → Z.of_nat (length data) < 2 ^ 32 →
  (reg_view s name = None → creatable (reg_view s) (ancestors name)) →
  run_well s (nr_reg_set_array NR_reg_set_registry name ty data).
Proof.
  intros Hg Htree Hv Hty Hlen Hc. pose proof (set_array_run s name ty data Hg Hv Hty Hlen) as Hspec.
  destruct (reg_view s name) as [[ty' w|ty' old]|] eqn:Hx; [by right| |].
  - case_decide; [|by right]. subst ty'. destruct Hspec as (s' & Hrun & Hev). left. do 3 eexists.
    split_and!; [done|done|eapply tree_change; [done..|by destruct ty]|].
    case_decide; [apply raises_nil|by apply raises_one; [set_solver|]].
  - destruct Hspec as (s' & Hrun & Hev); [by apply Hc|]. left. do 3 eexists.
    split_and!; [done|done|apply tree_create; [done..|by apply Hc]|by apply raises_adds, Hc].
Qed.

Lemma run_op_well s op : good s → tree_ok (reg_view s) → legal (reg_view s) op → run_well s (run_op op).
Proof.
  intros Hg Htree Hlegal. destruct op as [name ty data|name data|name data|name]; cbn [legal run_op] in *.
  - destruct Hlegal as (Hv & Hty & Hc). pose proof (set_scalar_run s name ty data Hg Hv Hty) as Hspec.
    destruct (reg_view s name) as [[ty' old|ty' bs]|] eqn:Hx; [|by right|].
    + case_decide; [|by right]. subst ty'. destruct Hspec as (s' & Hrun & Hev). left. do 3 eexists.
      split_and!; [done|done|eapply tree_change; [done..|by destruct ty]|].
      destruct (scalar_ne _ _ _); [by apply raises_one; [set_solver|]|apply raises_nil].
    + destruct Hspec as (s' & Hrun & Hev); [by apply Hc|]. left. do 3 eexists.
      split_and!; [done|done|apply tree_create; [done..|by apply Hc]|by apply raises_adds, Hc].
  - destruct Hlegal as (? & ? & ?). by apply run_array_well.
  - destruct Hlegal as (? & Hlen & ?). apply run_array_well; [done..| |done].
    rewrite length_cbytes. unfold strlen. lia.
  - destruct (del_run s name Hg Hlegal) as (s' & Hrun & Hev). case_decide as Hn; left; do 3 eexists.
    + split_and!; [done|done|apply tree_fresh|]. subst name. apply raises_app; apply raises_one; (set_solver || done).
    + split_and!; [done|done|by apply tree_delete|by apply raises_one; [set_solver|]].
Qed.

Lemma run_op_spec s op :
  good s → tree_ok (reg_view s) → legal (reg_view s) op →
  (∃ s', run_op op s = Ok () s' ∧ good s' ∧ tree_ok (reg_view s')) ∨ run_op op s = Err R_FAILED s.
Proof.
  intros Hg Htree Hlegal.
  destruct (run_op_well s op Hg Htree Hlegal) as [(s' & v & evs & Hrun & Hev & Ht & _)|Hrun]; [left|by right].
  exists s'. split_and!; [done|apply Hev|by eapply tree_ext; [apply Hev|]].
Qed.

(** Every reachable state is good, and its names form a tree. *)
Lemma reachable_inv s : reachable s → good s ∧ tree_ok (reg_view s).
Proof.
  induction 1 as [s Hs|s op s' Hreach [Hg Ht] Hlegal Hrun].
  - destruct init_run as (s' & Hs' & Hg & _ & _ & Hview). unfold started in Hs, Hs'.
    rewrite Hs in Hs'. injection Hs' as ->. split; [done|].
    apply (tree_ext (λ m, if decide (m = []) then Some VRegistry else None)); [done|apply tree_fresh].
  - destruct (run_op_spec s op Hg Ht Hlegal) as [(s1 & Hrun1 & ? & ?)|Hrun1]; [|congruence].
    rewrite Hrun in Hrun1. by injection Hrun1 as <-.
Qed.

(** C1: in every state the store can reach by legal calls, the names form a tree under
    the root registry, and a further legal call either succeeds or is refused with
    [R_FAILED], changing nothing: no call is ever undefined. *)
Theorem reachable_tree s :
  reachable s →
  good s ∧ tree_ok (reg_view s) ∧
  ∀ op, legal (reg_view s) op → (∃ s', run_op op s = Ok () s' ∧ reachable s') ∨ run_op op s = Err R_FAILED s.
Proof.
  intros Hreach. destruct (reachable_inv s Hreach) as [Hg Ht]. split_and!; [done|done|]. intros op Hlegal.
  destruct (run_op_spec s op Hg Ht Hlegal) as [(s' & Hrun & _)|Hrun]; [left|by right].
  exists s'. split; [done|]. by eapply reach_step.
Qed.

(** *** A creation that fails halfway *)

(** The store cannot make [p] a registry. *)
Definition parent_fails s p (r : Z) : Prop :=
  (nr_reg_is_valid p = false ∧ r = R_BAD_ARGS) ∨
  (valid p ∧ r = R_FAILED ∧ ∃ x, reg_view s p = Some x ∧ value_type x ≠ NR_REG_TYPE_REGISTRY).

Lemma set_registry_fails s p r : good s → parent_fails s p r → NR_reg_set_registry p s = Err r s.
Proof.
  intros Hg Hp. unfold NR_reg_set_registry. mstep. rewrite (g_vtbl s Hg).
  assert (Hfetch : nr_reg_fetch_node p NR_REG_TYPE_REGISTRY s = Err r s).
  { rewrite fetch_node_spec by done. destruct Hp as [[-> ->]|(Hv & -> & x & Hx & Hty)]; [done|].
    rewrite (proj2 (nr_reg_is_valid_spec p)) by done. apply view_node in Hx as (l & nd & -> & <-).
    rewrite node_type_value in Hty. by rewrite decide_False. }
  assert (Hr : r = R_BAD_ARGS ∨ r = R_FAILED) by (destruct Hp as [[_ ->]|(_ & -> & _)]; tauto).
  unfold nr_reg_local_set_registry. cbn [set_registry_upto]. unfold nr_reg_set.
  mstep using catch_err. by destruct Hr as [-> | ->].
Qed.

Lemma insert_under_fails s n l nd p r :
  good s → fresh_node s l nd → node_wf nd → valid n → reg_view s n = None →
  parent_of n = Some p → parent_fails s p r →
  ∃ s1, nr_reg_insert_node NR_reg_set_registry n l s = Err r s1 ∧ good s1 ∧ node_at s1 n = Some (l, nd) ∧
    ∀ m, m ≠ n → reg_view s1 m = reg_view s m.
Proof.
  intros Hg Hfresh Hnd Hv Hn Hp Hfail.
  destruct (insert_new s n l nd Hg Hfresh Hnd Hv Hn) as (s1 & Hrun1 & Hev1 & Hat).
  exists s1. split_and!; [|apply Hev1|done|].
  2: { intros m Hm. rewrite (ev_view _ _ _ _ Hev1). unfold upd. by rewrite decide_False. }
  unfold nr_reg_insert_node. rewrite (proj2 (nr_reg_is_valid_spec n)) by done. cbn [negb].
  mstep. apply bind_err. unfold nr_reg_set_parent_registries.
  erewrite bind_ok by apply alloc_or_abort_plenty, (ev_good _ _ _ _ Hev1). rewrite Hp.
  apply set_registry_fails; [apply Hev1|].
  destruct Hfail as [?|(Hvp & -> & x & Hx & Hty)]; [by left|right]. split_and!; [done|done|].
  exists x. split; [|done]. rewrite (ev_view _ _ _ _ Hev1). unfold upd.
  rewrite decide_False; [done|]. intros ->. congruence.
Qed.

(** setting a scalar below a name that is not a registry (or whose parent's name is
    not legal) fails after the node was entered in the table; the clean-up frees the
    node and leaves it there, and the next access to the name reads freed memory. *)
Theorem set_below_scalar_dangles s n ty data p r :
  good s → valid n → is_scalar ty = true → reg_view s n = None →
  parent_of n = Some p → parent_fails s p r →
  ∃ s', nr_reg_local_set_scalar n ty data s = Err r s' ∧ nr_reg_get n ty s' = UB.
Proof.
  intros Hg Hv Hty Hn Hp Hfail.
  assert (Harr : is_array ty = false) by by destruct ty.
  destruct (calloc_node s (ScalarNode ty 0) Hg) as (s1 & Hrun1 & Hev1 & Hfresh1).
  destruct (assign_fresh s1 ty (brk s) data) as (b & s2 & Hrun2 & Hev2 & Hfresh2);
    [apply Hev1|done|done|by intros ->|].
  pose proof (evolves_trans _ _ _ _ _ _ _ Hev1 Hev2) as Hev12.
  assert (Hview : ∀ m, reg_view s2 m = reg_view s m).
  { intros m. rewrite (ev_view _ _ _ _ Hev2). apply Hev1. }
  destruct (insert_under_fails s2 n (brk s) (ScalarNode ty (stored ty 0 data)) p r)
    as (s3 & Hrun3 & Hg3 & Hat & _); [apply Hev2|done| |done|by rewrite Hview|done| |].
  { split; [done|by intros ->]. }
  { destruct Hfail as [?|(? & ? & x & Hx & ?)]; [by left|right]. split_and!; [done|done|].
    exists x. by rewrite Hview. }
  destruct (node_at_objs s3 n _ _ Hg3 Hat) as (Ho & _ & _).
  assert (Hr : abort_code r = r) by (destruct Hfail as [[_ ->]|(_ & -> & _)]; done).
  exists (set_objs (delete (brk s)) s3). split.
  - unfold nr_reg_local_set_scalar, nr_reg_set. erewrite bind_ok.
    2: { apply catch_err. rewrite fetch_node_spec by done.
         rewrite (proj2 (nr_reg_is_valid_spec n)) by done. by rewrite (proj1 (view_none s n) Hn). }
    cbn beta iota. change (R_NOT_FOUND =? R_NOT_FOUND) with true. cbn iota.
    mstep. erewrite bind_ok; [|apply catch_err; by mstep].
    cbn beta iota. erewrite bind_ok by by eapply rfree_ok. unfold abort. by rewrite Hr.
  - unfold nr_reg_get. apply bind_ub. unfold nr_reg_fetch_node.
    rewrite (proj2 (nr_reg_is_valid_spec n)) by done. cbn [negb].
    destruct (good_tab s3 Hg3) as (t & Ht & Hwf). unfold node_at in Hat. rewrite Ht in Hat. cbn in Hat.
    pose proof (node_of_fetch t (objs s3) n Hwf) as Hf.
    erewrite (bind_ok _ _ _ (brk s) (set_objs (delete (brk s)) s3)).
    2: { unfold assoc_fetch. erewrite bind_ok; [|by apply load_assoc_TReg].
         destruct (tbl_fetch (tref_hash TReg) t (cbytes n)); [|congruence].
         destruct Hf as (? & Hat' & _). rewrite Hat in Hat'. by injection Hat' as <- _. }
    apply bind_ub. unfold load_node. mstep. cbn. by rewrite lookup_delete_eq.
Qed.

(** the same failure for byte strings: the call reports the error, but the name is
    there, with its value, below a name that is not a registry. *)
Theorem set_array_below_scalar_stays s n ty (data : list Z) p r :
  good s → valid n → is_array ty = true → Z.of_nat (length data) < 2 ^ 32 → reg_view s n = None →
  parent_of n = Some p → parent_fails s p r →
  ∃ s', nr_reg_set_array NR_reg_set_registry n ty data s = Err r s' ∧
    reg_view s' n = Some (VArray ty data) ∧ ¬ tree_ok (reg_view s').
Proof.
  intros Hg Hv Hty Hlen Hn Hp Hfail. destruct (new_array_wf ty data Hty Hlen) as [Hnew Hval].
  edestruct (calloc_node s) as (s1 & Hrun1 & Hev1 & Hfresh1); [done|].
  assert (Hfail1 : parent_fails s1 p r).
  { destruct Hfail as [?|(? & ? & x & Hx & ?)]; [by left|right]. split_and!; [done|done|].
    exists x. by rewrite (ev_view _ _ _ _ Hev1). }
  destruct (insert_under_fails s1 n (brk s) _ p r (ev_good _ _ _ _ Hev1) Hfresh1 Hnew Hv)
    as (s2 & Hrun2 & Hg2 & Hat & Hrest); [by rewrite (ev_view _ _ _ _ Hev1)|done..|].
  assert (Hview : reg_view s2 n = Some (VArray ty data)) by (rewrite <- Hval; apply view_node; eauto).
  exists s2. split_and!; [|done|].
  - unfold nr_reg_set_array. cbv zeta. erewrite bind_ok.
    2: { apply catch_err. rewrite fetch_node_spec by done.
         rewrite (proj2 (nr_reg_is_valid_spec n)) by done. by rewrite (proj1 (view_none s n) Hn). }
    cbn beta iota. change (R_NOT_FOUND =? R_NOT_FOUND) with true. cbn iota. by mstep.
  - intros Htree. assert (Hup : up n = p) by by rewrite up_parent, Hp.
    pose proof (parent_of_Some _ _ Hp) as (r' & Hnp & _ & Hlt).
    destruct (tree_parent _ Htree n _ Hview) as (y & Hy & Hyt); [by intros ->|]. rewrite Hup in Hy.
    rewrite Hrest in Hy by (intros ->; lia). rewrite (ev_view _ _ _ _ Hev1) in Hy.
    destruct Hfail as [[Hbad _]|(_ & _ & x & Hx & Hty')]; [|congruence].
    apply view_valid in Hy; [|done]. apply nr_reg_is_valid_spec in Hy. congruence.
Qed.
End runs.
