(* ===== verification/RegCbSpec.v ===== *)
(** * Registration of callbacks

    What [nr_reg_register_callback] and [nr_reg_unregister_callback] do to the callbacks
    registered on each name.  The tables are shared heap objects, so the proofs rest on
    two facts of the heap: replacing the table of one name, and entering or removing a
    name, leave the callbacks of the others alone. *)

From Stdlib Require Import Ascii.
From S2P Require Import Prelude CString AssocSpec RegNames RegState RegCb RegLocal RegInv.
Local Open Scope Z_scope.

Abbreviation cb_hash := (tref_hash TCbs).

(** Two records are of the same callback. *)
Definition same_id (a cb : Z) (i : nr_reg_cb_info) : Prop := cbi_cb i = cb ∧ cbi_action i = a.

Section ids.
Lemma le_bytes_inj n x y :
  0 <= x < 256 ^ Z.of_nat n → 0 <= y < 256 ^ Z.of_nat n → le_bytes n x = le_bytes n y → x = y.
Proof.
  revert x y. induction n as [|n IH]; intros x y Hx Hy Heq; [cbn in *; lia|].
  cbn in Heq. injection Heq as Hm Heq.
  rewrite Nat2Z.inj_succ, Z.pow_succ_r in Hx, Hy by lia.
  apply IH in Heq.
  - rewrite (Z.div_mod x 256), (Z.div_mod y 256) by lia. congruence.
  - split; [apply Z.div_pos; lia|apply Z.div_lt_upper_bound; lia].
  - split; [apply Z.div_pos; lia|apply Z.div_lt_upper_bound; lia].
Qed.

Lemma action_byte a : a ∈ CB_ACTIONS → a mod 256 = a.
Proof.
  unfold CB_ACTIONS. intros Ha. repeat (apply elem_of_cons in Ha as [->|Ha]; [done|]).
  by apply not_elem_of_nil in Ha.
Qed.

(** The identifier determines the callback and the action. *)
Lemma compute_cb_id_inj cb a cb' a' :
  0 <= cb < 2 ^ 64 → 0 <= cb' < 2 ^ 64 → a ∈ CB_ACTIONS → a' ∈ CB_ACTIONS →
  compute_cb_id cb a = compute_cb_id cb' a' ↔ cb = cb' ∧ a = a'.
Proof.
  intros Hcb Hcb' Ha Ha'. split; [|by intros [-> ->]]. unfold compute_cb_id.
  intros [Hb Hact]%app_inj_tail. rewrite !action_byte in Hact by done.
  split; [|done]. by apply (le_bytes_inj 8).
Qed.
End ids.

(** ** The heap *)

Section heap.
Implicit Types (o : gmap loc obj) (tc t : atbl) (e x : entry loc dtor) (n m : cstring) (l : loc).

Lemma regs_of o tc n e t :
  tbl_fetch cb_hash tc (cbytes n) = Some e → o !! e_data e = Some (OAssoc t) → regs o tc n = infos o t.
Proof. intros He Ht. unfold regs. rewrite He. cbn. by rewrite Ht. Qed.

Lemma infos_elem o t i :
  sub_wf o t → i ∈ infos o t ↔ ∃ x, x ∈ tbl_elems t ∧ o !! e_data x = Some (OInfo i).
Proof.
  intros Hwf. unfold infos. rewrite list_elem_of_omap. split; intros (x & Hx & Hi); exists x; (split; [done|]).
  - destruct (o !! e_data x) as [[]|]; by simplify_eq.
  - by rewrite Hi.
Qed.

Lemma sub_fetch o t cb a :
  sub_wf o t → 0 <= cb < 2 ^ 64 → a ∈ CB_ACTIONS →
  match tbl_fetch (crc_chain 5) t (compute_cb_id cb a) with
  | Some x => ∃ i, x ∈ tbl_elems t ∧ o !! e_data x = Some (OInfo i) ∧ same_id a cb i ∧
                e_key x = compute_cb_id cb a
  | None => ∀ i, i ∈ infos o t → ¬ same_id a cb i
  end.
Proof.
  intros Hwf Hcb Ha. destruct (tbl_fetch _ _ _) as [x|] eqn:Hx.
  - pose proof (tbl_fetch_key _ _ _ _ Hx) as Hk.
    assert (Hin : x ∈ tbl_elems t).
    { apply (tbl_fetch_elem (crc_chain 5)); [apply Hwf|by rewrite Hk]. }
    destruct (sw_info _ _ Hwf x Hin) as (i & Hi & Hki & ? & ?). exists i. split_and!; [done|done| |done].
    rewrite Hk in Hki. by apply compute_cb_id_inj in Hki as [-> ->].
  - intros i Hi [<- <-]. apply infos_elem in Hi as (x & Hx' & Hi); [|done].
    destruct (sw_info _ _ Hwf x Hx') as (i' & Hi' & Hk & _). rewrite Hi in Hi'. injection Hi' as <-.
    apply (tbl_fetch_elem (crc_chain 5)) in Hx'; [|apply Hwf]. congruence.
Qed.

(** The table [t] of the entry [e] becomes [t']; the heap changes at it, at the records
    it had and where nothing was. *)
Record replaces o o' tc e t t' : Prop := {
  rp_in : e ∈ tbl_elems tc;
  rp_old : o !! e_data e = Some (OAssoc t);
  rp_new : o' !! e_data e = Some (OAssoc t');
  rp_wf : sub_wf o' t';
  rp_frame l : l ≠ e_data e → l ∉ (e_data <$> tbl_elems t) → is_Some (o !! l) → o' !! l = o !! l;
  rp_fresh x : x ∈ tbl_elems t' → e_data x ∈ (e_data <$> tbl_elems t) ∨ o !! e_data x = None;
}.

(** Everything that is not of [e] stays. *)
Lemma replaces_other o o' tc e t t' e2 t2 :
  cbs_wf o tc → replaces o o' tc e t t' → e2 ∈ tbl_elems tc → e2 ≠ e → o !! e_data e2 = Some (OAssoc t2) →
  o' !! e_data e2 = Some (OAssoc t2) ∧ ∀ x, x ∈ tbl_elems t2 → o' !! e_data x = o !! e_data x.
Proof.
  intros Hwf Hr He2 Hne Ht2. destruct (cw_sub _ _ Hwf e (rp_in _ _ _ _ _ _ Hr)) as (t0 & Ht0 & Hs).
  rewrite (rp_old _ _ _ _ _ _ Hr) in Ht0. injection Ht0 as <-.
  destruct (cw_sub _ _ Hwf e2 He2) as (t0 & Ht0 & Hs2). rewrite Ht2 in Ht0. injection Ht0 as <-.
  split.
  - rewrite (rp_frame _ _ _ _ _ _ Hr); [done| | |by rewrite Ht2].
    + intros Heq. apply Hne. apply (cw_inj _ _ Hwf); [done|apply Hr|done].
    + intros (x & Hx & Hin)%list_elem_of_fmap. destruct (sw_info _ _ Hs x Hin) as (i & Hi & _).
      rewrite Hx in Ht2. congruence.
  - intros x Hx. destruct (sw_info _ _ Hs2 x Hx) as (i & Hi & _).
    apply (rp_frame _ _ _ _ _ _ Hr); [| |by rewrite Hi].
    + intros Heq. pose proof (rp_old _ _ _ _ _ _ Hr). congruence.
    + intros (y & Hy & Hin)%list_elem_of_fmap. symmetry in Hy. revert Hy.
      apply (cw_disj _ _ Hwf e e2 t t2); [apply Hr|done|done|apply Hr|done..].
Qed.

Lemma replaces_wf o o' tc e t t' n :
  cbs_wf o tc → replaces o o' tc e t t' → e_key e = cbytes n →
  cbs_wf o' tc ∧ regs o' tc n = infos o' t' ∧ ∀ m, m ≠ n → regs o' tc m = regs o tc m.
Proof.
  intros Hwf Hr Hk. split_and!.
  - split; try apply Hwf.
    + intros e2 He2. destruct (decide (e2 = e)) as [->|Hne]; [exists t'; split; apply Hr|].
      destruct (cw_sub _ _ Hwf e2 He2) as (t2 & Ht2 & Hs2).
      destruct (replaces_other o o' tc e t t' e2 t2) as [Ht2' Hsame]; [done..|].
      exists t2. split; [done|]. destruct Hs2 as [? ? Hinfo ? ?]. split; try done.
      intros x Hx. rewrite Hsame by done. by apply Hinfo.
    + assert (Hold : ∀ e2 t2, e2 ∈ tbl_elems tc → e2 ≠ e → o' !! e_data e2 = Some (OAssoc t2) →
        o !! e_data e2 = Some (OAssoc t2)).
      { intros e2 t2 He2 Hne Ht2. destruct (cw_sub _ _ Hwf e2 He2) as (t2' & Ht2' & _).
        destruct (replaces_other o o' tc e t t' e2 t2') as [Hx _]; [done..|]. congruence. }
      assert (Hone : ∀ e2 t2 x x2, e2 ∈ tbl_elems tc → e2 ≠ e → o' !! e_data e2 = Some (OAssoc t2) →
        x ∈ tbl_elems t' → x2 ∈ tbl_elems t2 → e_data x ≠ e_data x2).
      { intros e2 t2 x x2 He2 Hne Ht2 Hx Hx2. apply Hold in Ht2; [|done..].
        destruct (rp_fresh _ _ _ _ _ _ Hr x Hx) as [(y & -> & Hy)%list_elem_of_fmap|Hnone].
        - apply (cw_disj _ _ Hwf e e2 t t2); try done; apply Hr.
        - intros Heq. destruct (cw_sub _ _ Hwf e2 He2) as (t2' & Ht2' & Hs2).
          rewrite Ht2 in Ht2'. injection Ht2' as <-.
          destruct (sw_info _ _ Hs2 x2 Hx2) as (i & Hi & _). congruence. }
      intros e1 e2 t1 t2 x1 x2 He1 He2 Hne Ht1 Ht2 Hx1 Hx2. pose proof (rp_new _ _ _ _ _ _ Hr) as Hnew.
      destruct (decide (e1 = e)) as [->|]; [|destruct (decide (e2 = e)) as [->|]].
      * rewrite Hnew in Ht1. injection Ht1 as <-. by eapply Hone.
      * rewrite Hnew in Ht2. injection Ht2 as <-. apply not_eq_sym. by eapply (Hone e1).
      * apply Hold in Ht1, Ht2; [|done..]. by apply (cw_disj _ _ Hwf e1 e2 t1 t2).
  - apply (regs_of o' tc n e t'); [|apply Hr].
    pose proof (proj1 (tbl_fetch_elem cb_hash tc e (cw_ok _ _ Hwf)) (rp_in _ _ _ _ _ _ Hr)) as Hf.
    by rewrite Hk in Hf.
  - intros m Hm. unfold regs. destruct (tbl_fetch cb_hash tc (cbytes m)) as [e2|] eqn:He2; [|done]. cbn.
    destruct (cbs_fetch _ _ _ _ Hwf He2) as (Hin2 & Hk2 & t2 & Ht2 & _).
    destruct (replaces_other o o' tc e t t' e2 t2) as [Ht2' Hsame]; [done|done|done| |done|].
    + intros ->. apply Hm, cbytes_inj. congruence.
    + rewrite Ht2', Ht2. by apply infos_frame.
Qed.

(** Nodes are not touched. *)
Lemma replaces_nodes o o' tc e t t' l nd :
  cbs_wf o tc → replaces o o' tc e t t' → o !! l = Some (ONode nd) → o' !! l = Some (ONode nd).
Proof.
  intros Hwf Hr Hl. destruct (cw_sub _ _ Hwf e (rp_in _ _ _ _ _ _ Hr)) as (t0 & Ht0 & Hs).
  pose proof (rp_old _ _ _ _ _ _ Hr) as Hold. rewrite Hold in Ht0. injection Ht0 as <-.
  rewrite (rp_frame _ _ _ _ _ _ Hr); [done|congruence| |by rewrite Hl].
  intros (x & -> & Hin)%list_elem_of_fmap. destruct (sw_info _ _ Hs x Hin) as (i & Hi & _). congruence.
Qed.
End heap.

(** ** The table of one name *)

Section sub.
Implicit Types (o : gmap loc obj) (t : atbl) (x y : entry loc dtor) (i j : nr_reg_cb_info) (l : loc).

Definition info_entry (cb a : Z) l : entry loc dtor :=
  Entry (compute_cb_id cb a) l None (Some nr_reg_info_free).

Lemma sub_key_inj o t x y :
  sub_wf o t → x ∈ tbl_elems t → y ∈ tbl_elems t → e_key x = e_key y → x = y.
Proof.
  intros Hwf Hx Hy Hk. apply (tbl_fetch_elem (crc_chain 5)) in Hx, Hy; [|apply Hwf..]. congruence.
Qed.

Lemma sub_ptr_inj o t x y :
  sub_wf o t → x ∈ tbl_elems t → y ∈ tbl_elems t → e_data x = e_data y → x = y.
Proof.
  intros Hwf [k Hk]%list_elem_of_lookup [k' Hk']%list_elem_of_lookup Heq.
  assert (k = k') as ->; [|congruence].
  apply (NoDup_lookup (e_data <$> tbl_elems t) _ _ (e_data x)); [apply Hwf|..];
    rewrite list_lookup_fmap, ?Hk, ?Hk'; cbn; congruence.
Qed.

(** A record of another callback than the one of [x]. *)
Lemma sub_other o t x y i j :
  sub_wf o t → x ∈ tbl_elems t → y ∈ tbl_elems t → o !! e_data x = Some (OInfo i) →
  o !! e_data y = Some (OInfo j) → x ≠ y ↔ ¬ same_id (cbi_action i) (cbi_cb i) j.
Proof.
  intros Hwf Hx Hy Hi Hj.
  destruct (sw_info _ _ Hwf x Hx) as (i' & Hi' & Hk & ? & ?). rewrite Hi in Hi'. injection Hi' as <-.
  destruct (sw_info _ _ Hwf y Hy) as (j' & Hj' & Hkj & ? & ?). rewrite Hj in Hj'. injection Hj' as <-.
  split; intros Hne.
  - intros [Hcb Ha]. apply Hne. eapply sub_key_inj; [done..|]. by rewrite Hk, Hkj, Hcb, Ha.
  - intros ->. apply Hne. rewrite Hi in Hj. by injection Hj as <-.
Qed.

Lemma sub_wf_mono o o' t :
  sub_wf o t → (∀ x, x ∈ tbl_elems t → o' !! e_data x = o !! e_data x) → sub_wf o' t.
Proof. intros [? ? Hinfo ? ?] Hsame. split; try done. intros x Hx. rewrite Hsame by done. by apply Hinfo. Qed.

(** A record is added. *)
Lemma sub_add o t l cb a i :
  sub_wf o t → o !! l = Some (OInfo i) → l ∉ (e_data <$> tbl_elems t) → same_id a cb i →
  0 <= cb < 2 ^ 64 → a ∈ CB_ACTIONS → tbl_fetch (crc_chain 5) t (compute_cb_id cb a) = None →
  t_num t + 1 < 2 ^ 31 →
  sub_wf o (tbl_put (crc_chain 5) t (info_entry cb a l)) ∧
  ∀ j, j ∈ infos o (tbl_put (crc_chain 5) t (info_entry cb a l)) ↔ j = i ∨ j ∈ infos o t.
Proof.
  intros Hwf Hl Hnew [Hcb Ha] Hcbr Hact Hnone Hroom.
  pose proof (tbl_elems_put_new (crc_chain 5) t (info_entry cb a l) (sw_ok _ _ Hwf) Hnone) as Hperm.
  assert (Hin : ∀ x, x ∈ tbl_elems (tbl_put (crc_chain 5) t (info_entry cb a l)) ↔
    x = info_entry cb a l ∨ x ∈ tbl_elems t) by (intros x; rewrite Hperm; apply elem_of_cons).
  assert (Hwf' : sub_wf o (tbl_put (crc_chain 5) t (info_entry cb a l))).
  { destruct Hwf as [Hok [Hnum Hb] Hinfo Hd Hp]. split.
    - by apply tbl_put_ok.
    - rewrite (Permutation_length Hperm). cbn [tbl_put t_num length]. rewrite wrap_small by lia. lia.
    - intros x [->|Hx]%Hin; [|by apply Hinfo]. exists i. cbn. by rewrite Hcb, Ha.
    - intros x [->|Hx]%Hin; [done|by apply Hd].
    - rewrite Hperm. by apply NoDup_cons. }
  split; [done|]. intros j. rewrite !infos_elem by done. split.
  - intros (x & [->|Hx]%Hin & Hj); [left; cbn in Hj; congruence|right; by exists x].
  - intros [->|(x & Hx & Hj)].
    + exists (info_entry cb a l). split; [apply Hin; by left|done].
    + exists x. split; [apply Hin; by right|done].
Qed.

(** A record is overwritten with one of the same callback. *)
Lemma sub_update o t x i i' :
  sub_wf o t → x ∈ tbl_elems t → o !! e_data x = Some (OInfo i) → same_id (cbi_action i) (cbi_cb i) i' →
  sub_wf (<[e_data x := OInfo i']> o) t ∧
  ∀ j, j ∈ infos (<[e_data x := OInfo i']> o) t ↔
       j = i' ∨ j ∈ infos o t ∧ ¬ same_id (cbi_action i) (cbi_cb i) j.
Proof.
  intros Hwf Hx Hi [Hcb Ha].
  assert (Hother : ∀ y, y ∈ tbl_elems t → y ≠ x → <[e_data x := OInfo i']> o !! e_data y = o !! e_data y).
  { intros y Hy Hne. rewrite lookup_insert_ne; [done|]. intros Heq. apply Hne, (sub_ptr_inj o t); done. }
  assert (Hwf' : sub_wf (<[e_data x := OInfo i']> o) t).
  { split; try apply Hwf. intros y Hy. destruct (decide (y = x)) as [->|Hne].
    - destruct (sw_info _ _ Hwf x Hx) as (i0 & Hi0 & ? & ? & ?). rewrite Hi in Hi0. injection Hi0 as <-.
      exists i'. rewrite lookup_insert_eq. by rewrite Hcb, Ha.
    - rewrite Hother by done. by apply Hwf. }
  split; [done|]. intros j. rewrite !infos_elem by done. split.
  - intros (y & Hy & Hj). destruct (decide (y = x)) as [->|Hne].
    + rewrite lookup_insert_eq in Hj. left. congruence.
    + right. rewrite Hother in Hj by done. split; [by exists y|].
      apply (sub_other o t x y); by try apply not_eq_sym.
  - intros [->|[(y & Hy & Hj) Hne]]; [exists x; by rewrite lookup_insert_eq|].
    exists y. split; [done|]. rewrite Hother; [done..|]. apply not_eq_sym. by apply (sub_other o t x y i j).
Qed.

(** A record is removed. *)
Lemma sub_remove o t x i :
  sub_wf o t → x ∈ tbl_elems t → o !! e_data x = Some (OInfo i) →
  sub_wf o (tbl_remove (crc_chain 5) t (e_key x)) ∧ e_data x ∉ (e_data <$> tbl_elems (tbl_remove (crc_chain 5) t (e_key x))) ∧
  tbl_elems t ≡ₚ x :: tbl_elems (tbl_remove (crc_chain 5) t (e_key x)) ∧
  ∀ j, j ∈ infos o (tbl_remove (crc_chain 5) t (e_key x)) ↔
       j ∈ infos o t ∧ ¬ same_id (cbi_action i) (cbi_cb i) j.
Proof.
  intros Hwf Hx Hi. set (t' := tbl_remove (crc_chain 5) t (e_key x)).
  assert (Hf : tbl_fetch (crc_chain 5) t (e_key x) = Some x) by (apply tbl_fetch_elem; [apply Hwf|done]).
  pose proof (tbl_elems_remove (crc_chain 5) t _ _ (sw_ok _ _ Hwf) Hf) as Hperm. fold t' in Hperm.
  pose proof (sw_ptrs _ _ Hwf) as Hnd. rewrite Hperm in Hnd. apply NoDup_cons in Hnd as [Hno Hnd].
  assert (Hin : ∀ y, y ∈ tbl_elems t' → y ∈ tbl_elems t) by (intros y Hy; rewrite Hperm; by right).
  assert (Hnum : t_num t' = t_num t - 1).
  { unfold t', tbl_remove. unfold tbl_fetch in Hf. apply fmap_Some in Hf as ([k y] & -> & _). cbn.
    destruct (sw_num _ _ Hwf) as [Hn ?]. rewrite (Permutation_length Hperm) in Hn. cbn in Hn.
    apply wrap_small. lia. }
  assert (Hwf' : sub_wf o t').
  { destruct Hwf as [Hok [Hn Hb] Hinfo Hd Hp]. split; auto.
    - by apply tbl_remove_ok.
    - rewrite Hnum. rewrite (Permutation_length Hperm) in Hn. cbn in Hn. lia. }
  split_and!; [done|done|done|]. intros j. rewrite !infos_elem by done. split.
  - intros (y & Hy & Hj). split; [by eauto|]. apply (sub_other o t x y); [by auto..|].
    intros <-. apply Hno. by apply list_elem_of_fmap_2.
  - intros [(y & Hy & Hj) Hne]. exists y. split; [|done].
    apply (sub_other o t x y) in Hne; [|done..]. rewrite Hperm in Hy.
    by apply elem_of_cons in Hy as [->|?].
Qed.
End sub.

(** ** The table of the names *)

Section names.
Implicit Types (o : gmap loc obj) (tc t : atbl) (e x : entry loc dtor) (n m : cstring) (l : loc).

Definition cb_entry n l : entry loc dtor := Entry (cbytes n) l None (Some nr_reg_assoc_destroy).

Lemma empty_sub_wf o : sub_wf o (empty_tab 5).
Proof.
  assert (Hel : tbl_elems (empty_tab 5 : atbl) = []) by apply tbl_elems_empty.
  assert (Hno : ∀ x, x ∉ tbl_elems (empty_tab 5 : atbl)) by (intros x; rewrite Hel; apply not_elem_of_nil).
  split; [apply (empty_tab_ok (TObj 1))|by rewrite Hel| | |rewrite Hel; constructor];
    intros x Hx; by destruct (Hno x).
Qed.

(** A name gets an empty table. *)
Lemma cbs_add o tc n l :
  cbs_wf o tc → tbl_fetch cb_hash tc (cbytes n) = None → o !! l = Some (OAssoc (empty_tab 5)) →
  (∀ e, e ∈ tbl_elems tc → e_data e ≠ l) → t_num tc + 1 < 2 ^ 31 →
  let tc' := tbl_put cb_hash tc (cb_entry n l) in
  cbs_wf o tc' ∧ ∀ m, regs o tc' m = regs o tc m.
Proof.
  intros Hwf Hnone Hl Hnew Hroom tc'.
  assert (Hel : tbl_elems (empty_tab 5 : atbl) = []) by apply tbl_elems_empty.
  pose proof (tbl_elems_put_new cb_hash tc (cb_entry n l) (cw_ok _ _ Hwf) Hnone) as Hperm.
  assert (Hin : ∀ e, e ∈ tbl_elems tc' → e = cb_entry n l ∨ e ∈ tbl_elems tc)
    by (intros e; unfold tc'; rewrite Hperm; apply elem_of_cons).
  split.
  - destruct Hwf as [Hok [Hnum Hb] Hd Hs Hi Hdj]. split.
    + by apply tbl_put_ok.
    + unfold tc'. rewrite (Permutation_length Hperm). cbn [tbl_put t_num length]. rewrite wrap_small by lia. lia.
    + intros e [->|He]%Hin; [done|by apply Hd].
    + intros e [->|He]%Hin; [|by apply Hs]. exists (empty_tab 5). split; [done|apply empty_sub_wf].
    + intros e e' [->|He]%Hin [->|He']%Hin Heq; [done| | |by apply Hi]; cbn in Heq.
      * by destruct (Hnew e').
      * by destruct (Hnew e).
    + intros e e' t t' x x' [->|He]%Hin [->|He']%Hin Hne Ht Ht' Hx Hx'; [done| | |].
      * cbn in Ht. rewrite Hl in Ht. injection Ht as <-. rewrite Hel in Hx. by apply not_elem_of_nil in Hx.
      * cbn in Ht'. rewrite Hl in Ht'. injection Ht' as <-. rewrite Hel in Hx'. by apply not_elem_of_nil in Hx'.
      * by apply (Hdj e e' t t' x x').
  - intros m. unfold regs, tc'. destruct (decide (m = n)) as [->|Hne].
    + rewrite Hnone. change (cbytes n) with (e_key (cb_entry n l)).
      rewrite tbl_fetch_put_eq by apply Hwf. cbn. rewrite Hl. unfold infos. by rewrite Hel.
    + rewrite tbl_fetch_put_ne; [done|apply Hwf|]. cbn. by intros ?%cbytes_inj.
Qed.

(** A name whose table is empty is removed. *)
Lemma cbs_remove o tc n e t :
  cbs_wf o tc → tbl_fetch cb_hash tc (cbytes n) = Some e → o !! e_data e = Some (OAssoc t) →
  tbl_elems t = [] →
  let tc' := tbl_remove cb_hash tc (cbytes n) in
  cbs_wf (delete (e_data e) o) tc' ∧ ∀ m, regs (delete (e_data e) o) tc' m = regs o tc m.
Proof.
  intros Hwf Hf Ht Hempty tc'.
  destruct (cbs_fetch _ _ _ _ Hwf Hf) as (He & Hk & _).
  pose proof (tbl_elems_remove cb_hash tc _ _ (cw_ok _ _ Hwf) Hf) as Hperm. fold tc' in Hperm.
  assert (Hnd : NoDup (tbl_elems tc)).
  { apply (NoDup_fmap_1 e_key), (tbl_elems_NoDup cb_hash), Hwf. }
  rewrite Hperm in Hnd. apply NoDup_cons in Hnd as [Hno Hnd].
  assert (Hin : ∀ e2, e2 ∈ tbl_elems tc' → e2 ∈ tbl_elems tc) by (intros e2 Hy; rewrite Hperm; by right).
  assert (Hsub : ∀ e2, e2 ∈ tbl_elems tc' → delete (e_data e) o !! e_data e2 = o !! e_data e2).
  { intros e2 He2. rewrite lookup_delete_ne; [done|]. intros Heq.
    assert (e = e2) as -> by (apply (cw_inj _ _ Hwf); auto). done. }
  assert (Hinfo : ∀ t2, sub_wf o t2 → ∀ x, x ∈ tbl_elems t2 → delete (e_data e) o !! e_data x = o !! e_data x).
  { intros t2 Hs x Hx. destruct (sw_info _ _ Hs x Hx) as (i & Hi & _).
    rewrite lookup_delete_ne; [done|]. intros Heq. rewrite Heq in Ht. congruence. }
  assert (Hnum : t_num tc' = t_num tc - 1).
  { unfold tc', tbl_remove. unfold tbl_fetch in Hf. apply fmap_Some in Hf as ([k y] & -> & _). cbn.
    destruct (cw_num _ _ Hwf) as [Hn ?]. rewrite (Permutation_length Hperm) in Hn. cbn in Hn.
    apply wrap_small. lia. }
  split.
  - pose proof Hwf as [Hok [Hn Hb] Hd Hs Hi Hdj]. split; auto.
    + by apply tbl_remove_ok.
    + rewrite Hnum. rewrite (Permutation_length Hperm) in Hn. cbn in Hn. lia.
    + intros e2 He2. destruct (Hs e2) as (t2 & Ht2 & Hs2); [by auto|]. exists t2. rewrite Hsub by done.
      split; [done|]. eapply sub_wf_mono; [done|]. by apply Hinfo.
    + intros e1 e2 t1 t2 x1 x2 He1 He2 Hne Ht1 Ht2. rewrite Hsub in Ht1, Ht2 by done.
      apply (Hdj e1 e2 t1 t2); auto.
  - intros m. unfold regs. destruct (decide (m = n)) as [->|Hne].
    + unfold tc'. rewrite tbl_fetch_remove_eq by apply Hwf. rewrite Hf. cbn. rewrite Ht. cbn.
      unfold infos. by rewrite Hempty.
    + assert (Hm : tbl_fetch cb_hash tc' (cbytes m) = tbl_fetch cb_hash tc (cbytes m)).
      { apply tbl_fetch_remove_ne; [apply Hwf|]. by intros ?%cbytes_inj. }
      rewrite Hm. destruct (tbl_fetch cb_hash tc (cbytes m)) as [e2|] eqn:He2; [|done]. cbn.
      destruct (cbs_fetch _ _ _ _ Hwf He2) as (_ & Hk2 & t2 & Ht2 & Hs2). rewrite Hsub.
      * rewrite Ht2. by apply infos_frame, Hinfo.
      * apply (tbl_fetch_elem cb_hash); [by apply tbl_remove_ok, Hwf|]. by rewrite Hk2.
Qed.
End names.

(** ** Registering and unregistering *)

(** The callbacks of [n] become those of [P]; nothing else changes. *)
Record rereg (s s' : reg_state) (n : cstring) (P : nr_reg_cb_info → Prop) : Prop := {
  rr_good : good s';
  rr_view m : reg_view s' m = reg_view s m;
  rr_calls : calls s' = calls s;
  rr_others m : m ≠ n → registered s' m = registered s m;
  rr_here i : i ∈ registered s' n ↔ P i;
}.

Section runs.
Implicit Types (s : reg_state) (o : gmap loc obj) (tc t : atbl) (e x : entry loc dtor) (n m : cstring) (l : loc).

(** The general form of a step on the callback tables. *)
Lemma cb_step s tc tc' o' b' :
  good s → nr_registry_callbacks s = Some tc → cbs_wf o' tc' →
  (∀ l nd, objs s !! l = Some (ONode nd) → o' !! l = Some (ONode nd)) →
  (∀ l, (b' <= l)%positive → o' !! l = None) →
  let s' := RegState o' b' (answers s) (nr_registry s) (Some tc') (reg_vtbl s) (calls s) in
  good s' ∧ ∀ n, reg_view s' n = reg_view s n.
Proof.
  intros Hg Htc Hwf' Hnodes Hfresh s'. destruct (good_tab s Hg) as (t & Ht & Hwf).
  destruct (tab_wf_frame t (objs s) o' Hwf) as [Htab Hsame].
  { intros l Hl. destruct (ptrs_alloc s t l Hg Ht Hl) as [nd Hnd]. by rewrite Hnd, (Hnodes _ _ Hnd). }
  destruct Hg as [_ _ Hmem Hvt]. split.
  - split; [split; [by exists t|done]|by exists tc'|done|done].
  - intros n. unfold reg_view, node_at. cbn. rewrite Ht. cbn. by rewrite Hsame.
Qed.

Lemma replace_step s tc e t t' n o' b' P :
  good s → nr_registry_callbacks s = Some tc → e_key e = cbytes n → replaces (objs s) o' tc e t t' →
  (∀ l, (b' <= l)%positive → o' !! l = None) → (∀ i, i ∈ infos o' t' ↔ P i) →
  rereg s (RegState o' b' (answers s) (nr_registry s) (Some tc) (reg_vtbl s) (calls s)) n P.
Proof.
  intros Hg Htc Hk Hr Hfresh HP. pose proof (cb_ok_wf s tc (g_cb s Hg) Htc) as Hwf.
  destruct (replaces_wf _ _ _ _ _ _ n Hwf Hr Hk) as (Hwf' & Hhere & Hother).
  destruct (cb_step s tc tc o' b' Hg Htc Hwf') as [Hg' Hview]; [|done|].
  { intros l nd. by apply (replaces_nodes _ _ tc e t t'). }
  split; [done|done|done|..].
  - intros m Hm. unfold registered. cbn. rewrite Htc. by apply Hother.
  - intros i. unfold registered. cbn. by rewrite Hhere.
Qed.

Lemma load_assoc_TObj s l t : objs s !! l = Some (OAssoc t) → load_assoc (TObj l) s = Ok t s.
Proof. intros Hl. unfold load_assoc. mstep. by rewrite Hl. Qed.

Lemma state_eta s tc :
  nr_registry_callbacks s = Some tc →
  s = RegState (objs s) (brk s) (answers s) (nr_registry s) (Some tc) (reg_vtbl s) (calls s).
Proof. destruct s. cbn. by intros ->. Qed.

Lemma assoc_insert_new s r t k l ds :
  mem_plenty s → load_assoc r s = Ok t s → tbl_fetch (tref_hash r) t k = None →
  assoc_insert r k l ds false s = Ok () (put_assoc r (tbl_put (tref_hash r) t (Entry k l None (Some ds))) s).
Proof.
  intros Hmem Ht Hf. unfold assoc_insert. mstep. rewrite Hf. erewrite bind_ok; [done|].
  erewrite bind_ok; [|by apply alloc_or_abort_plenty]. by apply alloc_or_abort_plenty.
Qed.

(** A record that is there is overwritten with one of its identifier. *)
Lemma info_update_run s tc e t n x i0 i :
  good s → nr_registry_callbacks s = Some tc → tbl_fetch cb_hash tc (cbytes n) = Some e →
  objs s !! e_data e = Some (OAssoc t) → x ∈ tbl_elems t → objs s !! e_data x = Some (OInfo i0) →
  same_id (cbi_action i0) (cbi_cb i0) i →
  ∃ s', store_info (e_data x) i s = Ok () s' ∧
    rereg s s' n (λ j, j = i ∨ j ∈ infos (objs s) t ∧ ¬ same_id (cbi_action i0) (cbi_cb i0) j) ∧
    nr_registry_callbacks s' = Some tc.
Proof.
  intros Hg Htc Hf Ht Hin Hi0 Hid. pose proof (cb_ok_wf s tc (g_cb s Hg) Htc) as Hwf.
  destruct (cbs_fetch _ _ _ _ Hwf Hf) as (He & Hk & t0 & Ht0 & Hs). rewrite Ht in Ht0. injection Ht0 as <-.
  destruct (sub_update (objs s) t x i0 i Hs Hin Hi0 Hid) as [Hs' Hinfos].
  eexists. split; [unfold store_info; by mstep using load_info_ok|]. split; [|done].
  unfold set_objs. rewrite Htc. eapply (replace_step s tc e t t); [done..| | |exact Hinfos].
  - assert (Hne : e_data x ≠ e_data e) by (intros Heq; rewrite Heq in Hi0; congruence).
    split; [done|done|by rewrite lookup_insert_ne|done| |].
    + intros l _ Hl _. rewrite lookup_insert_ne; [done|]. intros <-. by apply Hl, list_elem_of_fmap_2.
    + intros y Hy. left. by apply list_elem_of_fmap_2.
  - intros l Hl. rewrite lookup_insert_ne; [by apply (g_wf s Hg)|]. intros <-.
    pose proof (rw_fresh s (g_wf s Hg) _ Hl). congruence.
Qed.

(** A new record enters the table of a name. *)
Lemma info_added s tc e t n a cb i :
  good s → cbs_wf (objs s) tc → tbl_fetch cb_hash tc (cbytes n) = Some e → objs s !! e_data e = Some (OAssoc t) →
  same_id a cb i → 0 <= cb < 2 ^ 64 → a ∈ CB_ACTIONS → tbl_fetch (crc_chain 5) t (compute_cb_id cb a) = None →
  t_num t + 1 < 2 ^ 31 →
  let t' := tbl_put (crc_chain 5) t (info_entry cb a (brk s)) in
  let o' := <[e_data e := OAssoc t']> (<[brk s := OInfo i]> (objs s)) in
  replaces (objs s) o' tc e t t' ∧ (∀ l, (Pos.succ (brk s) <= l)%positive → o' !! l = None) ∧
  ∀ j, j ∈ infos o' t' ↔ j = i ∨ j ∈ infos (objs s) t.
Proof.
  intros Hg Hwf Hf Ht Hid Hcb Ha Hx Hroom t' o'.
  destruct (cbs_fetch _ _ _ _ Hwf Hf) as (He & Hk & t0 & Ht0 & Hs). rewrite Ht in Ht0. injection Ht0 as <-.
  pose proof (rw_fresh s (g_wf s Hg) (brk s) (Pos.le_refl _)) as Hb.
  assert (Hbx : ∀ y, y ∈ tbl_elems t → brk s ≠ e_data y).
  { intros y Hy Heq. destruct (sw_info _ _ Hs y Hy) as (j & Hj & _). congruence. }
  assert (Hbe : brk s ≠ e_data e) by congruence.
  set (o1 := <[brk s := OInfo i]> (objs s)).
  assert (Hs1 : sub_wf o1 t ∧ infos o1 t = infos (objs s) t).
  { assert (Hsame : ∀ y, y ∈ tbl_elems t → o1 !! e_data y = objs s !! e_data y).
    { intros y Hy. unfold o1. rewrite lookup_insert_ne by auto. done. }
    split; [by eapply sub_wf_mono|by apply infos_frame]. }
  destruct Hs1 as [Hs1 Hinfos1].
  destruct (sub_add o1 t (brk s) cb a i Hs1) as [Hs2 Hinfos2]; [by apply lookup_insert_eq| |done..|].
  { intros (y & Hy & Hin)%list_elem_of_fmap. by destruct (Hbx y). }
  assert (Hsame : ∀ y, y ∈ tbl_elems t' → o' !! e_data y = o1 !! e_data y).
  { intros y Hy. unfold o'. rewrite lookup_insert_ne; [done|]. intros Heq.
    destruct (sw_info _ _ Hs2 y Hy) as (j & Hj & _). unfold o1 in Hj.
    rewrite <- Heq, lookup_insert_ne in Hj by done. congruence. }
  split_and!; [split; [done|done|by apply lookup_insert_eq|by eapply sub_wf_mono|..]| |].
  - intros l Hl _ [y Hy]. unfold o'. rewrite lookup_insert_ne by done. unfold o1.
    rewrite lookup_insert_ne; [done|congruence].
  - intros y Hy. unfold t' in Hy. rewrite (tbl_elems_put_new (crc_chain 5)) in Hy by (done || apply Hs).
    apply elem_of_cons in Hy as [->|Hy]; [by right|left; by apply list_elem_of_fmap_2].
  - intros l Hl. unfold o'. rewrite lookup_insert_ne.
    + rewrite lookup_insert_ne by lia. apply (g_wf s Hg). lia.
    + intros <-. rewrite (rw_fresh s (g_wf s Hg)) in Ht by lia. done.
  - intros j. erewrite infos_frame by done. unfold t'. by rewrite Hinfos2, Hinfos1.
Qed.

(** A table that is there gets the record. *)
Lemma register_info_run s tc e t n a cb arg :
  good s → nr_registry_callbacks s = Some tc → tbl_fetch cb_hash tc (cbytes n) = Some e →
  objs s !! e_data e = Some (OAssoc t) → 0 <= cb < 2 ^ 64 → a ∈ CB_ACTIONS → t_num t + 1 < 2 ^ 31 →
  ∃ s', register_info (e_data e) n a cb arg s = Ok () s' ∧
    rereg s s' n (λ i, i = CbInfo a cb arg n ∨ i ∈ registered s n ∧ ¬ same_id a cb i) ∧
    nr_registry_callbacks s' = Some tc.
Proof.
  intros Hg Htc Hf Ht Hcb Ha Hroom. pose proof (cb_ok_wf s tc (g_cb s Hg) Htc) as Hwf.
  destruct (cbs_fetch _ _ _ _ Hwf Hf) as (He & Hk & t0 & Ht0 & Hs). rewrite Ht in Ht0. injection Ht0 as <-.
  assert (Hreg : registered s n = infos (objs s) t) by (unfold registered; rewrite Htc; by eapply regs_of).
  rewrite Hreg. pose proof (sub_fetch (objs s) t cb a Hs Hcb Ha) as Hsub.
  assert (Hfetch : assoc_fetch (TObj (e_data e)) (compute_cb_id cb a) s =
    match tbl_fetch (crc_chain 5) t (compute_cb_id cb a) with Some x => Ok (e_data x) s | None => Err R_NOT_FOUND s end).
  { unfold assoc_fetch. mstep using load_assoc_TObj.
    change (tref_hash (TObj (e_data e))) with (crc_chain 5). by destruct (tbl_fetch (crc_chain 5) t _). }
  unfold register_info. cbv zeta.
  destruct (tbl_fetch (crc_chain 5) t (compute_cb_id cb a)) as [x|] eqn:Hx.
  - destruct Hsub as (i0 & Hin & Hi0 & [<- <-] & _).
    destruct (info_update_run s tc e t n x i0 (CbInfo (cbi_action i0) (cbi_cb i0) arg n)) as (s' & Hrun & Hrest); [done..|].
    exists s'. split; [by mstep using catch_ok|done].
  - destruct (info_added s tc e t n a cb (CbInfo a cb arg n)) as (Hrep & Hfresh & Hinfos); [done..|].
    eexists. split.
    { mstep using catch_err. cbn beta iota. change (R_NOT_FOUND =? R_NOT_FOUND) with true.
      cbn iota. erewrite bind_ok.
      2: { unfold calloc. erewrite bind_ok by apply alloc_or_abort_plenty, Hg. done. }
      erewrite bind_ok; [|apply catch_ok, (assoc_insert_new _ (TObj (e_data e)) t); [apply Hg| |done]];
        [done|]. apply load_assoc_TObj. cbn. rewrite lookup_insert_ne; [done|].
      intros Heq. rewrite <- Heq, (rw_fresh s (g_wf s Hg)) in Ht by lia. done. }
    split; [|done]. unfold put_assoc, set_objs, add_obj. cbn [objs brk answers nr_registry nr_registry_callbacks reg_vtbl calls].
    rewrite Htc. eapply (replace_step s tc e t); [done..|exact Hrep|exact Hfresh|].
    intros j. rewrite Hinfos. naive_solver.
Qed.

(** Room for one more name and one more callback, below the range of the counters. *)
Definition cb_count s : Z := match nr_registry_callbacks s with Some tc => t_num tc | None => 0 end.
Definition cb_room s n : Prop :=
  cb_count s + 1 < 2 ^ 31 ∧ Z.of_nat (length (registered s n)) + 1 < 2 ^ 31.

Lemma infos_length o t : sub_wf o t → length (infos o t) = length (tbl_elems t).
Proof.
  intros Hs. pose proof (sw_info _ _ Hs) as Hinfo. unfold infos. clear Hs.
  induction (tbl_elems t) as [|x xs IH]; [done|]. cbn.
  destruct (Hinfo x) as (i & -> & _); [by left|]. cbn. f_equal. apply IH. intros y Hy. apply Hinfo. by right.
Qed.

Lemma validate_ok s a : a ∈ CB_ACTIONS → nr_reg_validate_action a s = Ok () s.
Proof.
  intros Ha. unfold nr_reg_validate_action. rewrite (proj2 (existsb_exists _ _)); [done|].
  exists a. rewrite <- list_elem_of_In, Z.eqb_refl. done.
Qed.

Lemma rereg_trans s s' s'' n P :
  good s' → (∀ m, reg_view s' m = reg_view s m) → calls s' = calls s →
  (∀ m, registered s' m = registered s m) → rereg s' s'' n P → rereg s s'' n P.
Proof.
  intros Hg Hv Hc Hr [? Hv' Hc' Ho Hh]. split; [done|..].
  - intros m. by rewrite Hv'.
  - by rewrite Hc'.
  - intros m Hm. by rewrite Ho.
  - done.
Qed.

(** A name without a table gets an empty one. *)
Lemma new_table_run s tc n :
  good s → nr_registry_callbacks s = Some tc → tbl_fetch cb_hash tc (cbytes n) = None → t_num tc + 1 < 2 ^ 31 →
  ∃ s1 tc1, assoc_create 5 s = Ok (brk s) (add_obj (OAssoc (empty_tab 5)) s) ∧
    assoc_insert TCbs (cbytes n) (brk s) nr_reg_assoc_destroy false (add_obj (OAssoc (empty_tab 5)) s) = Ok () s1 ∧
    nr_registry_callbacks s1 = Some tc1 ∧ tbl_fetch cb_hash tc1 (cbytes n) = Some (cb_entry n (brk s)) ∧
    objs s1 !! brk s = Some (OAssoc (empty_tab 5)) ∧
    good s1 ∧ (∀ m, reg_view s1 m = reg_view s m) ∧ calls s1 = calls s ∧ (∀ m, registered s1 m = registered s m) ∧
    t_num tc1 = t_num tc + 1.
Proof.
  intros Hg Htc Hf Hroom. pose proof (cb_ok_wf s tc (g_cb s Hg) Htc) as Hwf.
  pose proof (rw_fresh s (g_wf s Hg) (brk s) (Pos.le_refl _)) as Hb.
  set (o1 := <[brk s := OAssoc (empty_tab 5)]> (objs s)).
  destruct (cbs_frame (objs s) o1 tc Hwf) as [Hwf1 Hregs1].
  { intros l y Hl _. unfold o1. rewrite lookup_insert_ne; [done|congruence]. }
  destruct (cbs_add o1 tc n (brk s) Hwf1 Hf) as [Hwf2 Hregs2]; [by apply lookup_insert_eq| |done|].
  { intros e He Heq. destruct (cw_sub _ _ Hwf e He) as (t & Ht & _). congruence. }
  destruct (cb_step s tc (tbl_put cb_hash tc (cb_entry n (brk s))) o1 (Pos.succ (brk s)) Hg Htc Hwf2) as [Hg2 Hview].
  { intros l nd Hl. unfold o1. rewrite lookup_insert_ne; [done|congruence]. }
  { intros l Hl. unfold o1. rewrite lookup_insert_ne by lia. apply (g_wf s Hg). lia. }
  eexists _, _. split_and!.
  - unfold assoc_create. erewrite bind_ok by apply alloc_or_abort_plenty, Hg.
    by erewrite bind_ok by apply alloc_ok_plenty, Hg.
  - apply (assoc_insert_new _ TCbs tc); [apply Hg|by apply load_assoc_TCbs|done].
  - done.
  - change (cbytes n) with (e_key (cb_entry n (brk s))). by apply tbl_fetch_put_eq, Hwf.
  - by apply lookup_insert_eq.
  - exact Hg2.
  - exact Hview.
  - done.
  - intros m. unfold registered. cbn. rewrite Htc. fold o1. by rewrite <- Hregs1, <- Hregs2.
  - cbn. apply wrap_small. destruct (cw_num _ _ Hwf). lia.
Qed.

Lemma register_counts s n a cb arg :
  good s → valid n → a ∈ CB_ACTIONS → 0 < cb < 2 ^ 64 → cb_room s n →
  ∃ s', nr_reg_register_callback n a cb arg s = Ok () s' ∧
    rereg s s' n (λ i, i = CbInfo a cb arg n ∨ i ∈ registered s n ∧ ¬ same_id a cb i) ∧
    cb_count s' <= cb_count s + 1.
Proof.
  intros Hg Hv Ha Hcb [Hroom Hroom']. destruct (g_cb s Hg) as (tc & Htc & Hwf).
  unfold cb_count in *. rewrite Htc in *. unfold registered in Hroom'. rewrite Htc in Hroom'.
  assert (Hrun : nr_reg_register_callback n a cb arg s =
    match tbl_fetch cb_hash tc (cbytes n) with
    | Some e => register_info (e_data e) n a cb arg s
    | None => register_cleanup true
        (assoc ← assoc_create 5;
         assoc_insert TCbs (cbytes n) assoc nr_reg_assoc_destroy false;; register_info assoc n a cb arg) s
    end).
  { unfold nr_reg_register_callback. destruct (Z.eqb_spec cb 0); [lia|].
    mstep. rewrite Htc, (proj2 (nr_reg_is_valid_spec n)) by done. cbn [negb].
    mstep using validate_ok. pose proof (assoc_fetch_TCbs s tc (cbytes n) Htc) as Hf.
    destruct (tbl_fetch cb_hash tc (cbytes n)).
    - by mstep using catch_ok.
    - by mstep using catch_err. }
  rewrite Hrun. destruct (tbl_fetch cb_hash tc (cbytes n)) as [e|] eqn:He.
  - destruct (cbs_fetch _ _ _ _ Hwf He) as (_ & _ & t & Ht & Hs).
    destruct (register_info_run s tc e t n a cb arg) as (s' & Hrun' & Hrr & Htc'); try done; [lia| |].
    { rewrite (regs_of _ _ _ _ _ He Ht), infos_length in Hroom' by done. destruct (sw_num _ _ Hs). lia. }
    exists s'. rewrite Htc'. split_and!; [done|done|lia].
  - destruct (new_table_run s tc n Hg Htc He Hroom)
      as (s1 & tc1 & Hrun1 & Hrun2 & Htc1 & Hf1 & Ht1 & Hg1 & Hv1 & Hc1 & Hr1 & Hnum1).
    destruct (register_info_run s1 tc1 (cb_entry n (brk s)) (empty_tab 5) n a cb arg) as (s2 & Hrun3 & Hrr & Htc2);
      [done..|lia|done|done|].
    exists s2. rewrite Htc2. split_and!; [| |lia].
    + unfold register_cleanup. erewrite bind_ok; [|apply catch_ok; mstep; by mstep].
      done.
    + rewrite Hr1 in Hrr. by eapply rereg_trans.
Qed.

Lemma register_run s n a cb arg :
  good s → valid n → a ∈ CB_ACTIONS → 0 < cb < 2 ^ 64 → cb_room s n →
  ∃ s', nr_reg_register_callback n a cb arg s = Ok () s' ∧
    rereg s s' n (λ i, i = CbInfo a cb arg n ∨ i ∈ registered s n ∧ ¬ same_id a cb i).
Proof.
  intros Hg Hv Ha Hcb Hroom. destruct (register_counts s n a cb arg) as (s' & ? & ? & _); [done..|]. by exists s'.
Qed.

(** *** Many registrations *)

Lemma registered_ids s n : cb_ok s → NoDup ((λ i, compute_cb_id (cbi_cb i) (cbi_action i)) <$> registered s n).
Proof.
  intros (tc & Htc & Hwf). unfold registered, regs. rewrite Htc.
  destruct (tbl_fetch (tref_hash TCbs) tc (cbytes n)) as [e|] eqn:He; [|constructor]. cbn.
  destruct (cbs_fetch _ _ _ _ Hwf He) as [Hin _]. destruct (cw_sub _ _ Hwf e Hin) as (t & -> & Hsub).
  pose proof (tbl_elems_NoDup _ t (sw_ok _ _ Hsub)) as Hnd.
  replace (_ <$> infos (objs s) t) with (e_key <$> tbl_elems t); [done|].
  pose proof (sw_info _ _ Hsub) as Hinfo. unfold infos. clear Hsub Hnd. induction (tbl_elems t) as [|x xs IH]; [done|].
  destruct (Hinfo x) as (i & Hi & Hk & _); [by left|]. cbn. rewrite Hi. cbn. rewrite Hk. f_equal.
  apply IH. intros y Hy. apply Hinfo. by right.
Qed.

(** Room for [k] more names and callbacks. *)
Definition cb_free (k : Z) s : Prop := cb_count s + k < 2 ^ 31 ∧ ∀ n, Z.of_nat (length (registered s n)) + k < 2 ^ 31.

Lemma register_free s n a cb arg k :
  good s → valid n → a ∈ CB_ACTIONS → 0 < cb < 2 ^ 64 → 1 <= k → cb_free k s →
  ∃ s', nr_reg_register_callback n a cb arg s = Ok () s' ∧
    rereg s s' n (λ i, i = CbInfo a cb arg n ∨ i ∈ registered s n ∧ ¬ same_id a cb i) ∧ cb_free (k - 1) s'.
Proof.
  intros Hg Hv Ha Hcb Hk [Hc Hl]. destruct (register_counts s n a cb arg) as (s' & Hrun & Hrr & Hc'); [done..| |].
  { split; [lia|]. specialize (Hl n). lia. }
  exists s'. split_and!; [done|done|]. split; [lia|]. intros m. specialize (Hl m).
  destruct (decide (m = n)) as [->|Hm]; [|rewrite (rr_others _ _ _ _ Hrr) by done; lia].
  assert (Hsub : registered s' n ⊆+ CbInfo a cb arg n :: registered s n).
  { apply NoDup_submseteq; [by eapply NoDup_fmap_1, registered_ids, (rr_good _ _ _ _ Hrr)|].
    intros i [->|[Hi _]]%(rr_here _ _ _ _ Hrr); [by left|by right]. }
  apply submseteq_length in Hsub. cbn in Hsub. lia.
Qed.

(** The record of a callback is removed from its table, if it is there. *)
Lemma delete_info_run s tc e t n a cb :
  good s → nr_registry_callbacks s = Some tc → tbl_fetch cb_hash tc (cbytes n) = Some e →
  objs s !! e_data e = Some (OAssoc t) → 0 <= cb < 2 ^ 64 → a ∈ CB_ACTIONS →
  ∃ r s' t', catch (assoc_delete (TObj (e_data e)) (compute_cb_id cb a)) s = Ok r s' ∧
    (r = inr () ∨ r = inl R_NOT_FOUND) ∧ nr_registry_callbacks s' = Some tc ∧
    objs s' !! e_data e = Some (OAssoc t') ∧ sub_wf (objs s') t' ∧
    rereg s s' n (λ i, i ∈ registered s n ∧ ¬ same_id a cb i).
Proof.
  intros Hg Htc Hf Ht Hcb Ha. pose proof (cb_ok_wf s tc (g_cb s Hg) Htc) as Hwf.
  destruct (cbs_fetch _ _ _ _ Hwf Hf) as (He & Hk & t0 & Ht0 & Hs). rewrite Ht in Ht0. injection Ht0 as <-.
  assert (Hreg : registered s n = infos (objs s) t) by (unfold registered; rewrite Htc; by eapply regs_of).
  rewrite Hreg. pose proof (sub_fetch (objs s) t cb a Hs Hcb Ha) as Hsub. unfold assoc_delete.
  destruct (tbl_fetch (crc_chain 5) t (compute_cb_id cb a)) as [x|] eqn:Hx.
  - destruct Hsub as (i & Hin & Hi & [<- <-] & Hkx).
    destruct (sub_remove (objs s) t x i Hs Hin Hi) as (Hs' & Hout & Hperm & Hinfos). rewrite Hkx in *.
    set (t' := tbl_remove (crc_chain 5) t _) in *.
    assert (Hne : e_data e ≠ e_data x) by (intros Heq; rewrite <- Heq in Hi; congruence).
    set (o' := delete (e_data x) (<[e_data e := OAssoc t']> (objs s))).
    assert (Hsame : ∀ y, y ∈ tbl_elems t' → o' !! e_data y = objs s !! e_data y).
    { intros y Hy. unfold o'. rewrite lookup_delete_ne, lookup_insert_ne; [done|..].
      - intros Heq. destruct (sw_info _ _ Hs' y Hy) as (j & Hj & _). rewrite <- Heq in Hj. congruence.
      - intros Heq. apply Hout. rewrite Heq. by apply list_elem_of_fmap_2. }
    assert (Hnew : o' !! e_data e = Some (OAssoc t')).
    { unfold o'. by rewrite lookup_delete_ne, lookup_insert_eq. }
    exists (inr ()), (RegState o' (brk s) (answers s) (nr_registry s) (Some tc) (reg_vtbl s) (calls s)), t'.
    split_and!; [|by left|done|done|by eapply sub_wf_mono|].
    + apply catch_ok. mstep using load_assoc_TObj.
      change (tref_hash (TObj (e_data e))) with (crc_chain 5). rewrite Hx. unfold store_assoc.
      mstep. rewrite (sw_destroy _ _ Hs x Hin). cbn [run_dtor run_leaf].
      erewrite rfree_ok; [|cbn; by rewrite lookup_insert_ne, Hi].
      unfold set_objs, put_assoc, set_objs. cbn [objs brk answers nr_registry nr_registry_callbacks reg_vtbl calls].
      by rewrite Htc.
    + eapply (replace_step s tc e t t'); [done..| | |].
      * split; [done|done|done|by eapply sub_wf_mono|..].
        -- intros l Hl Hl' _. unfold o'. rewrite lookup_delete_ne, lookup_insert_ne; [done|congruence|].
           intros <-. by apply Hl', list_elem_of_fmap_2.
        -- intros y Hy. left. rewrite Hperm. right. by apply list_elem_of_fmap_2.
      * intros l Hl. unfold o'. apply lookup_delete_None. right. rewrite lookup_insert_ne; [by apply (g_wf s Hg)|].
        intros <-. rewrite (rw_fresh s (g_wf s Hg)) in Ht by done. done.
      * intros j. erewrite infos_frame by done. apply Hinfos.
  - exists (inl R_NOT_FOUND), s, t. split_and!; [|by right|done|done|done|].
    + apply catch_err. mstep using load_assoc_TObj.
      change (tref_hash (TObj (e_data e))) with (crc_chain 5). by rewrite Hx.
    + split; [done..|]. intros i. rewrite Hreg. split; [by auto|by intros [? _]].
Qed.

(** A name whose table is empty is dropped. *)
Lemma drop_table_run s tc e t n :
  good s → nr_registry_callbacks s = Some tc → tbl_fetch cb_hash tc (cbytes n) = Some e →
  objs s !! e_data e = Some (OAssoc t) → tbl_elems t = [] →
  ∃ s', assoc_delete TCbs (cbytes n) s = Ok () s' ∧ rereg s s' n (λ i, i ∈ registered s n).
Proof.
  intros Hg Htc Hf Ht Hempty. pose proof (cb_ok_wf s tc (g_cb s Hg) Htc) as Hwf.
  destruct (cbs_fetch _ _ _ _ Hwf Hf) as (He & _).
  destruct (cbs_remove (objs s) tc n e t Hwf Hf Ht Hempty) as [Hwf' Hregs].
  destruct (cb_step s tc _ _ (brk s) Hg Htc Hwf') as [Hg' Hview].
  { intros l nd Hl. rewrite lookup_delete_ne; [done|congruence]. }
  { intros l Hl. apply lookup_delete_None. right. by apply (g_wf s Hg). }
  eexists. split; [|split].
  - unfold assoc_delete. mstep using load_assoc_TCbs. rewrite Hf. unfold store_assoc.
    mstep. rewrite (cw_destroy _ _ Hwf e He). cbn [run_dtor]. unfold assoc_destroy.
    mstep using load_assoc_TObj. rewrite Hempty. cbn [destroy_entries].
    mstep. by eapply rfree_ok.
  - exact Hg'.
  - exact Hview.
  - done.
  - intros m _. unfold registered. cbn. rewrite Htc. apply Hregs.
  - intros i. unfold registered. cbn. rewrite Htc. by rewrite Hregs.
Qed.

Lemma unregister_run s n a cb :
  good s → valid n → a ∈ CB_ACTIONS → 0 < cb < 2 ^ 64 →
  ∃ s', nr_reg_unregister_callback n a cb s = Ok () s' ∧
    rereg s s' n (λ i, i ∈ registered s n ∧ ¬ same_id a cb i).
Proof.
  intros Hg Hv Ha Hcb. destruct (g_cb s Hg) as (tc & Htc & Hwf).
  unfold nr_reg_unregister_callback. destruct (Z.eqb_spec cb 0); [lia|].
  mstep. rewrite Htc, (proj2 (nr_reg_is_valid_spec n)) by done. cbn [negb].
  mstep using validate_ok. pose proof (assoc_fetch_TCbs s tc (cbytes n) Htc) as Hfetch.
  destruct (tbl_fetch cb_hash tc (cbytes n)) as [e|] eqn:He.
  2: { exists s. split; [by mstep using catch_err|]. split; [done..|].
       intros i. unfold registered, regs. rewrite Htc, He. cbn. split; [|by intros [? _]].
       intros Hi. by apply not_elem_of_nil in Hi. }
  mstep using catch_ok. cbn beta iota.
  destruct (cbs_fetch _ _ _ _ Hwf He) as (_ & _ & t & Ht & Hs).
  destruct (delete_info_run s tc e t n a cb Hg Htc He Ht ltac:(lia) Ha)
    as (r & s1 & t1 & Hrun1 & Hr & Htc1 & Ht1 & Hs1 & Hrr).
  mstep.
  rewrite (bind_ok (match r with inl r0 => if r0 =? R_NOT_FOUND then mret () else abort r0 | inr _ => mret () end)
             _ s1 () s1) by by destruct Hr as [-> | ->].
  unfold assoc_num_elements. erewrite bind_ok by by (mstep using load_assoc_TObj).
  destruct (sw_num _ _ Hs1) as [Hnum Hb]. rewrite swrap_small by (cbn; lia).
  destruct (Z.eqb_spec (t_num t1) 0) as [Hz|Hz]; [|by exists s1].
  destruct (drop_table_run s1 tc e t1 n) as (s2 & Hrun2 & Hrr2); [apply Hrr|done..| |].
  { apply length_zero_iff_nil. lia. }
  exists s2. split; [done|]. split.
  - apply Hrr2.
  - intros m. rewrite (rr_view _ _ _ _ Hrr2). apply Hrr.
  - rewrite (rr_calls _ _ _ _ Hrr2). apply Hrr.
  - intros m Hm. rewrite (rr_others _ _ _ _ Hrr2) by done. by apply Hrr.
  - intros i. rewrite (rr_here _ _ _ _ Hrr2). apply Hrr.
Qed.
End runs.
