(* ===== verification/RegTheorems.v ===== *)
(** * What the registry store guarantees

    The contracts of the store's operations, collected, and instances of them on
    concrete registries. *)

From Stdlib Require Import Ascii.
From stdpp Require Import sorting.
From S2P Require Import Prelude CString AssocSpec RegNames RegState RegCb RegLocal RegInv RegSpec RegTree RegCbSpec.
Local Open Scope Z_scope.

Section theorems.
Implicit Types (s : reg_state) (n p : cstring).

(** C2: [nr_reg_local_set_*] for scalars. A name that is not there is entered, with a
    registry for each of its missing ancestors, and an [ADD] event is raised on each
    new name, outermost first; a name of the same type gets the new value, with a
    [CHANGE] event exactly when the value differs; a name of another type is refused.
    Nothing else in the registry changes. *)
Theorem set_scalar_spec s n ty data :
  good s → valid n → is_scalar ty = true →
  match reg_view s n with
  | None =>
      creatable (reg_view s) (ancestors n) →
      ∃ s', nr_reg_local_set_scalar n ty data s = Ok () s' ∧
        evolves s s'
          (upd (fill (reg_view s) (new_parents (reg_view s) n)) n (Some (VScalar ty (stored ty 0 data))))
          (add_events s (reverse (n :: new_parents (reg_view s) n)))
  | Some (VScalar ty' old) =>
      if decide (ty' = ty) then
        ∃ s', nr_reg_local_set_scalar n ty data s = Ok () s' ∧
          evolves s s' (upd (reg_view s) n (Some (VScalar ty (stored ty old data))))
            (if scalar_ne ty old data then event_calls s NR_REG_CB_ACTION_CHANGE n else [])
      else nr_reg_local_set_scalar n ty data s = Err R_FAILED s
  | Some (VArray _ _) => nr_reg_local_set_scalar n ty data s = Err R_FAILED s
  end.
Proof. apply set_scalar_run. Qed.

(** C3: [nr_reg_local_set_bytes] and [nr_reg_local_set_string]: as for scalars, both
    when the old buffer is reused and when a larger one replaces it; writing the bytes
    that are there raises no event. *)
Theorem set_array_spec s n ty (data : list Z) :
  good s → valid n → is_array ty = true → Z.of_nat (length data) < 2 ^ 32 →
  match reg_view s n with
  | None =>
      creatable (reg_view s) (ancestors n) →
      ∃ s', nr_reg_set_array NR_reg_set_registry n ty data s = Ok () s' ∧
        evolves s s' (upd (fill (reg_view s) (new_parents (reg_view s) n)) n (Some (VArray ty data)))
          (add_events s (reverse (n :: new_parents (reg_view s) n)))
  | Some (VArray ty' old) =>
      if decide (ty' = ty) then
        ∃ s', nr_reg_set_array NR_reg_set_registry n ty data s = Ok () s' ∧
          evolves s s' (upd (reg_view s) n (Some (VArray ty data)))
            (if decide (old = data) then [] else event_calls s NR_REG_CB_ACTION_CHANGE n)
      else nr_reg_set_array NR_reg_set_registry n ty data s = Err R_FAILED s
  | Some (VScalar _ _) => nr_reg_set_array NR_reg_set_registry n ty data s = Err R_FAILED s
  end.
Proof. apply set_array_run. Qed.

(** C4: a string that was set is read back with its terminator by a caller with room
    for it, and refused with [R_BAD_ARGS] to one without. *)
Theorem get_after_set_string s n (data : cstring) s' size :
  good s → valid n → Z.of_nat (length data) + 1 < 2 ^ 32 →
  creatable (reg_view s) (n :: ancestors n) ∨ value_type <$> reg_view s n = Some NR_REG_TYPE_STRING →
  nr_reg_local_set_string n data s = Ok () s' →
  nr_reg_local_get_string n size s' =
    (if size <? Z.of_nat (length data) + 1 then Err R_BAD_ARGS s' else Ok (cbytes data) s') ∧
  nr_reg_local_get_length n s' = Ok (Z.of_nat (length data)) s'.
Proof.
  intros Hg Hv Hlen Hpre Hset. pose proof (length_cbytes data) as Hcb. unfold strlen in Hcb.
  assert (Hok : good s' ∧ reg_view s' n = Some (VArray NR_REG_TYPE_STRING (cbytes data))).
  { pose proof (set_array_run s n NR_REG_TYPE_STRING (cbytes data) Hg Hv eq_refl ltac:(lia)) as Hspec.
    unfold nr_reg_local_set_string in Hset.
    destruct (reg_view s n) as [[ty' w|ty' old]|] eqn:Hx; [congruence| |].
    - case_decide; [|congruence]. destruct Hspec as (s1 & Hrun & Hev). rewrite Hset in Hrun.
      injection Hrun as <-. split; [apply Hev|]. rewrite (ev_view _ _ _ _ Hev). unfold upd.
      by rewrite decide_True.
    - destruct Hspec as (s1 & Hrun & Hev).
      { destruct Hpre as [[_ Hpath]|?]; [by rewrite Hx in Hpath|done]. }
      rewrite Hset in Hrun. injection Hrun as <-. split; [apply Hev|].
      rewrite (ev_view _ _ _ _ Hev). unfold upd. by rewrite decide_True. }
  destruct Hok as [Hg' Hview]. destruct (string_read s' n data size Hg' Hv Hview). done.
Qed.

(** C5: [nr_reg_local_del] removes the name and everything below it, frees the nodes,
    leaves every other name as it was, and raises one [DELETE] event on the name; the
    root is created again. A name that is not there is deleted all the same. *)
Theorem del_spec s n :
  good s → valid n →
  ∃ s', nr_reg_local_del n s = Ok () s' ∧
    if decide (n = []) then
      evolves s s' (λ m, if decide (m = []) then Some VRegistry else None)
        (event_calls s NR_REG_CB_ACTION_DELETE [] ++ event_calls s NR_REG_CB_ACTION_ADD [])
    else
      evolves s s' (λ m, if iter_match n m then None else reg_view s m)
        (event_calls s NR_REG_CB_ACTION_DELETE n).
Proof. apply del_run. Qed.

(** initialisation succeeds and leaves a registry that holds the root and nothing
    else, with no callback registered. *)
Theorem init_spec : ∃ s, started s ∧ good s ∧ (∀ n, registered s n = []) ∧ calls s = [] ∧
  ∀ n, reg_view s n = if decide (n = []) then Some VRegistry else None.
Proof. apply init_run. Qed.

(** C7: an event on a name runs, and only runs, the callbacks registered for its action
    on the name or on an ancestor of it; nothing else changes. *)
Theorem raise_event_runs s n a :
  good s → a ∈ CB_ACTIONS →
  nr_reg_raise_event n a s = Ok () (add_calls (event_calls s a n) s) ∧
  ∀ c, c ∈ event_calls s a n ↔
    ∃ p i, iter_match p n = true ∧ i ∈ registered s p ∧ cbi_action i = a ∧
      c = CbCall (cbi_cb i) (cbi_arg i) a n.
Proof.
  intros [_ Hcb Hmem _] Ha. split; [by apply raise_event_spec|]. intros c. unfold event_calls.
  rewrite list_elem_of_bind. split.
  - intros (p & Hc & Hp%lineage_spec). unfold calls_of in Hc.
    apply list_elem_of_bind in Hc as (i & Hc & [Hi Hin]%list_elem_of_filter).
    apply list_elem_of_singleton in Hc as ->. by exists p, i.
  - intros (p & i & Hp & Hin & Hi & ->). exists p. split; [|by apply lineage_spec].
    unfold calls_of. apply list_elem_of_bind. exists i. split; [by left|].
    by apply list_elem_of_filter.
Qed.

(** registering a callback adds one record to those of the name, in place of the one
    the same function had there for the same action; the callbacks of other names, the
    values and the calls made are as before. *)
Theorem register_callback_spec s n a cb arg :
  good s → valid n → a ∈ CB_ACTIONS → 0 < cb < 2 ^ 64 → cb_room s n →
  ∃ s', nr_reg_register_callback n a cb arg s = Ok () s' ∧
    rereg s s' n (λ i, i = CbInfo a cb arg n ∨ i ∈ registered s n ∧ ¬ same_id a cb i).
Proof. apply register_run. Qed.

(** unregistering removes exactly the record of the function and action on the name,
    whether or not it was there, and drops the table of a name that has none left. *)
Theorem unregister_callback_spec s n a cb :
  good s → valid n → a ∈ CB_ACTIONS → 0 < cb < 2 ^ 64 →
  ∃ s', nr_reg_unregister_callback n a cb s = Ok () s' ∧
    rereg s s' n (λ i, i ∈ registered s n ∧ ¬ same_id a cb i).
Proof. apply unregister_run. Qed.
End theorems.
