(* ===== verification/RegDemo.v ===== *)
(** * Concrete registries

    Registries built by running the store on literal names, and the contracts of the
    store instantiated on them. *)

From Stdlib Require Import Ascii.
From stdpp Require Import sorting.
From S2P Require Import Prelude CString AssocSpec RegNames RegState RegCb RegLocal RegInv RegSpec RegTree RegCbSpec RegTheorems.
Local Open Scope Z_scope.

(** The state an operation that succeeds leaves. *)
Definition after {A} (m : R A) (s : reg_state) : reg_state :=
  match m s with Ok _ s' => s' | _ => s end.

Definition null_registry : reg_state := RegState ∅ 1 [] None None true [].
(** The registry just initialised, then with one integer, then with a string too. *)
Definition demo_init : reg_state := after nr_reg_local_init null_registry.
Definition demo_mtu : reg_state :=
  after (nr_reg_local_set_scalar $"net.mtu" NR_REG_TYPE_INT4 1500) demo_init.
Definition demo_host : reg_state := after (nr_reg_local_set_string $"net.host" $"ekr") demo_mtu.

Lemma after_ok {A} (m : R A) s a s' : m s = Ok a s' → after m s = s'.
Proof. unfold after. by intros ->. Qed.

Lemma demo_init_ok : started demo_init ∧ good demo_init ∧ (∀ n, registered demo_init n = []) ∧
  ∀ n, reg_view demo_init n = if decide (n = []) then Some VRegistry else None.
Proof.
  destruct init_run as (s & Hs & Hg & Hr & _ & Hv). unfold demo_init.
  rewrite (after_ok nr_reg_local_init null_registry () s Hs). done.
Qed.

Lemma demo_init_free : cb_free 9 demo_init.
Proof.
  destruct demo_init_ok as (_ & _ & Hr & _). split; [vm_compute; reflexivity|]. intros n. by rewrite Hr.
Qed.

#[local] Opaque demo_init.

(** Legality of literal names is decided by the code's own check. *)
Ltac valid_name := apply nr_reg_is_valid_spec; vm_compute; reflexivity.

Lemma demo_path : creatable (reg_view demo_init) (ancestors $"net.mtu").
Proof.
  destruct demo_init_ok as (_ & _ & _ & Hv).
  change (ancestors $"net.mtu") with [$"net"]. cbn [creatable]. rewrite Hv. split; [valid_name|done].
Qed.

Lemma demo_mtu_ok :
  nr_reg_local_set_scalar $"net.mtu" NR_REG_TYPE_INT4 1500 demo_init = Ok () demo_mtu ∧
  evolves demo_init demo_mtu
    (λ m, if decide (m = $"net.mtu") then Some (VScalar NR_REG_TYPE_INT4 1500)
          else if decide (m = $"net" ∨ m = []) then Some VRegistry else None) [].
Proof.
  destruct demo_init_ok as (_ & Hg & Hr & Hv).
  pose proof (set_scalar_run demo_init $"net.mtu" NR_REG_TYPE_INT4 1500 Hg ltac:(valid_name) eq_refl) as Hspec.
  rewrite Hv, decide_False in Hspec by done. destruct (Hspec demo_path) as (s & Hs & Hev).
  unfold demo_mtu. rewrite (after_ok _ _ _ _ Hs). split; [done|].
  assert (Hmiss : new_parents (reg_view demo_init) $"net.mtu" = [$"net"]).
  { unfold new_parents. change (ancestors $"net.mtu") with [$"net"]. cbn [missing]. by rewrite Hv. }
  rewrite Hmiss in Hev. replace (add_events _ _) with (@nil cb_call) in Hev.
  2: { unfold add_events. change (reverse _) with [$"net"; $"net.mtu"]. cbn.
       unfold event_calls. change (lineage $"net") with [$"net"; []].
       change (lineage $"net.mtu") with [$"net.mtu"; $"net"; []]. cbn. by rewrite !Hr. }
  eapply evolves_ext; [done|]. intros m. unfold upd, fill. rewrite Hv.
  clear. destruct (decide (m = $"net.mtu")); [done|].
  rewrite (decide_ext (m ∈ [$"net"]) (m = $"net")) by apply list_elem_of_singleton.
  destruct (decide (m = $"net")); [by rewrite decide_True by by left|].
  destruct (decide (m = [])); [by rewrite decide_True by by right|by rewrite decide_False by by intros [?|?]].
Qed.

#[local] Opaque demo_mtu.

Lemma demo_mtu_good : good demo_mtu.
Proof. apply demo_mtu_ok. Qed.

Lemma demo_mtu_view n :
  reg_view demo_mtu n =
    if decide (n = $"net.mtu") then Some (VScalar NR_REG_TYPE_INT4 1500)
    else if decide (n = $"net" ∨ n = []) then Some VRegistry else None.
Proof. apply demo_mtu_ok. Qed.

Lemma demo_mtu_calls a n : event_calls demo_mtu a n = [].
Proof.
  rewrite (event_calls_same demo_init) by apply demo_mtu_ok. unfold event_calls.
  induction (lineage n) as [|p ps IH]; [done|]. rewrite event_calls_cons, IH.
  by rewrite (proj1 (proj2 (proj2 demo_init_ok))).
Qed.

Lemma demo_host_path : creatable (reg_view demo_mtu) ($"net.host" :: ancestors $"net.host").
Proof.
  change (ancestors $"net.host") with [$"net"]. cbn [creatable]. rewrite !demo_mtu_view.
  split; [valid_name|]. cbn. split; [valid_name|done].
Qed.

(** ** Instances *)

Lemma set_scalar_spec_witness :
  ∃ s', nr_reg_local_set_scalar $"net.mtu" NR_REG_TYPE_INT4 9000 demo_mtu = Ok () s' ∧
    reg_view s' $"net.mtu" = Some (VScalar NR_REG_TYPE_INT4 9000).
Proof.
  pose proof (set_scalar_spec demo_mtu $"net.mtu" NR_REG_TYPE_INT4 9000 demo_mtu_good ltac:(valid_name) eq_refl)
    as Hspec.
  rewrite demo_mtu_view in Hspec. cbn in Hspec. destruct Hspec as (s' & Hrun & Hev). exists s'.
  split; [exact Hrun|]. rewrite (ev_view _ _ _ _ Hev). reflexivity.
Defined.

Lemma set_array_spec_witness :
  ∃ s', nr_reg_set_array NR_reg_set_registry $"net.host" NR_REG_TYPE_BYTES [1; 2; 3] demo_mtu = Ok () s' ∧
    reg_view s' $"net.host" = Some (VArray NR_REG_TYPE_BYTES [1; 2; 3]).
Proof.
  pose proof (set_array_spec demo_mtu $"net.host" NR_REG_TYPE_BYTES [1; 2; 3] demo_mtu_good
    ltac:(valid_name) eq_refl ltac:(cbn; lia)) as Hspec.
  rewrite demo_mtu_view in Hspec. cbn [decide] in Hspec.
  destruct (Hspec (proj2 demo_host_path)) as (s' & Hrun & Hev). exists s'.
  split; [exact Hrun|]. rewrite (ev_view _ _ _ _ Hev). reflexivity.
Defined.

Lemma get_after_set_witness :
  ∃ w, nr_reg_get $"net.mtu" NR_REG_TYPE_INT4 demo_mtu = Ok w demo_mtu ∧
    (NR_REG_TYPE_INT4 ≠ NR_REG_TYPE_DOUBLE → w = 1500) ∧
    (NR_REG_TYPE_INT4 = NR_REG_TYPE_DOUBLE → w = 1500 ∨ dbl_zero w = true ∧ dbl_zero 1500 = true).
Proof.
  apply (get_after_set demo_init $"net.mtu" NR_REG_TYPE_INT4 1500 demo_mtu (proj1 (proj2 demo_init_ok))
    ltac:(valid_name) eq_refl); [|apply demo_mtu_ok].
  left. split; [valid_name|]. rewrite (proj2 (proj2 (proj2 demo_init_ok))), decide_False; [|done].
  apply demo_path.
Defined.

Lemma demo_host_run : nr_reg_local_set_string $"net.host" $"ekr" demo_mtu = Ok () demo_host.
Proof.
  pose proof (set_array_run demo_mtu $"net.host" NR_REG_TYPE_STRING (cbytes $"ekr") demo_mtu_good
    ltac:(valid_name) eq_refl ltac:(vm_compute; reflexivity)) as Hspec.
  rewrite demo_mtu_view in Hspec. cbn [decide] in Hspec.
  destruct (Hspec (proj2 demo_host_path)) as (s' & Hrun & _). unfold demo_host.
  by rewrite (after_ok (nr_reg_local_set_string $"net.host" $"ekr") demo_mtu () s').
Qed.

#[local] Opaque demo_host.

Lemma get_after_set_string_witness :
  nr_reg_local_get_string $"net.host" 10 demo_host = Ok (cbytes $"ekr") demo_host ∧
  nr_reg_local_get_length $"net.host" demo_host = Ok 3 demo_host.
Proof.
  exact (get_after_set_string demo_mtu $"net.host" $"ekr" demo_host 10 demo_mtu_good ltac:(valid_name)
    ltac:(vm_compute; reflexivity) (or_introl demo_host_path) demo_host_run).
Defined.

Lemma del_spec_witness :
  ∃ s', nr_reg_local_del $"net" demo_mtu = Ok () s' ∧ reg_view s' $"net.mtu" = None ∧
    reg_view s' [] = Some VRegistry.
Proof.
  destruct (del_spec demo_mtu $"net" demo_mtu_good ltac:(valid_name)) as (s' & Hrun & Hev).
  rewrite decide_False in Hev by done. exists s'. split; [exact Hrun|].
  rewrite !(ev_view _ _ _ _ Hev), demo_mtu_view. split; reflexivity.
Defined.


Lemma child_count_spec_witness :
  ∃ ns, (∀ n, n ∈ ns ↔ is_Some (reg_view demo_mtu n) ∧ n ≠ [] ∧ ([] = ([] : cstring) ∨ up n = [])) ∧
    nr_reg_local_get_child_count [] demo_mtu = Ok (wrap 32 (Z.of_nat (length ns))) demo_mtu.
Proof.
  assert (Hroot : ∃ l, node_at demo_mtu [] = Some (l, ScalarNode NR_REG_TYPE_REGISTRY 0)).
  { pose proof (demo_mtu_view []) as Hv. cbn in Hv.
    apply view_node in Hv as (l & nd & Hat & Hval). exists l.
    destruct (node_at_objs demo_mtu [] l nd demo_mtu_good Hat) as (_ & Hnd & _).
    destruct nd as [ty w|ty len buf]; [|done]. injection Hval as -> ->. done. }
  destruct Hroot as [l Hat].
  destruct (child_count_spec demo_mtu [] l demo_mtu_good valid_root Hat) as (ns & _ & Hns & Hrun).
  exists ns. split; [exact Hns|exact Hrun].
Defined.

Lemma demo_mtu_reachable : reachable demo_mtu.
Proof.
  eapply (reach_step demo_init (SetScalar $"net.mtu" NR_REG_TYPE_INT4 1500)).
  - apply reach_init, demo_init_ok.
  - split; [valid_name|]. split; [done|]. intros _. apply demo_path.
  - apply demo_mtu_ok.
Qed.

Lemma reachable_tree_witness :
  good demo_mtu ∧ tree_ok (reg_view demo_mtu) ∧
  ∀ op, legal (reg_view demo_mtu) op →
    (∃ s', run_op op demo_mtu = Ok () s' ∧ reachable s') ∨ run_op op demo_mtu = Err R_FAILED demo_mtu.
Proof. exact (reachable_tree demo_mtu demo_mtu_reachable). Defined.

Lemma demo_mtu_not_registry : parent_fails demo_mtu $"net.mtu" R_FAILED.
Proof.
  right. split; [valid_name|]. split; [done|]. exists (VScalar NR_REG_TYPE_INT4 1500).
  by rewrite demo_mtu_view.
Qed.

Lemma set_below_scalar_dangles_witness :
  ∃ s', nr_reg_local_set_scalar $"net.mtu.max" NR_REG_TYPE_INT4 1 demo_mtu = Err R_FAILED s' ∧
    nr_reg_get $"net.mtu.max" NR_REG_TYPE_INT4 s' = UB.
Proof.
  apply (set_below_scalar_dangles demo_mtu $"net.mtu.max" NR_REG_TYPE_INT4 1 $"net.mtu" R_FAILED demo_mtu_good
    ltac:(valid_name) eq_refl); [by rewrite demo_mtu_view|reflexivity|exact demo_mtu_not_registry].
Defined.

Lemma set_array_below_scalar_stays_witness :
  ∃ s', nr_reg_set_array NR_reg_set_registry $"net.mtu.max" NR_REG_TYPE_BYTES [7] demo_mtu = Err R_FAILED s' ∧
    reg_view s' $"net.mtu.max" = Some (VArray NR_REG_TYPE_BYTES [7]) ∧ ¬ tree_ok (reg_view s').
Proof.
  apply (set_array_below_scalar_stays demo_mtu $"net.mtu.max" NR_REG_TYPE_BYTES [7] $"net.mtu" R_FAILED
    demo_mtu_good ltac:(valid_name) eq_refl ltac:(cbn; lia));
    [by rewrite demo_mtu_view|reflexivity|exact demo_mtu_not_registry].
Defined.

(** A callback at address 99 with argument 5, for additions under net. *)
Definition demo_cb : reg_state :=
  after (nr_reg_register_callback $"net" NR_REG_CB_ACTION_ADD 99 5) demo_mtu.

Lemma demo_mtu_registered n : registered demo_mtu n = [].
Proof. rewrite (ev_cbs _ _ _ _ (proj2 demo_mtu_ok)). apply demo_init_ok. Qed.

Lemma demo_room : cb_room demo_mtu $"net".
Proof. split; [vm_compute; reflexivity|]. by rewrite demo_mtu_registered. Qed.

Lemma demo_cb_ok :
  nr_reg_register_callback $"net" NR_REG_CB_ACTION_ADD 99 5 demo_mtu = Ok () demo_cb ∧
  rereg demo_mtu demo_cb $"net" (λ i, i = CbInfo NR_REG_CB_ACTION_ADD 99 5 $"net").
Proof.
  destruct (register_run demo_mtu $"net" NR_REG_CB_ACTION_ADD 99 5) as (s & Hrun & [? ? ? ? Hh]);
    [apply demo_mtu_good|valid_name|by left|done|apply demo_room|].
  unfold demo_cb. rewrite (after_ok _ _ _ _ Hrun). split; [done|]. split; [done..|].
  intros i. rewrite Hh, demo_mtu_registered. split; [|by left].
  intros [->|[Hi _]]; [done|]. destruct (not_elem_of_nil i Hi).
Qed.
#[local] Opaque demo_cb.

Lemma register_callback_spec_witness :
  ∃ s', nr_reg_register_callback $"net" NR_REG_CB_ACTION_ADD 99 5 demo_mtu = Ok () s' ∧
    rereg demo_mtu s' $"net" (λ i, i = CbInfo NR_REG_CB_ACTION_ADD 99 5 $"net" ∨
      i ∈ registered demo_mtu $"net" ∧ ¬ same_id NR_REG_CB_ACTION_ADD 99 i).
Proof.
  apply (register_callback_spec demo_mtu $"net" NR_REG_CB_ACTION_ADD 99 5 demo_mtu_good);
    [valid_name|by left|done|exact demo_room].
Defined.

Lemma unregister_callback_spec_witness :
  ∃ s', nr_reg_unregister_callback $"net" NR_REG_CB_ACTION_ADD 99 demo_cb = Ok () s' ∧
    registered s' $"net" = [].
Proof.
  destruct (unregister_callback_spec demo_cb $"net" NR_REG_CB_ACTION_ADD 99) as (s' & Hrun & Hrr);
    [apply demo_cb_ok|valid_name|by left|done|].
  exists s'. split; [exact Hrun|]. destruct (registered s' $"net") as [|i l] eqn:Hl; [reflexivity|].
  exfalso. assert (Hi : i ∈ registered s' $"net") by (rewrite Hl; by left).
  apply (rr_here _ _ _ _ Hrr) in Hi as [Hi Hne]. apply (rr_here _ _ _ _ (proj2 demo_cb_ok)) in Hi as ->.
  apply Hne. split; reflexivity.
Defined.

Lemma raise_event_runs_witness :
  ∃ s', nr_reg_raise_event $"net.mtu" NR_REG_CB_ACTION_ADD demo_cb = Ok () s' ∧
    CbCall 99 5 NR_REG_CB_ACTION_ADD $"net.mtu" ∈ calls s'.
Proof.
  destruct (raise_event_runs demo_cb $"net.mtu" NR_REG_CB_ACTION_ADD) as [Hrun Hcalls];
    [apply demo_cb_ok|by left|].
  eexists. split; [exact Hrun|]. cbn [add_calls calls]. apply elem_of_app. right. apply Hcalls.
  exists $"net", (CbInfo NR_REG_CB_ACTION_ADD 99 5 $"net"). split; [vm_compute; reflexivity|].
  split; [|split; reflexivity]. by apply (rr_here _ _ _ _ (proj2 demo_cb_ok)).
Defined.
