(* ===== verification/AsyncState.v ===== *)
(** * The event library's callback structures (src/event/async_wait_int.h)

    async_wait.c and async_timer.c share the [callback] structures: one is at any time
    in one of the queues (they are linked through its single [entry] field), or in a
    slot of the table of sockets, or on the list of free structures.  The memory of a
    structure is recycled but never returned, so a stale handle points to a
    structure that may be in use for something else. *)

From S2P Require Import Prelude RTime.
Local Open Scope Z_scope.

Abbreviation loc := positive.

(** [cb] is the address of the function; 0 is a cancelled callback.  [cb_backptr] is the
    wheel slot whose queue a timer is in. *)
Record callback := Callback {
  cb : Z;
  cb_arg : Z;
  cb_how : Z;
  cb_resource : Z;
  cb_backptr : option Z;
}.

(** Where a structure can be: [q_head], [free_q], the list being worked on (from
    [w_q_n1] on), [socket_vec[sock][how]], [callwheel[slot].cbs]. *)
Inductive place : Type :=
| Queue | Free | Work
| Sock (sock how : Z)
| Wheel (slot : Z).

#[export] Instance place_eq_dec : EqDecision place.
Proof. solve_decision. Defined.

(** A call of a callback. *)
Record firing := Firing { f_cb : Z; f_resource : Z; f_how : Z; f_arg : Z }.

Record async_state := Async {
  cells : gmap loc callback;
  abrk : loc;
  aanswers : list bool;
  queue : place → list loc;
  wait_initialized : bool;
  timer_initialized : bool;
  first_time : timeval;
  current_offset : Z;
  working_entry : option Z;
  pending_deactivates : bool;
  timers_set : Z;
  fired : list firing;         (* the callbacks called so far *)
}.

(** The zeroed static data. *)
Definition async_initial : async_state :=
  Async ∅ 1 [] (λ _, []) false false (Timeval 0 0) 0 None false 0 [].

#[export] Instance async_alloc : HasAlloc async_state := {
  alloc_answers := aanswers;
  set_alloc_answers l s :=
    Async (cells s) (abrk s) l (queue s) (wait_initialized s) (timer_initialized s) (first_time s)
      (current_offset s) (working_entry s) (pending_deactivates s) (timers_set s) (fired s);
}.
#[export] Instance async_alloc_laws : AllocLaws async_state.
Proof. split; [done|done|by intros []]. Qed.

Abbreviation A := (M async_state).

(** ** Updates *)

Definition with_cells (f : gmap loc callback → gmap loc callback) (s : async_state) : async_state :=
  Async (f (cells s)) (abrk s) (aanswers s) (queue s) (wait_initialized s) (timer_initialized s) (first_time s)
    (current_offset s) (working_entry s) (pending_deactivates s) (timers_set s) (fired s).
Definition put_queue (p : place) (ls : list loc) (s : async_state) : async_state :=
  Async (cells s) (abrk s) (aanswers s) (λ q, if decide (q = p) then ls else queue s q)
    (wait_initialized s) (timer_initialized s) (first_time s)
    (current_offset s) (working_entry s) (pending_deactivates s) (timers_set s) (fired s).
Definition new_cell (c : callback) (s : async_state) : async_state :=
  Async (<[abrk s := c]> (cells s)) (Pos.succ (abrk s)) (aanswers s) (queue s) (wait_initialized s)
    (timer_initialized s) (first_time s) (current_offset s) (working_entry s) (pending_deactivates s)
    (timers_set s) (fired s).
Definition with_inits (w t : bool) (s : async_state) : async_state :=
  Async (cells s) (abrk s) (aanswers s) (queue s) w t (first_time s)
    (current_offset s) (working_entry s) (pending_deactivates s) (timers_set s) (fired s).
Definition with_times (ft : timeval) (off : Z) (s : async_state) : async_state :=
  Async (cells s) (abrk s) (aanswers s) (queue s) (wait_initialized s) (timer_initialized s) ft
    off (working_entry s) (pending_deactivates s) (timers_set s) (fired s).
Definition with_working (w : option Z) (p : bool) (s : async_state) : async_state :=
  Async (cells s) (abrk s) (aanswers s) (queue s) (wait_initialized s) (timer_initialized s) (first_time s)
    (current_offset s) w p (timers_set s) (fired s).
Definition add_timers (n : Z) (s : async_state) : async_state :=
  Async (cells s) (abrk s) (aanswers s) (queue s) (wait_initialized s) (timer_initialized s) (first_time s)
    (current_offset s) (working_entry s) (pending_deactivates s) (swrap 32 (timers_set s + n)) (fired s).
Definition add_fired (f : firing) (s : async_state) : async_state :=
  Async (cells s) (abrk s) (aanswers s) (queue s) (wait_initialized s) (timer_initialized s) (first_time s)
    (current_offset s) (working_entry s) (pending_deactivates s) (timers_set s) (fired s ++ [f]).

(** ** Structures and queues *)

Definition load_cb (l : loc) : A callback := s ← get; from_option_ub (cells s !! l).
Definition store_cb (l : loc) (c : callback) : A unit := _ ← load_cb l; modify (with_cells <[l := c]>).

Definition set_cb (f : Z) (c : callback) : callback :=
  Callback f (cb_arg c) (cb_how c) (cb_resource c) (cb_backptr c).
Definition set_backptr (p : option Z) (c : callback) : callback :=
  Callback (cb c) (cb_arg c) (cb_how c) (cb_resource c) p.

(** [TAILQ_INSERT_TAIL] *)
Definition insert_tail (p : place) (l : loc) : A unit :=
  s ← get; modify (put_queue p (queue s p ++ [l])).

(** [TAILQ_REMOVE]: the links of an element that is not in the queue lead elsewhere. *)
Definition remove_from (p : place) (l : loc) : A unit :=
  s ← get;
  if decide (l ∈ queue s p) then modify (put_queue p (filter (λ x, x ≠ l) (queue s p))) else undef.

(** [TAILQ_NEXT] of an element of a queue. *)
Fixpoint next_in (l : loc) (q : list loc) : option loc :=
  match q with
  | [] => None
  | x :: q' => if decide (x = l) then head q' else next_in l q'
  end.

(** [nr_async_create_cb]: a free structure is reused, with whatever its [backptr] was. *)
Definition nr_async_create_cb (f arg how resource : Z) : A loc :=
  s ← get;
  match queue s Free with
  | [] =>
      alloc_or_abort;;
      s ← get;
      modify (new_cell (Callback f arg how resource None));;
      mret (abrk s)
  | l :: rest =>
      modify (put_queue Free rest);;
      c ← load_cb l;
      store_cb l (Callback f arg how resource (cb_backptr c));;
      mret l
  end.

(** [nr_async_destroy_cb] of a structure that is in no queue any more. *)
Definition nr_async_destroy_cb (l : loc) : A unit := insert_tail Free l.
