(* ===== verification/AsyncWait.v ===== *)
(** * Waiting for sockets and scheduling (src/event/async_wait.c)

    The configuration with [select] and a table of sockets; a socket is an [int]. *)

From S2P Require Import Prelude RTime AsyncState.
Local Open Scope Z_scope.

Definition SOCKET_VEC_SIZE : Z := 20000.
Definition ASYNC_WAIT_TYPES : Z := 2.
Definition NR_ASYNC_WAIT_READ : Z := 0.
Definition NR_ASYNC_WAIT_WRITE : Z := 1.

(** The queues are emptied and the table of sockets is cleared; [w_q_head] is not
    touched. *)
Definition clear_wait (s : async_state) : async_state :=
  Async (cells s) (abrk s) (aanswers s)
    (λ p, match p with Queue | Free | Sock _ _ => [] | Work | Wheel _ => queue s p end)
    true (timer_initialized s) (first_time s) (current_offset s) (working_entry s)
    (pending_deactivates s) (timers_set s) (fired s).

Definition NR_async_wait_init : A unit :=
  s ← get; if wait_initialized s then mret () else modify clear_wait.

(** The checks on [sock] and [how]; a negative [how] passes and indexes outside of the
    table. *)
Definition check_sock (sock how : Z) : A unit :=
  if sock <? 0 then abort R_BAD_ARGS
  else if SOCKET_VEC_SIZE <=? sock then abort R_BAD_ARGS
  else if ASYNC_WAIT_TYPES <=? how then abort R_BAD_ARGS
  else if how <? 0 then undef else mret ().

(** [if(socket_vec[sock][how]) nr_async_destroy_cb(&socket_vec[sock][how]);] *)
Definition drop_sock (sock how : Z) : A unit :=
  s ← get;
  match queue s (Sock sock how) with
  | [] => mret ()
  | l :: _ => modify (put_queue (Sock sock how) []);; nr_async_destroy_cb l
  end.

Definition NR_async_wait (sock how f arg : Z) : A unit :=
  NR_async_wait_init;;
  check_sock sock how;;
  drop_sock sock how;;
  r ← catch (nr_async_create_cb f arg how sock);
  match r with
  | inl _ => abort R_NO_MEMORY
  | inr cbb => modify (put_queue (Sock sock how) [cbb])
  end.

(** The first structure for the socket among those given. *)
Fixpoint find_queued (sock how : Z) (ls : list loc) : A (option loc) :=
  match ls with
  | [] => mret None
  | l :: ls' =>
      c ← load_cb l;
      if (cb_resource c =? sock) && (cb_how c =? how) then mret (Some l) else find_queued sock how ls'
  end.

Definition NR_async_cancel (sock how : Z) : A unit :=
  NR_async_wait_init;;
  check_sock sock how;;
  drop_sock sock how;;
  s ← get;
  match queue s Work with
  | [] => mret ()
  | _ :: rest =>
      o ← find_queued sock how rest;
      match o with
      | Some l => c ← load_cb l; store_cb l (set_cb 0 c)
      | None => mret ()
      end
  end.

Definition NR_async_schedule (f arg : Z) : A unit :=
  NR_async_wait_init;;
  r ← catch (nr_async_create_cb f arg (-1) (-1));
  match r with
  | inl _ => abort R_NO_MEMORY
  | inr cbb => insert_tail Queue cbb
  end.
