(* ===== verification/AsyncTimer.v ===== *)
(** * Timers (src/event/async_timer.c)

    A wheel of 4096 queues, one per millisecond modulo 4096.  [current_offset] counts
    milliseconds in 64 bits, while the time a timer is due is kept in the [int] field
    [resource]. *)

From S2P Require Import Prelude RTime AsyncState AsyncWait.
Local Open Scope Z_scope.

Definition WHEEL_SIZE : Z := 4096.
Definition WHEEL_MASK : Z := WHEEL_SIZE - 1.
Definition MS_PER_ENTRY : Z := 1.
Definition INT_MAX : Z := 2 ^ 31 - 1.

Definition slot_of (offset : Z) : Z := Z.land offset WHEEL_MASK.

Definition clear_wheel (s : async_state) : async_state :=
  Async (cells s) (abrk s) (aanswers s) (λ p, match p with Wheel _ => [] | _ => queue s p end)
    (wait_initialized s) true (first_time s) (current_offset s) (working_entry s)
    (pending_deactivates s) (timers_set s) (fired s).

Definition NR_async_timer_init : A unit :=
  NR_async_wait_init;;
  s ← get; if timer_initialized s then mret () else modify clear_wheel.

(** The sum of the 64-bit offset and the [int] delay is taken in 64 bits and stored in an
    [int].  Before the wheel is initialised its queues have no tail to insert at. *)
Definition NR_async_timer_set (delay_ms f arg : Z) : A loc :=
  let off := Z.quot delay_ms MS_PER_ENTRY in
  let off := if off =? 0 then off + 1 else off in
  s ← get;
  let due := wrap 64 (current_offset s + off) in
  r ← catch (nr_async_create_cb f arg (-1) (swrap 32 due));
  match r with
  | inl _ => abort R_NO_MEMORY
  | inr cbb =>
      if timer_initialized s then
        insert_tail (Wheel (slot_of due)) cbb;;
        c ← load_cb cbb;
        store_cb cbb (set_backptr (Some (slot_of due)) c);;
        modify (add_timers 1);;
        mret cbb
      else undef
  end.

(** With no queue being worked on, [&working_entry->cbs] is null and differs from every
    [backptr]. *)
Definition NR_async_timer_cancel (handle : option loc) : A unit :=
  s ← get;
  if negb (timer_initialized s) then undef          (* assert *)
  else
    match handle with
    | None => mret ()
    | Some l =>
        c ← load_cb l;
        if cb c =? 0 then mret ()                    (* self-cancellation *)
        else
          match cb_backptr c with
          | None => undef
          | Some slot =>
              if decide (working_entry s = Some slot) then
                store_cb l (set_cb 0 c);;
                modify (with_working (working_entry s) true)
              else
                remove_from (Wheel slot) l;;
                modify (add_timers (-1));;
                nr_async_destroy_cb l
          end
    end.

(** The smaller of the delays of the callbacks that are not cancelled; a delay is an
    [int]. *)
Fixpoint min_delay (offset min : Z) (ls : list loc) : A Z :=
  match ls with
  | [] => mret min
  | l :: ls' =>
      c ← load_cb l;
      let this := swrap 32 (wrap 64 (cb_resource c - offset / MS_PER_ENTRY)) in
      min_delay offset (if negb (cb c =? 0) && (this <? min) then this else min) ls'
  end.

(** The loop over the first [n] slots. *)
Fixpoint min_slots (n : nat) (min : Z) : A Z :=
  match n with
  | O => mret min
  | S n' =>
      min ← min_slots n' min;
      s ← get;
      min_delay (current_offset s) min (queue s (Wheel (Z.of_nat n')))
  end.

Definition NR_async_timer_next_timeout : A Z :=
  min ← min_slots (Z.to_nat WHEEL_SIZE) INT_MAX;
  if (min : Z) =? INT_MAX then abort R_NOT_FOUND else mret min.

(** [abort()] when a callback with the argument is still there; 0 stands for any
    function. *)
Fixpoint hanging (f arg : Z) (ls : list loc) : A bool :=
  match ls with
  | [] => mret false
  | l :: ls' =>
      c ← load_cb l;
      if ((f =? 0) || (cb c =? f)) && (cb_arg c =? arg) then mret true else hanging f arg ls'
  end.

Fixpoint hanging_slots (n : nat) (f arg : Z) : A bool :=
  match n with
  | O => mret false
  | S n' =>
      b ← hanging_slots n' f arg;
      if (b : bool) then mret true else s ← get; hanging f arg (queue s (Wheel (Z.of_nat n')))
  end.

Definition NR_async_timer_sanity_check_for_cb_deleted (f arg : Z) : A unit :=
  b ← hanging_slots (Z.to_nat WHEEL_SIZE) f arg;
  if (b : bool) then undef else mret ().
