(* ===== verification/AsyncLoop.v ===== *)
(** * Running callbacks (NR_async_timer_update_time, NR_async_event_wait2)

    The two loops that call the client.  What a callback does is the client's code: a
    parameter that gives, for a call and the state it is made in, the calls of this
    library it makes. *)

From S2P Require Import Prelude RTime AsyncState AsyncWait AsyncTimer.
Local Open Scope Z_scope.

(** The calls a callback can make, whose status it does not look at. *)
Inductive api : Type :=
| ApiWait (sock how f arg : Z)
| ApiCancel (sock how : Z)
| ApiSchedule (f arg : Z)
| ApiTimerSet (delay_ms f arg : Z)
| ApiTimerCancel (handle : option loc).

Definition run_api (a : api) : A unit :=
  match a with
  | ApiWait sock how f arg => ignore (NR_async_wait sock how f arg)
  | ApiCancel sock how => ignore (NR_async_cancel sock how)
  | ApiSchedule f arg => ignore (NR_async_schedule f arg)
  | ApiTimerSet delay_ms f arg => ignore (NR_async_timer_set delay_ms f arg)
  | ApiTimerCancel handle => ignore (NR_async_timer_cancel handle)
  end.

Fixpoint run_apis (l : list api) : A unit :=
  match l with [] => mret () | a :: l' => run_api a;; run_apis l' end.

Section client.
Context (client : firing → async_state → list api).

Definition fire (f : firing) : A unit :=
  modify (add_fired f);;
  s ← get;
  run_apis (client f s).

(** ** Timers *)

(** The first loop over the queue of a slot.  The next element is looked up before the
    callback runs; callbacks can append to the queue, hence the fuel. *)
Fixpoint walk_slot (fuel : nat) (slot : Z) (cur : option loc) : A unit :=
  match cur with
  | None => mret ()
  | Some l =>
      match fuel with
      | O => undef
      | S fuel' =>
          s ← get;
          let cb2 := next_in l (queue s (Wheel slot)) in
          c ← load_cb l;
          (if wrap 64 (cb_resource c) <=? current_offset s then
             (if cb c =? 0 then mret ()
              else store_cb l (set_cb 0 c);; fire (Firing (cb c) 0 (-1) (cb_arg c)));;
             modify (add_timers (-1));;
             remove_from (Wheel slot) l;;
             nr_async_destroy_cb l
           else mret ());;
          walk_slot fuel' slot cb2
      end
  end.

(** The second loop: what was cancelled while the queue was worked on is removed. *)
Fixpoint purge (slot : Z) (ls : list loc) : A unit :=
  match ls with
  | [] => mret ()
  | l :: ls' =>
      c ← load_cb l;
      (if cb c =? 0 then
         modify (add_timers (-1));; remove_from (Wheel slot) l;; nr_async_destroy_cb l
       else mret ());;
      purge slot ls'
  end.

Definition run_slot (fuel : nat) (slot : Z) : A unit :=
  modify (with_working (Some slot) false);;
  s ← get;
  walk_slot fuel slot (head (queue s (Wheel slot)));;
  s ← get;
  if pending_deactivates s then purge slot (queue s (Wheel slot)) else mret ().

(** The loop over [n] offsets. *)
Fixpoint advance (fuel n : nat) (offset : Z) : A unit :=
  match n with
  | O => mret ()
  | S n' => run_slot fuel (slot_of offset);; advance fuel n' (wrap 64 (offset + 1))
  end.

Definition NR_async_timer_update_time (fuel : nat) (tv : timeval) : A unit :=
  s ← get;
  (if timer_initialized s then mret () else NR_async_timer_init);;
  s ← get;
  if tv_sec (first_time s) =? 0 then modify (with_times tv (current_offset s))
  else
    match r_timeval_diff tv (first_time s) with
    | inl r => λ s, Err r s
    | inr diff =>
        let new_offset := r_timeval2int diff / (1000 * MS_PER_ENTRY) in
        let offset := wrap 64 (current_offset s + 1) in
        if new_offset <? current_offset s then mret ()
        else
          modify (with_times (first_time s) new_offset);;
          advance fuel (Z.to_nat (new_offset - current_offset s)) offset;;
          s ← get;
          modify (with_working None (pending_deactivates s))
    end.

(** ** Sockets and scheduled callbacks *)

(** [FD_SET] beyond the size of an [fd_set] writes outside of it. *)
Definition FD_SETSIZE : Z := 1024.

(** The sets given to [select]: the loop over the first [n] sockets; the result is
    [maxfd]. *)
Fixpoint collect (n : nat) : A Z :=
  match n with
  | O => mret (-1)
  | S n' =>
      maxfd ← collect n';
      s ← get;
      let i := Z.of_nat n' in
      match queue s (Sock i NR_ASYNC_WAIT_READ), queue s (Sock i NR_ASYNC_WAIT_WRITE) with
      | [], [] => mret maxfd
      | _, _ => if FD_SETSIZE <=? i then undef else mret i
      end
  end.

(** What [select] returns: its result, whether [errno] is [EINTR], and the sets. *)
Record selected := Selected {
  sel_r : Z;
  sel_eintr : bool;
  sel_read : Z → bool;
  sel_write : Z → bool;
}.

(** A callback whose socket is ready is queued. *)
Definition enqueue_ready (sock how : Z) (ready : Z → bool) : A unit :=
  s ← get;
  match queue s (Sock sock how) with
  | [] => mret ()
  | l :: _ =>
      if ready sock then insert_tail Queue l;; modify (put_queue (Sock sock how) []) else mret ()
  end.

(** The loop over the first [n] sockets. *)
Fixpoint build (n : nat) (sel : selected) : A unit :=
  match n with
  | O => mret ()
  | S n' =>
      build n' sel;;
      enqueue_ready (Z.of_nat n') NR_ASYNC_WAIT_READ (sel_read sel);;
      enqueue_ready (Z.of_nat n') NR_ASYNC_WAIT_WRITE (sel_write sel)
  end.

(** The loop over the working list, which only it changes. *)
Fixpoint fire_work (ls : list loc) (events : Z) : A Z :=
  match ls with
  | [] => mret events
  | l :: ls' =>
      c ← load_cb l;
      (if cb c =? 0 then mret () else fire (Firing (cb c) (cb_resource c) (cb_how c) (cb_arg c)));;
      modify (put_queue Work ls');;
      nr_async_destroy_cb l;;
      fire_work ls' (swrap 32 (events + 1))
  end.

Definition NR_async_event_wait2 (tv : option timeval) (sel : selected) : A Z :=
  NR_async_wait_init;;
  maxfd ← collect (Z.to_nat SOCKET_VEC_SIZE);
  s ← get;
  (if (maxfd : Z) =? -1 then
     match queue s Queue with [] => abort R_EOD | _ => mret () end
   else
     let timed_out :=
       match tv, queue s Queue with
       | Some t, [] => (sel_r sel =? 0) && (negb (tv_sec t =? 0) || negb (tv_usec t =? 0))
       | _, _ => false
       end in
     if (timed_out : bool) then abort R_WOULDBLOCK
     else if (sel_r sel <? 0) && negb (sel_eintr sel) then abort R_INTERNAL
     else if 0 <? sel_r sel then build (Z.to_nat (maxfd + 1)) sel else mret ());;
  s ← get;
  modify (put_queue Work (queue s Queue));;
  modify (put_queue Queue []);;
  fire_work (queue s Queue) 0.

Definition NR_async_event_wait (sel : selected) : A Z := NR_async_event_wait2 None sel.
End client.
