(* ===== verification/AsyncInv.v ===== *)
(** * The event library's invariant

    Every callback structure is in at most one place, a timer is in the slot of the time
    it is due, and the calls a callback may make keep this and what the loops over the
    queues rely on. *)

From S2P Require Import Prelude RTime AsyncState AsyncWait AsyncTimer AsyncLoop.
Local Open Scope Z_scope.

Definition timer_wf (k : Z) (c : callback) : Prop :=
  cb_backptr c = Some k ∧ k = slot_of (cb_resource c) ∧ 0 <= cb_resource c < INT_MAX.

Record awf (s : async_state) : Prop := {
  a_nodup p : NoDup (queue s p);
  a_disj p q l : l ∈ queue s p → l ∈ queue s q → p = q;
  a_cells p l : l ∈ queue s p → is_Some (cells s !! l);
  a_fresh l : (abrk s <= l)%positive → cells s !! l = None;
  a_sock i h : (length (queue s (Sock i h)) <= 1)%nat;
  a_wheel k l c : l ∈ queue s (Wheel k) → cells s !! l = Some c → timer_wf k c;
  a_offset : 0 <= current_offset s < 2 ^ 31;
  a_init : wait_initialized s = true ∧ timer_initialized s = true;
  a_mem : mem_plenty s;
}.

(** A structure that is in no place. *)
Definition loose (s : async_state) (l : loc) (c : callback) : Prop :=
  cells s !! l = Some c ∧ ∀ p, l ∉ queue s p.

(** The same record, perhaps cancelled. *)
Definition later_of (c c' : callback) : Prop := c' = c ∨ c' = set_cb 0 c.

(** What the loops rely on while a callback runs. *)
Record client_step (s s' : async_state) : Prop := {
  cs_wf : awf s';
  cs_offset : current_offset s' = current_offset s;
  cs_first : first_time s' = first_time s;
  cs_working : working_entry s' = working_entry s;
  cs_fired : fired s' = fired s;
  cs_pending : pending_deactivates s = true → pending_deactivates s' = true;
  (** The queue being worked on only grows, by timers due later. *)
  cs_queue k : working_entry s = Some k →
    ∃ new, queue s' (Wheel k) = queue s (Wheel k) ++ new ∧
      ∀ l c, l ∈ new → cells s' !! l = Some c → current_offset s < cb_resource c;
  cs_cells k l c : working_entry s = Some k → l ∈ queue s (Wheel k) → cells s !! l = Some c →
    ∃ c', cells s' !! l = Some c' ∧ later_of c c';
  (** A timer was there before or is due later. *)
  cs_timers k l c' : l ∈ queue s' (Wheel k) → cells s' !! l = Some c' →
    current_offset s < cb_resource c' ∨
    l ∈ queue s (Wheel k) ∧ ∃ c, cells s !! l = Some c ∧ later_of c c';
  (** What is cancelled was so before, or is in the queue being worked on and announced. *)
  cs_dead k l c' : l ∈ queue s' (Wheel k) → cells s' !! l = Some c' → cb c' = 0 →
    (l ∈ queue s (Wheel k) ∧ ∃ c, cells s !! l = Some c ∧ cb c = 0) ∨
    working_entry s = Some k ∧ pending_deactivates s' = true;
  (** The working list keeps its elements. *)
  cs_work : queue s' Work = queue s Work;
  cs_work_cells l c : l ∈ queue s Work → cells s !! l = Some c →
    ∃ c', cells s' !! l = Some c' ∧ later_of c c';
}.

Section steps.
Implicit Types (s : async_state) (p q : place) (l : loc) (c : callback).

Lemma queue_put s p ls q : queue (put_queue p ls s) q = if decide (q = p) then ls else queue s q.
Proof. done. Qed.

Lemma set_cb_twice c : set_cb 0 (set_cb 0 c) = set_cb 0 c.
Proof. done. Qed.

Lemma later_trans c c1 c2 : later_of c c1 → later_of c1 c2 → later_of c c2.
Proof. unfold later_of. intros [-> | ->] [-> | ->]; auto. Qed.

Lemma later_fields c c' : later_of c c' → cb_resource c' = cb_resource c ∧ cb_arg c' = cb_arg c ∧
  (cb c' = cb c ∨ cb c' = 0).
Proof. intros [-> | ->]; cbn; auto. Qed.

Lemma client_step_refl s : awf s → client_step s s.
Proof.
  intros Hwf. split; try done.
  - intros k _. exists []. rewrite app_nil_r. split; [done|]. intros l c Hl. by apply not_elem_of_nil in Hl.
  - intros k l c _ _ Hc. exists c. split; [done|by left].
  - intros k l c Hl Hc. right. split; [done|]. exists c. split; [done|by left].
  - intros k l c Hl Hc Hz. left. split; [done|]. by exists c.
  - intros l c _ Hc. exists c. split; [done|by left].
Qed.

Lemma client_step_trans s s1 s2 : client_step s s1 → client_step s1 s2 → client_step s s2.
Proof.
  intros H1 H2. pose proof (cs_offset _ _ H1) as Ho. pose proof (cs_working _ _ H1) as Hw.
  split; try (destruct H1, H2; congruence).
  - intros Hp. by apply (cs_pending _ _ H2), (cs_pending _ _ H1).
  - intros k Hk. destruct (cs_queue _ _ H1 k Hk) as (n1 & Hq1 & Hn1).
    destruct (cs_queue _ _ H2 k) as (n2 & Hq2 & Hn2); [congruence|].
    exists (n1 ++ n2). split; [by rewrite Hq2, Hq1, app_assoc|].
    intros l c [Hl|Hl]%elem_of_app Hc; [|rewrite <- Ho; by apply (Hn2 l)].
    assert (Hin : l ∈ queue s1 (Wheel k)) by (rewrite Hq1; apply elem_of_app; by right).
    destruct (a_cells _ (cs_wf _ _ H1) _ _ Hin) as [c1 Hc1].
    destruct (cs_cells _ _ H2 k l c1) as (c' & Hc' & Hl'); [congruence|done|done|].
    rewrite Hc in Hc'. injection Hc' as <-. apply later_fields in Hl' as [-> _]. by apply (Hn1 l).
  - intros k l c Hk Hl Hc. destruct (cs_cells _ _ H1 k l c Hk Hl Hc) as (c1 & Hc1 & Hl1).
    destruct (cs_cells _ _ H2 k l c1) as (c2 & Hc2 & Hl2); [congruence| |done|].
    + destruct (cs_queue _ _ H1 k Hk) as (n1 & -> & _). apply elem_of_app. by left.
    + exists c2. split; [done|]. by eapply later_trans.
  - intros k l c2 Hl Hc2. destruct (cs_timers _ _ H2 k l c2 Hl Hc2) as [?|[Hl1 (c1 & Hc1 & Hlat)]];
      [left; congruence|].
    destruct (later_fields _ _ Hlat) as [Hres _].
    destruct (cs_timers _ _ H1 k l c1 Hl1 Hc1) as [?|[Hl0 (c0 & Hc0 & Hlat0)]]; [left; congruence|].
    right. split; [done|]. exists c0. split; [done|]. by eapply later_trans.
  - intros k l c2 Hl Hc2 Hz. destruct (cs_dead _ _ H2 k l c2 Hl Hc2 Hz) as [[Hl1 (c1 & Hc1 & Hz1)]|[? ?]];
      [|right; split; congruence].
    destruct (cs_dead _ _ H1 k l c1 Hl1 Hc1 Hz1) as [?|[? ?]]; [by left|right].
    split; [done|]. by apply H2.
  - intros l c Hl Hc. destruct (cs_work_cells _ _ H1 l c Hl Hc) as (c1 & Hc1 & Hl1).
    destruct (cs_work_cells _ _ H2 l c1) as (c2 & Hc2 & Hl2); [by rewrite (cs_work _ _ H1)|done|].
    exists c2. split; [done|]. by eapply later_trans.
Qed.

(** *** Changes of one place or one record *)

Lemma awf_put s p ls :
  awf s → NoDup ls → (∀ l, l ∈ ls → l ∈ queue s p ∨ ∃ c, loose s l c) →
  (∀ i h, p = Sock i h → (length ls <= 1)%nat) →
  (∀ k l c, p = Wheel k → l ∈ ls → cells s !! l = Some c → timer_wf k c) →
  awf (put_queue p ls s).
Proof.
  intros [Hnd Hdj Hce Hfr Hso Hwh Hof Hin Hme] Hls Hin' Hsock Hwheel. split; cbn; try done.
  - intros q. by case_decide.
  - intros q q' l. destruct (decide (q = p)) as [->|Hq], (decide (q' = p)) as [->|Hq']; [done|..].
    + intros Hl Hl'. destruct (Hin' l Hl) as [?|(c & _ & Hno)]; [by eapply Hdj|by destruct (Hno q')].
    + intros Hl Hl'. destruct (Hin' l Hl') as [?|(c & _ & Hno)]; [by eapply Hdj|by destruct (Hno q)].
    + apply Hdj.
  - intros q l. case_decide; [|by apply Hce]. intros Hl. subst q.
    destruct (Hin' l Hl) as [?|(c & Hc & _)]; [by eapply Hce|by rewrite Hc].
  - intros i h. case_decide; [by eapply Hsock|done].
  - intros k l c. case_decide; [|by apply Hwh]. by apply Hwheel.
Qed.

Lemma awf_store s l c c' :
  awf s → cells s !! l = Some c → (∀ k, l ∈ queue s (Wheel k) → timer_wf k c') →
  awf (with_cells <[l := c']> s).
Proof.
  intros [Hnd Hdj Hce Hfr Hso Hwh Hof Hin Hme] Hl Hk. split; cbn; try done.
  - intros p l' Hl'. rewrite lookup_insert. case_decide; [done|by eapply Hce].
  - intros l' Hl'. rewrite lookup_insert_ne; [by apply Hfr|]. intros <-. by rewrite Hfr in Hl.
  - intros k l' c0 Hl'. rewrite lookup_insert. case_decide; [|by apply Hwh].
    subst l'. intros [= <-]. by apply Hk.
Qed.

Lemma loose_not_in s l c p l' : loose s l c → l' ∈ queue s p → l' ≠ l.
Proof. intros [_ Hno] Hl' ->. by apply (Hno p). Qed.

(** The clock and the log are the same. *)
Record same_clock s s' : Prop := {
  sc_offset : current_offset s' = current_offset s;
  sc_first : first_time s' = first_time s;
  sc_working : working_entry s' = working_entry s;
  sc_fired : fired s' = fired s;
  sc_pending : pending_deactivates s = true → pending_deactivates s' = true;
}.

(** A change that no loop notices. *)
Lemma client_step_quiet s s' :
  awf s' → same_clock s s' → (∀ k, queue s' (Wheel k) = queue s (Wheel k)) → queue s' Work = queue s Work →
  (∀ k l, l ∈ queue s (Wheel k) → cells s' !! l = cells s !! l) →
  (∀ l, l ∈ queue s Work → cells s' !! l = cells s !! l) → client_step s s'.
Proof.
  intros Hwf [] Hwh Hwk Hcw Hck. split; try done.
  - intros k _. exists []. rewrite app_nil_r, Hwh. split; [done|].
    intros l c Hl. by apply not_elem_of_nil in Hl.
  - intros k l c _ Hl Hc. exists c. rewrite (Hcw k) by done. split; [done|by left].
  - intros k l c. rewrite Hwh. intros Hl. rewrite (Hcw k) by done. intros Hc. right. split; [done|].
    exists c. split; [done|by left].
  - intros k l c. rewrite Hwh. intros Hl. rewrite (Hcw k) by done. intros Hc Hz. left. split; [done|]. by exists c.
  - intros l c Hl Hc. exists c. rewrite Hck by done. split; [done|by left].
Qed.

(** Every timer, or every callback of the working list, is still there. *)
Definition keeps s s' : Prop :=
  ∀ k l c, l ∈ queue s (Wheel k) → cells s !! l = Some c → l ∈ queue s' (Wheel k) ∧ cells s' !! l = Some c.
Definition keeps_work s s' : Prop :=
  ∀ l c, l ∈ queue s Work → cells s !! l = Some c → cells s' !! l = Some c.

(** A client step that cancels nothing. *)
Record gentle s s' : Prop := {
  gs_step :> client_step s s';
  gs_keeps : keeps s s';
  gs_work : keeps_work s s';
}.

Lemma gentle_refl s : awf s → gentle s s.
Proof. intros Hwf. split; [by apply client_step_refl|by intros k l c ? ?|by intros l c ? ?]. Qed.

Lemma keeps_trans s s1 s2 : keeps s s1 → keeps s1 s2 → keeps s s2.
Proof. intros K1 K2 k l c Hl Hc. destruct (K1 k l c Hl Hc). by apply K2. Qed.

Lemma keeps_work_trans s s1 s2 : client_step s s1 → keeps_work s s1 → keeps_work s1 s2 → keeps_work s s2.
Proof. intros H1 K1 K2 l c Hl Hc. apply K2; [by rewrite (cs_work _ _ H1)|by apply K1]. Qed.

Lemma gentle_trans s s1 s2 : gentle s s1 → gentle s1 s2 → gentle s s2.
Proof.
  intros [H1 K1 W1] [H2 K2 W2].
  split; [by eapply client_step_trans|by eapply keeps_trans|by eapply keeps_work_trans].
Qed.

Lemma gentle_quiet s s' :
  awf s' → same_clock s s' → (∀ k, queue s' (Wheel k) = queue s (Wheel k)) → queue s' Work = queue s Work →
  (∀ k l, l ∈ queue s (Wheel k) → cells s' !! l = cells s !! l) →
  (∀ l, l ∈ queue s Work → cells s' !! l = cells s !! l) → gentle s s'.
Proof.
  intros ? ? Hwh ? Hcw Hck. split; [by apply client_step_quiet|..].
  - intros k l c Hl Hc. by rewrite Hwh, (Hcw k).
  - intros l c Hl Hc. by rewrite Hck.
Qed.

Definition quiet_place p : Prop := match p with Queue | Free | Sock _ _ => True | Work | Wheel _ => False end.

(** A loose structure is put in a quiet place. *)
Lemma tail_step s p l c :
  awf s → loose s l c → quiet_place p → (∀ i h, p = Sock i h → queue s p = []) →
  gentle s (put_queue p (queue s p ++ [l]) s).
Proof.
  intros Hwf Hl Hp Hsock. apply gentle_quiet; try done.
  - apply awf_put; [done| | | |].
    + apply NoDup_app. split_and!; [by apply Hwf| |by apply NoDup_singleton].
      intros x Hx ->%list_elem_of_singleton. by apply (loose_not_in s l c p l).
    + intros x [Hx|Hx]%elem_of_app; [by left|]. apply list_elem_of_singleton in Hx as ->. right. eauto.
    + intros i h ->. rewrite (Hsock i h eq_refl). done.
    + intros k x cx ->. done.
  - intros k. rewrite queue_put, decide_False; [done|]. by intros <-.
  - rewrite queue_put, decide_False; [done|]. by intros <-.
Qed.

(** A structure leaves a quiet place. *)
Lemma leave_step s p l ls :
  awf s → queue s p = l :: ls → quiet_place p →
  gentle s (put_queue p ls s) ∧ ∃ c, loose (put_queue p ls s) l c.
Proof.
  intros Hwf Hq Hp. pose proof (a_nodup s Hwf p) as Hnd. rewrite Hq in Hnd. apply NoDup_cons in Hnd as [Hno Hnd].
  split.
  - apply gentle_quiet; try done.
    + apply awf_put; [done|done| | |].
      * intros x Hx. left. rewrite Hq. by right.
      * intros i h ->. pose proof (a_sock s Hwf i h) as Hlen. rewrite Hq in Hlen. cbn in Hlen. lia.
      * intros k x cx ->. done.
    + intros k. rewrite queue_put, decide_False; [done|]. by intros <-.
    + rewrite queue_put, decide_False; [done|]. by intros <-.
  - destruct (a_cells s Hwf p l) as [c Hc]; [rewrite Hq; by left|]. exists c. split; [done|].
    intros q. rewrite queue_put. case_decide; [done|]. intros Hl.
    assert (q = p); [|done]. apply (a_disj s Hwf q p l Hl). rewrite Hq. by left.
Qed.

Lemma load_cb_ok s l c : cells s !! l = Some c → load_cb l s = Ok c s.
Proof. intros Hl. unfold load_cb. mstep. by rewrite Hl. Qed.

Lemma store_cb_ok s l c c' : cells s !! l = Some c → store_cb l c' s = Ok () (with_cells <[l := c']> s).
Proof. intros Hl. unfold store_cb. by mstep using load_cb_ok. Qed.

(** A record that is in no queue of the loops is overwritten. *)
Lemma store_step s l c c' :
  awf s → loose s l c → gentle s (with_cells <[l := c']> s) ∧ loose (with_cells <[l := c']> s) l c'.
Proof.
  intros Hwf Hl. pose proof Hl as [Hc Hno]. split; [|split; [by apply lookup_insert_eq|done]].
  assert (Hne : ∀ p x, x ∈ queue s p → <[l := c']> (cells s) !! x = cells s !! x).
  { intros p x Hx. rewrite lookup_insert_ne; [done|]. apply not_eq_sym. by eapply loose_not_in. }
  apply gentle_quiet; try done.
  - eapply awf_store; [done|done|]. intros k Hk. by destruct (Hno (Wheel k)).
  - intros k x. apply Hne.
  - intros x. apply Hne.
Qed.

(** A structure is taken for a new callback. *)
Lemma create_step s f arg how res :
  awf s → ∃ l s1 bp, nr_async_create_cb f arg how res s = Ok l s1 ∧ gentle s s1 ∧
    loose s1 l (Callback f arg how res bp) ∧ (∀ p, p ≠ Free → queue s1 p = queue s p) ∧
    ∀ x, x ≠ l → cells s1 !! x = cells s !! x.
Proof.
  intros Hwf. unfold nr_async_create_cb. mstep.
  destruct (queue s Free) as [|l rest] eqn:Hq.
  - exists (abrk s), (new_cell (Callback f arg how res None) s), None.
    pose proof (a_fresh s Hwf (abrk s) (Pos.le_refl _)) as Hb.
    assert (Hne : ∀ p x, x ∈ queue s p → x ≠ abrk s).
    { intros p x Hx ->. destruct (a_cells s Hwf p _ Hx). congruence. }
    split_and!; [|apply gentle_quiet; try done|split; [by apply lookup_insert_eq|]|done|].
    + erewrite bind_ok by apply alloc_or_abort_plenty, Hwf. done.
    + destruct Hwf as [Hnd Hdj Hce Hfr Hso Hwh Hof Hin Hme]. split; try done; cbn.
      * intros p x Hx. rewrite lookup_insert_ne by (apply not_eq_sym; by eapply Hne). by eapply Hce.
      * intros x Hx. rewrite lookup_insert_ne by lia. apply Hfr. lia.
      * intros k x c Hx. rewrite lookup_insert_ne by (apply not_eq_sym; by eapply Hne). by apply Hwh.
    + intros k x Hx. cbn. rewrite lookup_insert_ne; [done|]. apply not_eq_sym. by eapply Hne.
    + intros x Hx. cbn. rewrite lookup_insert_ne; [done|]. apply not_eq_sym. by eapply Hne.
    + intros p Hx. by eapply (Hne p).
    + intros x Hx. cbn. by rewrite lookup_insert_ne.
  - destruct (leave_step s Free l rest Hwf Hq I) as [Hstep1 (c & Hl1)].
    destruct (store_step _ l c (Callback f arg how res (cb_backptr c)) (cs_wf _ _ Hstep1) Hl1) as [Hstep2 Hl2].
    exists l. eexists. exists (cb_backptr c). split_and!; [|by eapply gentle_trans|done|..].
    + mstep. erewrite bind_ok by apply load_cb_ok, Hl1.
      erewrite bind_ok by apply (store_cb_ok _ _ c), Hl1. done.
    + intros p Hp. cbn. by rewrite decide_False.
    + intros x Hx. cbn. by rewrite lookup_insert_ne.
Qed.
End steps.

(** ** The calls of the library *)

Definition handle_ok (s : async_state) (l : loc) : Prop :=
  ∃ c, cells s !! l = Some c ∧ (cb c = 0 ∨ ∃ k, cb_backptr c = Some k ∧ l ∈ queue s (Wheel k)).

(** What the library asks of a call: an event type that is not negative, a delay that is
    not negative and keeps the time of the timer below [INT_MAX] milliseconds, and a handle
    of a timer that was not run or cancelled yet. *)
Definition api_ok (s : async_state) (a : api) : Prop :=
  match a with
  | ApiWait _ how _ _ | ApiCancel _ how => 0 <= how
  | ApiSchedule _ _ => True
  | ApiTimerSet delay_ms f _ => 0 <= delay_ms ∧ current_offset s + Z.max 1 delay_ms < INT_MAX ∧ f ≠ 0
  | ApiTimerCancel None => True
  | ApiTimerCancel (Some l) => handle_ok s l
  end.

Fixpoint apis_ok (s : async_state) (l : list api) : Prop :=
  match l with
  | [] => True
  | a :: l' => api_ok s a ∧ ∀ s', run_api a s = Ok () s' → apis_ok s' l'
  end.

(** No timer, or no wait for a socket, is cancelled. *)
Definition no_cancel (a : api) : bool := match a with ApiTimerCancel _ => false | _ => true end.
Definition no_sock_cancel (a : api) : bool := match a with ApiCancel _ _ => false | _ => true end.

Section calls.
Implicit Types (s : async_state) (p q : place) (l : loc) (c : callback).

Lemma ignore_ok {B} (m : A B) s b s' : m s = Ok b s' → ignore m s = Ok () s'.
Proof. unfold ignore. by intros ->. Qed.
Lemma ignore_err {B} (m : A B) s r s' : m s = Err r s' → ignore m s = Ok () s'.
Proof. unfold ignore. by intros ->. Qed.

Lemma wait_init_ok s : awf s → NR_async_wait_init s = Ok () s.
Proof. intros Hwf. unfold NR_async_wait_init. mstep. by rewrite (proj1 (a_init s Hwf)). Qed.

Lemma check_sock_cases s sock how :
  0 <= how →
  (0 <= sock < SOCKET_VEC_SIZE ∧ how < ASYNC_WAIT_TYPES ∧ check_sock sock how s = Ok () s) ∨
  check_sock sock how s = Err R_BAD_ARGS s.
Proof.
  intros Hh. unfold check_sock. destruct (Z.ltb_spec sock 0); [by right|].
  destruct (Z.leb_spec SOCKET_VEC_SIZE sock); [by right|]. destruct (Z.leb_spec ASYNC_WAIT_TYPES how); [by right|].
  destruct (Z.ltb_spec how 0); [lia|]. by left.
Qed.

Lemma destroy_step s l c :
  awf s → loose s l c → ∃ s', nr_async_destroy_cb l s = Ok () s' ∧ gentle s s' ∧ cells s' = cells s ∧
    ∀ p, p ≠ Free → queue s' p = queue s p.
Proof.
  intros Hwf Hl. eexists. split; [unfold nr_async_destroy_cb, insert_tail; by mstep|].
  split; [by eapply tail_step|]. split; [done|]. intros p Hp. cbn. by rewrite decide_False.
Qed.

Lemma drop_sock_step s sock how :
  awf s → ∃ s', drop_sock sock how s = Ok () s' ∧ gentle s s' ∧ queue s' (Sock sock how) = [] ∧
    cells s' = cells s ∧ ∀ p, p ≠ Free → p ≠ Sock sock how → queue s' p = queue s p.
Proof.
  intros Hwf. unfold drop_sock. mstep.
  destruct (queue s (Sock sock how)) as [|l ls] eqn:Hq; [exists s; split_and!; try done; by apply gentle_refl|].
  assert (ls = []) as ->.
  { pose proof (a_sock s Hwf sock how) as Hlen. rewrite Hq in Hlen. destruct ls; [done|cbn in Hlen; lia]. }
  destruct (leave_step s (Sock sock how) l [] Hwf Hq I) as [Hstep1 (c & Hl)].
  destruct (destroy_step _ l c (cs_wf _ _ Hstep1) Hl) as (s2 & Hrun & Hstep2 & Hc2 & Hq2).
  exists s2. split_and!.
  - by mstep.
  - by eapply gentle_trans.
  - rewrite Hq2 by done. cbn. by rewrite decide_True.
  - done.
  - intros p Hp Hp'. rewrite Hq2 by done. cbn. by rewrite decide_False.
Qed.

Lemma wait_step s sock how f arg :
  awf s → 0 <= how → ∃ s', run_api (ApiWait sock how f arg) s = Ok () s' ∧ gentle s s'.
Proof.
  intros Hwf Hh. cbn. unfold NR_async_wait.
  destruct (check_sock_cases s sock how Hh) as [(_ & _ & Hchk)|Hchk].
  2: { exists s. split; [|by apply gentle_refl]. eapply ignore_err.
       mstep using wait_init_ok. by apply bind_err. }
  destruct (drop_sock_step s sock how Hwf) as (s1 & Hrun1 & Hstep1 & Hempty & _ & _).
  destruct (create_step s1 f arg how sock (cs_wf _ _ Hstep1)) as (l & s2 & bp & Hrun2 & Hstep2 & Hl & Hq2 & _).
  exists (put_queue (Sock sock how) (queue s2 (Sock sock how) ++ [l]) s2). split.
  - eapply ignore_ok. mstep using wait_init_ok. mstep.
    mstep. mstep using catch_ok. by rewrite Hq2, Hempty.
  - eapply gentle_trans; [done|]. eapply gentle_trans; [done|].
    eapply tail_step; [apply Hstep2|done|done|]. intros i h [= -> ->]. by rewrite Hq2.
Qed.

Lemma find_queued_run s sock how ls :
  (∀ l, l ∈ ls → is_Some (cells s !! l)) →
  ∃ o, find_queued sock how ls s = Ok o s ∧ ∀ l, o = Some l → l ∈ ls.
Proof.
  induction ls as [|l ls IH]; intros Hls; [by exists None|]. cbn.
  destruct (Hls l) as [c Hc]; [by left|]. mstep using load_cb_ok.
  destruct ((cb_resource c =? sock) && (cb_how c =? how)).
  - exists (Some l). split; [done|]. intros l' [= <-]. by left.
  - destruct IH as (o & Ho & Hin); [intros l' Hl'; apply Hls; by right|].
    exists o. split; [done|]. intros l' Hl'. right. by apply Hin.
Qed.

(** A callback of the working list is cancelled. *)
Lemma mark_work_step s l c :
  awf s → l ∈ queue s Work → cells s !! l = Some c →
  client_step s (with_cells <[l := set_cb 0 c]> s) ∧ keeps s (with_cells <[l := set_cb 0 c]> s).
Proof.
  intros Hwf Hl Hc.
  assert (Hne : ∀ k x, x ∈ queue s (Wheel k) → <[l := set_cb 0 c]> (cells s) !! x = cells s !! x).
  { intros k x Hx. rewrite lookup_insert_ne; [done|]. intros <-. by pose proof (a_disj s Hwf _ _ _ Hl Hx). }
  split; [|intros k x y Hx Hy; split; [done|cbn; by rewrite (Hne k)]]. split; try done; cbn.
  - eapply awf_store; [done|done|]. intros k Hk. by pose proof (a_disj s Hwf _ _ _ Hl Hk).
  - intros k _. exists []. rewrite app_nil_r. split; [done|]. intros x y Hx. by apply not_elem_of_nil in Hx.
  - intros k x y _ Hx Hy. exists y. rewrite (Hne k) by done. split; [done|by left].
  - intros k x y Hx. rewrite (Hne k) by done. intros Hy. right. split; [done|]. exists y. split; [done|by left].
  - intros k x y Hx. rewrite (Hne k) by done. intros Hy Hz. left. split; [done|]. by exists y.
  - intros x y Hx Hy. rewrite lookup_insert. case_decide; [|exists y; split; [done|by left]].
    subst x. exists (set_cb 0 c). split; [done|]. right. congruence.
Qed.

Lemma cancel_step s sock how :
  awf s → 0 <= how → ∃ s', run_api (ApiCancel sock how) s = Ok () s' ∧ client_step s s' ∧ keeps s s'.
Proof.
  intros Hwf Hh. cbn. unfold NR_async_cancel.
  destruct (check_sock_cases s sock how Hh) as [(_ & _ & Hchk)|Hchk].
  2: { exists s. split; [|split; by apply gentle_refl]. eapply ignore_err.
       mstep using wait_init_ok. by apply bind_err. }
  destruct (drop_sock_step s sock how Hwf) as (s1 & Hrun1 & Hstep1 & _ & _ & _).
  pose proof (cs_wf _ _ Hstep1) as Hwf1. destruct (queue s1 Work) as [|l0 rest] eqn:Hq.
  { exists s1. split; [|by destruct Hstep1]. eapply ignore_ok. mstep using wait_init_ok.
    mstep. mstep. mstep. by rewrite Hq. }
  assert (Hin : ∀ l, l ∈ rest → l ∈ queue s1 Work) by (intros l Hl; rewrite Hq; by right).
  destruct (find_queued_run s1 sock how rest) as (o & Ho & Hol).
  { intros l Hl. eapply a_cells; [done|by apply Hin]. }
  assert (Hrun : ∀ s', (match o with Some l => c ← load_cb l; store_cb l (set_cb 0 c) | None => mret () end) s1 = Ok () s' →
    ignore (NR_async_cancel sock how) s = Ok () s').
  { intros s' Hs'. eapply ignore_ok. unfold NR_async_cancel. mstep using wait_init_ok.
    mstep. mstep. mstep. rewrite Hq.
    by mstep. }
  destruct o as [l|]; [|exists s1; split; [by apply Hrun|by destruct Hstep1]].
  destruct (a_cells s1 Hwf1 Work l) as [c Hc]; [by apply Hin, Hol|].
  exists (with_cells <[l := set_cb 0 c]> s1). split.
  - apply Hrun. mstep using load_cb_ok. by eapply store_cb_ok.
  - destruct (mark_work_step s1 l c) as [Hstep2 Hk2]; [done|by apply Hin, Hol|done|].
    split; [exact (client_step_trans _ _ _ Hstep1 Hstep2)|exact (keeps_trans _ _ _ (gs_keeps _ _ Hstep1) Hk2)].
Qed.

Lemma schedule_step s f arg :
  awf s → ∃ s', run_api (ApiSchedule f arg) s = Ok () s' ∧ gentle s s'.
Proof.
  intros Hwf. destruct (create_step s f arg (-1) (-1) Hwf) as (l & s1 & bp & Hrun1 & Hstep1 & Hl & _).
  eexists. split.
  - cbn. eapply ignore_ok. unfold NR_async_schedule. mstep using wait_init_ok.
    mstep using catch_ok. unfold insert_tail. by mstep.
  - eapply gentle_trans; [done|]. by eapply tail_step; [apply Hstep1|..].
Qed.

Lemma awf_timers s n : awf s → awf (add_timers n s).
Proof. intros []. by split. Qed.
Lemma awf_working s w b : awf s → awf (with_working w b s).
Proof. intros []. by split. Qed.

(** A timer that is due later is entered in the wheel. *)
Lemma wheel_step s l c k n :
  awf s → loose s l c → timer_wf k c → current_offset s < cb_resource c → cb c ≠ 0 →
  gentle s (add_timers n (put_queue (Wheel k) (queue s (Wheel k) ++ [l]) s)).
Proof.
  intros Hwf Hl Hk Hdue Hcb. pose proof Hl as [Hc Hno].
  assert (Hin : ∀ j x, x ∈ queue (put_queue (Wheel k) (queue s (Wheel k) ++ [l]) s) (Wheel j) →
    x ∈ queue s (Wheel j) ∨ x = l).
  { intros j x. rewrite queue_put. case_decide as Hj; [|by left]. injection Hj as ->.
    rewrite elem_of_app, list_elem_of_singleton. done. }
  split; [| |by intros x y _ Hy].
  2: { intros j x y Hx Hy. split; [|done]. cbn. case_decide as Hj; [|done]. injection Hj as ->.
       apply elem_of_app. by left. }
  split; try done; cbn [add_timers current_offset working_entry pending_deactivates fired cells first_time].
  - apply awf_timers, awf_put; [done| | |done|].
    + apply NoDup_app. split_and!; [by apply Hwf| |by apply NoDup_singleton].
      intros x Hx ->%list_elem_of_singleton. by apply (loose_not_in s l c (Wheel k) l).
    + intros x [Hx|Hx]%elem_of_app; [by left|]. apply list_elem_of_singleton in Hx as ->. right. eauto.
    + intros j x cx [= <-] [Hx|Hx]%elem_of_app Hcx; [by eapply Hwf|].
      apply list_elem_of_singleton in Hx as ->. rewrite Hc in Hcx. by injection Hcx as <-.
  - intros j _. cbn. case_decide as Hj.
    + injection Hj as ->. exists [l]. split; [done|]. intros x y Hx. apply list_elem_of_singleton in Hx as ->.
      rewrite Hc. by intros [= <-].
    + exists []. rewrite app_nil_r. split; [done|]. intros x y Hx. by apply not_elem_of_nil in Hx.
  - intros j x y _ Hx Hy. exists y. split; [done|by left].
  - intros j x y [Hx|Hx]%Hin Hy.
    + right. split; [done|]. exists y. split; [done|by left].
    + subst x. left. cbn in Hy. rewrite Hc in Hy. by injection Hy as <-.
  - intros j x y [Hx|Hx]%Hin Hy Hz.
    + left. split; [done|]. by exists y.
    + subst x. cbn in Hy. rewrite Hc in Hy. injection Hy as <-. done.
  - intros x y _ Hy. exists y. split; [done|by left].
Qed.

Lemma slot_range o : 0 <= o → 0 <= slot_of o < WHEEL_SIZE.
Proof.
  intros Ho. unfold slot_of. change WHEEL_MASK with (Z.ones 12). rewrite Z.land_ones by lia.
  apply Z.mod_pos_bound. done.
Qed.

Lemma timer_set_step s delay f arg :
  awf s → 0 <= delay → current_offset s + Z.max 1 delay < INT_MAX → f ≠ 0 →
  ∃ l s', NR_async_timer_set delay f arg s = Ok l s' ∧ gentle s s' ∧
    let due := current_offset s + Z.max 1 delay in
    cells s' !! l = Some (Callback f arg (-1) due (Some (slot_of due))) ∧
    queue s' (Wheel (slot_of due)) = queue s (Wheel (slot_of due)) ++ [l] ∧
    (∀ k, k ≠ slot_of due → queue s' (Wheel k) = queue s (Wheel k)) ∧
    ∀ k x, x ∈ queue s (Wheel k) → cells s' !! x = cells s !! x ∧ x ≠ l.
Proof.
  intros Hwf Hd Hroom Hf. set (due := current_offset s + Z.max 1 delay).
  pose proof (a_offset s Hwf) as Hoff. assert (Hdue : 0 <= due < INT_MAX) by (unfold due; lia). unfold INT_MAX in Hdue.
  destruct (create_step s f arg (-1) due Hwf) as (l & s1 & bp & Hrun1 & Hstep1 & Hl & Hq1 & Hce1).
  set (c := Callback f arg (-1) due (Some (slot_of due))).
  destruct (store_step s1 l _ c (cs_wf _ _ Hstep1) Hl) as [Hstep2 Hl2].
  pose proof (gentle_trans _ _ _ Hstep1 Hstep2) as Hstep12.
  set (s2 := with_cells <[l := c]> s1) in *.
  assert (Hstep3 : gentle s2 (add_timers 1 (put_queue (Wheel (slot_of due)) (queue s2 (Wheel (slot_of due)) ++ [l]) s2))).
  { apply (wheel_step s2 l c); [apply Hstep2|done|done| |done].
    rewrite (cs_offset _ _ Hstep12). cbn. unfold due. lia. }
  exists l. eexists. cbv zeta. fold due. split_and!; [|by eapply gentle_trans|..].
  - unfold NR_async_timer_set. unfold MS_PER_ENTRY. rewrite Z.quot_1_r. cbv zeta.
    mstep.
    assert (Hsum : wrap 64 (current_offset s + (if delay =? 0 then delay + 1 else delay)) = due).
    { rewrite wrap_small; unfold due in *; destruct (Z.eqb_spec delay 0); lia. }
    rewrite Hsum, swrap_small by lia. mstep using catch_ok. cbn beta iota.
    rewrite (proj2 (a_init s Hwf)). unfold insert_tail. mstep.
    erewrite bind_ok by apply load_cb_ok, Hl. erewrite bind_ok by eapply store_cb_ok, Hl.
    mstep. done.
  - cbn. by rewrite lookup_insert_eq.
  - cbn. rewrite decide_True by done. f_equal. by apply Hq1.
  - intros k Hk. cbn. rewrite decide_False by congruence. by apply Hq1.
  - intros k x Hx. assert (Hxl : x ≠ l). { eapply (loose_not_in s1); [done|]. by rewrite Hq1. }
    split; [|done]. cbn. rewrite lookup_insert_ne by done.
    by apply Hce1.
Qed.

(** A timer is taken out of a queue that is not being worked on. *)
Lemma unwheel_step s l c k n :
  awf s → l ∈ queue s (Wheel k) → cells s !! l = Some c → working_entry s ≠ Some k →
  let s' := add_timers n (put_queue (Wheel k) (filter (λ x, x ≠ l) (queue s (Wheel k))) s) in
  client_step s s' ∧ loose s' l c.
Proof.
  intros Hwf Hl Hc Hw s'.
  assert (Hin : ∀ j x, x ∈ queue s' (Wheel j) → x ∈ queue s (Wheel j)).
  { intros j x. cbn. case_decide as Hj; [|done]. injection Hj as ->. by intros [_ ?]%list_elem_of_filter. }
  split.
  - split; try done; cbn [s' add_timers current_offset working_entry pending_deactivates fired cells first_time].
    + apply awf_timers, awf_put; [done|by apply NoDup_filter, Hwf| |done|].
      * intros x [_ Hx]%list_elem_of_filter. by left.
      * intros j x cx [= <-] [_ Hx]%list_elem_of_filter. by apply Hwf.
    + intros j Hj. exists []. rewrite app_nil_r. cbn. rewrite decide_False by congruence.
      split; [done|]. intros x y Hx. by apply not_elem_of_nil in Hx.
    + intros j x y _ Hx Hy. exists y. split; [done|by left].
    + intros j x y Hx%Hin Hy. right. split; [done|]. exists y. split; [done|by left].
    + intros j x y Hx%Hin Hy Hz. left. split; [done|]. by exists y.
    + intros x y _ Hy. exists y. split; [done|by left].
  - split; [done|]. intros p. cbn. case_decide as Hp.
    + intros [Hne _]%list_elem_of_filter. done.
    + intros Hl'. by pose proof (a_disj s Hwf _ _ _ Hl Hl').
Qed.

(** A timer of the queue being worked on is marked. *)
Lemma mark_wheel_step s l c k :
  awf s → l ∈ queue s (Wheel k) → cells s !! l = Some c → working_entry s = Some k →
  let s' := with_working (working_entry s) true (with_cells <[l := set_cb 0 c]> s) in
  client_step s s' ∧ keeps_work s s'.
Proof.
  intros Hwf Hl Hc Hw s'. pose proof (a_wheel s Hwf k l c Hl Hc) as Hk.
  assert (Hlook : ∀ x y, <[l := set_cb 0 c]> (cells s) !! x = Some y →
    (x = l ∧ y = set_cb 0 c) ∨ (x ≠ l ∧ cells s !! x = Some y)).
  { intros x y. rewrite lookup_insert. case_decide; [|by right]. intros [= <-]. by left. }
  assert (Hwork : ∀ x, x ∈ queue s Work → x ≠ l).
  { intros x Hx ->. by pose proof (a_disj s Hwf _ _ _ Hl Hx). }
  split; [|intros x y Hx Hy; cbn; by rewrite lookup_insert_ne by (apply not_eq_sym; auto)].
  split; try done; cbn.
  - apply awf_working, (awf_store s l c); [done|done|]. intros j Hj.
    pose proof (a_disj s Hwf _ _ _ Hl Hj) as [= <-]. exact Hk.
  - intros j _. exists []. rewrite app_nil_r. split; [done|]. intros x y Hx. by apply not_elem_of_nil in Hx.
  - intros j x y _ Hx Hy. rewrite lookup_insert. case_decide; [|exists y; split; [done|by left]].
    subst x. exists (set_cb 0 c). split; [done|]. right. congruence.
  - intros j x y Hx [[-> ->]|[_ Hy]]%Hlook; right; (split; [done|]).
    + exists c. split; [done|by right].
    + exists y. split; [done|by left].
  - intros j x y Hx [[-> ->]|[_ Hy]]%Hlook Hz; [right|left; split; [done|by exists y]].
    pose proof (a_disj s Hwf _ _ _ Hl Hx) as [= <-]. done.
  - intros x y Hx Hy. rewrite lookup_insert_ne; [exists y; split; [done|by left]|].
    apply not_eq_sym. auto.
Qed.

Lemma remove_from_ok s p l :
  l ∈ queue s p → remove_from p l s = Ok () (put_queue p (filter (λ x, x ≠ l) (queue s p)) s).
Proof. intros Hl. unfold remove_from. mstep. by rewrite decide_True. Qed.

Lemma timer_cancel_step s l :
  awf s → handle_ok s l → ∃ s', NR_async_timer_cancel (Some l) s = Ok () s' ∧ client_step s s' ∧ keeps_work s s'.
Proof.
  intros Hwf (c & Hc & Hcase). unfold NR_async_timer_cancel. mstep.
  rewrite (proj2 (a_init s Hwf)). cbn [negb]. mstep using load_cb_ok.
  destruct (Z.eqb_spec (cb c) 0) as [Hz|Hz]; [exists s; split; [done|split; by apply gentle_refl]|].
  destruct Hcase as [?|(k & Hk & Hl)]; [done|]. rewrite Hk. case_decide as Hw.
  - eexists. split; [by erewrite bind_ok by by eapply store_cb_ok|]. by eapply mark_wheel_step.
  - destruct (unwheel_step s l c k (-1) Hwf Hl Hc Hw) as [Hstep Hloose].
    destruct (destroy_step _ l c (cs_wf _ _ Hstep) Hloose) as (s2 & Hrun & Hstep2 & _ & _).
    exists s2. split; [|split; [exact (client_step_trans _ _ _ Hstep Hstep2)|]].
    2: { exact (keeps_work_trans _ _ _ Hstep (λ _ _ _ Hy, Hy) (gs_work _ _ Hstep2)). }
    mstep using remove_from_ok. by mstep.
Qed.

(** Every call a callback may make is a step the loops can rely on. *)
Lemma run_api_step s a :
  awf s → api_ok s a →
  ∃ s', run_api a s = Ok () s' ∧ client_step s s' ∧ (no_cancel a = true → keeps s s') ∧
    (no_sock_cancel a = true → keeps_work s s').
Proof.
  intros Hwf Hok.
  assert (Hgentle : (∃ s', run_api a s = Ok () s' ∧ gentle s s') →
    ∃ s', run_api a s = Ok () s' ∧ client_step s s' ∧ (no_cancel a = true → keeps s s') ∧
      (no_sock_cancel a = true → keeps_work s s')).
  { intros (s' & Hrun & []). eauto. }
  destruct a as [sock how f arg|sock how|f arg|delay f arg|[l|]].
  - by apply Hgentle, wait_step.
  - destruct (cancel_step s sock how Hwf Hok) as (s' & Hrun & Hstep & Hk). exists s'. by split_and!.
  - by apply Hgentle, schedule_step.
  - destruct Hok as (? & ? & ?). destruct (timer_set_step s delay f arg) as (l & s' & Hrun & Hstep & _); [done..|].
    apply Hgentle. exists s'. split; [by eapply ignore_ok|done].
  - destruct (timer_cancel_step s l Hwf Hok) as (s' & Hrun & Hstep & Hk). exists s'.
    split_and!; [by eapply ignore_ok|done|done|done].
  - apply Hgentle. exists s. split; [|by apply gentle_refl]. cbn. eapply ignore_ok. unfold NR_async_timer_cancel.
    mstep. by rewrite (proj2 (a_init s Hwf)).
Qed.

Lemma run_apis_step s (l : list api) :
  awf s → apis_ok s l →
  ∃ s', run_apis l s = Ok () s' ∧ client_step s s' ∧ (forallb no_cancel l = true → keeps s s') ∧
    (forallb no_sock_cancel l = true → keeps_work s s').
Proof.
  revert s. induction l as [|a l IH]; intros s Hwf Hok.
  { exists s. split_and!; [done|by apply client_step_refl|intros _; by apply gentle_refl|intros _; by apply gentle_refl]. }
  destruct Hok as [Ha Hl]. destruct (run_api_step s a Hwf Ha) as (s1 & Hrun1 & Hstep1 & Hk1 & Hw1).
  destruct (IH s1 (cs_wf _ _ Hstep1) (Hl s1 Hrun1)) as (s2 & Hrun2 & Hstep2 & Hk2 & Hw2).
  exists s2. split_and!; [cbn [run_apis]; by mstep|by eapply client_step_trans|..].
  - intros [Ha' Hl']%andb_true_iff. eapply keeps_trans; [by apply Hk1|by apply Hk2].
  - intros [Ha' Hl']%andb_true_iff. eapply keeps_work_trans; [done|by apply Hw1|by apply Hw2].
Qed.
End calls.
