(* ===== verification/AsyncTick.v ===== *)
(** * What the passing of time does

    [NR_async_timer_update_time] against every client whose callbacks respect the
    library's rules: it ends, it runs timers that are due, each at most once, and
    afterwards every timer left is due later. *)

From S2P Require Import Prelude RTime AsyncState AsyncWait AsyncTimer AsyncLoop AsyncInv.
Local Open Scope Z_scope.

(** A live timer of the wheel that is due. *)
Definition due_timer (s : async_state) (l : loc) (c : callback) : Prop :=
  (∃ k, l ∈ queue s (Wheel k)) ∧ cells s !! l = Some c ∧ cb_resource c <= current_offset s ∧ cb c ≠ 0.

Definition firing_of (c : callback) : firing := Firing (cb c) 0 (-1) (cb_arg c).

(** The timers [lc] were run between the two states. *)
Record tick (s s' : async_state) (lc : list (loc * callback)) : Prop := {
  tk_wf : awf s';
  tk_offset : current_offset s' = current_offset s;
  tk_first : first_time s' = first_time s;
  tk_fired : fired s' = fired s ++ (firing_of ∘ snd <$> lc);
  tk_timers k l c' : l ∈ queue s' (Wheel k) → cells s' !! l = Some c' →
    current_offset s < cb_resource c' ∨
    l ∈ queue s (Wheel k) ∧ ∃ c, cells s !! l = Some c ∧ later_of c c';
  tk_nodup : NoDup (fst <$> lc);
  tk_due l c : (l, c) ∈ lc → due_timer s l c;
  tk_gone l c k c' : (l, c) ∈ lc → l ∈ queue s' (Wheel k) → cells s' !! l = Some c' →
    current_offset s < cb_resource c';
}.

Section ticks.
Implicit Types (s : async_state) (k j : Z) (l : loc) (c : callback) (lc : list (loc * callback)).

Lemma tick_due s s' lc l c' : tick s s' lc → due_timer s' l c' → due_timer s l c' ∧ l ∉ (fst <$> lc).
Proof.
  intros Ht ([k Hk] & Hc' & Hdue & Hcb). rewrite (tk_offset _ _ _ Ht) in Hdue. split.
  - destruct (tk_timers _ _ _ Ht k l c' Hk Hc') as [?|[Hk0 (c & Hc & Hlat)]]; [lia|].
    destruct Hlat as [-> | ->]; [|done]. by split; [exists k|].
  - intros ([l' c] & -> & Hin)%list_elem_of_fmap. cbn in *.
    pose proof (tk_gone _ _ _ Ht l' c k c' Hin Hk Hc'). lia.
Qed.

Lemma tick_trans s s1 s2 lc lc' : tick s s1 lc → tick s1 s2 lc' → tick s s2 (lc ++ lc').
Proof.
  intros H1 H2. pose proof (tk_offset _ _ _ H1) as Ho.
  assert (Htimers : ∀ k l c', l ∈ queue s2 (Wheel k) → cells s2 !! l = Some c' →
    current_offset s < cb_resource c' ∨ ∃ c1, l ∈ queue s1 (Wheel k) ∧ cells s1 !! l = Some c1 ∧ later_of c1 c').
  { intros k l c' Hl Hc'. destruct (tk_timers _ _ _ H2 k l c' Hl Hc') as [?|[? (c & ? & ?)]]; [left; lia|eauto]. }
  split.
  - apply H2.
  - rewrite (tk_offset _ _ _ H2). apply H1.
  - rewrite (tk_first _ _ _ H2). apply H1.
  - rewrite (tk_fired _ _ _ H2), (tk_fired _ _ _ H1), fmap_app. by rewrite app_assoc.
  - intros k l c2 Hl Hc2. destruct (Htimers k l c2 Hl Hc2) as [?|(c1 & Hl1 & Hc1 & Hlat)]; [by left|].
    destruct (later_fields _ _ Hlat) as [Hres _].
    destruct (tk_timers _ _ _ H1 k l c1 Hl1 Hc1) as [?|[Hl0 (c0 & Hc0 & Hlat0)]]; [left; lia|].
    right. split; [done|]. exists c0. split; [done|]. by eapply later_trans.
  - rewrite fmap_app. apply NoDup_app. split_and!; [apply H1| |apply H2].
    intros l Hl ([l' c] & -> & Hin)%list_elem_of_fmap. cbn in *.
    apply (tk_due _ _ _ H2) in Hin. by destruct (tick_due _ _ _ _ _ H1 Hin).
  - intros l c [Hl|Hl]%elem_of_app; [by apply H1|]. apply (tk_due _ _ _ H2) in Hl.
    by destruct (tick_due _ _ _ _ _ H1 Hl).
  - intros l c k c' [Hl|Hl]%elem_of_app Hk Hc'.
    + destruct (Htimers k l c' Hk Hc') as [?|(c1 & Hl1 & Hc1 & Hlat)]; [done|].
      destruct (later_fields _ _ Hlat) as [-> _]. by apply (tk_gone _ _ _ H1 l c k).
    + rewrite <- Ho. by apply (tk_gone _ _ _ H2 l c k).
Qed.

(** A change that runs nothing. *)
Lemma tick_nil s s' :
  awf s' → current_offset s' = current_offset s → first_time s' = first_time s → fired s' = fired s →
  (∀ k l c', l ∈ queue s' (Wheel k) → cells s' !! l = Some c' →
    current_offset s < cb_resource c' ∨ l ∈ queue s (Wheel k) ∧ ∃ c, cells s !! l = Some c ∧ later_of c c') →
  tick s s' [].
Proof.
  intros. split; try done; [by rewrite app_nil_r|constructor|..]; intros l c **; by destruct (not_elem_of_nil (l, c)).
Qed.

Lemma tick_refl s : awf s → tick s s [].
Proof. intros Hwf. apply tick_nil; try done. intros k l c Hl Hc. right. split; [done|]. exists c. split; [done|by left]. Qed.

Lemma tick_client s s' : client_step s s' → tick s s' [].
Proof. intros []. by apply tick_nil. Qed.

End ticks.

(** ** Removing a timer from the queue being worked on *)

Section reap.
Implicit Types (s : async_state) (k j : Z) (l : loc) (c : callback).

Record reaped s s' k l : Prop := {
  re_wf : awf s';
  re_offset : current_offset s' = current_offset s;
  re_first : first_time s' = first_time s;
  re_fired : fired s' = fired s;
  re_working : working_entry s' = working_entry s;
  re_pending : pending_deactivates s' = pending_deactivates s;
  re_cells : cells s' = cells s;
  re_queue : queue s' (Wheel k) = filter (λ x, x ≠ l) (queue s (Wheel k));
  re_other j : j ≠ k → queue s' (Wheel j) = queue s (Wheel j);
}.

Lemma reap_run s k l :
  awf s → l ∈ queue s (Wheel k) →
  ∃ s', (modify (add_timers (-1));; remove_from (Wheel k) l;; nr_async_destroy_cb l) s = Ok () s' ∧
    reaped s s' k l.
Proof.
  intros Hwf Hl. destruct (a_cells s Hwf _ _ Hl) as [c Hc].
  set (s1 := add_timers (-1) s). set (s2 := put_queue (Wheel k) (filter (λ x, x ≠ l) (queue s (Wheel k))) s1).
  assert (Hwf2 : awf s2).
  { apply awf_put; [by apply awf_timers|by apply NoDup_filter, Hwf| |done|].
    - intros x [_ Hx]%list_elem_of_filter. by left.
    - intros j x y [= <-] [_ Hx]%list_elem_of_filter. by apply Hwf. }
  assert (Hl2 : loose s2 l c).
  { split; [done|]. intros p. cbn. case_decide as Hp; [by intros [? _]%list_elem_of_filter|].
    intros Hlp. by pose proof (a_disj s Hwf _ _ _ Hl Hlp). }
  destruct (destroy_step s2 l c Hwf2 Hl2) as (s3 & Hrun & Hstep & Hcells & Hq).
  exists s3. split.
  - mstep. mstep using remove_from_ok. done.
  - split; try (destruct Hstep as [[] _]; done).
    + unfold nr_async_destroy_cb, insert_tail in Hrun. erewrite bind_ok in Hrun by done. by injection Hrun as <-.
    + rewrite Hq by done. cbn. by rewrite decide_True.
    + intros j Hj. rewrite Hq by done. cbn. by rewrite decide_False by congruence.
Qed.

Lemma reaped_in s s' k l j x : reaped s s' k l → x ∈ queue s' (Wheel j) → x ∈ queue s (Wheel j) ∧ (j = k → x ≠ l).
Proof.
  intros Hr. destruct (decide (j = k)) as [->|Hj].
  - rewrite (re_queue _ _ _ _ Hr). by intros [? ?]%list_elem_of_filter.
  - by rewrite (re_other _ _ _ _ Hr).
Qed.

Lemma reaped_tick s s' k l : reaped s s' k l → tick s s' [].
Proof.
  intros Hr. apply tick_nil; try apply Hr. intros j x c' Hx Hc'. right.
  apply (reaped_in _ _ _ _ _ _ Hr) in Hx as [Hx _]. split; [done|].
  exists c'. rewrite <- (re_cells _ _ _ _ Hr). split; [done|by left].
Qed.
End reap.

(** ** One slot *)

Section client.
Context (client : firing → async_state → list api).
(** The rules the client keeps to. *)
Context (client_rules : ∀ f s, awf s → apis_ok s (client f s)).
Implicit Types (s : async_state) (k j : Z) (l : loc) (c : callback) (lc : list (loc * callback)).

Definition cancels_nothing : Prop := ∀ f s, forallb no_cancel (client f s) = true.
Definition cancels_no_sock : Prop := ∀ f s, forallb no_sock_cancel (client f s) = true.

Record slot_step s s' lc : Prop := {
  ss_tick :> tick s s' lc;
  ss_working : working_entry s' = working_entry s;
  ss_pending : pending_deactivates s = true → pending_deactivates s' = true;
  ss_dead k l c' : l ∈ queue s' (Wheel k) → cells s' !! l = Some c' → cb c' = 0 →
    (l ∈ queue s (Wheel k) ∧ ∃ c, cells s !! l = Some c ∧ cb c = 0) ∨
    working_entry s = Some k ∧ pending_deactivates s' = true;
  ss_all k l c : cancels_nothing → l ∈ queue s (Wheel k) → cells s !! l = Some c → cb c ≠ 0 →
    (l ∈ queue s' (Wheel k) ∧ cells s' !! l = Some c) ∨ (l, c) ∈ lc;
}.

Lemma slot_step_refl s : awf s → slot_step s s [].
Proof.
  intros Hwf. split; [by apply tick_refl|done|done|..].
  - intros k l c Hl Hc Hz. left. split; [done|]. by exists c.
  - intros k l c _ Hl Hc _. by left.
Qed.

Lemma slot_step_trans s s1 s2 lc lc' : slot_step s s1 lc → slot_step s1 s2 lc' → slot_step s s2 (lc ++ lc').
Proof.
  intros H1 H2. pose proof (ss_working _ _ _ H1) as Hw. split.
  - exact (tick_trans _ _ _ _ _ H1 H2).
  - rewrite (ss_working _ _ _ H2). apply H1.
  - intros Hp. by apply (ss_pending _ _ _ H2), (ss_pending _ _ _ H1).
  - intros k l c Hl Hc Hz. destruct (ss_dead _ _ _ H2 k l c Hl Hc Hz) as [[Hl1 (c1 & Hc1 & Hz1)]|[? ?]].
    + destruct (ss_dead _ _ _ H1 k l c1 Hl1 Hc1 Hz1) as [?|[? ?]]; [by left|right].
      split; [done|by apply (ss_pending _ _ _ H2)].
    + right. split; congruence.
  - intros k l c Hn Hl Hc Hcb. destruct (ss_all _ _ _ H1 k l c Hn Hl Hc Hcb) as [[Hl1 Hc1]|?].
    + destruct (ss_all _ _ _ H2 k l c Hn Hl1 Hc1 Hcb) as [?|?]; [by left|right; apply elem_of_app; by right].
    + right. apply elem_of_app. by left.
Qed.

Lemma fire_run s f :
  awf s → ∃ s', fire client f s = Ok () s' ∧ client_step (add_fired f s) s' ∧
    (cancels_nothing → keeps (add_fired f s) s') ∧ (cancels_no_sock → keeps_work (add_fired f s) s').
Proof.
  intros Hwf. assert (Hwf' : awf (add_fired f s)) by (destruct Hwf; by split).
  destruct (run_apis_step (add_fired f s) (client f (add_fired f s)) Hwf') as (s' & Hrun & Hstep & Hk & Hkw);
    [by apply client_rules|].
  exists s'. split_and!; [|done|..].
  - unfold fire. mstep. by mstep.
  - intros Hn. apply Hk, Hn.
  - intros Hn. apply Hkw, Hn.
Qed.

(** The body of the first loop, for a timer that is due. *)
Definition run_timer k l c : A unit :=
  (if cb c =? 0 then mret () else store_cb l (set_cb 0 c);; fire client (Firing (cb c) 0 (-1) (cb_arg c)));;
  modify (add_timers (-1));; remove_from (Wheel k) l;; nr_async_destroy_cb l.

Lemma run_timer_dead s k l c :
  awf s → l ∈ queue s (Wheel k) → cells s !! l = Some c → cb c = 0 →
  ∃ s', run_timer k l c s = Ok () s' ∧ slot_step s s' [] ∧ reaped s s' k l.
Proof.
  intros Hwf Hl Hc Hz. destruct (reap_run s k l Hwf Hl) as (s' & Hrun & Hr). exists s'. split_and!; [|split|done].
  - unfold run_timer. rewrite Hz. by mstep.
  - by eapply reaped_tick.
  - apply Hr.
  - by rewrite (re_pending _ _ _ _ Hr).
  - intros j x c' Hx. rewrite (re_cells _ _ _ _ Hr). intros Hc' Hz'. left.
    apply (reaped_in _ _ _ _ _ _ Hr) in Hx as [Hx _]. split; [done|]. by exists c'.
  - intros j x y _ Hx Hy Hne. left. rewrite (re_cells _ _ _ _ Hr). split; [|done].
    destruct (decide (j = k)) as [->|Hj]; [|by rewrite (re_other _ _ _ _ Hr)].
    rewrite (re_queue _ _ _ _ Hr). apply list_elem_of_filter. split; [|done]. intros ->. congruence.
Qed.

Lemma run_timer_live s k l c :
  awf s → working_entry s = Some k → l ∈ queue s (Wheel k) → cells s !! l = Some c →
  cb_resource c <= current_offset s → cb c ≠ 0 →
  ∃ s' new, run_timer k l c s = Ok () s' ∧ slot_step s s' [(l, c)] ∧
    queue s' (Wheel k) = filter (λ x, x ≠ l) (queue s (Wheel k)) ++ new ∧
    (∀ x c', x ∈ new → cells s' !! x = Some c' → current_offset s < cb_resource c') ∧
    ∀ x c0, x ∈ queue s (Wheel k) → x ≠ l → cells s !! x = Some c0 →
      ∃ c', cells s' !! x = Some c' ∧ later_of c0 c'.
Proof.
  intros Hwf Hw Hl Hc Hdue Hcb. pose proof (a_wheel s Hwf k l c Hl Hc) as Hk.
  set (s1 := with_cells <[l := set_cb 0 c]> s).
  assert (Hwf1 : awf s1).
  { apply (awf_store s l c); [done|done|]. intros j Hj. by pose proof (a_disj s Hwf _ _ _ Hl Hj) as [= <-]. }
  assert (Hc1 : ∀ x c', cells s1 !! x = Some c' → ∃ c0, cells s !! x = Some c0 ∧ later_of c0 c' ∧ (x ≠ l → c' = c0)).
  { intros x c'. cbn. rewrite lookup_insert. case_decide; [|intros Hx; exists c'; split_and!; [done|by left|done]].
    subst x. intros [= <-]. exists c. split_and!; [done|by right|done]. }
  destruct (fire_run s1 (firing_of c) Hwf1) as (s2 & Hrun2 & Hstep & Hkeep & _).
  assert (Hs1 : ∀ x, x ≠ l → cells s1 !! x = cells s !! x) by (intros x Hx; cbn; by rewrite lookup_insert_ne).
  destruct (cs_queue _ _ Hstep k Hw) as (new & Hq2 & Hnew). cbn in Hq2.
  assert (Hl2 : l ∈ queue s2 (Wheel k)) by (rewrite Hq2; apply elem_of_app; by left).
  destruct (reap_run s2 k l (cs_wf _ _ Hstep) Hl2) as (s3 & Hrun3 & Hr).
  assert (Hnl : l ∉ new).
  { intros Hin. pose proof (a_nodup s2 (cs_wf _ _ Hstep) (Wheel k)) as Hnd. rewrite Hq2 in Hnd.
    apply NoDup_app in Hnd as (_ & Hno & _). by apply (Hno l). }
  exists s3, new. split_and!.
  - unfold run_timer. rewrite (proj2 (Z.eqb_neq (cb c) 0)) by done. erewrite bind_ok; [done|].
    erewrite bind_ok by by eapply store_cb_ok. done.
  - split; [split|..].
    + apply Hr.
    + rewrite (re_offset _ _ _ _ Hr). apply Hstep.
    + rewrite (re_first _ _ _ _ Hr). apply Hstep.
    + rewrite (re_fired _ _ _ _ Hr). apply Hstep.
    + intros j x c' [Hx _]%(reaped_in _ _ _ _ _ _ Hr). rewrite (re_cells _ _ _ _ Hr). intros Hc'.
      destruct (cs_timers _ _ Hstep j x c' Hx Hc') as [?|[Hx1 (c1 & Hx2 & Hlat)]]; [by left|right].
      split; [done|]. destruct (Hc1 x c1 Hx2) as (c0 & Hc0 & Hlat0 & _). exists c0. split; [done|].
      by eapply later_trans.
    + cbn. apply NoDup_singleton.
    + intros x y [= -> ->]%list_elem_of_singleton. split; [by exists k|done].
    + intros x y j c' [= -> ->]%list_elem_of_singleton Hx. exfalso.
      apply (reaped_in _ _ _ _ _ _ Hr) in Hx as [Hx Hne].
      pose proof (a_disj s2 (cs_wf _ _ Hstep) _ _ _ Hl2 Hx) as [= <-]. by apply Hne.
    + rewrite (re_working _ _ _ _ Hr). apply Hstep.
    + intros Hp. rewrite (re_pending _ _ _ _ Hr). by apply (cs_pending _ _ Hstep).
    + intros j x c' [Hx Hxl]%(reaped_in _ _ _ _ _ _ Hr). rewrite (re_cells _ _ _ _ Hr), (re_pending _ _ _ _ Hr).
      intros Hc' Hz. destruct (cs_dead _ _ Hstep j x c' Hx Hc' Hz) as [[Hx1 (c1 & Hx2 & Hz1)]|?]; [|by right].
      left. split; [done|]. destruct (Hc1 x c1 Hx2) as (c0 & Hc0 & _ & Hsame). exists c0. split; [done|].
      rewrite <- Hsame; [done|]. intros ->. pose proof (a_disj s Hwf _ _ _ Hl Hx1) as [= <-]. by apply Hxl.
    + intros j x y Hn Hx Hy Hne. destruct (decide (x = l)) as [->|Hxl].
      { right. rewrite Hc in Hy. injection Hy as <-. by left. }
      left. destruct (Hkeep Hn j x y) as [Hx2 Hy2]; [done|cbn; by rewrite lookup_insert_ne|].
      rewrite (re_cells _ _ _ _ Hr). split; [|done].
      destruct (decide (j = k)) as [->|Hj]; [|by rewrite (re_other _ _ _ _ Hr)].
      rewrite (re_queue _ _ _ _ Hr). by apply list_elem_of_filter.
  - rewrite (re_queue _ _ _ _ Hr), Hq2, filter_app. f_equal. by apply filter_absent.
  - intros x c' Hx. rewrite (re_cells _ _ _ _ Hr). by apply Hnew.
  - intros x c0 Hx Hxl Hx0. rewrite (re_cells _ _ _ _ Hr).
    apply (cs_cells _ _ Hstep k); [done|done|]. cbn. by rewrite lookup_insert_ne.
Qed.

Lemma run_timer_run s k l c :
  awf s → working_entry s = Some k → l ∈ queue s (Wheel k) → cells s !! l = Some c →
  cb_resource c <= current_offset s →
  ∃ s' lc new, run_timer k l c s = Ok () s' ∧ slot_step s s' lc ∧
    queue s' (Wheel k) = filter (λ x, x ≠ l) (queue s (Wheel k)) ++ new ∧
    (∀ x c', x ∈ new → cells s' !! x = Some c' → current_offset s < cb_resource c') ∧
    ∀ x c0, x ∈ queue s (Wheel k) → x ≠ l → cells s !! x = Some c0 →
      ∃ c', cells s' !! x = Some c' ∧ later_of c0 c'.
Proof.
  intros Hwf Hw Hl Hc Hdue. destruct (decide (cb c = 0)) as [Hz|Hz].
  - destruct (run_timer_dead s k l c Hwf Hl Hc Hz) as (s' & Hrun & Hstep & Hr). exists s', [], [].
    split_and!; [done|done| |intros x y Hx; by apply not_elem_of_nil in Hx|].
    + by rewrite (re_queue _ _ _ _ Hr), app_nil_r.
    + intros x c0 _ _ Hx. exists c0. rewrite (re_cells _ _ _ _ Hr). split; [done|by left].
  - destruct (run_timer_live s k l c Hwf Hw Hl Hc Hdue Hz) as (s' & new & ?). by exists s', [(l, c)], new.
Qed.

Lemma next_in_split l (pre suf : list loc) : NoDup (pre ++ l :: suf) → next_in l (pre ++ l :: suf) = head suf.
Proof.
  induction pre as [|x pre IH]; intros Hnd; cbn; [by rewrite decide_True|].
  apply NoDup_cons in Hnd as [Hx Hnd]. rewrite decide_False; [by apply IH|].
  intros ->. apply Hx, elem_of_app. right. by left.
Qed.

(** The timers of a list that are due. *)
Definition is_due s l : bool :=
  match cells s !! l with Some c => cb_resource c <=? current_offset s | None => false end.
Definition due_count s (ls : list loc) : nat := length (filter (λ l, is_due s l) ls).

Lemma due_count_cons s l ls : due_count s (l :: ls) = ((if is_due s l then 1 else 0) + due_count s ls)%nat.
Proof. unfold due_count. rewrite filter_cons. by destruct (is_due s l). Qed.

Lemma due_count_app s ls ls' : due_count s (ls ++ ls') = (due_count s ls + due_count s ls')%nat.
Proof. unfold due_count. by rewrite filter_app, length_app. Qed.

Lemma due_count_same s s' ls : (∀ l, l ∈ ls → is_due s' l = is_due s l) → due_count s' ls = due_count s ls.
Proof.
  induction ls as [|l ls IH]; intros Hsame; [done|]. rewrite !due_count_cons, Hsame by by left.
  rewrite IH; [done|]. intros x Hx. apply Hsame. by right.
Qed.

Lemma due_count_none s ls : (∀ l, l ∈ ls → is_due s l = false) → due_count s ls = 0%nat.
Proof.
  induction ls as [|l ls IH]; intros Hno; [done|]. rewrite due_count_cons, Hno by by left.
  rewrite IH; [done|]. intros x Hx. apply Hno. by right.
Qed.

(** Nothing in the list is due. *)
Definition none_due s (ls : list loc) : Prop :=
  ∀ x c, x ∈ ls → cells s !! x = Some c → current_offset s < cb_resource c.

(** The first loop over the queue ends, with nothing due left in it.  By induction on the
    number of timers still to run, then on the rest of the queue. *)
Lemma walk_run k d s pre suf :
  (due_count s suf <= d)%nat → awf s → working_entry s = Some k → queue s (Wheel k) = pre ++ suf →
  none_due s pre →
  ∃ fuel0 s' lc, (∀ fuel, (fuel0 <= fuel)%nat → walk_slot client fuel k (head suf) s = Ok () s') ∧
    slot_step s s' lc ∧ none_due s' (queue s' (Wheel k)).
Proof.
  revert s pre suf. induction d as [d IHd] using lt_wf_ind. intros s pre suf. revert pre.
  induction suf as [|l suf IHs]; intros pre Hd Hwf Hw Hq Hpre.
  { exists 0%nat, s, []. split_and!; [by intros [|fuel] _|by apply slot_step_refl|].
    by rewrite Hq, app_nil_r. }
  assert (Hl : l ∈ queue s (Wheel k)) by (rewrite Hq; apply elem_of_app; right; by left).
  pose proof (a_nodup s Hwf (Wheel k)) as Hnd. rewrite Hq in Hnd.
  destruct (a_cells s Hwf _ _ Hl) as [c Hc]. destruct (a_wheel s Hwf k l c Hl Hc) as (_ & _ & Hres). unfold INT_MAX in Hres.
  rewrite due_count_cons in Hd. unfold is_due in Hd. rewrite Hc in Hd.
  assert (Hwalk : ∀ fuel, walk_slot client (S fuel) k (head (l :: suf)) s =
    ((if cb_resource c <=? current_offset s then run_timer k l c else mret ());; walk_slot client fuel k (head suf)) s).
  { intros fuel. cbn [walk_slot head]. mstep. mstep using load_cb_ok.
    rewrite Hq, next_in_split, wrap_small by (done || lia). done. }
  destruct (Z.leb_spec (cb_resource c) (current_offset s)) as [Hdue|Hdue].
  - destruct (run_timer_run s k l c Hwf Hw Hl Hc Hdue) as (s1 & lc1 & new & Hrun1 & Hstep1 & Hq1 & Hnew & Hcells).
    rewrite Hq, filter_split, <- app_assoc in Hq1 by done.
    pose proof (tk_offset _ _ _ Hstep1) as Ho.
    assert (Hsame : ∀ x, x ∈ pre ++ suf → is_due s1 x = is_due s x).
    { intros x Hx. assert (Hxq : x ∈ queue s (Wheel k) ∧ x ≠ l).
      { rewrite <- (filter_split l pre suf), <- Hq in Hx by done. by apply list_elem_of_filter in Hx as [? ?]. }
      destruct Hxq as [Hxq Hxl]. destruct (a_cells s Hwf _ _ Hxq) as [c0 Hc0].
      destruct (Hcells x c0 Hxq Hxl Hc0) as (c' & Hc' & [Hres' _]%later_fields).
      unfold is_due. by rewrite Hc', Hc0, Hres', Ho. }
    assert (Hnew1 : none_due s1 new) by (intros x c' Hx Hc'; rewrite Ho; by apply (Hnew x)).
    assert (Hpre1 : none_due s1 pre).
    { intros x c' Hx Hc'. specialize (Hsame x ltac:(apply elem_of_app; by left)). unfold is_due in Hsame.
      assert (Hxq : x ∈ queue s (Wheel k)) by (rewrite Hq; apply elem_of_app; by left).
      destruct (a_cells s Hwf _ _ Hxq) as [c0 Hc0]. rewrite Hc', Hc0 in Hsame.
      pose proof (Hpre x c0 Hx Hc0). rewrite (proj2 (Z.leb_gt (cb_resource c0) (current_offset s))) in Hsame by done.
      by apply Z.leb_gt in Hsame. }
    destruct suf as [|l2 suf].
    + exists 1%nat, s1, lc1. split_and!; [|done|].
      * intros [|fuel] Hfuel; [lia|]. rewrite Hwalk. mstep. by destruct fuel.
      * rewrite Hq1. intros x c' [Hx|Hx]%elem_of_app; [by apply Hpre1|]. cbn in Hx. by apply Hnew1.
    + destruct (IHd (due_count s (l2 :: suf))) with (s := s1) (pre := pre) (suf := (l2 :: suf) ++ new)
        as (fuel0 & s2 & lc2 & Hrun2 & Hstep2 & Hpost); [lia| |apply Hstep1|by rewrite (ss_working _ _ _ Hstep1)|done|done|].
      { rewrite due_count_app, (due_count_none s1 new), (due_count_same s s1); [lia|..].
        - intros x Hx. apply Hsame, elem_of_app. by right.
        - intros x Hx. unfold is_due. destruct (cells s1 !! x) as [c'|] eqn:Hc'; [|done].
          apply Z.leb_gt. by apply (Hnew1 x). }
      exists (S fuel0), s2, (lc1 ++ lc2). split_and!; [|by eapply slot_step_trans|done].
      intros [|fuel] Hfuel; [lia|]. rewrite Hwalk. mstep. apply Hrun2. lia.
  - destruct (IHs (pre ++ [l])) as (fuel0 & s2 & lc & Hrun & Hstep & Hpost); [lia|done|done|by rewrite <- app_assoc| |].
    { intros x c' [Hx|Hx]%elem_of_app Hc'; [by apply (Hpre x)|]. apply list_elem_of_singleton in Hx as ->.
      rewrite Hc in Hc'. by injection Hc' as <-. }
    exists (S fuel0), s2, lc. split_and!; [|done|done].
    intros [|fuel] Hfuel; [lia|]. rewrite Hwalk. mstep. apply Hrun. lia.
Qed.

(** ** The second loop *)

Definition dead s l : Prop := ∃ c, cells s !! l = Some c ∧ cb c = 0.
Definition dead_free s : Prop := ∀ k l, l ∈ queue s (Wheel k) → ¬ dead s l.

Record purged s s' k (ls : list loc) : Prop := {
  pu_wf : awf s';
  pu_offset : current_offset s' = current_offset s;
  pu_first : first_time s' = first_time s;
  pu_fired : fired s' = fired s;
  pu_cells : cells s' = cells s;
  pu_queue j x : x ∈ queue s' (Wheel j) ↔ x ∈ queue s (Wheel j) ∧ ¬ (j = k ∧ x ∈ ls ∧ dead s x);
}.

Lemma purge_run k ls s :
  awf s → NoDup ls → (∀ l, l ∈ ls → l ∈ queue s (Wheel k)) →
  ∃ s', purge k ls s = Ok () s' ∧ purged s s' k ls.
Proof.
  revert s. induction ls as [|l ls IH]; intros s Hwf Hnd Hls.
  { exists s. split; [done|]. split; try done. intros j x. split; [|by intros [? _]].
    intros Hx. split; [done|]. intros (_ & Hin & _). by apply not_elem_of_nil in Hin. }
  apply NoDup_cons in Hnd as [Hl Hnd]. assert (Hlq : l ∈ queue s (Wheel k)) by (apply Hls; by left).
  destruct (a_cells s Hwf _ _ Hlq) as [c Hc]. cbn [purge].
  destruct (Z.eqb_spec (cb c) 0) as [Hz|Hz].
  - destruct (reap_run s k l Hwf Hlq) as (s1 & Hrun1 & Hr).
    destruct (IH s1 (re_wf _ _ _ _ Hr) Hnd) as (s2 & Hrun2 & Hp).
    { intros x Hx. rewrite (re_queue _ _ _ _ Hr). apply list_elem_of_filter. split; [by intros ->|].
      apply Hls. by right. }
    exists s2. split.
    { mstep using load_cb_ok. rewrite Hz. cbn [Z.eqb]. by mstep. }
    split; try (destruct Hr, Hp; congruence). intros j x. rewrite (pu_queue _ _ _ _ Hp).
    unfold dead. rewrite (re_cells _ _ _ _ Hr). split.
    + intros [Hx Hno]. apply (reaped_in _ _ _ _ _ _ Hr) in Hx as [Hx Hxl]. split; [done|].
      intros (-> & [->|Hin]%elem_of_cons & Hd); [by apply Hxl|by apply Hno].
    + intros [Hx Hno]. split; [|intros (-> & Hin & Hd); apply Hno; split_and!; [done|by right|done]].
      destruct (decide (j = k)) as [->|Hj]; [|by rewrite (re_other _ _ _ _ Hr)].
      rewrite (re_queue _ _ _ _ Hr). apply list_elem_of_filter. split; [|done]. intros ->. apply Hno.
      split_and!; [done|by left|by exists c].
  - destruct (IH s Hwf Hnd) as (s2 & Hrun2 & Hp); [intros x Hx; apply Hls; by right|].
    exists s2. split.
    { mstep using load_cb_ok. rewrite (proj2 (Z.eqb_neq _ _)) by done. by mstep. }
    split; try apply Hp. intros j x. rewrite (pu_queue _ _ _ _ Hp). split.
    + intros [Hx Hno]. split; [done|]. intros (-> & [->|Hin]%elem_of_cons & Hd); [|by apply Hno].
      destruct Hd as (c0 & Hc0 & Hz0). congruence.
    + intros [Hx Hno]. split; [done|]. intros (-> & Hin & Hd). apply Hno. split_and!; [done|by right|done].
Qed.

(** ** Several slots *)

Record slots_done s s' lc : Prop := {
  sd_tick :> tick s s' lc;
  sd_dead : dead_free s';
  sd_all k l c : cancels_nothing → l ∈ queue s (Wheel k) → cells s !! l = Some c → cb c ≠ 0 →
    (l ∈ queue s' (Wheel k) ∧ cells s' !! l = Some c) ∨ (l, c) ∈ lc;
}.

Lemma tick_none_due s s' lc k :
  tick s s' lc → awf s → none_due s (queue s (Wheel k)) → none_due s' (queue s' (Wheel k)).
Proof.
  intros Ht Hwf Hno x c' Hx Hc'. rewrite (tk_offset _ _ _ Ht).
  destruct (tk_timers _ _ _ Ht k x c' Hx Hc') as [?|[Hx0 (c & Hc & Hlat)]]; [done|].
  apply later_fields in Hlat as [-> _]. by apply (Hno x).
Qed.

Lemma run_slot_run k s :
  awf s → dead_free s →
  ∃ fuel0 s' lc, (∀ fuel, (fuel0 <= fuel)%nat → run_slot client fuel k s = Ok () s') ∧
    slots_done s s' lc ∧ none_due s' (queue s' (Wheel k)).
Proof.
  intros Hwf Hdf. set (s0 := with_working (Some k) false s).
  destruct (walk_run k (due_count s0 (queue s (Wheel k))) s0 [] (queue s (Wheel k)))
    as (fuel0 & s1 & lc & Hrun & Hstep & Hno); [done|by apply awf_working|done|done| |].
  { intros x c Hx. by apply not_elem_of_nil in Hx. }
  assert (Ht0 : tick s s1 lc) by (destruct (ss_tick _ _ _ Hstep); by split).
  destruct (pending_deactivates s1) eqn:Hpend.
  - destruct (purge_run k (queue s1 (Wheel k)) s1) as (s2 & Hrun2 & Hp); [apply Hstep|apply a_nodup, Hstep|done|].
    assert (Ht2 : tick s1 s2 []).
    { apply tick_nil; try apply Hp. intros j x c' [Hx _]%(pu_queue _ _ _ _ Hp). rewrite (pu_cells _ _ _ _ Hp).
      intros Hc'. right. split; [done|]. exists c'. split; [done|by left]. }
    pose proof (tick_trans _ _ _ _ _ Ht0 Ht2) as Ht. rewrite app_nil_r in Ht.
    exists fuel0, s2, lc. split_and!; [|split; [done|..]|].
    + intros fuel Hf. unfold run_slot. mstep. mstep.
      mstep using Hrun. mstep. by rewrite Hpend.
    + intros j x [Hx Hnd]%(pu_queue _ _ _ _ Hp) Hd. unfold dead in Hd. rewrite (pu_cells _ _ _ _ Hp) in Hd.
      destruct Hd as (c & Hc & Hz). destruct (ss_dead _ _ _ Hstep j x c Hx Hc Hz) as [[Hx0 Hd0]|[[= <-] _]].
      * by apply (Hdf j x).
      * apply Hnd. split_and!; [done|done|by exists c].
    + intros j x c Hn Hx Hc Hcb. destruct (ss_all _ _ _ Hstep j x c Hn Hx Hc Hcb) as [[Hx1 Hc1]|?]; [left|by right].
      rewrite (pu_cells _ _ _ _ Hp). split; [|done]. apply (pu_queue _ _ _ _ Hp). split; [done|].
      intros (_ & _ & c0 & Hc0 & Hz0). congruence.
    + apply (tick_none_due s1 s2 [] k Ht2); [apply Hstep|done].
  - exists fuel0, s1, lc. split_and!; [|split; [done|..]|done].
    + intros fuel Hf. unfold run_slot. mstep. mstep.
      mstep using Hrun. mstep. by rewrite Hpend.
    + intros j x Hx (c & Hc & Hz). destruct (ss_dead _ _ _ Hstep j x c Hx Hc Hz) as [[Hx0 Hd0]|[_ Hp]].
      * by apply (Hdf j x).
      * congruence.
    + intros j x c. apply (ss_all _ _ _ Hstep).
Qed.

Lemma advance_run n o s :
  awf s → dead_free s → 0 <= o → o + Z.of_nat n < 2 ^ 64 →
  ∃ fuel0 s' lc, (∀ fuel, (fuel0 <= fuel)%nat → advance client fuel n o s = Ok () s') ∧ slots_done s s' lc ∧
    ∀ i, o <= i < o + Z.of_nat n → none_due s' (queue s' (Wheel (slot_of i))).
Proof.
  revert o s. induction n as [|n IH]; intros o s Hwf Hdf Ho Hn.
  { exists 0%nat, s, []. split_and!; [done|split; [by apply tick_refl|done|by left]|lia]. }
  destruct (run_slot_run (slot_of o) s Hwf Hdf) as (f1 & s1 & lc1 & Hrun1 & Hd1 & Hno1).
  destruct (IH (o + 1) s1) as (f2 & s2 & lc2 & Hrun2 & Hd2 & Hno2); [apply Hd1|apply Hd1|lia|lia|].
  exists (f1 + f2)%nat, s2, (lc1 ++ lc2). split_and!; [|split|].
  - intros fuel Hf. cbn [advance]. erewrite bind_ok by (apply Hrun1; lia).
    rewrite wrap_small by lia. apply Hrun2. lia.
  - exact (tick_trans _ _ _ _ _ Hd1 Hd2).
  - apply Hd2.
  - intros k l c Hc Hl Hcl Hcb. destruct (sd_all _ _ _ Hd1 k l c Hc Hl Hcl Hcb) as [[Hl1 Hc1]|?].
    + destruct (sd_all _ _ _ Hd2 k l c Hc Hl1 Hc1 Hcb) as [?|?]; [by left|right; apply elem_of_app; by right].
    + right. apply elem_of_app. by left.
  - intros i Hi. destruct (decide (i = o)) as [->|]; [|apply Hno2; lia].
    eapply tick_none_due; [apply Hd2|apply Hd1|done].
Qed.
End client.
