(* ===== verification/AsyncEvents.v ===== *)
(** * What waiting for events does

    [NR_async_event_wait2] against every client that respects the library's rules: the
    callbacks that were scheduled and those of the ready sockets run in order, unless
    one of them cancels another, and what they schedule is left for the next call. *)

From S2P Require Import Prelude RTime AsyncState AsyncWait AsyncTimer AsyncLoop AsyncInv AsyncTick.
Local Open Scope Z_scope.

(** The call of a callback of a socket or of a scheduled one. *)
Definition event_of (c : callback) : firing := Firing (cb c) (cb_resource c) (cb_how c) (cb_arg c).

(** The calls of the structures of a list that are not cancelled. *)
Definition events_of (s : async_state) (ls : list loc) : list firing :=
  omap (λ l, c ← cells s !! l; if cb c =? 0 then None else Some (event_of c)) ls.

(** The callbacks of the ready ones of the first [n] sockets. *)
Definition ready_at (s : async_state) (sel : selected) (i : Z) : list loc :=
  (if sel_read sel i then queue s (Sock i NR_ASYNC_WAIT_READ) else []) ++
  (if sel_write sel i then queue s (Sock i NR_ASYNC_WAIT_WRITE) else []).
Fixpoint ready_below (s : async_state) (sel : selected) (n : nat) : list loc :=
  match n with O => [] | S n' => ready_below s sel n' ++ ready_at s sel (Z.of_nat n') end.

(** What a call of [NR_async_event_wait2] works on. *)
Definition batch (s : async_state) (sel : selected) : list loc :=
  queue s Queue ++ (if 0 <? sel_r sel then ready_below s sel (Z.to_nat SOCKET_VEC_SIZE) else []).

Section events.
Implicit Types (s : async_state) (l : loc) (c : callback) (p : place).

Lemma awf_ext s s' :
  awf s → (∀ p, queue s' p = queue s p) → cells s' = cells s → abrk s' = abrk s → aanswers s' = aanswers s →
  current_offset s' = current_offset s → wait_initialized s' = wait_initialized s →
  timer_initialized s' = timer_initialized s → awf s'.
Proof.
  intros [Hnd Hdj Hce Hfr Hso Hwh Hof Hin Hme] Hq Hc Hb Ha Ho Hw Ht. split.
  - intros p. by rewrite Hq.
  - intros p q l. rewrite !Hq. apply Hdj.
  - intros p l. rewrite Hq, Hc. apply Hce.
  - intros l. rewrite Hb, Hc. apply Hfr.
  - intros i h. rewrite Hq. apply Hso.
  - intros k l c. rewrite Hq, Hc. apply Hwh.
  - by rewrite Ho.
  - by rewrite Hw, Ht.
  - unfold mem_plenty in *. cbn in *. by rewrite Ha.
Qed.

(** *** Collecting *)

Definition sockets_small s : Prop := ∀ i h, FD_SETSIZE <= i → queue s (Sock i h) = [].

Lemma collect_run s n :
  sockets_small s →
  ∃ m, collect n s = Ok m s ∧ -1 <= m < Z.of_nat n ∧
    ∀ i h, m < i < Z.of_nat n → h = NR_ASYNC_WAIT_READ ∨ h = NR_ASYNC_WAIT_WRITE → queue s (Sock i h) = [].
Proof.
  intros Hsm. induction n as [|n (m & Hrun & Hm & Hno)]; [exists (-1); split; [done|]; split; [lia|intros; lia]|].
  cbn [collect]. mstep. mstep.
  assert (Hstay : queue s (Sock (Z.of_nat n) NR_ASYNC_WAIT_READ) = [] →
    queue s (Sock (Z.of_nat n) NR_ASYNC_WAIT_WRITE) = [] →
    ∀ i h, m < i < Z.of_nat (S n) → h = NR_ASYNC_WAIT_READ ∨ h = NR_ASYNC_WAIT_WRITE → queue s (Sock i h) = []).
  { intros Hr Hw i h Hi Hh. destruct (decide (i = Z.of_nat n)) as [->|]; [by destruct Hh as [-> | ->]|apply Hno; [lia|done]]. }
  assert (Hhere : ∀ h x q, queue s (Sock (Z.of_nat n) h) = x :: q → (FD_SETSIZE <=? Z.of_nat n) = false).
  { intros h x q Hq. apply Z.leb_gt. destruct (Z.lt_ge_cases (Z.of_nat n) FD_SETSIZE); [done|].
    by rewrite Hsm in Hq. }
  assert (Hnew : ∃ m0, Ok (Z.of_nat n) s = Ok m0 s ∧ -1 <= m0 < Z.of_nat (S n) ∧
    ∀ i h, m0 < i < Z.of_nat (S n) → h = NR_ASYNC_WAIT_READ ∨ h = NR_ASYNC_WAIT_WRITE → queue s (Sock i h) = []).
  { exists (Z.of_nat n). split; [done|]. split; [lia|]. intros i h Hi. lia. }
  destruct (queue s (Sock (Z.of_nat n) NR_ASYNC_WAIT_READ)) as [|x q] eqn:Hr.
  - destruct (queue s (Sock (Z.of_nat n) NR_ASYNC_WAIT_WRITE)) as [|x q] eqn:Hw.
    + exists m. split; [done|]. split; [lia|by apply Hstay].
    + by rewrite (Hhere _ _ _ Hw).
  - by rewrite (Hhere _ _ _ Hr).
Qed.

(** *** Building the list *)

Record moved s s' (qs : list loc) : Prop := {
  mv_wf : awf s';
  mv_queue : queue s' Queue = queue s Queue ++ qs;
  mv_work : queue s' Work = queue s Work;
  mv_wheel k : queue s' (Wheel k) = queue s (Wheel k);
  mv_cells : cells s' = cells s;
  mv_fired : fired s' = fired s;
  mv_clock : current_offset s' = current_offset s ∧ first_time s' = first_time s ∧ working_entry s' = working_entry s;
}.

Lemma moved_refl s : awf s → moved s s [].
Proof. intros Hwf. split; try done. by rewrite app_nil_r. Qed.

Lemma moved_trans s s1 s2 qs qs' : moved s s1 qs → moved s1 s2 qs' → moved s s2 (qs ++ qs').
Proof.
  intros [? Hq ? Hwh ? ? [? [? ?]]] [? Hq' ? Hwh' ? ? [? [? ?]]].
  split; [done|by rewrite Hq', Hq, app_assoc|congruence|intros k; by rewrite Hwh', Hwh|congruence..|split_and!; congruence].
Qed.

Lemma enqueue_run s sock how (ready : Z → bool) :
  awf s →
  ∃ s', enqueue_ready sock how ready s = Ok () s' ∧
    moved s s' (if ready sock then queue s (Sock sock how) else []) ∧
    ∀ i h, Sock i h ≠ Sock sock how → queue s' (Sock i h) = queue s (Sock i h).
Proof.
  intros Hwf. unfold enqueue_ready. mstep.
  destruct (queue s (Sock sock how)) as [|l ls] eqn:Hq.
  { exists s. destruct (ready sock); (split_and!; [done|by apply moved_refl|done]). }
  assert (ls = []) as ->.
  { pose proof (a_sock s Hwf sock how) as Hlen. rewrite Hq in Hlen. destruct ls; [done|cbn in Hlen; lia]. }
  destruct (ready sock); [|exists s; split_and!; [done|by apply moved_refl|done]].
  destruct (leave_step s (Sock sock how) l [] Hwf Hq I) as [Hstep1 (c & Hl)].
  pose proof (tail_step _ Queue l c (cs_wf _ _ Hstep1) Hl I ltac:(done)) as Hstep2.
  eexists. split_and!; [unfold insert_tail; erewrite bind_ok by (by mstep); done| |].
  - split; try done.
    + eapply awf_ext; [apply (cs_wf _ _ Hstep2)|..]; try done. intros p. cbn.
      by repeat case_decide; simplify_eq.
  - intros i h Hne. cbn. by rewrite decide_False.
Qed.

Lemma build_run s sel n :
  awf s → ∃ s', build n sel s = Ok () s' ∧ moved s s' (ready_below s sel n) ∧
    ∀ i h, Z.of_nat n <= i → queue s' (Sock i h) = queue s (Sock i h).
Proof.
  intros Hwf. induction n as [|n (s1 & Hrun1 & Hmv1 & Hrest1)]; [exists s; split_and!; [done|by apply moved_refl|done]|].
  destruct (enqueue_run s1 (Z.of_nat n) NR_ASYNC_WAIT_READ (sel_read sel) (mv_wf _ _ _ Hmv1))
    as (s2 & Hrun2 & Hmv2 & Hrest2).
  destruct (enqueue_run s2 (Z.of_nat n) NR_ASYNC_WAIT_WRITE (sel_write sel) (mv_wf _ _ _ Hmv2))
    as (s3 & Hrun3 & Hmv3 & Hrest3).
  exists s3. split_and!.
  - cbn [build]. mstep. by mstep.
  - pose proof (moved_trans _ _ _ _ _ Hmv1 (moved_trans _ _ _ _ _ Hmv2 Hmv3)) as Hmv.
    rewrite Hrest2, !Hrest1 in Hmv by (lia || done). exact Hmv.
  - intros i h Hi. rewrite Hrest3, Hrest2, Hrest1; [done|lia|intros [= Hx _]; lia|intros [= Hx _]; lia].
Qed.

Lemma ready_below_stop s sel n m :
  (m <= n)%nat → (∀ i h, Z.of_nat m <= i < Z.of_nat n → h = NR_ASYNC_WAIT_READ ∨ h = NR_ASYNC_WAIT_WRITE → queue s (Sock i h) = []) →
  ready_below s sel n = ready_below s sel m.
Proof.
  induction n as [|n IH]; intros Hle Hno; [by replace m with 0%nat by lia|].
  destruct (decide (m = S n)) as [->|]; [done|]. cbn [ready_below]. rewrite IH; [|lia|].
  - unfold ready_at. rewrite !Hno by (lia || auto). destruct (sel_read sel _), (sel_write sel _); by rewrite ?app_nil_r.
  - intros i h Hi. apply Hno. lia.
Qed.
End events.

(** *** Firing *)

Section client.
Context (client : firing → async_state → list api).
Context (client_rules : ∀ f s, awf s → apis_ok s (client f s)).
Implicit Types (s : async_state) (l : loc) (c : callback) (p : place).

Lemma events_of_cons s l ls c :
  cells s !! l = Some c →
  events_of s (l :: ls) = (if cb c =? 0 then [] else [event_of c]) ++ events_of s ls.
Proof. intros Hc. unfold events_of. cbn. rewrite Hc. cbn. by destruct (cb c =? 0). Qed.

Lemma events_of_later s s' ls :
  (∀ l c, l ∈ ls → cells s !! l = Some c → ∃ c', cells s' !! l = Some c' ∧ later_of c c') →
  (∀ l, l ∈ ls → is_Some (cells s !! l)) → events_of s' ls `sublist_of` events_of s ls.
Proof.
  induction ls as [|l ls IH]; intros Hlat Hsome; [done|]. destruct (Hsome l) as [c Hc]; [by left|].
  destruct (Hlat l c) as (c' & Hc' & Hl); [by left|done|].
  rewrite (events_of_cons s l ls c), (events_of_cons s' l ls c') by done. apply sublist_app.
  - destruct Hl as [-> | ->]; [done|]. cbn. apply sublist_nil_l.
  - apply IH; intros x; [intros y|]; intros Hx; [apply Hlat|apply Hsome]; by right.
Qed.

Lemma events_of_same s s' ls :
  (∀ l, l ∈ ls → cells s' !! l = cells s !! l) → events_of s' ls = events_of s ls.
Proof.
  intros Hsame. unfold events_of. induction ls as [|l ls IH]; [done|]. cbn. rewrite Hsame by by left.
  rewrite IH; [done|]. intros x Hx. apply Hsame. by right.
Qed.

(** The structure at the head of the working list is released. *)
Lemma release_run s l ls :
  awf s → queue s Work = l :: ls →
  ∃ s', (modify (put_queue Work ls);; nr_async_destroy_cb l) s = Ok () s' ∧ awf s' ∧ queue s' Work = ls ∧
    cells s' = cells s ∧ fired s' = fired s.
Proof.
  intros Hwf Hq. pose proof (a_nodup s Hwf Work) as Hnd. rewrite Hq in Hnd. apply NoDup_cons in Hnd as [Hno Hnd].
  assert (Hwf1 : awf (put_queue Work ls s)).
  { apply awf_put; try done. intros x Hx. left. rewrite Hq. by right. }
  destruct (a_cells s Hwf Work l) as [c Hc]; [rewrite Hq; by left|].
  destruct (destroy_step (put_queue Work ls s) l c Hwf1) as (s' & Hrun & Hstep & Hcells & Hqs).
  { split; [done|]. intros p. cbn. case_decide; [done|]. intros Hl.
    assert (p = Work); [|done]. apply (a_disj s Hwf _ _ _ Hl). rewrite Hq. by left. }
  exists s'. split_and!; [by mstep|apply Hstep|rewrite Hqs by done|done|apply Hstep].
  cbn. by rewrite decide_True.
Qed.

Lemma fire_work_run ls s events :
  awf s → queue s Work = ls → 0 <= events → events + Z.of_nat (length ls) < 2 ^ 31 →
  ∃ s' log, fire_work client ls events s = Ok (events + Z.of_nat (length ls)) s' ∧ awf s' ∧ queue s' Work = [] ∧
    fired s' = fired s ++ log ∧ log `sublist_of` events_of s ls ∧ (cancels_no_sock client → log = events_of s ls).
Proof.
  revert s events. induction ls as [|l ls IH]; intros s events Hwf Hq He Hlen.
  { exists s, []. rewrite Z.add_0_r, app_nil_r. split_and!; done. }
  destruct (a_cells s Hwf Work l) as [c Hc]; [rewrite Hq; by left|].
  assert (Hin : ∀ x, x ∈ ls → x ∈ queue s Work) by (intros x Hx; rewrite Hq; by right).
  assert (Hfire : ∃ s1 log1, (if cb c =? 0 then mret () else fire client (event_of c)) s = Ok () s1 ∧ awf s1 ∧
    queue s1 Work = l :: ls ∧ fired s1 = fired s ++ log1 ∧ log1 = (if cb c =? 0 then [] else [event_of c]) ∧
    (∀ x y, x ∈ queue s Work → cells s !! x = Some y → ∃ y', cells s1 !! x = Some y' ∧ later_of y y') ∧
    (cancels_no_sock client → ∀ x y, x ∈ queue s Work → cells s !! x = Some y → cells s1 !! x = Some y)).
  { destruct (Z.eqb_spec (cb c) 0).
    - exists s, []. rewrite app_nil_r. split_and!; try done. intros x y _ Hy. exists y. split; [done|by left].
    - destruct (fire_run client client_rules s (event_of c) Hwf) as (s1 & Hrun & Hstep & _ & Hk).
      exists s1, [event_of c]. split_and!; [done|apply Hstep| |apply Hstep|done| |].
      + by rewrite (cs_work _ _ Hstep).
      + intros x y. apply (cs_work_cells _ _ Hstep).
      + intros Hn x y. apply (Hk Hn). }
  destruct Hfire as (s1 & log1 & Hrun1 & Hwf1 & Hq1 & Hf1 & Hlog1 & Hlat & Hkeep).
  destruct (release_run s1 l ls Hwf1 Hq1) as (s2 & Hrun2 & Hwf2 & Hq2 & Hc2 & Hf2).
  cbn [length] in Hlen.
  destruct (IH s2 (events + 1) Hwf2 Hq2) as (s3 & log2 & Hrun3 & Hwf3 & Hq3 & Hf3 & Hsub & Hall); [lia|lia|].
  exists s3, (log1 ++ log2). split_and!; [|done|done|..].
  - cbn [fire_work]. mstep using load_cb_ok. erewrite bind_ok by exact Hrun1.
    unfold nr_async_destroy_cb, insert_tail in *. erewrite bind_ok in Hrun2 by done.
    mstep. mstep. rewrite swrap_small by lia.
    rewrite Hrun3. cbn [length]. f_equal. lia.
  - by rewrite Hf3, Hf2, Hf1, app_assoc.
  - rewrite (events_of_cons s l ls c), Hlog1 by done. apply sublist_app; [done|].
    etrans; [exact Hsub|]. apply events_of_later.
    + intros x y Hx Hy. rewrite Hc2. apply Hlat; [by apply Hin|done].
    + intros x Hx. eapply a_cells; [done|by apply Hin].
  - intros Hn. rewrite (events_of_cons s l ls c), Hlog1, Hall by done. f_equal.
    apply events_of_same. intros x Hx. rewrite Hc2. destruct (a_cells s Hwf Work x) as [y Hy]; [by apply Hin|].
    rewrite Hy. apply (Hkeep Hn); [by apply Hin|done].
Qed.

Lemma take_batch s b :
  awf s → queue s Work = [] → queue s Queue = b → awf (put_queue Queue [] (put_queue Work b s)).
Proof.
  intros Hwf Hw Hq.
  assert (Hwf1 : awf (put_queue Queue [] s)).
  { apply awf_put; try done; [constructor|]. intros l Hl. by apply not_elem_of_nil in Hl. }
  assert (Hwf2 : awf (put_queue Work b (put_queue Queue [] s))).
  { apply awf_put; try done; [rewrite <- Hq; apply Hwf|]. intros l Hl. right.
    destruct (a_cells s Hwf Queue l) as [c Hc]; [by rewrite Hq|]. exists c. split; [done|].
    intros p. cbn. case_decide; [by intros ?%not_elem_of_nil|]. intros Hlp.
    by assert (p = Queue) by (apply (a_disj s Hwf _ _ _ Hlp); by rewrite Hq). }
  eapply awf_ext; [exact Hwf2|..]; try done. intros p. cbn. by repeat case_decide; simplify_eq.
Qed.

(** The second half of the function, once the list is built. *)
Lemma fire_batch_run s b :
  awf s → queue s Work = [] → queue s Queue = b → Z.of_nat (length b) < 2 ^ 31 →
  ∃ s' log, (modify (put_queue Work b);; modify (put_queue Queue []);; fire_work client b 0) s =
      Ok (Z.of_nat (length b)) s' ∧ awf s' ∧ queue s' Work = [] ∧
    fired s' = fired s ++ log ∧ log `sublist_of` events_of s b ∧ (cancels_no_sock client → log = events_of s b).
Proof.
  intros Hwf Hw Hq Hlen. pose proof (take_batch s b Hwf Hw Hq) as Hwf'.
  destruct (fire_work_run b (put_queue Queue [] (put_queue Work b s)) 0 Hwf') as (s' & log & Hrun & Hrest);
    [cbn; by rewrite decide_False, decide_True by done|done|lia|].
  exists s', log. split; [|exact Hrest]. mstep. by mstep.
Qed.

Lemma event_wait2_run s tv sel :
  awf s → queue s Work = [] → sockets_small s → 0 <= sel_r sel ∨ sel_eintr sel = true →
  batch s sel ≠ [] → Z.of_nat (length (batch s sel)) < 2 ^ 31 →
  ∃ s' log, NR_async_event_wait2 client tv sel s = Ok (Z.of_nat (length (batch s sel))) s' ∧
    awf s' ∧ queue s' Work = [] ∧ fired s' = fired s ++ log ∧
    log `sublist_of` events_of s (batch s sel) ∧
    (cancels_no_sock client → log = events_of s (batch s sel)).
Proof.
  intros Hwf Hw Hsm Hsel. unfold NR_async_event_wait2, batch.
  generalize (Z.to_nat SOCKET_VEC_SIZE) as N. intros N.
  set (b := queue s Queue ++ (if 0 <? sel_r sel then ready_below s sel N else [])). intros Hb Hlen.
  destruct (collect_run s N Hsm) as (m & Hcol & Hm & Hno).
  assert (Hstart : ∀ (k : Z → A Z), (NR_async_wait_init;; maxfd ← collect N; k maxfd) s = k m s).
  { intros k. mstep using wait_init_ok. by mstep. }
  assert (Hbatch : b = queue s Queue ++ (if 0 <? sel_r sel then ready_below s sel (Z.to_nat (m + 1)) else [])).
  { unfold b. destruct (0 <? sel_r sel); [|done]. f_equal. apply ready_below_stop; [lia|].
    intros i h Hi. apply Hno. lia. }
  assert (Hbuild : ∃ s1, (if 0 <? sel_r sel then build (Z.to_nat (m + 1)) sel else mret ()) s = Ok () s1 ∧
    moved s s1 (if 0 <? sel_r sel then ready_below s sel (Z.to_nat (m + 1)) else [])).
  { destruct (0 <? sel_r sel); [|exists s; split; [done|by apply moved_refl]].
    destruct (build_run s sel (Z.to_nat (m + 1)) Hwf) as (s1 & ? & ? & _). eauto. }
  destruct Hbuild as (s1 & Hrun1 & Hmv).
  assert (Hmid : ∃ s1, (if m =? -1 then match queue s Queue with [] => abort R_EOD | _ => mret () end
     else
       let timed_out := match tv, queue s Queue with
         | Some t, [] => (sel_r sel =? 0) && (negb (tv_sec t =? 0) || negb (tv_usec t =? 0))
         | _, _ => false
         end in
       if (timed_out : bool) then abort R_WOULDBLOCK
       else if (sel_r sel <? 0) && negb (sel_eintr sel) then abort R_INTERNAL
       else if 0 <? sel_r sel then build (Z.to_nat (m + 1)) sel else mret ()) s = Ok () s1 ∧
     awf s1 ∧ queue s1 Work = [] ∧ queue s1 Queue = b ∧ cells s1 = cells s ∧ fired s1 = fired s).
  { destruct (Z.eqb_spec m (-1)) as [->|Hm1].
    - assert (Hq : b = queue s Queue).
      { rewrite Hbatch. cbn. destruct (0 <? sel_r sel); by rewrite app_nil_r. }
      exists s. split_and!; try done. rewrite Hq in Hb. by destruct (queue s Queue).
    - exists s1. split_and!; [|apply Hmv|by rewrite (mv_work _ _ _ Hmv)|by rewrite (mv_queue _ _ _ Hmv)|apply Hmv|apply Hmv].
      cbv zeta. rewrite <- Hrun1.
      assert (Hto : match tv, queue s Queue with
         | Some t, [] => (sel_r sel =? 0) && (negb (tv_sec t =? 0) || negb (tv_usec t =? 0))
         | _, _ => false end = false).
      { destruct tv as [t|]; [|done]. destruct (queue s Queue) eqn:Hq; [|done].
        destruct (Z.eqb_spec (sel_r sel) 0) as [Hz|]; [|done]. exfalso. apply Hb. rewrite Hbatch, Hz. done. }
      rewrite Hto. assert (((sel_r sel <? 0) && negb (sel_eintr sel)) = false) as ->; [|done].
      destruct Hsel as [Hr | ->]; [|by rewrite andb_false_r]. by destruct (Z.ltb_spec (sel_r sel) 0); [lia|]. }
  destruct Hmid as (s2 & Hrun2 & Hwf2 & Hw2 & Hq2 & Hc2 & Hf2).
  destruct (fire_batch_run s2 (b) Hwf2 Hw2 Hq2 Hlen) as (s' & log & Hrun3 & Hwf' & Hw' & Hf' & Hsub & Hall).
  assert (Hev : events_of s2 (b) = events_of s (b)).
  { apply events_of_same. intros l _. by rewrite Hc2. }
  rewrite Hev in Hsub, Hall. exists s', log. split_and!; [|done|done|by rewrite Hf', Hf2|done|done].
  rewrite Hstart. mstep. erewrite bind_ok by exact Hrun2.
  mstep. by rewrite Hq2.
Qed.
End client.
