(* ===== verification/AsyncTheorems.v ===== *)
(** * What the event library guarantees

    The contracts of the timers and of the event loop, and instances of them. *)

From S2P Require Import Prelude RTime AsyncState AsyncWait AsyncTimer AsyncLoop AsyncInv AsyncTick AsyncEvents.
Local Open Scope Z_scope.

(** Between two calls of the loops: no queue is being worked on, and every timer of the
    wheel is live and due later than now. *)
Record settled (s : async_state) : Prop := {
  st_wf : awf s;
  st_working : working_entry s = None;
  st_live : dead_free s;
  st_later k : none_due s (queue s (Wheel k));
}.

(** The timers of the wheel and how long from now they are due. *)
Definition timer (s : async_state) (l : loc) (c : callback) : Prop :=
  (∃ k, l ∈ queue s (Wheel k)) ∧ cells s !! l = Some c.
Definition delay (s : async_state) (c : callback) : Z := cb_resource c - current_offset s.

(** A value read from the clock and the offset it stands for. *)
Definition clock_at (s : async_state) (tv : timeval) (offset : Z) : Prop :=
  tv_sec (first_time s) ≠ 0 ∧
  ∃ diff, r_timeval_diff tv (first_time s) = inr diff ∧ offset = r_timeval2int diff / 1000.

Section facts.
Implicit Types (s : async_state) (l : loc) (c : callback).

Lemma settled_step s s' : settled s → client_step s s' → settled s'.
Proof.
  intros [Hwf Hw Hlive Hlater] Hstep. split.
  - apply Hstep.
  - by rewrite (cs_working _ _ Hstep).
  - intros k l Hl (c & Hc & Hz). destruct (cs_dead _ _ Hstep k l c Hl Hc Hz) as [[Hl0 Hd]|[Hk _]].
    + by apply (Hlive k l).
    + congruence.
  - intros k l c Hl Hc. rewrite (cs_offset _ _ Hstep).
    destruct (cs_timers _ _ Hstep k l c Hl Hc) as [?|[Hl0 (c0 & Hc0 & [-> _]%later_fields)]]; [done|].
    by apply (Hlater k l).
Qed.

Lemma timer_slot s l c : awf s → timer s l c → l ∈ queue s (Wheel (slot_of (cb_resource c))) ∧ 0 <= cb_resource c < INT_MAX.
Proof. intros Hwf [[k Hk] Hc]. by destruct (a_wheel s Hwf k l c Hk Hc) as (_ & <- & ?). Qed.

(** *** The smallest delay *)

(** [m] is the smaller of [m0] and the delays of the timers [P] holds of. *)
Definition is_min s (m0 m : Z) (P : loc → Prop) : Prop :=
  m <= m0 ∧ (∀ l c, P l → cells s !! l = Some c → m <= delay s c) ∧
  (m = m0 ∨ ∃ l c, P l ∧ cells s !! l = Some c ∧ m = delay s c).

Lemma is_min_trans s m0 m m' (P Q : loc → Prop) :
  is_min s m0 m P → is_min s m m' Q → is_min s m0 m' (λ l, P l ∨ Q l).
Proof.
  intros (Hle & HP & Hex) (Hle' & HQ & Hex'). split_and!; [lia| |].
  - intros l c [Hl|Hl] Hc; [specialize (HP l c Hl Hc)|specialize (HQ l c Hl Hc)]; lia.
  - destruct Hex' as [->|(l & c & ? & ? & ?)]; [|right; exists l, c; auto].
    destruct Hex as [->|(l & c & ? & ? & ?)]; [by left|right; exists l, c; auto].
Qed.

Lemma is_min_ext s m0 m (P Q : loc → Prop) : (∀ l, P l ↔ Q l) → is_min s m0 m P → is_min s m0 m Q.
Proof.
  intros HPQ (Hle & HP & Hex). split_and!; [done| |].
  - intros l c Hl%HPQ. by apply HP.
  - destruct Hex as [->|(l & c & Hl%HPQ & Hc & ->)]; [by left|right; eauto].
Qed.

Lemma min_delay_run s m0 k ls :
  settled s → (∀ l, l ∈ ls → l ∈ queue s (Wheel k)) →
  ∃ m, min_delay (current_offset s) m0 ls s = Ok m s ∧ is_min s m0 m (λ l, l ∈ ls).
Proof.
  intros [Hwf _ Hlive Hlater]. revert m0. induction ls as [|l ls IH]; intros m0 Hls.
  { exists m0. split; [done|]. split_and!; [done|by intros l c ?%not_elem_of_nil|by left]. }
  assert (Hl : l ∈ queue s (Wheel k)) by (apply Hls; by left).
  destruct (a_cells s Hwf _ _ Hl) as [c Hc]. pose proof (Hlater k l c Hl Hc) as Hd.
  destruct (a_wheel s Hwf k l c Hl Hc) as (_ & _ & Hr). pose proof (a_offset s Hwf) as Ho. unfold INT_MAX in Hr.
  assert (Hcb : (cb c =? 0) = false) by (apply Z.eqb_neq; intros Hz; apply (Hlive k l Hl); by exists c).
  cbn [min_delay]. mstep using load_cb_ok. unfold MS_PER_ENTRY.
  rewrite Z.div_1_r, wrap_small, swrap_small, Hcb by lia. cbn [negb andb]. fold (delay s c).
  destruct (IH (if delay s c <? m0 then delay s c else m0)) as (m & Hrun & Hmin); [intros x Hx; apply Hls; by right|].
  exists m. split; [done|]. eapply is_min_ext; [|eapply (is_min_trans s m0 _ m (λ x, x = l)); [|exact Hmin]].
  - intros x. by rewrite elem_of_cons.
  - destruct (Z.ltb_spec (delay s c) m0); (split_and!; [lia|intros x y -> Hy; assert (y = c) as -> by congruence; lia|]).
    + right. exists l, c. done.
    + by left.
Qed.

Lemma min_slots_run s n m0 :
  settled s → ∃ m, min_slots n m0 s = Ok m s ∧
    is_min s m0 m (λ l, ∃ k, 0 <= k < Z.of_nat n ∧ l ∈ queue s (Wheel k)).
Proof.
  intros Hs. induction n as [|n (m & Hrun & Hmin)].
  { exists m0. split; [done|]. split_and!; [done|intros l c (k & Hk & _); lia|by left]. }
  destruct (min_delay_run s m (Z.of_nat n) (queue s (Wheel (Z.of_nat n))) Hs) as (m' & Hrun' & Hmin'); [done|].
  exists m'. split; [cbn [min_slots]; mstep; by mstep|].
  eapply is_min_ext; [|by eapply is_min_trans]. intros l. split.
  - intros [(k & Hk & Hl)|Hl]; [exists k; split; [lia|done]|exists (Z.of_nat n); split; [lia|done]].
  - intros (k & Hk & Hl). destruct (decide (k = Z.of_nat n)) as [->|]; [by right|left; exists k; split; [lia|done]].
Qed.
End facts.

(** C8: The contract of [NR_async_timer_update_time], for every client whose callbacks keep to
    the library's rules: with enough fuel it succeeds and leaves a settled state at the
    new time; the timers it runs were due by then, no timer is run twice, and if the
    callbacks cancel no timers, every timer that was due is run. *)
Theorem update_time_runs client s tv offset :
  (∀ f s, awf s → apis_ok s (client f s)) → settled s → clock_at s tv offset →
  current_offset s <= offset < 2 ^ 31 →
  ∃ fuel0 s' lc,
    (∀ fuel, (fuel0 <= fuel)%nat → NR_async_timer_update_time client fuel tv s = Ok () s') ∧
    settled s' ∧ current_offset s' = offset ∧
    fired s' = fired s ++ (firing_of ∘ snd <$> lc) ∧ NoDup (fst <$> lc) ∧
    (∀ l c, (l, c) ∈ lc → timer s l c ∧ cb_resource c <= offset) ∧
    (cancels_nothing client → ∀ l c, timer s l c → cb_resource c <= offset → (l, c) ∈ lc).
Proof.
  intros Hrules Hs (Hft & diff & Hdiff & ->) Hoff. pose proof Hs as [Hwf Hw Hlive Hlater].
  set (offset := r_timeval2int diff / 1000) in *. set (s0 := with_times (first_time s) offset s).
  pose proof (a_offset s Hwf) as Ho. assert (Hwf0 : awf s0) by (destruct Hwf; split; cbn; try done; lia).
  destruct (advance_run client Hrules (Z.to_nat (offset - current_offset s)) (current_offset s + 1) s0)
    as (fuel0 & s1 & lc & Hrun & Hdone & Hvisited); [done|done|lia|lia|].
  pose proof (sd_tick _ _ _ _ Hdone) as Ht. pose proof (tk_offset _ _ _ Ht) as Ho1. cbn in Ho1.
  assert (Hno : ∀ k, none_due s1 (queue s1 (Wheel k))).
  { intros k l c Hl Hc. destruct (a_wheel s1 (tk_wf _ _ _ Ht) k l c Hl Hc) as (_ & -> & _).
    destruct (tk_timers _ _ _ Ht _ l c Hl Hc) as [?|[Hl0 (c0 & Hc0 & Hlat)]]; [by rewrite Ho1|].
    cbn in Hl0, Hc0. pose proof (Hlater _ l c0 Hl0 Hc0) as Hd. apply later_fields in Hlat as [Hres _].
    destruct (Z.lt_ge_cases offset (cb_resource c)); [by rewrite Ho1|].
    apply (Hvisited (cb_resource c)) with (x := l); [lia|done|done]. }
  exists fuel0, (with_working None (pending_deactivates s1) s1), lc. split_and!.
  - intros fuel Hf. unfold NR_async_timer_update_time. mstep.
    rewrite (proj2 (a_init s Hwf)). mstep. mstep.
    rewrite (proj2 (Z.eqb_neq _ _) Hft), Hdiff. cbv zeta. unfold MS_PER_ENTRY. change (1000 * 1) with 1000. fold offset.
    rewrite (proj2 (Z.ltb_ge _ _)), wrap_small by lia. mstep.
    mstep using Hrun. by mstep.
  - split; [by apply awf_working, Ht|done|apply Hdone|exact Hno].
  - exact Ho1.
  - apply Ht.
  - apply Ht.
  - intros l c Hin. destruct (tk_due _ _ _ Ht l c Hin) as (Hk & Hc & Hd & _). by split.
  - intros Hn l c [[k Hk] Hc] Hd.
    assert (Hcb : cb c ≠ 0) by (intros Hz; apply (Hlive k l Hk); by exists c).
    destruct (sd_all _ _ _ _ Hdone k l c Hn Hk Hc Hcb) as [[Hl1 Hc1]|?]; [|done].
    pose proof (Hno k l c Hl1 Hc1). lia.
Qed.

(** [NR_async_timer_next_timeout] returns the smallest delay of all timers, and
    [R_NOT_FOUND] when there is none. *)
Theorem next_timeout_spec s :
  settled s →
  match NR_async_timer_next_timeout s with
  | Ok m s' => s' = s ∧ (∃ l c, timer s l c ∧ m = delay s c) ∧ ∀ l c, timer s l c → m <= delay s c
  | Err r s' => r = R_NOT_FOUND ∧ s' = s ∧ ∀ l c, ¬ timer s l c
  | UB => False
  end.
Proof.
  intros Hs. pose proof Hs as [Hwf _ _ _].
  destruct (min_slots_run s (Z.to_nat WHEEL_SIZE) INT_MAX Hs) as (m & Hrun & Hle & Hall & Hex).
  assert (Hin : ∀ l c, timer s l c → ∃ k, 0 <= k < Z.of_nat (Z.to_nat WHEEL_SIZE) ∧ l ∈ queue s (Wheel k)).
  { intros l c Ht. destruct (timer_slot s l c Hwf Ht) as [Hl Hr]. eexists. split; [|exact Hl].
    rewrite Z2Nat.id by done. apply slot_range. lia. }
  unfold NR_async_timer_next_timeout. mstep.
  destruct (Z.eqb_spec m INT_MAX) as [->|Hm]; cbn.
  - split_and!; [done|done|]. intros l c Ht. destruct (timer_slot s l c Hwf Ht) as [_ Hr].
    pose proof (Hall l c (Hin l c Ht) (proj2 Ht)) as Hd. unfold delay in Hd. pose proof (a_offset s Hwf). lia.
  - split_and!; [done| |].
    + destruct Hex as [?|(l & c & (k & _ & Hk) & Hc & ->)]; [done|]. exists l, c. split; [split; [by exists k|done]|done].
    + intros l c Ht. exact (Hall l c (Hin l c Ht) (proj2 Ht)).
Qed.

(** C11: Every call that keeps to the library's rules succeeds or reports an error, never
    touches memory that is not its own, and leaves a settled state. *)
Theorem calls_keep_settled s a :
  settled s → api_ok s a → ∃ s', run_api a s = Ok () s' ∧ settled s' ∧ fired s' = fired s.
Proof.
  intros Hs Ha. destruct (run_api_step s a (st_wf s Hs) Ha) as (s' & Hrun & Hstep & _).
  exists s'. split_and!; [done|by eapply settled_step|apply Hstep].
Qed.

(** A timer that is set is the one the handle stands for, due after the delay or, for no
    delay, after a millisecond; cancelling it leaves the timers that were there before. *)
Theorem timer_set_cancel s delay_ms f arg :
  settled s → 0 <= delay_ms → current_offset s + Z.max 1 delay_ms < INT_MAX → f ≠ 0 →
  ∃ l s1 s2, NR_async_timer_set delay_ms f arg s = Ok l s1 ∧
    (∃ c, timer s1 l c ∧ delay s1 c = Z.max 1 delay_ms ∧ cb c = f ∧ cb_arg c = arg) ∧
    NR_async_timer_cancel (Some l) s1 = Ok () s2 ∧
    ∀ k, queue s2 (Wheel k) = queue s (Wheel k).
Proof.
  intros Hs Hd Hroom Hf. pose proof Hs as [Hwf Hw _ _].
  destruct (timer_set_step s delay_ms f arg Hwf Hd Hroom Hf) as (l & s1 & Hrun & Hstep & Hc & Hq & Hother & Hold).
  set (due := current_offset s + Z.max 1 delay_ms) in *.
  assert (Hwf1 : awf s1) by apply Hstep.
  assert (Hl : l ∈ queue s1 (Wheel (slot_of due))) by (rewrite Hq; apply elem_of_app; right; by left).
  assert (Hw1 : working_entry s1 = None) by (rewrite (cs_working _ _ Hstep); done).
  destruct (unwheel_step s1 l _ (slot_of due) (-1) Hwf1 Hl Hc) as [Hstep2 Hloose]; [by rewrite Hw1|].
  destruct (destroy_step _ l _ (cs_wf _ _ Hstep2) Hloose) as (s2 & Hrun2 & _ & _ & Hq2).
  exists l, s1, s2. split_and!; [done| | |].
  - eexists. split_and!; [split; [by exists (slot_of due)|done]| |done|done].
    unfold delay. cbn. rewrite (cs_offset _ _ Hstep). unfold due. lia.
  - unfold NR_async_timer_cancel. mstep. rewrite (proj2 (a_init s1 Hwf1)). cbn [negb].
    mstep using load_cb_ok. cbn [cb cb_backptr]. rewrite (proj2 (Z.eqb_neq _ _) Hf).
    rewrite decide_False by by rewrite Hw1. mstep using remove_from_ok. by mstep.
  - intros k. rewrite Hq2 by done. cbn. case_decide as Hk; [|by apply Hother; congruence].
    injection Hk as ->. rewrite Hq, filter_app. cbn. rewrite decide_False by (intros Hne; by apply Hne).
    rewrite app_nil_r. apply filter_absent. intros Hin. by destruct (Hold _ _ Hin).
Qed.

(** Twenty-five days after the first reading of the clock a timer's time no longer fits its
    [int] field: it becomes negative, is compared as an unsigned number, and the timer
    is never due. *)
Theorem timer_overflow_never_due s delay_ms f arg :
  awf s → 0 < delay_ms < 2 ^ 31 → 2 ^ 31 <= current_offset s + delay_ms →
  ∃ l s' c, NR_async_timer_set delay_ms f arg s = Ok l s' ∧ timer s' l c ∧ cb c = f ∧
    ∀ offset, 0 <= offset < 2 ^ 63 → (wrap 64 (cb_resource c) <=? offset) = false.
Proof.
  intros Hwf Hd Hover. pose proof (a_offset s Hwf) as Ho. set (due := current_offset s + delay_ms).
  destruct (create_step s f arg (-1) (swrap 32 due) Hwf) as (l & s1 & bp & Hrun1 & Hstep1 & Hl & _ & _).
  set (c := set_backptr (Some (slot_of due)) (Callback f arg (-1) (swrap 32 due) bp)).
  exists l. eexists. exists c. split_and!.
  - unfold NR_async_timer_set, MS_PER_ENTRY. rewrite Z.quot_1_r. cbv zeta. mstep.
    rewrite (proj2 (Z.eqb_neq delay_ms 0)), wrap_small by lia. fold due.
    mstep using catch_ok. cbn beta iota. rewrite (proj2 (a_init s Hwf)).
    unfold insert_tail. mstep. erewrite bind_ok by apply load_cb_ok, Hl.
    erewrite bind_ok by eapply store_cb_ok, Hl. by mstep.
  - split; [|cbn; by rewrite lookup_insert_eq]. exists (slot_of due). cbn. rewrite decide_True by done.
    apply elem_of_app. right. by left.
  - done.
  - intros offset Hoff. apply Z.leb_gt. cbn [c cb_resource set_backptr]. unfold wrap, swrap. unfold due in *.
    assert (Hneg : (current_offset s + delay_ms + 2 ^ (32 - 1)) mod 2 ^ 32 - 2 ^ (32 - 1) =
      current_offset s + delay_ms - 2 ^ 32).
    { rewrite <- (Z.mod_unique (current_offset s + delay_ms + 2 ^ (32 - 1)) (2 ^ 32) 1
        (current_offset s + delay_ms + 2 ^ (32 - 1) - 2 ^ 32)); lia. }
    rewrite Hneg, <- (Z.mod_unique (current_offset s + delay_ms - 2 ^ 32) (2 ^ 64) (-1)
      (current_offset s + delay_ms - 2 ^ 32 + 2 ^ 64)); lia.
Qed.

