(* ===== verification/AsyncDemo.v ===== *)
(** * Concrete runs of the event library

    A client that sets its timer again whenever it runs, and the contracts of the library
    instantiated with it. *)

From S2P Require Import Prelude RTime AsyncState AsyncWait AsyncTimer AsyncLoop AsyncInv AsyncTick AsyncEvents AsyncTheorems.
Local Open Scope Z_scope.

(** The callback at address 7 sets its timer again, ten milliseconds ahead. *)
Definition rearm (f : firing) (s : async_state) : list api :=
  if (f_cb f =? 7) && (current_offset s + 10 <? INT_MAX) then [ApiTimerSet 10 7 (f_arg f)] else [].

Definition ran {B} (m : A B) (s : async_state) : async_state := match m s with Ok _ s' => s' | _ => s end.

(** The clock is read for the first time, then a timer is set; or a callback is scheduled. *)
Definition idle : async_state := ran (NR_async_timer_update_time rearm 0 (Timeval 100 0)) async_initial.
Definition armed : async_state := ran (NR_async_timer_set 5 7 1) idle.
Definition scheduled : async_state := ran (NR_async_schedule 9 4) idle.
Definition nothing_ready : selected := Selected 0 false (λ _, false) (λ _, false).

(** The timer runs at 105 and, set again by itself, at 120. *)
Example rearm_run :
  fired (ran (NR_async_timer_update_time rearm 10 (Timeval 100 17000))
          (ran (NR_async_timer_update_time rearm 10 (Timeval 100 6000)) armed)) =
  [Firing 7 0 (-1) 1; Firing 7 0 (-1) 1].
Proof. vm_compute. reflexivity. Qed.

Lemma rearm_rules f s : awf s → apis_ok s (rearm f s).
Proof.
  intros Hwf. unfold rearm. destruct (Z.eqb_spec (f_cb f) 7); [|done].
  destruct (Z.ltb_spec (current_offset s + 10) INT_MAX); [|done]. cbn. split_and!; [lia|lia|done|done].
Qed.

Lemma rearm_cancels_nothing : cancels_nothing rearm.
Proof. intros f s. unfold rearm. by destruct (_ && _). Qed.

Lemma idle_settled : settled idle.
Proof.
  assert (Hq : ∀ p, queue idle p = []) by (intros p; destruct p; reflexivity).
  assert (Hno : ∀ p l, l ∉ queue idle p) by (intros p l; rewrite Hq; apply not_elem_of_nil).
  split; [split|done|intros k l Hl; by destruct (Hno _ _ Hl)|intros k l c Hl; by destruct (Hno _ _ Hl)].
  - intros p. rewrite Hq. constructor.
  - intros p q l Hl. by destruct (Hno _ _ Hl).
  - intros p l Hl. by destruct (Hno _ _ Hl).
  - done.
  - intros i h. rewrite Hq. cbn. lia.
  - intros k l c Hl. by destruct (Hno _ _ Hl).
  - done.
  - done.
  - done.
Qed.

Lemma armed_settled : settled armed ∧ timer armed 1%positive (Callback 7 1 (-1) 5 (Some 5)).
Proof.
  destruct (timer_set_step idle 5 7 1 (st_wf _ idle_settled)) as (l & s' & Hrun & Hstep & _); [done..|].
  split.
  - unfold armed, ran. rewrite Hrun. exact (settled_step _ _ idle_settled Hstep).
  - split; [exists 5; vm_compute; left|reflexivity].
Qed.

Lemma armed_clock : clock_at armed (Timeval 100 6000) 6.
Proof. split; [done|]. exists (Timeval 0 6000). split; reflexivity. Qed.

Lemma update_time_runs_witness :
  ∃ fuel s', NR_async_timer_update_time rearm fuel (Timeval 100 6000) armed = Ok () s' ∧
    settled s' ∧ Firing 7 0 (-1) 1 ∈ fired s'.
Proof.
  destruct (update_time_runs rearm armed (Timeval 100 6000) 6 rearm_rules (proj1 armed_settled) armed_clock)
    as (fuel & s' & lc & Hrun & Hs & _ & Hf & _ & _ & Hall); [vm_compute; split; [intros Hx; discriminate Hx|reflexivity]|].
  exists fuel, s'. split; [apply Hrun; apply Nat.le_refl|]. split; [exact Hs|].
  rewrite Hf. apply elem_of_app. right.
  apply (list_elem_of_fmap_2' (firing_of ∘ snd) lc (1%positive, Callback 7 1 (-1) 5 (Some 5))); [|reflexivity].
  apply Hall; [exact rearm_cancels_nothing|apply armed_settled|vm_compute; intros Hx; discriminate Hx].
Defined.

Lemma next_timeout_spec_witness : NR_async_timer_next_timeout armed = Ok 5 armed ∧ ∃ l c, timer armed l c ∧ 5 = delay armed c.
Proof.
  pose proof (next_timeout_spec armed (proj1 armed_settled)) as Hspec.
  destruct (NR_async_timer_next_timeout armed) as [m s'|r s'|] eqn:Hrun.
  - destruct Hspec as (-> & (l & c & Ht & Hm) & Hmin).
    pose proof (Hmin _ _ (proj2 armed_settled)) as Hle. change (delay armed _) with 5 in Hle.
    assert (Hone : ∀ l c, timer armed l c → c = Callback 7 1 (-1) 5 (Some 5)).
    { intros x y [_ Hy]. change (cells armed) with ({[1%positive := Callback 7 1 (-1) 5 (Some 5)]} : gmap loc callback) in Hy.
      apply lookup_singleton_Some in Hy as [_ <-]. reflexivity. }
    rewrite (Hone l c Ht) in Hm. change (delay armed _) with 5 in Hm. subst m. split; [reflexivity|].
    exists l, c. split; [exact Ht|]. rewrite (Hone l c Ht). reflexivity.
  - destruct Hspec as (_ & _ & Hno). exfalso. exact (Hno _ _ (proj2 armed_settled)).
  - destruct Hspec.
Defined.

Lemma calls_keep_settled_witness :
  ∃ s', run_api (ApiTimerCancel (Some 1%positive)) armed = Ok () s' ∧ settled s' ∧ fired s' = fired armed.
Proof.
  apply (calls_keep_settled armed (ApiTimerCancel (Some 1%positive)) (proj1 armed_settled)).
  exists (Callback 7 1 (-1) 5 (Some 5)). split; [reflexivity|]. right. exists 5. split; [reflexivity|].
  vm_compute. left.
Defined.

Lemma timer_set_cancel_witness :
  ∃ l s1 s2, NR_async_timer_set 0 9 4 armed = Ok l s1 ∧
    (∃ c, timer s1 l c ∧ delay s1 c = 1 ∧ cb c = 9 ∧ cb_arg c = 4) ∧
    NR_async_timer_cancel (Some l) s1 = Ok () s2 ∧ ∀ k, queue s2 (Wheel k) = queue armed (Wheel k).
Proof. apply (timer_set_cancel armed 0 9 4 (proj1 armed_settled)); [lia|vm_compute; reflexivity|lia]. Defined.

Lemma timer_overflow_never_due_witness :
  ∃ l s' c, NR_async_timer_set 5 7 1 (with_times (Timeval 100 0) (2 ^ 31 - 1) idle) = Ok l s' ∧ timer s' l c ∧ cb c = 7 ∧
    ∀ offset, 0 <= offset < 2 ^ 63 → (wrap 64 (cb_resource c) <=? offset) = false.
Proof.
  apply (timer_overflow_never_due (with_times (Timeval 100 0) (2 ^ 31 - 1) idle) 5 7 1);
    [|lia|vm_compute; intros Hx; discriminate Hx].
  destruct (st_wf _ idle_settled). split; try assumption. vm_compute. split; [intros Hx; discriminate Hx|reflexivity].
Defined.

Lemma scheduled_wf : awf scheduled.
Proof.
  destruct (schedule_step idle 9 4 (st_wf _ idle_settled)) as (s' & Hrun & Hstep).
  assert (scheduled = s') as ->; [|apply Hstep].
  cbn [run_api] in Hrun. unfold ignore in Hrun. unfold scheduled, ran.
  destruct (NR_async_schedule 9 4 idle) as [[] s1|r s1|] eqn:Heq; [congruence| |done].
  exfalso. vm_compute in Heq. discriminate Heq.
Qed.

