(* ===== verification/AsyncEpoll.v ===== *)
(** * Waiting with epoll (src/event/async_wait.c, USE_EPOLL)

    The other build of the event loop.  Its state is that of the build with [select] and the
    kernel's set of sockets to watch; its operations are those of AsyncWait and AsyncLoop with
    the calls of epoll, so that what is known of those carries over by a simulation.  The
    theorems say what it runs, and in which two cases it leaves a callback behind for ever. *)

From S2P Require Import Prelude RTime AsyncState AsyncWait AsyncTimer AsyncLoop AsyncInv AsyncTick AsyncEvents AsyncTheorems AsyncDemo.
Local Open Scope Z_scope.

(** [interest] is the set of the epoll instance. *)
Record epoll_state := Epoll { ep_async : async_state; interest : gset Z }.
Abbreviation EM := (M epoll_state).

Definition on_async {X} (m : A X) : EM X := λ s,
  match m (ep_async s) with
  | Ok a s' => Ok a (Epoll s' (interest s))
  | Err r s' => Err r (Epoll s' (interest s))
  | UB => UB
  end.

Section epoll.
(** Whether a descriptor is open and can be watched. *)
Context (can_poll : Z → bool).

(** [epoll_ctl] with [EPOLL_CTL_ADD], where [EEXIST] is no error, and with [EPOLL_CTL_DEL],
    where [ENOENT] is none. *)
Definition epoll_add (sock : Z) : EM unit :=
  if can_poll sock then modify (λ s, Epoll (ep_async s) ({[sock]} ∪ interest s)) else abort R_INTERNAL.
Definition epoll_del (sock : Z) : EM unit :=
  if can_poll sock then modify (λ s, Epoll (ep_async s) (interest s ∖ {[sock]})) else abort R_INTERNAL.

(** A callback that [epoll_ctl] fails for is in no place any more. *)
Definition NR_async_wait_epoll (sock how f arg : Z) : EM unit :=
  on_async NR_async_wait_init;;
  on_async (check_sock sock how);;
  on_async (drop_sock sock how);;
  r ← catch (on_async (nr_async_create_cb f arg how sock));
  match r with
  | inl _ => abort R_NO_MEMORY
  | inr cbb => epoll_add sock;; on_async (modify (put_queue (Sock sock how) [cbb]))
  end.

(** Whatever the other event type of the socket waits for, the socket is not watched any
    more. *)
Definition NR_async_cancel_epoll (sock how : Z) : EM unit :=
  on_async NR_async_wait_init;;
  on_async (check_sock sock how);;
  on_async (drop_sock sock how);;
  epoll_del sock;;
  s ← get;
  match queue (ep_async s) Work with
  | [] => mret ()
  | _ :: rest =>
      o ← on_async (find_queued sock how rest);
      match o with
      | Some l => c ← on_async (load_cb l); on_async (store_cb l (set_cb 0 c))
      | None => mret ()
      end
  end.

Definition run_api_epoll (a : api) : EM unit :=
  match a with
  | ApiWait sock how f arg => ignore (NR_async_wait_epoll sock how f arg)
  | ApiCancel sock how => ignore (NR_async_cancel_epoll sock how)
  | ApiSchedule f arg => ignore (on_async (NR_async_schedule f arg))
  | ApiTimerSet delay_ms f arg => ignore (on_async (NR_async_timer_set delay_ms f arg))
  | ApiTimerCancel handle => ignore (on_async (NR_async_timer_cancel handle))
  end.
Fixpoint run_apis_epoll (l : list api) : EM unit :=
  match l with [] => mret () | a :: l' => run_api_epoll a;; run_apis_epoll l' end.

Context (client : firing → async_state → list api).

Definition fire_epoll (f : firing) : EM unit :=
  on_async (modify (add_fired f));;
  s ← get;
  run_apis_epoll (client f (ep_async s)).

(** An event of [epoll_wait]: the socket, and whether [EPOLLIN] and [EPOLLOUT] are set. *)
Record epoll_event := EpollEvent { ev_fd : Z; ev_in : bool; ev_out : bool }.

(** The loop over the events; the result is [reads]. *)
Fixpoint enqueue_events (evs : list epoll_event) (reads : Z) : EM Z :=
  match evs with
  | [] => mret reads
  | e :: evs' =>
      s ← get;
      let waits := match queue (ep_async s) (Sock (ev_fd e) NR_ASYNC_WAIT_READ) with [] => false | _ => true end in
      on_async (enqueue_ready (ev_fd e) NR_ASYNC_WAIT_READ (λ _, ev_in e));;
      on_async (enqueue_ready (ev_fd e) NR_ASYNC_WAIT_WRITE (λ _, ev_out e));;
      enqueue_events evs' (if waits && ev_in e then swrap 32 (reads + 1) else reads)
  end.

Fixpoint fire_work_epoll (ls : list loc) (events : Z) : EM Z :=
  match ls with
  | [] => mret events
  | l :: ls' =>
      c ← on_async (load_cb l);
      (if cb c =? 0 then mret () else fire_epoll (Firing (cb c) (cb_resource c) (cb_how c) (cb_arg c)));;
      on_async (modify (put_queue Work ls'));;
      on_async (nr_async_destroy_cb l);;
      fire_work_epoll ls' (swrap 32 (events + 1))
  end.

(** [waited] are the events of [epoll_wait], [None] when it fails. *)
Definition NR_async_event_wait2_epoll (waited : option (list epoll_event)) : EM Z :=
  on_async NR_async_wait_init;;
  match waited with
  | None => abort R_INTERNAL
  | Some [] => abort R_EOD
  | Some evs =>
      reads ← enqueue_events evs 0;
      s ← get;
      let ls := queue (ep_async s) Queue in
      on_async (modify (put_queue Work ls));;
      on_async (modify (put_queue Queue []));;
      evts ← fire_work_epoll ls 0;
      if reads =? 0 then abort R_EOD else mret evts
  end.
End epoll.

(** ** The simulation *)

(** [m1] does to the library's state what [m2] does, and something to the set of sockets. *)
Definition sims {X} (m1 : EM X) (m2 : A X) : Prop := ∀ s,
  match m2 (ep_async s) with
  | Ok a s' => ∃ I, m1 s = Ok a (Epoll s' I)
  | Err r s' => ∃ I, m1 s = Err r (Epoll s' I)
  | UB => m1 s = UB
  end.

Lemma sims_lift {X} (m : A X) : sims (on_async m) m.
Proof. intros s. unfold on_async. destruct (m (ep_async s)); eauto. Qed.

Lemma sims_ret {X} (x : X) : sims (mret x) (mret x).
Proof. intros [s I]. by exists I. Qed.

Lemma sims_abort {X} r : sims (X := X) (abort r) (abort r).
Proof. intros [s I]. by exists I. Qed.

Lemma sims_bind {X Y} (m1 : EM X) (m2 : A X) (k1 : X → EM Y) (k2 : X → A Y) :
  sims m1 m2 → (∀ x, sims (k1 x) (k2 x)) → sims (m1 ≫= k1) (m2 ≫= k2).
Proof.
  intros Hm Hk s. specialize (Hm s). unfold mbind, M_bind.
  destruct (m2 (ep_async s)) as [x s'|r s'|].
  - destruct Hm as [I ->]. exact (Hk x (Epoll s' I)).
  - destruct Hm as [I ->]. by exists I.
  - by rewrite Hm.
Qed.

Lemma sims_get {Y} (k1 : epoll_state → EM Y) (k2 : async_state → A Y) :
  (∀ s, sims (k1 s) (k2 (ep_async s))) → sims (get ≫= k1) (get ≫= k2).
Proof. intros Hk s. exact (Hk s s). Qed.

Lemma sims_catch {X} (m1 : EM X) (m2 : A X) : sims m1 m2 → sims (catch m1) (catch m2).
Proof.
  intros Hm s. specialize (Hm s). unfold catch.
  destruct (m2 (ep_async s)); [destruct Hm as [I ->]; by exists I..|by rewrite Hm].
Qed.

Lemma sims_ignore {X} (m1 : EM X) (m2 : A X) : sims m1 m2 → sims (ignore m1) (ignore m2).
Proof.
  intros Hm s. specialize (Hm s). unfold ignore.
  destruct (m2 (ep_async s)); [destruct Hm as [I ->]; by exists I..|by rewrite Hm].
Qed.

Lemma sims_ok {X} (m1 : EM X) (m2 : A X) s I a s' :
  sims m1 m2 → m2 s = Ok a s' → ∃ I', m1 (Epoll s I) = Ok a (Epoll s' I').
Proof. intros Hm Hrun. specialize (Hm (Epoll s I)). cbn in Hm. by rewrite Hrun in Hm. Qed.

Section simulation.
Context (can_poll : Z → bool).
Context (all_open : ∀ sock, can_poll sock = true).

Lemma sims_then {X} (m0 : EM unit) (m1 : EM X) (m2 : A X) :
  sims m0 (mret ()) → sims m1 m2 → sims (m0;; m1) m2.
Proof.
  intros H0 H1 s. destruct (H0 s) as [I H]. unfold mbind, M_bind. rewrite H. exact (H1 (Epoll (ep_async s) I)).
Qed.

Lemma sims_add sock : sims (epoll_add can_poll sock) (mret ()).
Proof. intros s. unfold epoll_add. rewrite all_open. eexists. reflexivity. Qed.

Lemma sims_del sock : sims (epoll_del can_poll sock) (mret ()).
Proof. intros s. unfold epoll_del. rewrite all_open. eexists. reflexivity. Qed.

Ltac sim := repeat match goal with
  | H : sims ?m _ |- sims ?m _ => exact H
  | |- sims (on_async _) _ => apply sims_lift
  | |- sims (mret _) (mret _) => apply sims_ret
  | |- sims (abort _) (abort _) => apply sims_abort
  | |- sims (catch _) (catch _) => apply sims_catch
  | |- sims (ignore _) (ignore _) => apply sims_ignore
  | |- sims (epoll_add _ _ ≫= _) _ => apply sims_then; [apply sims_add|]
  | |- sims (epoll_del _ _ ≫= _) _ => apply sims_then; [apply sims_del|]
  | |- sims (get ≫= _) (get ≫= _) => apply sims_get; intros ?
  | |- sims (_ ≫= _) (_ ≫= _) => apply sims_bind; [|intros ?]
  | |- sims match ?x with _ => _ end _ => destruct x
  end.

Lemma wait_sims sock how f arg : sims (NR_async_wait_epoll can_poll sock how f arg) (NR_async_wait sock how f arg).
Proof. unfold NR_async_wait_epoll, NR_async_wait. sim. Qed.

Lemma cancel_sims sock how : sims (NR_async_cancel_epoll can_poll sock how) (NR_async_cancel sock how).
Proof. unfold NR_async_cancel_epoll, NR_async_cancel. sim. Qed.

Lemma run_apis_sims l : sims (run_apis_epoll can_poll l) (run_apis l).
Proof.
  induction l as [|a l IH]; cbn; sim. destruct a; cbn; sim; [apply wait_sims|apply cancel_sims].
Qed.

Lemma fire_work_sims client ls events :
  sims (fire_work_epoll can_poll client ls events) (fire_work client ls events).
Proof.
  revert events. induction ls as [|l ls IH]; intros events; cbn; sim; [|apply IH].
  unfold fire_epoll, fire. sim. apply run_apis_sims.
Qed.
End simulation.

(** ** What waiting runs *)

Definition MAX_EVENTS : Z := 500.

(** The callbacks that an event reports, and whether one of them waits to read. *)
Definition event_cbs (s : async_state) (e : epoll_event) : list loc :=
  (if ev_in e then queue s (Sock (ev_fd e) NR_ASYNC_WAIT_READ) else []) ++
  (if ev_out e then queue s (Sock (ev_fd e) NR_ASYNC_WAIT_WRITE) else []).
Definition reads_event (s : async_state) (e : epoll_event) : bool :=
  match queue s (Sock (ev_fd e) NR_ASYNC_WAIT_READ) with [] => false | _ => ev_in e end.

(** What a call works on, in order; nothing when no socket is ready. *)
Definition epoll_batch (s : async_state) (evs : list epoll_event) : list loc :=
  match evs with [] => [] | _ => queue s Queue ++ (evs ≫= event_cbs s) end.

Lemma event_ext s s' e :
  (∀ h, queue s' (Sock (ev_fd e) h) = queue s (Sock (ev_fd e) h)) →
  event_cbs s' e = event_cbs s e ∧ reads_event s' e = reads_event s e.
Proof. intros Hq. unfold event_cbs, reads_event. by rewrite !Hq. Qed.

Lemma on_async_ok {X} (m : A X) s I a s' : m s = Ok a s' → on_async m (Epoll s I) = Ok a (Epoll s' I).
Proof. unfold on_async. cbn. by intros ->. Qed.

Lemma enqueue_event_run s e :
  awf s → ∃ s1 s2, enqueue_ready (ev_fd e) NR_ASYNC_WAIT_READ (λ _, ev_in e) s = Ok () s1 ∧
    enqueue_ready (ev_fd e) NR_ASYNC_WAIT_WRITE (λ _, ev_out e) s1 = Ok () s2 ∧ moved s s2 (event_cbs s e) ∧
    ∀ i h, i ≠ ev_fd e → queue s2 (Sock i h) = queue s (Sock i h).
Proof.
  intros Hwf.
  destruct (enqueue_run s (ev_fd e) NR_ASYNC_WAIT_READ (λ _, ev_in e) Hwf) as (s1 & Hrun1 & Hmv1 & Hrest1).
  destruct (enqueue_run s1 (ev_fd e) NR_ASYNC_WAIT_WRITE (λ _, ev_out e) (mv_wf _ _ _ Hmv1))
    as (s2 & Hrun2 & Hmv2 & Hrest2).
  exists s1, s2. split_and!; [done|done| |].
  - pose proof (moved_trans _ _ _ _ _ Hmv1 Hmv2) as Hmv. rewrite Hrest1 in Hmv by done. exact Hmv.
  - intros i h Hi. rewrite Hrest2, Hrest1; [done|congruence..].
Qed.

Lemma enqueue_events_run evs : ∀ reads s I,
  awf s → NoDup (ev_fd <$> evs) → 0 <= reads → reads + Z.of_nat (length evs) < 2 ^ 31 →
  ∃ s', enqueue_events evs reads (Epoll s I) =
      Ok (reads + Z.of_nat (length (filter (λ e, reads_event s e) evs))) (Epoll s' I) ∧
    moved s s' (evs ≫= event_cbs s).
Proof.
  induction evs as [|e evs IH]; intros reads s I Hwf Hnd Hr Hlen.
  { exists s. split; [by rewrite Z.add_0_r|by apply moved_refl]. }
  cbn in Hnd. apply NoDup_cons in Hnd as [Hno Hnd]. cbn [length] in Hlen.
  destruct (enqueue_event_run s e Hwf) as (s1 & s2 & Hrun1 & Hrun2 & Hmv & Hrest).
  set (reads1 := if reads_event s e then swrap 32 (reads + 1) else reads).
  assert (Hreads1 : reads1 = reads + (if reads_event s e then 1 else 0)).
  { unfold reads1. destruct (reads_event s e); [rewrite swrap_small by lia|]; lia. }
  assert (Hsame : ∀ x, x ∈ evs → ev_fd x ≠ ev_fd e).
  { intros x Hx Heq. apply Hno. rewrite <- Heq. by apply list_elem_of_fmap_2. }
  destruct (IH reads1 s2 I (mv_wf _ _ _ Hmv) Hnd) as (s' & Hrun & Hmv').
  { rewrite Hreads1. destruct (reads_event s e); lia. }
  { rewrite Hreads1. destruct (reads_event s e); lia. }
  exists s'. split.
  - cbn [enqueue_events]. mstep. rewrite (bind_ok _ _ _ _ _ (on_async_ok _ _ _ _ _ Hrun1)).
    rewrite (bind_ok _ _ _ _ _ (on_async_ok _ _ _ _ _ Hrun2)).
    match goal with |- enqueue_events _ ?r _ = _ => assert (r = reads1) as -> end.
    { unfold reads1, reads_event. cbn. by destruct (queue s _). }
    rewrite Hrun. f_equal. rewrite Hreads1, filter_cons.
    assert (Hext : filter (λ x, reads_event s2 x) evs = filter (λ x, reads_event s x) evs).
    { clear -Hsame Hrest. induction evs as [|x evs IH]; [done|]. rewrite !filter_cons.
      destruct (event_ext s s2 x) as [_ ->]; [intros h; apply Hrest, Hsame; by left|]. rewrite IH; [done|].
      intros y Hy. apply Hsame. by right. }
    rewrite Hext. destruct (reads_event s e); [rewrite decide_True by done|rewrite decide_False by by intros []]; cbn; lia.
  - assert (Hext : evs ≫= event_cbs s2 = evs ≫= event_cbs s).
    { clear -Hsame Hrest. induction evs as [|x evs IH]; [done|]. cbn.
      destruct (event_ext s s2 x) as [-> _]; [intros h; apply Hrest, Hsame; by left|].
      f_equal. apply IH. intros y Hy. apply Hsame. by right. }
    rewrite Hext in Hmv'. exact (moved_trans _ _ _ _ _ Hmv Hmv').
Qed.

(** C10: The callbacks that were scheduled and those of the ready sockets run in order; unless one
    of the sockets was ready to read, the call fails as if there was nothing to do.  When no
    socket is ready nothing runs, whatever was scheduled. *)
Theorem epoll_runs can_poll client s I evs :
  (∀ sock, can_poll sock = true) → (∀ f s, awf s → apis_ok s (client f s)) →
  awf s → queue s Work = [] → NoDup (ev_fd <$> evs) → Z.of_nat (length evs) <= MAX_EVENTS →
  Z.of_nat (length (epoll_batch s evs)) < 2 ^ 31 →
  ∃ s' I' log,
    NR_async_event_wait2_epoll can_poll client (Some evs) (Epoll s I) =
      (if existsb (reads_event s) evs then Ok (Z.of_nat (length (epoll_batch s evs))) (Epoll s' I')
       else Err R_EOD (Epoll s' I')) ∧
    awf s' ∧ queue s' Work = [] ∧ fired s' = fired s ++ log ∧
    log `sublist_of` events_of s (epoll_batch s evs) ∧
    (cancels_no_sock client → log = events_of s (epoll_batch s evs)).
Proof.
  intros Hopen Hrules Hwf Hw Hnd Hmax Hlen.
  assert (Hinit : on_async NR_async_wait_init (Epoll s I) = Ok () (Epoll s I)) by (by apply on_async_ok, wait_init_ok).
  destruct (decide (evs = [])) as [->|Hne].
  { exists s, I, []. split_and!; [by unfold NR_async_event_wait2_epoll; rewrite (bind_ok _ _ _ _ _ Hinit)|done|done|by rewrite app_nil_r|done|done]. }
  destruct (enqueue_events_run evs 0 s I Hwf Hnd) as (s1 & Hrun1 & Hmv); [done|unfold MAX_EVENTS in Hmax; lia|].
  assert (Hq1 : queue s1 Queue = epoll_batch s evs) by (destruct evs; [done|apply Hmv]).
  assert (Hw1 : queue s1 Work = []) by (by rewrite (mv_work _ _ _ Hmv)).
  pose proof (take_batch s1 _ (mv_wf _ _ _ Hmv) Hw1 Hq1) as Hwf1.
  destruct (fire_work_run client Hrules (epoll_batch s evs) _ 0 Hwf1) as (s' & log & Hrun2 & Hwf' & Hw' & Hf' & Hsub & Hall);
    [cbn; by rewrite decide_False, decide_True by done|done|lia|].
  destruct (sims_ok _ _ _ I _ _ (fire_work_sims can_poll Hopen client (epoll_batch s evs) 0) Hrun2) as [I' Hrun3].
  assert (Hev : events_of (put_queue Queue [] (put_queue Work (epoll_batch s evs) s1)) (epoll_batch s evs) =
    events_of s (epoll_batch s evs)).
  { apply events_of_same. intros l _. cbn. by rewrite (mv_cells _ _ _ Hmv). }
  rewrite Hev in Hsub, Hall. exists s', I', log. split_and!; [|done|done|by rewrite Hf'; cbn; rewrite (mv_fired _ _ _ Hmv)|done|done].
  unfold NR_async_event_wait2_epoll.
  rewrite (bind_ok _ _ _ _ _ Hinit). destruct evs as [|e evs]; [done|]. rewrite (bind_ok _ _ _ _ _ Hrun1).
  mstep. cbn [ep_async]. rewrite Hq1.
  rewrite (bind_ok _ _ _ _ _ (on_async_ok (modify _) _ I tt _ eq_refl)).
  rewrite (bind_ok _ _ _ _ _ (on_async_ok (modify _) _ I tt _ eq_refl)).
  rewrite (bind_ok _ _ _ _ _ Hrun3).
  rewrite Z.add_0_l.
  assert (Hex : (0 + Z.of_nat (length (filter (λ e, reads_event s e) (e :: evs))) =? 0) = negb (existsb (reads_event s) (e :: evs))).
  { clear. generalize (e :: evs) as l. intros l. rewrite Z.add_0_l. induction l as [|x l IH]; [done|].
    rewrite filter_cons. cbn [existsb].
    destruct (reads_event s x); [by rewrite decide_True|by rewrite decide_False by by intros []]. }
  rewrite Z.add_0_l in Hex. rewrite Hex. by destruct (existsb _ _).
Qed.

(** Cancelling one event type of a socket ends the watching of the socket, though the callback
    for the other type stays in its place. *)
Lemma cancel_loses_other can_poll s I sock how :
  (∀ fd, can_poll fd = true) → awf s → queue s Work = [] → 0 <= sock < SOCKET_VEC_SIZE →
  0 <= how < ASYNC_WAIT_TYPES →
  ∃ s', NR_async_cancel_epoll can_poll sock how (Epoll s I) = Ok () (Epoll s' (I ∖ {[sock]})) ∧
    queue s' (Sock sock how) = [] ∧ ∀ h, h ≠ how → queue s' (Sock sock h) = queue s (Sock sock h).
Proof.
  intros Hopen Hwf Hw Hsock Hhow.
  destruct (check_sock_cases s sock how) as [(_ & _ & Hchk)|Hchk]; [lia| |].
  2: { exfalso. unfold check_sock in Hchk.
       rewrite (proj2 (Z.ltb_ge sock 0)), (proj2 (Z.leb_gt SOCKET_VEC_SIZE sock)),
         (proj2 (Z.leb_gt ASYNC_WAIT_TYPES how)), (proj2 (Z.ltb_ge how 0)) in Hchk by lia. done. }
  destruct (drop_sock_step s sock how Hwf) as (s1 & Hrun1 & _ & Hno & _ & Hq).
  exists s1. split_and!; [|done|intros h Hh; apply Hq; congruence].
  unfold NR_async_cancel_epoll, epoll_del.
  rewrite (bind_ok _ _ _ _ _ (on_async_ok _ _ I _ _ (wait_init_ok s Hwf))).
  rewrite (bind_ok _ _ _ _ _ (on_async_ok _ _ I _ _ Hchk)).
  rewrite (bind_ok _ _ _ _ _ (on_async_ok _ _ I _ _ Hrun1)).
  rewrite Hopen. mstep. mstep. cbn. by rewrite Hq, Hw.
Qed.

(** ** Concrete runs *)

(** A socket is waited for, and its callback runs with the scheduled one; when only the other
    kind of event is reported, the scheduled one runs all the same but the call fails. *)
Definition epoll_ran {X} (m : EM X) (s : epoll_state) : option Z * list firing :=
  match m s with
  | Ok _ s' => (None, fired (ep_async s'))
  | Err r s' => (Some r, fired (ep_async s'))
  | UB => (None, [])
  end.

Example epoll_run both :
  epoll_ran (NR_async_wait_epoll (λ _, true) 3 NR_ASYNC_WAIT_READ 7 5;;
             NR_async_event_wait2_epoll (λ _, true) rearm (Some [EpollEvent 3 both true])) (Epoll scheduled ∅) =
  if both then (None, [Firing 9 (-1) (-1) 4; Firing 7 3 0 5]) else (Some R_EOD, [Firing 9 (-1) (-1) 4]).
Proof. destruct both; vm_compute; reflexivity. Qed.

Lemma epoll_runs_witness :
  ∃ s' I', NR_async_event_wait2_epoll (λ _, true) rearm (Some [EpollEvent 3 true true]) (Epoll scheduled ∅) =
      Err R_EOD (Epoll s' I') ∧
    fired s' = [Firing 9 (-1) (-1) 4] ∧ queue s' Work = [].
Proof.
  destruct (epoll_runs (λ _, true) rearm scheduled ∅ [EpollEvent 3 true true])
    as (s' & I' & log & Hrun & _ & Hw & Hf & _ & Hall);
    [reflexivity|exact rearm_rules|exact scheduled_wf|reflexivity|apply NoDup_singleton
    |vm_compute; intros Hx; discriminate Hx|vm_compute; reflexivity|].
  exists s', I'. split; [exact Hrun|]. split; [|exact Hw]. rewrite Hf, Hall; [vm_compute; reflexivity|].
  intros f s. unfold rearm. destruct (_ && _); reflexivity.
Defined.
