(* ===== verification/Queue.v ===== *)
(** * Queues (src/port/linux/include/sys/queue.h)

    The macros for tail queues, [TAILQ_*], and for tail queues whose elements are linked in one
    direction, [STAILQ_*], on a memory of pointers.  The event loop, the packet buffers and the
    daemon use them, and their models have lists in their place: here the macros are proved to
    keep lists. *)

From S2P Require Import Prelude.
Abbreviation loc := positive.

(** ** The memory *)

(** A head and an element both have a pointer to an element ([tqh_first], [tqe_next]), and
    after it the address of such a pointer ([tqh_last], [tqe_prev]).  A cell is such a pair,
    named by its address, which is that of the pointer; [TAILQ_LAST] and [TAILQ_PREV] use that
    both are laid out alike. *)
Inductive cell : Type :=
| First (h : loc)
| Next (e : loc).

#[export] Instance cell_eq_dec : EqDecision cell.
Proof. solve_decision. Defined.
#[export] Instance cell_countable : Countable cell.
Proof.
  refine (inj_countable' (λ c, match c with First h => inl h | Next e => inr e end)
    (λ x, match x with inl h => First h | inr e => Next e end) _). by intros [].
Defined.
#[export] Instance Next_inj : Inj (=) (=) Next.
Proof. by intros ? ? [=]. Qed.

(** [fwd] has the pointers to elements and [back] the addresses, [None] one that is not valid;
    the elements of a [STAILQ] have none. *)
Record queue_mem := QueueMem {
  fwd : gmap cell (option loc);
  back : gmap cell (option cell);
}.
Abbreviation Q := (M queue_mem).

Definition set_fwd (c : cell) (v : option loc) (s : queue_mem) : queue_mem := QueueMem (<[c := v]> (fwd s)) (back s).
Definition set_back (c : cell) (v : option cell) (s : queue_mem) : queue_mem := QueueMem (fwd s) (<[c := v]> (back s)).

Definition load (c : cell) : Q (option loc) := s ← get; from_option_ub (fwd s !! c).
Definition store (c : cell) (v : option loc) : Q unit := load c;; modify (set_fwd c v).
Definition load_back (c : cell) : Q (option cell) := s ← get; from_option_ub (back s !! c).
Definition store_back (c : cell) (v : option cell) : Q unit := load_back c;; modify (set_back c v).
(** What an address that was read points to. *)
Definition deref (c : cell) : Q cell := b ← load_back c; from_option_ub b.

(** ** Both kinds *)

Definition TAILQ_FIRST (h : loc) : Q (option loc) := load (First h).
Definition TAILQ_NEXT (e : loc) : Q (option loc) := load (Next e).
Definition TAILQ_EMPTY (h : loc) : Q bool := a ← load (First h); mret (bool_decide (a = None)).
Definition TAILQ_INIT (h : loc) : Q unit := store (First h) None;; store_back (First h) (Some (First h)).

(** The elements that [TAILQ_FOREACH] visits, when its body leaves the queue alone. *)
Fixpoint foreach_from (fuel : nat) (var : option loc) : Q (list loc) :=
  match var, fuel with
  | None, _ => mret []
  | Some _, O => undef
  | Some e, S fuel' => n ← TAILQ_NEXT e; es ← foreach_from fuel' n; mret (e :: es)
  end.
Definition TAILQ_FOREACH (fuel : nat) (h : loc) : Q (list loc) := a ← TAILQ_FIRST h; foreach_from fuel a.

(** ** Tail queues *)

Definition TAILQ_INSERT_HEAD (h e : loc) : Q unit :=
  f ← load (First h);
  store (Next e) f;;
  (match f with
   | Some f => store_back (Next f) (Some (Next e))
   | None => store_back (First h) (Some (Next e))
   end);;
  store (First h) (Some e);;
  store_back (Next e) (Some (First h)).

Definition TAILQ_INSERT_TAIL (h e : loc) : Q unit :=
  store (Next e) None;;
  b ← load_back (First h);
  store_back (Next e) b;;
  c ← deref (First h);
  store c (Some e);;
  store_back (First h) (Some (Next e)).

Definition TAILQ_INSERT_AFTER (h listelm e : loc) : Q unit :=
  n ← TAILQ_NEXT listelm;
  store (Next e) n;;
  (match n with
   | Some n => store_back (Next n) (Some (Next e))
   | None => store_back (First h) (Some (Next e))
   end);;
  store (Next listelm) (Some e);;
  store_back (Next e) (Some (Next listelm)).

Definition TAILQ_INSERT_BEFORE (listelm e : loc) : Q unit :=
  b ← load_back (Next listelm);
  store_back (Next e) b;;
  store (Next e) (Some listelm);;
  c ← deref (Next listelm);
  store c (Some e);;
  store_back (Next listelm) (Some (Next e)).

Definition TAILQ_REMOVE (h e : loc) : Q unit :=
  n ← TAILQ_NEXT e;
  b ← load_back (Next e);
  (match n with
   | Some n => store_back (Next n) b
   | None => store_back (First h) b
   end);;
  c ← deref (Next e);
  n ← TAILQ_NEXT e;
  store c n.

Definition TAILQ_LAST (h : loc) : Q (option loc) := c ← deref (First h); c' ← deref c; load c'.
Definition TAILQ_PREV (e : loc) : Q (option loc) := c ← deref (Next e); c' ← deref c; load c'.

Definition TAILQ_CONCAT (h1 h2 : loc) : Q unit :=
  empty ← TAILQ_EMPTY h2;
  if (empty : bool) then mret ()
  else
    f ← TAILQ_FIRST h2;
    c ← deref (First h1);
    store c f;;
    f ← TAILQ_FIRST h2;
    f ← from_option_ub f;
    b ← load_back (First h1);
    store_back (Next f) b;;
    b ← load_back (First h2);
    store_back (First h1) b;;
    TAILQ_INIT h2.

(** [TAILQ_FOREACH_REVERSE] *)
Fixpoint reverse_from (fuel : nat) (var : option loc) : Q (list loc) :=
  match var, fuel with
  | None, _ => mret []
  | Some _, O => undef
  | Some e, S fuel' => p ← TAILQ_PREV e; es ← reverse_from fuel' p; mret (e :: es)
  end.
Definition TAILQ_FOREACH_REVERSE (fuel : nat) (h : loc) : Q (list loc) := a ← TAILQ_LAST h; reverse_from fuel a.

(** ** Singly-linked tail queues *)

Definition STAILQ_INSERT_HEAD (h e : loc) : Q unit :=
  f ← load (First h);
  store (Next e) f;;
  (match f with Some _ => mret () | None => store_back (First h) (Some (Next e)) end);;
  store (First h) (Some e).

Definition STAILQ_INSERT_TAIL (h e : loc) : Q unit :=
  store (Next e) None;;
  c ← deref (First h);
  store c (Some e);;
  store_back (First h) (Some (Next e)).

Definition STAILQ_INSERT_AFTER (h tqelm e : loc) : Q unit :=
  n ← TAILQ_NEXT tqelm;
  store (Next e) n;;
  (match n with Some _ => mret () | None => store_back (First h) (Some (Next e)) end);;
  store (Next tqelm) (Some e).

(** The address of the element that has the last pointer. *)
Definition STAILQ_LAST (h : loc) : Q (option loc) :=
  empty ← TAILQ_EMPTY h;
  if (empty : bool) then mret None
  else c ← deref (First h); match c with Next e => mret (Some e) | First _ => undef end.

Definition STAILQ_REMOVE_HEAD (h : loc) : Q unit :=
  f ← load (First h);
  f ← from_option_ub f;
  n ← TAILQ_NEXT f;
  store (First h) n;;
  (match n with Some _ => mret () | None => store_back (First h) (Some (First h)) end).

(** The search for the element before [e]. *)
Fixpoint find_before (fuel : nat) (e : loc) (curelm : option loc) : Q loc :=
  match fuel, curelm with
  | S fuel', Some c => n ← TAILQ_NEXT c; if decide (n = Some e) then mret c else find_before fuel' e n
  | _, _ => undef
  end.
Definition STAILQ_REMOVE (fuel : nat) (h e : loc) : Q unit :=
  f ← load (First h);
  if decide (f = Some e) then STAILQ_REMOVE_HEAD h
  else
    f ← load (First h);
    curelm ← find_before fuel e f;
    n ← TAILQ_NEXT curelm;
    n ← from_option_ub n;
    n ← TAILQ_NEXT n;
    store (Next curelm) n;;
    (match n with Some _ => mret () | None => store_back (First h) (Some (Next curelm)) end).

Definition STAILQ_CONCAT (h1 h2 : loc) : Q unit :=
  empty ← TAILQ_EMPTY h2;
  if (empty : bool) then mret ()
  else
    c ← deref (First h1);
    f ← TAILQ_FIRST h2;
    store c f;;
    b ← load_back (First h2);
    store_back (First h1) b;;
    TAILQ_INIT h2.
