(* ===== verification/QueueSpec.v ===== *)
(** * Queues are lists

    The macros of queue.h keep the lists that the models of their clients have: each macro on a
    queue in memory does what its list operation does, and touches nothing but the head, the
    element and the elements of the queue. *)

From S2P Require Import Prelude Queue.

Implicit Types (s : queue_mem) (h e : loc) (c x z : cell) (l : list loc) (d : bool).

(** ** Queues in memory *)

(** The cell whose pointer ends the list [l] that begins at [c]. *)
Fixpoint tail_of c l : cell := match l with [] => c | e :: l' => tail_of (Next e) l' end.

(** The elements [l] from the pointer [c] on; in a doubly linked queue ([d]) each has the
    address of the pointer to it. *)
Fixpoint seg d s c l : Prop :=
  match l with
  | [] => True
  | e :: l' => fwd s !! c = Some (Some e) ∧ (d = true → back s !! Next e = Some (Some c)) ∧ seg d s (Next e) l'
  end.

Definition cells_of h l : list cell := First h :: (Next <$> l).

Record queue d s h l : Prop := {
  q_nodup : NoDup l;
  q_seg : seg d s (First h) l;
  q_end : fwd s !! tail_of (First h) l = Some None;
  q_back : back s !! First h = Some (Some (tail_of (First h) l));
}.

(** [e] is an allocated element; what its pointers are does not matter. *)
Definition element d s e : Prop := is_Some (fwd s !! Next e) ∧ (d = true → is_Some (back s !! Next e)).

(** Nothing but [C] has changed, and what was allocated is. *)
Record touches (C : list cell) s s' : Prop := {
  t_fwd c : c ∉ C → fwd s' !! c = fwd s !! c;
  t_back c : c ∉ C → back s' !! c = back s !! c;
  t_alloc c : is_Some (fwd s !! c) → is_Some (fwd s' !! c);
  t_alloc_back c : is_Some (back s !! c) → is_Some (back s' !! c);
}.

Lemma touches_refl C s : touches C s s.
Proof. by split. Qed.
Lemma touches_fwd C s s' c v : touches C s s' → c ∈ C → touches C s (set_fwd c v s').
Proof.
  intros [Hf Hb Ha Hab] Hc. split; cbn; try done.
  - intros x Hx. rewrite lookup_insert_ne; [by apply Hf|set_solver].
  - intros x Hx. destruct (decide (x = c)) as [->|]; simplify_map_eq; eauto.
Qed.
Lemma touches_back C s s' c v : touches C s s' → c ∈ C → touches C s (set_back c v s').
Proof.
  intros [Hf Hb Ha Hab] Hc. split; cbn; try done.
  - intros x Hx. rewrite lookup_insert_ne; [by apply Hb|set_solver].
  - intros x Hx. destruct (decide (x = c)) as [->|]; simplify_map_eq; eauto.
Qed.
#[export] Hint Resolve touches_refl touches_fwd touches_back : queue.

(** ** Steps *)

Lemma load_ok c v s : fwd s !! c = Some v → load c s = Ok v s.
Proof. unfold load, get, mbind, M_bind. by intros ->. Qed.
Lemma store_ok c v s : is_Some (fwd s !! c) → store c v s = Ok () (set_fwd c v s).
Proof. unfold store, load, get, mbind, M_bind. by intros [w ->]. Qed.
Lemma load_back_ok c v s : back s !! c = Some v → load_back c s = Ok v s.
Proof. unfold load_back, get, mbind, M_bind. by intros ->. Qed.
Lemma store_back_ok c v s : is_Some (back s !! c) → store_back c v s = Ok () (set_back c v s).
Proof. unfold store_back, load_back, get, mbind, M_bind. by intros [w ->]. Qed.
Lemma deref_ok c z s : back s !! c = Some (Some z) → deref c s = Ok z s.
Proof. intros H. unfold deref. by erewrite bind_ok by (by apply load_back_ok). Qed.

(** ** Segments *)

Lemma tail_of_app c l1 l2 : tail_of c (l1 ++ l2) = tail_of (tail_of c l1) l2.
Proof. revert c. induction l1; cbn; eauto. Qed.

Lemma tail_of_in c l : tail_of c l ∈ c :: (Next <$> l).
Proof.
  revert c. induction l as [|e l IH]; intros c; cbn; [by left|]. right. apply IH.
Qed.

Lemma seg_app d s c l1 l2 : seg d s c (l1 ++ l2) ↔ seg d s c l1 ∧ seg d s (tail_of c l1) l2.
Proof. revert c. induction l1 as [|e l1 IH]; intros c; cbn; [tauto|]. rewrite IH. tauto. Qed.

(** A segment depends on the pointers of all of its cells but the last. *)
Lemma seg_ext d s s' c l :
  NoDup (c :: (Next <$> l)) →
  (∀ x, x ∈ c :: (Next <$> l) → x ≠ tail_of c l → fwd s' !! x = fwd s !! x) →
  (∀ e, e ∈ l → back s' !! Next e = back s !! Next e) →
  seg d s c l → seg d s' c l.
Proof.
  revert c. induction l as [|e l IH]; intros c Hnd Hf Hb; cbn; [done|]. intros (Hc & He & Hseg).
  apply NoDup_cons in Hnd as [Hnc Hnd]. cbn in Hnc, Hf. split_and!.
  - rewrite Hf; [done|by left|]. intros Heq. apply Hnc. rewrite Heq. apply tail_of_in.
  - intros Hd. rewrite Hb; [auto|by left].
  - apply IH; [done| | |done]; [intros x Hx; apply Hf; by right|intros x Hx; apply Hb; by right].
Qed.

Lemma elem_of_cells h l c : c ∈ cells_of h l ↔ c = First h ∨ ∃ e, c = Next e ∧ e ∈ l.
Proof. unfold cells_of. by rewrite elem_of_cons, list_elem_of_fmap. Qed.
Lemma cells_first h l : First h ∈ cells_of h l.
Proof. by left. Qed.
Lemma cells_next h l e : e ∈ l → Next e ∈ cells_of h l.
Proof. intros He. right. by apply list_elem_of_fmap_2. Qed.
Lemma cells_tail h l : tail_of (First h) l ∈ cells_of h l.
Proof. apply tail_of_in. Qed.
Lemma cells_sub h l l' c : c ∈ cells_of h l → (∀ e, e ∈ l → e ∈ l') → c ∈ cells_of h l'.
Proof. rewrite !elem_of_cells. naive_solver. Qed.
Lemma tail_not_next h l e : e ∉ l → tail_of (First h) l ≠ Next e.
Proof. intros He Heq. pose proof (cells_tail h l) as Hin. rewrite Heq in Hin. apply elem_of_cells in Hin. naive_solver. Qed.
#[export] Hint Resolve cells_first cells_next cells_tail tail_not_next : queue.

Lemma cells_nodup h l : NoDup l → NoDup (cells_of h l).
Proof.
  intros Hl. apply NoDup_cons. split; [|by apply NoDup_fmap; [apply _|]].
  intros (e & ? & _)%list_elem_of_fmap. done.
Qed.

(** What a macro does not touch is as before. *)
Lemma queue_frame d C s s' h l :
  touches C s s' → (∀ c, c ∈ C → c ∉ cells_of h l) → queue d s h l → queue d s' h l.
Proof.
  intros Ht Hsep [Hnd Hseg Hend Hback].
  assert (Hout : ∀ c, c ∈ cells_of h l → c ∉ C) by (intros c Hc Hx; by eapply Hsep).
  split; [done|..].
  - eapply seg_ext; [by apply cells_nodup|..|done].
    + intros x Hx _. by apply (t_fwd C s s'), Hout.
    + intros x Hx. apply (t_back C s s'); [done|]. apply Hout. right. by apply list_elem_of_fmap_2.
  - rewrite (t_fwd C s s'); [done|done|]. apply Hout, tail_of_in.
  - rewrite (t_back C s s'); [done|done|]. apply Hout. by left.
Qed.

Lemma queue_mono s h l : queue true s h l → queue false s h l.
Proof.
  intros [Hnd Hseg Hend Hback]. split; [done| |done|done]. revert Hseg. generalize (First h) as c.
  clear. induction l as [|e l IH]; intros c; cbn; [done|]. intros (? & _ & ?). by split_and!; [| |apply IH].
Qed.

(** ** The macros for tail queues *)

(** Looking up what was just stored, and running a step. *)
Ltac qlook :=
  cbn [fwd back set_fwd set_back];
  repeat first [rewrite lookup_insert_eq | rewrite lookup_insert_ne by (first [done | congruence | intros [= ->]; contradiction])]; eauto.
Ltac qstep :=
  first [ erewrite bind_ok by (apply load_ok; qlook)
        | erewrite bind_ok by (apply store_ok; qlook)
        | erewrite bind_ok by (apply load_back_ok; qlook)
        | erewrite bind_ok by (apply store_back_ok; qlook)
        | erewrite bind_ok by (apply deref_ok; qlook) ].

(** The cells touched. *)
Ltac touched :=
  repeat first [apply touches_back | apply touches_fwd | apply touches_refl];
  first [ apply cells_first | apply cells_next; set_solver | eapply cells_sub; [apply cells_tail | set_solver] ].

(** [m] turns the queue [l] of [h] into [l'], and touches the cells [C] only. *)
Definition makes d s (m : Q unit) h l' (C : list cell) : Prop :=
  ∃ s', m s = Ok () s' ∧ queue d s' h l' ∧ touches C s s'.

Lemma TAILQ_INIT_makes d s h : is_Some (fwd s !! First h) → is_Some (back s !! First h) → makes d s (TAILQ_INIT h) h [] [First h].
Proof.
  intros Hf Hb. eexists. split_and!.
  - unfold TAILQ_INIT. qstep. apply store_back_ok. by qlook.
  - split; [constructor|done|by qlook..].
  - eauto 10 with queue set_solver.
Qed.

(** *** Linking and unlinking an element *)

Lemma seg_head d s c l : seg d s c l → fwd s !! tail_of c l = Some None → fwd s !! c = Some (head l).
Proof. destruct l as [|e l]; [done|]. by intros [? _]. Qed.

Lemma tail_not_after h l1 l2 x : NoDup (l1 ++ l2) → x ∈ Next <$> l2 → x ≠ tail_of (First h) l1.
Proof.
  intros (_ & Hdis & _)%NoDup_app (e & -> & He)%list_elem_of_fmap Heq. symmetry in Heq. revert Heq.
  apply tail_not_next. intros Hin. by eapply Hdis.
Qed.

(** The pointers after [e] has been put between [l1] and [l2]. *)
Record linked d s s' h l1 e l2 : Prop := {
  in_fwd : fwd s' = <[tail_of (First h) l1 := Some e]> (<[Next e := head l2]> (fwd s));
  in_same e' : e' ∈ l1 ++ tail l2 → back s' !! Next e' = back s !! Next e';
  in_next n : d = true → head l2 = Some n → back s' !! Next n = Some (Some (Next e));
  in_prev : d = true → back s' !! Next e = Some (Some (tail_of (First h) l1));
  in_back : back s' !! First h = Some (Some (tail_of (Next e) l2));
}.

Lemma link_seg d s s' h l1 e l2 :
  queue d s h (l1 ++ l2) → e ∉ l1 ++ l2 → linked d s s' h l1 e l2 →
  seg d s' (Next e) l2 ∧ fwd s' !! tail_of (Next e) l2 = Some None.
Proof.
  intros [Hnd Hseg Hend Hback] He [Hf Hsame Hn Hp Hb].
  assert (Hz : tail_of (First h) l1 ≠ Next e) by (apply tail_not_next; set_solver).
  destruct l2 as [|n l2]; cbn in *; [by rewrite Hf, lookup_insert_ne, lookup_insert_eq by done|].
  apply seg_app in Hseg as [_ (_ & _ & Hseg)]. rewrite tail_of_app in Hend. cbn in Hend.
  assert (Hold : ∀ x, x ∈ Next n :: (Next <$> l2) → fwd s' !! x = fwd s !! x).
  { intros x Hx. rewrite Hf, !lookup_insert_ne; [done| |].
    - intros <-. apply (list_elem_of_fmap_1 Next (n :: l2)) in Hx as (e' & [= ->] & Hin). set_solver.
    - symmetry. by eapply tail_not_after. }
  split; [|by rewrite Hold by apply tail_of_in]. split_and!.
  - by rewrite Hf, lookup_insert_ne, lookup_insert_eq by done.
  - auto.
  - eapply seg_ext; [| |intros e' ?; apply Hsame; set_solver|done]; [|auto].
    apply (NoDup_fmap_2 Next (n :: l2)). by apply NoDup_app in Hnd as (_ & _ & ?).
Qed.

Lemma link_queue d s s' h l1 e l2 :
  queue d s h (l1 ++ l2) → e ∉ l1 ++ l2 → linked d s s' h l1 e l2 → queue d s' h (l1 ++ e :: l2).
Proof.
  intros Hq He Hl. destruct (link_seg _ _ _ _ _ _ _ Hq He Hl) as [Hseg2 Hend2].
  destruct Hq as [Hnd Hseg Hend Hback]. destruct Hl as [Hf Hsame Hn Hp Hb]. split.
  - apply NoDup_app in Hnd as (Hnd1 & Hdis & Hnd2). apply NoDup_app. split_and!; [done| |constructor]; set_solver.
  - apply seg_app in Hseg as [Hseg _]. apply seg_app. split; [|split_and!; [by rewrite Hf, lookup_insert_eq|done|done]].
    eapply seg_ext; [apply (cells_nodup h); by apply NoDup_app in Hnd as [? _]| |intros; apply Hsame; set_solver|exact Hseg].
    intros x Hx Hne. rewrite Hf, !lookup_insert_ne; [done| |done]. intros <-. apply elem_of_cells in Hx. set_solver.
  - by rewrite tail_of_app.
  - by rewrite tail_of_app.
Qed.

(** The pointers around an element, and after it has been taken out. *)
Lemma queue_around d s h l1 e l2 :
  queue d s h (l1 ++ e :: l2) →
  fwd s !! tail_of (First h) l1 = Some (Some e) ∧ (d = true → back s !! Next e = Some (Some (tail_of (First h) l1))) ∧
  fwd s !! Next e = Some (head l2).
Proof.
  intros [Hnd Hseg Hend Hback]. apply seg_app in Hseg as [_ (? & ? & Hseg)]. rewrite tail_of_app in Hend.
  split_and!; [done..|]. by eapply seg_head.
Qed.

Record unlinked d s s' h l1 l2 : Prop := {
  out_fwd : fwd s' = <[tail_of (First h) l1 := head l2]> (fwd s);
  out_same e' : e' ∈ l1 ++ tail l2 → back s' !! Next e' = back s !! Next e';
  out_next n : d = true → head l2 = Some n → back s' !! Next n = Some (Some (tail_of (First h) l1));
  out_back : back s' !! First h = Some (Some (tail_of (tail_of (First h) l1) l2));
}.

Lemma unlink_queue d s s' h l1 e l2 :
  queue d s h (l1 ++ e :: l2) → unlinked d s s' h l1 l2 → queue d s' h (l1 ++ l2).
Proof.
  intros [Hnd Hseg Hend Hback] [Hf Hsame Hn Hb].
  assert (Hnd' : NoDup (l1 ++ l2)) by (apply NoDup_app in Hnd as (? & ? & [? ?]%NoDup_cons); apply NoDup_app; set_solver).
  assert (Hold : ∀ x, x ∈ Next <$> l2 → fwd s' !! x = fwd s !! x).
  { intros x Hx. rewrite Hf, lookup_insert_ne; [done|]. symmetry. by eapply tail_not_after. }
  apply seg_app in Hseg as [Hseg1 (_ & _ & Hseg2)]. rewrite tail_of_app in Hend. cbn in Hend.
  split; [done| | |by rewrite tail_of_app].
  - apply seg_app. split.
    + eapply seg_ext; [apply (cells_nodup h); by apply NoDup_app in Hnd' as [? _]| |intros; apply Hsame; set_solver|exact Hseg1].
      intros x Hx Hne. by rewrite Hf, lookup_insert_ne.
    + destruct l2 as [|n l2]; [done|]. cbn in *. destruct Hseg2 as (_ & _ & Hseg2). split_and!; [by rewrite Hf, lookup_insert_eq|auto|].
      eapply seg_ext; [|intros; by apply Hold|intros; apply Hsame; set_solver|done].
      apply (NoDup_fmap_2 Next (n :: l2)). by apply NoDup_app in Hnd' as (_ & _ & ?).
  - rewrite tail_of_app. destruct l2 as [|n l2]; cbn in *; [by rewrite Hf, lookup_insert_eq|]. rewrite Hold; [done|]. apply tail_of_in.
Qed.

(** *** The macros *)

Lemma TAILQ_INSERT_TAIL_makes s h l e :
  queue true s h l → e ∉ l → element true s e → makes true s (TAILQ_INSERT_TAIL h e) h (l ++ [e]) (cells_of h (e :: l)).
Proof.
  intros Hq He [Hf Hb]. pose proof Hq as [Hnd Hseg Hend Hback]. specialize (Hb eq_refl).
  pose proof (tail_not_next h l e He) as Hz. eexists. split_and!.
  - unfold TAILQ_INSERT_TAIL. qstep. qstep. qstep. qstep. qstep. apply store_back_ok. by qlook.
  - eapply link_queue; [by rewrite app_nil_r|by rewrite app_nil_r|]. split; [done|intros e'; rewrite app_nil_r; intros; qlook|done|intros; qlook..].
  - touched.
Qed.

Lemma TAILQ_INSERT_HEAD_makes s h l e :
  queue true s h l → e ∉ l → element true s e → makes true s (TAILQ_INSERT_HEAD h e) h (e :: l) (cells_of h (e :: l)).
Proof.
  intros Hq He [Hf Hb]. pose proof Hq as [Hnd Hseg Hend Hback]. specialize (Hb eq_refl).
  pose proof (seg_head _ _ _ _ Hseg Hend) as Hh. destruct l as [|f l]; cbn in *.
  - eexists. split_and!.
    + unfold TAILQ_INSERT_HEAD. qstep. qstep. qstep. qstep. apply store_back_ok. by qlook.
    + apply (link_queue true s _ h [] e []); [done|done|]. split; [done|intros; qlook|done|intros; qlook..].
    + touched.
  - destruct Hseg as (Hfst & Hfb & Hseg). specialize (Hfb eq_refl). apply not_elem_of_cons in He as [Hne He].
    apply NoDup_cons in Hnd as [Hfl Hnd]. eexists. split_and!.
    + unfold TAILQ_INSERT_HEAD. qstep. qstep. qstep. qstep. apply store_back_ok. by qlook.
    + apply (link_queue true s _ h [] e (f :: l)); [done|cbn; by apply not_elem_of_cons|].
      split; [done|cbn; intros; qlook|intros n _ [= <-]; qlook|intros; qlook..].
    + touched.
Qed.

(** The facts about the elements of a queue that tell cells apart. *)
Lemma apart l1 le l2 e :
  NoDup (l1 ++ le :: l2) → e ∉ l1 ++ le :: l2 →
  e ≠ le ∧ e ∉ l1 ∧ e ∉ l2 ∧ le ∉ l1 ∧ le ∉ l2 ∧ (∀ e', e' ∈ l1 → e' ∉ l2) ∧ NoDup l2.
Proof.
  intros (Hnd1 & Hdis & [Hle Hnd2]%NoDup_cons)%NoDup_app [H1 [Hne H2]%not_elem_of_cons]%not_elem_of_app.
  split_and!; try done; [intros Hin; apply (Hdis _ Hin); by left|]. intros e' Hin Hin'. apply (Hdis _ Hin). by right.
Qed.

Lemma TAILQ_INSERT_AFTER_makes s h l1 le l2 e :
  queue true s h (l1 ++ le :: l2) → e ∉ l1 ++ le :: l2 → element true s e →
  makes true s (TAILQ_INSERT_AFTER h le e) h (l1 ++ le :: e :: l2) (cells_of h (e :: l1 ++ le :: l2)).
Proof.
  intros Hq He [Hf Hb]. specialize (Hb eq_refl). destruct (queue_around _ _ _ _ _ _ Hq) as (Hp & Hpb & Hn). specialize (Hpb eq_refl).
  pose proof Hq as [Hnd Hseg Hend Hback]. destruct (apart _ _ _ _ Hnd He) as (Hne & He1 & He2 & Hle1 & Hle2 & Hdis & Hnd2).
  assert (Hq' : queue true s h ((l1 ++ [le]) ++ l2)) by by rewrite <- app_assoc.
  assert (Ht : tail_of (First h) (l1 ++ [le]) = Next le) by by rewrite tail_of_app.
  replace (l1 ++ le :: e :: l2) with ((l1 ++ [le]) ++ e :: l2) by by rewrite <- app_assoc.
  assert (He' : e ∉ (l1 ++ [le]) ++ l2) by (rewrite <- app_assoc; done).
  apply seg_app in Hseg as (_ & _ & _ & Hseg). destruct l2 as [|n l2].
  - eexists. split_and!.
    + unfold TAILQ_INSERT_AFTER, TAILQ_NEXT. qstep. qstep. qstep. qstep. apply store_back_ok. by qlook.
    + eapply link_queue; [done|done|]. split; [by rewrite Ht| |done|rewrite ?Ht; intros; qlook..].
      intros e' Hin. rewrite app_nil_r in Hin. rewrite app_nil_r in He'. qlook.
    + touched.
  - cbn in Hseg. destruct Hseg as (_ & Hnb & Hseg). specialize (Hnb eq_refl). apply not_elem_of_cons in He2 as [Hen He2].
    apply not_elem_of_cons in Hle2 as [Hlen Hle2]. apply NoDup_cons in Hnd2 as [Hnl Hnd2]. eexists. split_and!.
    + unfold TAILQ_INSERT_AFTER, TAILQ_NEXT. qstep. qstep. qstep. qstep. apply store_back_ok. by qlook.
    + eapply link_queue; [done|done|]. split; [by rewrite Ht| |intros ? _ [= <-]; qlook|rewrite ?Ht; intros; qlook..].
      * cbn. intros e' Hin. assert (e' ≠ e) by (intros ->; set_solver). assert (e' ≠ n) by (intros ->; set_solver). by qlook.
      * rewrite Hback, tail_of_app. done.
    + touched.
Qed.

Lemma TAILQ_INSERT_BEFORE_makes s h l1 le l2 e :
  queue true s h (l1 ++ le :: l2) → e ∉ l1 ++ le :: l2 → element true s e →
  makes true s (TAILQ_INSERT_BEFORE le e) h (l1 ++ e :: le :: l2) (cells_of h (e :: l1 ++ le :: l2)).
Proof.
  intros Hq He [Hf Hb]. specialize (Hb eq_refl). destruct (queue_around _ _ _ _ _ _ Hq) as (Hp & Hpb & Hn). specialize (Hpb eq_refl).
  pose proof Hq as [Hnd Hseg Hend Hback]. destruct (apart _ _ _ _ Hnd He) as (Hne & He1 & He2 & Hle1 & Hle2 & Hdis & Hnd2).
  pose proof (tail_not_next h l1 e He1) as Hz. eexists. split_and!.
  - unfold TAILQ_INSERT_BEFORE. qstep. qstep. qstep. qstep. qstep. apply store_back_ok. by qlook.
  - eapply link_queue; [done|done|]. split; [done| |intros ? _ [= <-]; qlook|intros; qlook..].
    + cbn. intros e' Hin. assert (e' ≠ e) by (intros ->; set_solver). assert (e' ≠ le) by (intros ->; set_solver). by qlook.
    + rewrite Hback, tail_of_app. done.
  - repeat first [apply touches_back | apply touches_fwd | apply touches_refl];
      first [apply cells_first | apply cells_next; set_solver | eapply cells_sub; [apply cells_tail|set_solver]].
Qed.

Lemma TAILQ_REMOVE_makes s h l1 e l2 :
  queue true s h (l1 ++ e :: l2) → makes true s (TAILQ_REMOVE h e) h (l1 ++ l2) (cells_of h (l1 ++ e :: l2)).
Proof.
  intros Hq. destruct (queue_around _ _ _ _ _ _ Hq) as (Hp & Hpb & Hn). specialize (Hpb eq_refl).
  pose proof Hq as [Hnd Hseg Hend Hback]. apply NoDup_app in Hnd as (Hnd1 & Hdis & [He2 Hnd2]%NoDup_cons).
  apply seg_app in Hseg as (_ & _ & _ & Hseg). destruct l2 as [|n l2].
  - eexists. split_and!.
    + unfold TAILQ_REMOVE, TAILQ_NEXT. qstep. qstep. qstep. qstep. qstep. apply store_ok. by qlook.
    + eapply unlink_queue; [done|]. split; [done|intros; qlook|done|qlook].
    + touched.
  - cbn in Hseg. destruct Hseg as (_ & Hnb & Hseg). specialize (Hnb eq_refl). apply not_elem_of_cons in He2 as [Hen He2].
    apply NoDup_cons in Hnd2 as [Hnl Hnd2]. eexists. split_and!.
    + unfold TAILQ_REMOVE, TAILQ_NEXT. qstep. qstep. qstep. qstep. qstep. apply store_ok. by qlook.
    + eapply unlink_queue; [done|]. split; [done| |intros ? _ [= <-]; qlook|].
      * cbn. intros e' Hin. assert (e' ≠ n) by (intros ->; set_solver). by qlook.
      * qlook. by rewrite Hback, tail_of_app.
    + touched.
Qed.

(** The pointers after the queue [f :: l2] has been put behind [l1]. *)
Record joined d s s' h1 h2 l1 f l2 : Prop := {
  jn_fwd : fwd s' = <[First h2 := None]> (<[tail_of (First h1) l1 := Some f]> (fwd s));
  jn_same e' : e' ∈ l1 ++ l2 → back s' !! Next e' = back s !! Next e';
  jn_next : d = true → back s' !! Next f = Some (Some (tail_of (First h1) l1));
  jn_back : back s' !! First h1 = Some (Some (tail_of (Next f) l2));
  jn_empty : back s' !! First h2 = Some (Some (First h2));
}.

Lemma join_queue d s s' h1 h2 l1 f l2 :
  queue d s h1 l1 → queue d s h2 (f :: l2) → h1 ≠ h2 → (∀ e, e ∈ l1 → e ∉ f :: l2) → joined d s s' h1 h2 l1 f l2 →
  queue d s' h1 (l1 ++ f :: l2) ∧ queue d s' h2 [].
Proof.
  intros [Hnd1 Hseg1 Hend1 Hback1] [Hnd2 Hseg2 Hend2 Hback2] Hh Hdis [Hf Hsame Hn Hb1 Hb2].
  assert (Hnd : NoDup (l1 ++ f :: l2)) by by apply NoDup_app.
  assert (Hold : ∀ x, x ∈ Next <$> (f :: l2) → fwd s' !! x = fwd s !! x).
  { intros x Hx. rewrite Hf, !lookup_insert_ne; [done| |].
    - symmetry. by eapply tail_not_after.
    - intros <-. by apply list_elem_of_fmap in Hx as (? & ? & _). }
  assert (Hz : First h2 ≠ tail_of (First h1) l1).
  { intros Heq. pose proof (cells_tail h1 l1) as Hin. rewrite <- Heq in Hin. apply elem_of_cells in Hin. naive_solver. }
  split; split; try done.
  - apply seg_app. split.
    + eapply seg_ext; [by apply (cells_nodup h1)| |intros; apply Hsame; set_solver|exact Hseg1].
      intros x Hx Hne. rewrite Hf, !lookup_insert_ne; [done|done|]. intros <-. apply elem_of_cells in Hx. naive_solver.
    + destruct Hseg2 as (_ & _ & Hseg2). split_and!; [by rewrite Hf, lookup_insert_ne, lookup_insert_eq|done|].
      eapply seg_ext; [|intros; by apply Hold|intros; apply Hsame; set_solver|done]. by apply (NoDup_fmap_2 Next (f :: l2)).
  - rewrite tail_of_app. cbn. rewrite Hold by apply tail_of_in. done.
  - by rewrite tail_of_app.
  - constructor.
  - cbn. by rewrite Hf, lookup_insert_eq.
Qed.

Lemma TAILQ_EMPTY_run d s h l : queue d s h l → TAILQ_EMPTY h s = Ok (bool_decide (head l = None)) s.
Proof. intros [Hnd Hseg Hend Hback]. pose proof (seg_head _ _ _ _ Hseg Hend) as Hf. unfold TAILQ_EMPTY. by qstep. Qed.

Lemma TAILQ_CONCAT_makes s h1 h2 l1 l2 :
  queue true s h1 l1 → queue true s h2 l2 → h1 ≠ h2 → (∀ e, e ∈ l1 → e ∉ l2) →
  ∃ s', TAILQ_CONCAT h1 h2 s = Ok () s' ∧ (queue true s' h1 (l1 ++ l2) ∧ queue true s' h2 []) ∧
    touches (First h2 :: cells_of h1 (l1 ++ l2)) s s'.
Proof.
  intros Hq1 Hq2 Hh Hdis. unfold TAILQ_CONCAT. mstep using (TAILQ_EMPTY_run _ _ _ _ Hq2). destruct l2 as [|f l2].
  { exists s. rewrite app_nil_r. split_and!; [done..|apply touches_refl]. }
  pose proof Hq1 as [_ _ Hend1 Hback1]. pose proof Hq2 as [_ (Hfst & Hfb & _) _ Hback2]. cbn in Hfst, Hback2. specialize (Hfb eq_refl).
  assert (Hf1 : f ∉ l1) by (intros Hin; apply (Hdis _ Hin); by left).
  assert (Hz : First h2 ≠ tail_of (First h1) l1).
  { intros Heq. pose proof (cells_tail h1 l1) as Hin. rewrite <- Heq in Hin. apply elem_of_cells in Hin. naive_solver. }
  cbn [head]. rewrite bool_decide_false by done. eexists. split; [|split].
  - unfold TAILQ_FIRST. qstep. qstep. qstep. qstep. mstep. qstep. qstep. qstep. qstep.
    unfold TAILQ_INIT. qstep. apply store_back_ok. by qlook.
  - eapply join_queue; [done..|]. pose proof (q_nodup _ _ _ _ Hq2) as [Hfl _]%NoDup_cons. split; [done| |intros _; qlook|qlook|qlook].
    intros e' Hin. assert (e' ≠ f) by (intros ->; set_solver). by qlook.
  - repeat first [apply touches_back | apply touches_fwd | apply touches_refl]; try by left.
    all: right; first [ apply cells_first | apply cells_next; set_solver | eapply cells_sub; [apply cells_tail | set_solver] ].
Qed.

(** *** What is read *)

Lemma TAILQ_FIRST_run d s h l : queue d s h l → TAILQ_FIRST h s = Ok (head l) s.
Proof. intros [Hnd Hseg Hend Hback]. by apply load_ok, (seg_head d _ _ l). Qed.

Lemma TAILQ_NEXT_run d s h l1 e l2 : queue d s h (l1 ++ e :: l2) → TAILQ_NEXT e s = Ok (head l2) s.
Proof. intros Hq. by apply load_ok, (queue_around d s h l1 e l2). Qed.

Lemma foreach_run d s h l1 l2 fuel : queue d s h (l1 ++ l2) → (length l2 <= fuel)%nat → foreach_from fuel (head l2) s = Ok l2 s.
Proof.
  revert l1 fuel. induction l2 as [|e l2 IH]; intros l1 fuel Hq Hf; [by destruct fuel|]. cbn in Hf. destruct fuel as [|fuel]; [lia|].
  cbn [foreach_from head]. mstep using (TAILQ_NEXT_run _ _ _ _ _ _ Hq). assert (Hq' : queue d s h ((l1 ++ [e]) ++ l2)) by by rewrite <- app_assoc.
  by mstep using (IH _ fuel Hq' ltac:(lia)).
Qed.

(** [TAILQ_LAST] and [TAILQ_PREV] take an element for a head. *)
Lemma TAILQ_LAST_run s h l : queue true s h l → TAILQ_LAST h s = Ok (last l) s.
Proof.
  intros Hq. pose proof Hq as [_ _ Hend Hback]. unfold TAILQ_LAST. destruct l as [|e l _] using rev_ind.
  - cbn in *. qstep. qstep. by apply load_ok.
  - destruct (queue_around _ _ _ _ _ _ Hq) as (Hp & Hpb & _). specialize (Hpb eq_refl). rewrite tail_of_app in Hback. cbn in Hback.
    qstep. qstep. rewrite last_snoc. by apply load_ok.
Qed.

Lemma TAILQ_PREV_run s h l1 e l2 : queue true s h (l1 ++ e :: l2) → TAILQ_PREV e s = Ok (last l1) s.
Proof.
  intros Hq. unfold TAILQ_PREV. destruct (queue_around _ _ _ _ _ _ Hq) as (_ & Hpb & _). specialize (Hpb eq_refl).
  destruct l1 as [|p l1 _] using rev_ind.
  - destruct Hq as [_ _ Hend Hback]. cbn in *. qstep. qstep. by apply load_ok.
  - rewrite <- app_assoc in Hq. destruct (queue_around _ _ _ _ _ _ Hq) as (Hp & Hpb' & _). specialize (Hpb' eq_refl).
    rewrite tail_of_app in Hpb. cbn in Hpb. qstep. qstep. rewrite last_snoc. by apply load_ok.
Qed.

Lemma reverse_run s h l1 l2 fuel :
  queue true s h (l1 ++ l2) → (length l1 <= fuel)%nat → reverse_from fuel (last l1) s = Ok (rev l1) s.
Proof.
  revert l2 fuel. induction l1 as [|e l1 IH] using rev_ind; intros l2 fuel Hq Hf; [by destruct fuel|].
  rewrite length_app in Hf. cbn in Hf. destruct fuel as [|fuel]; [lia|]. rewrite <- app_assoc in Hq. cbn in Hq.
  rewrite last_snoc, rev_app_distr. cbn [reverse_from rev app]. mstep using (TAILQ_PREV_run _ _ _ _ _ Hq). by mstep using (IH _ fuel Hq ltac:(lia)).
Qed.

(** ** The macros for singly-linked tail queues *)

Lemma STAILQ_INSERT_TAIL_makes s h l e :
  queue false s h l → e ∉ l → element false s e → makes false s (STAILQ_INSERT_TAIL h e) h (l ++ [e]) (cells_of h (e :: l)).
Proof.
  intros Hq He [Hf _]. pose proof Hq as [Hnd Hseg Hend Hback]. pose proof (tail_not_next h l e He) as Hz. eexists. split_and!.
  - unfold STAILQ_INSERT_TAIL. qstep. qstep. qstep. apply store_back_ok. by qlook.
  - eapply link_queue; [by rewrite app_nil_r|by rewrite app_nil_r|]. split; [done|intros; qlook|done|done|qlook].
  - touched.
Qed.

Lemma STAILQ_INSERT_HEAD_makes s h l e :
  queue false s h l → e ∉ l → element false s e → makes false s (STAILQ_INSERT_HEAD h e) h (e :: l) (cells_of h (e :: l)).
Proof.
  intros Hq He [Hf _]. pose proof Hq as [Hnd Hseg Hend Hback]. pose proof (seg_head _ _ _ _ Hseg Hend) as Hh.
  destruct l as [|f l]; cbn in *; (eexists; split; [unfold STAILQ_INSERT_HEAD; qstep; qstep|split]).
  - qstep. apply store_ok. by qlook.
  - apply (link_queue false s _ h [] e []); [done|done|]. split; [done|intros; qlook|done|done|qlook].
  - touched.
  - mstep. apply store_ok. by qlook.
  - apply (link_queue false s _ h [] e (f :: l)); [done|done|]. split; [done|intros; qlook|done|done|qlook].
  - touched.
Qed.

Lemma STAILQ_INSERT_AFTER_makes s h l1 le l2 e :
  queue false s h (l1 ++ le :: l2) → e ∉ l1 ++ le :: l2 → element false s e →
  makes false s (STAILQ_INSERT_AFTER h le e) h (l1 ++ le :: e :: l2) (cells_of h (e :: l1 ++ le :: l2)).
Proof.
  intros Hq He [Hf _]. destruct (queue_around _ _ _ _ _ _ Hq) as (Hp & _ & Hn).
  pose proof Hq as [Hnd Hseg Hend Hback]. destruct (apart _ _ _ _ Hnd He) as (Hne & _).
  assert (Hq' : queue false s h ((l1 ++ [le]) ++ l2)) by by rewrite <- app_assoc.
  assert (Ht : tail_of (First h) (l1 ++ [le]) = Next le) by by rewrite tail_of_app.
  replace (l1 ++ le :: e :: l2) with ((l1 ++ [le]) ++ e :: l2) by by rewrite <- app_assoc.
  assert (He' : e ∉ (l1 ++ [le]) ++ l2) by (rewrite <- app_assoc; done).
  destruct l2 as [|n l2]; (eexists; split; [unfold STAILQ_INSERT_AFTER, TAILQ_NEXT; qstep; qstep|split]).
  - qstep. apply store_ok. by qlook.
  - eapply link_queue; [done|done|]. split; [by rewrite Ht|intros; qlook|done|done|qlook].
  - touched.
  - mstep. apply store_ok. by qlook.
  - eapply link_queue; [done|done|]. split; [by rewrite Ht|intros; qlook|done|done|qlook]. by rewrite Hback, tail_of_app.
  - touched.
Qed.

Lemma STAILQ_LAST_run s h l : queue false s h l → STAILQ_LAST h s = Ok (last l) s.
Proof.
  intros Hq. pose proof Hq as [_ _ Hend Hback]. unfold STAILQ_LAST. mstep using (TAILQ_EMPTY_run _ _ _ _ Hq).
  destruct l as [|e l _] using rev_ind; [done|]. rewrite bool_decide_false by (by destruct l). rewrite tail_of_app in Hback. cbn in Hback.
  qstep. by rewrite last_snoc.
Qed.

Lemma STAILQ_REMOVE_HEAD_makes s h e l :
  queue false s h (e :: l) → makes false s (STAILQ_REMOVE_HEAD h) h l (cells_of h (e :: l)).
Proof.
  intros Hq. destruct (queue_around false s h [] e l Hq) as (Hp & _ & Hn). cbn in Hp.
  pose proof Hq as [Hnd Hseg Hend Hback]. unfold makes.
  destruct l as [|n l]; (eexists; split; [unfold STAILQ_REMOVE_HEAD, TAILQ_NEXT; qstep; mstep; qstep; qstep|split]).
  - apply store_back_ok. by qlook.
  - apply (unlink_queue false s _ h [] e []); [done|]. split; [done|intros; qlook|done|qlook].
  - touched.
  - done.
  - apply (unlink_queue false s _ h [] e (n :: l)); [done|]. split; [done|intros; qlook|done|qlook].
  - touched.
Qed.

(** The search stops at the element before. *)
Lemma find_before_run s h l0 l1 p e l2 fuel :
  queue false s h (l0 ++ l1 ++ p :: e :: l2) → (length l1 < fuel)%nat →
  find_before fuel e (head (l1 ++ [p])) s = Ok p s.
Proof.
  revert l0 fuel. induction l1 as [|x l1 IH]; intros l0 fuel Hq Hf; (destruct fuel as [|fuel]; [cbn in Hf; lia|]); cbn [find_before app head].
  - mstep using (TAILQ_NEXT_run _ _ _ _ _ _ Hq). cbn [head]. by rewrite decide_True.
  - cbn in Hq, Hf. mstep using (TAILQ_NEXT_run _ _ _ _ _ _ Hq).
    assert (Hq' : queue false s h ((l0 ++ [x]) ++ l1 ++ p :: e :: l2)) by by rewrite <- app_assoc.
    rewrite decide_False.
    + replace (head (l1 ++ p :: e :: l2)) with (head (l1 ++ [p])) by by destruct l1. apply (IH _ fuel Hq'). lia.
    + pose proof (q_nodup _ _ _ _ Hq') as (_ & _ & Hnd)%NoDup_app. destruct l1 as [|y l1]; intros [= ->].
      * apply NoDup_cons in Hnd as [Hin _]. apply Hin. by left.
      * apply NoDup_cons in Hnd as [Hin _]. apply Hin. set_solver.
Qed.

Lemma STAILQ_REMOVE_makes s h l1 e l2 fuel :
  queue false s h (l1 ++ e :: l2) → (length l1 <= fuel)%nat →
  makes false s (STAILQ_REMOVE fuel h e) h (l1 ++ l2) (cells_of h (l1 ++ e :: l2)).
Proof.
  intros Hq Hfuel. pose proof (TAILQ_FIRST_run _ _ _ _ Hq) as Hf. unfold TAILQ_FIRST in Hf. unfold makes, STAILQ_REMOVE.
  mstep using Hf. destruct l1 as [|p l1 _] using rev_ind.
  { cbn. rewrite decide_True by done. by apply STAILQ_REMOVE_HEAD_makes. }
  rewrite length_app in Hfuel. cbn in Hfuel. pose proof Hq as [Hnd Hseg Hend Hback].
  assert (Hp : p ≠ e ∧ head ((l1 ++ [p]) ++ e :: l2) ≠ Some e).
  { apply NoDup_app in Hnd as (_ & Hdis & _). split; [intros ->; apply (Hdis e); set_solver|].
    intros Hh. apply (Hdis e); [|by left]. destruct l1; cbn in Hh; injection Hh as ->; by left. }
  destruct Hp as [Hpe Hh]. rewrite decide_False by done. mstep using Hf. clear Hf.
  replace (head ((l1 ++ [p]) ++ e :: l2)) with (head (l1 ++ [p])) by by destruct l1.
  destruct (queue_around _ _ _ _ _ _ Hq) as (Hpn & _ & Hn). rewrite tail_of_app in Hpn. cbn in Hpn.
  assert (Hq' : queue false s h ([] ++ l1 ++ p :: e :: l2)) by (cbn; by rewrite <- app_assoc in Hq).
  mstep using (find_before_run s h [] l1 p e l2 fuel Hq' ltac:(lia)).
  assert (Ht : tail_of (First h) (l1 ++ [p]) = Next p) by by rewrite tail_of_app.
  destruct l2 as [|n l2]; (eexists; split; [unfold TAILQ_NEXT; qstep; mstep; qstep; qstep|split]).
  - apply store_back_ok. by qlook.
  - eapply unlink_queue; [done|]. split; [by rewrite Ht|intros; qlook|done|rewrite Ht; qlook].
  - touched.
  - done.
  - eapply unlink_queue; [done|]. split; [by rewrite Ht|intros; qlook|done|qlook]. by rewrite Hback, tail_of_app.
  - touched.
Qed.

Lemma STAILQ_CONCAT_makes s h1 h2 l1 l2 :
  queue false s h1 l1 → queue false s h2 l2 → h1 ≠ h2 → (∀ e, e ∈ l1 → e ∉ l2) →
  ∃ s', STAILQ_CONCAT h1 h2 s = Ok () s' ∧ (queue false s' h1 (l1 ++ l2) ∧ queue false s' h2 []) ∧
    touches (First h2 :: cells_of h1 (l1 ++ l2)) s s'.
Proof.
  intros Hq1 Hq2 Hh Hdis. unfold STAILQ_CONCAT. mstep using (TAILQ_EMPTY_run _ _ _ _ Hq2). destruct l2 as [|f l2].
  { exists s. rewrite app_nil_r. split_and!; [done..|apply touches_refl]. }
  pose proof Hq1 as [_ _ Hend1 Hback1]. pose proof Hq2 as [_ (Hfst & _ & _) _ Hback2]. cbn in Hfst, Hback2.
  cbn [head]. rewrite bool_decide_false by done. eexists. split; [|split].
  - unfold TAILQ_FIRST. qstep. qstep. qstep. qstep. qstep. unfold TAILQ_INIT. qstep. apply store_back_ok. by qlook.
  - eapply join_queue; [done..|]. split; [done|intros; qlook|done|qlook|qlook].
  - repeat first [apply touches_back | apply touches_fwd | apply touches_refl]; try by left.
    all: right; first [ apply cells_first | eapply cells_sub; [apply cells_tail | set_solver] ].
Qed.

(** ** A memory of queues

    Any sequence of macros that a program may use, on any number of queues, does what the same
    operations on lists do: an abstract state is a map from heads to lists, and the memory
    simulates it. *)

Implicit Types (qs : gmap loc (list loc)).

(** *** The operations *)

Inductive queue_op :=
| Init (h : loc)
| InsertHead (h e : loc)
| InsertTail (h e : loc)
| InsertAfter (h le e : loc)
| InsertBefore (h le e : loc)
| Remove (h e : loc)
| RemoveHead (h : loc)
| Concat (h1 h2 : loc).

Section sim.
(** The heads and the elements that are allocated. *)
Context (heads elems : gset loc).

Definition tailq_run (op : queue_op) : Q unit :=
  match op with
  | Init h => TAILQ_INIT h
  | InsertHead h e => TAILQ_INSERT_HEAD h e
  | InsertTail h e => TAILQ_INSERT_TAIL h e
  | InsertAfter h le e => TAILQ_INSERT_AFTER h le e
  | InsertBefore h le e => TAILQ_INSERT_BEFORE le e
  | Remove h e => TAILQ_REMOVE h e
  | RemoveHead h => f ← TAILQ_FIRST h; f ← from_option_ub f; TAILQ_REMOVE h f
  | Concat h1 h2 => TAILQ_CONCAT h1 h2
  end.

Definition stailq_run (op : queue_op) : Q unit :=
  match op with
  | Init h => TAILQ_INIT h
  | InsertHead h e => STAILQ_INSERT_HEAD h e
  | InsertTail h e => STAILQ_INSERT_TAIL h e
  | InsertAfter h le e => STAILQ_INSERT_AFTER h le e
  | InsertBefore h le e => undef                        (* there is no such macro *)
  | Remove h e => STAILQ_REMOVE (size elems) h e
  | RemoveHead h => STAILQ_REMOVE_HEAD h
  | Concat h1 h2 => STAILQ_CONCAT h1 h2
  end.
Definition queue_run (d : bool) (op : queue_op) : Q unit := if d then tailq_run op else stailq_run op.
Fixpoint queue_runs (d : bool) (ops : list queue_op) : Q unit :=
  match ops with [] => mret () | op :: ops' => queue_run d op;; queue_runs d ops' end.

(** *** What they do to lists *)

Fixpoint cut (e : loc) (l : list loc) : option (list loc * list loc) :=
  match l with
  | [] => None
  | x :: l' => if decide (x = e) then Some ([], l') else '(l1, l2) ← cut e l'; Some (x :: l1, l2)
  end.

(** An allocated element that is in no queue. *)
Definition loose (qs : gmap loc (list loc)) (e : loc) : Prop := e ∈ elems ∧ map_Forall (λ _ l, e ∉ l) qs.

Definition queue_spec (d : bool) (op : queue_op) (qs : gmap loc (list loc)) : option (gmap loc (list loc)) :=
  match op with
  | Init h => guard (h ∈ heads);; Some (<[h := []]> qs)
  | InsertHead h e => l ← qs !! h; guard (loose qs e);; Some (<[h := e :: l]> qs)
  | InsertTail h e => l ← qs !! h; guard (loose qs e);; Some (<[h := l ++ [e]]> qs)
  | InsertAfter h le e =>
      l ← qs !! h; guard (loose qs e);; '(l1, l2) ← cut le l; Some (<[h := l1 ++ le :: e :: l2]> qs)
  | InsertBefore h le e =>
      guard (d = true);; l ← qs !! h; guard (loose qs e);; '(l1, l2) ← cut le l; Some (<[h := l1 ++ e :: le :: l2]> qs)
  | Remove h e => l ← qs !! h; '(l1, l2) ← cut e l; Some (<[h := l1 ++ l2]> qs)
  | RemoveHead h => l ← qs !! h; match l with [] => None | _ :: l' => Some (<[h := l']> qs) end
  | Concat h1 h2 =>
      guard (h1 ≠ h2);; l1 ← qs !! h1; l2 ← qs !! h2; Some (<[h2 := []]> (<[h1 := l1 ++ l2]> qs))
  end.
Fixpoint queue_specs (d : bool) (ops : list queue_op) (qs : gmap loc (list loc)) : option (gmap loc (list loc)) :=
  match ops with [] => Some qs | op :: ops' => qs' ← queue_spec d op qs; queue_specs d ops' qs' end.

(** *** The simulation *)

Record queues d s qs : Prop := {
  qs_each h l : qs !! h = Some l → queue d s h l;
  qs_apart h1 h2 l1 l2 e : qs !! h1 = Some l1 → qs !! h2 = Some l2 → e ∈ l1 → e ∈ l2 → h1 = h2;
  qs_elems h l e : qs !! h = Some l → e ∈ l → e ∈ elems;
  qs_heads h : h ∈ heads → is_Some (fwd s !! First h) ∧ is_Some (back s !! First h);
  qs_alloc e : e ∈ elems → element d s e;
}.

(** No other queue than that of [h] has [e]. *)
Definition mine qs h e : Prop := e ∈ elems ∧ ∀ h' l', h' ≠ h → qs !! h' = Some l' → e ∉ l'.

Lemma mine_in d s qs h l e : queues d s qs → qs !! h = Some l → e ∈ l → mine qs h e.
Proof. intros Hqs Hl He. split; [by eapply qs_elems|]. intros h' l' Hne Hl' Hin. apply Hne. by eapply qs_apart. Qed.
Lemma mine_loose qs h e : loose qs e → mine qs h e.
Proof. intros [He Hl]. split; [done|]. intros h' l' _ Hl'. by eapply Hl. Qed.

Lemma queues_update d s s' qs h l' L C :
  queues d s qs → queue d s' h l' → touches C s s' →
  (∀ c, c ∈ C → c ∈ cells_of h L ∨ ∃ h', c = First h' ∧ qs !! h' = None) →
  (∀ e, e ∈ L → mine qs h e) → (∀ e, e ∈ l' → e ∈ L) → queues d s' (<[h := l']> qs).
Proof.
  intros [Heach Hapart Helems Hheads Halloc] Hq Ht HC Hmine Hsub.
  assert (Hother : ∀ h' l1 e, h' ≠ h → qs !! h' = Some l1 → e ∈ l1 → e ∉ l').
  { intros h' l1 e Hne Hl1 He He'. by eapply (proj2 (Hmine e (Hsub e He'))). }
  split.
  - intros h' l [[<- <-]|[Hne Hl]]%lookup_insert_Some; [done|]. eapply queue_frame; [exact Ht| |by apply Heach].
    intros c Hc Hin. apply HC in Hc as [Hc|(h'' & -> & Hno)]; [|apply elem_of_cells in Hin as [[= ->]|(e & [=] & _)]; congruence].
    apply elem_of_cells in Hc as [->|(e & -> & He)]; apply elem_of_cells in Hin as [[= ->]|(e' & [= ->] & Hin)]; [done|].
    by eapply (proj2 (Hmine _ He)).
  - intros h1 h2 l1 l2 e [[<- <-]|[Hne1 Hl1]]%lookup_insert_Some [[<- <-]|[Hne2 Hl2]]%lookup_insert_Some He1 He2; [done| | |eauto].
    + exfalso. by eapply (Hother h2).
    + exfalso. by eapply (Hother h1).
  - intros h' l e [[<- <-]|[Hne Hl]]%lookup_insert_Some He; [by apply Hmine, Hsub|eauto].
  - intros h' Hh. destruct (Hheads h' Hh). split; [by eapply t_alloc|by eapply t_alloc_back].
  - intros e He. destruct (Halloc e He) as [Hf Hb]. split; [by eapply t_alloc|intros Hd; eapply t_alloc_back; eauto].
Qed.

Lemma cut_Some e l l1 l2 : cut e l = Some (l1, l2) → l = l1 ++ e :: l2.
Proof.
  revert l1. induction l as [|x l IH]; intros l1; cbn; [done|]. case_decide as He; [by intros [= <- <-]; subst|].
  intros ([l1' l2'] & Hcut & [= <- <-])%bind_Some. cbn. f_equal. auto.
Qed.

Lemma queues_makes d s qs h l' L (m : Q unit) :
  queues d s qs → makes d s m h l' (cells_of h L) → (∀ e, e ∈ L → mine qs h e) → (∀ e, e ∈ l' → e ∈ L) →
  ∃ s', m s = Ok () s' ∧ queues d s' (<[h := l']> qs).
Proof. intros Hqs (s' & Hrun & Hq & Ht) Hmine Hsub. exists s'. split; [done|]. eapply queues_update; eauto. Qed.

(** An element that is put into a queue, with those there. *)
Lemma mine_cons d s qs h l e : queues d s qs → qs !! h = Some l → loose qs e → ∀ e0, e0 ∈ e :: l → mine qs h e0.
Proof. intros Hqs Hl He e0 [->|Hx]%elem_of_cons; [by apply mine_loose|by eapply mine_in]. Qed.

Lemma loose_notin qs h l e : loose qs e → qs !! h = Some l → e ∉ l.
Proof. intros [_ Hl] Hh. by eapply Hl. Qed.

Lemma queues_length d s qs h l : queues d s qs → qs !! h = Some l → (length l <= size elems)%nat.
Proof.
  intros Hqs Hl. pose proof (q_nodup _ _ _ _ (qs_each _ _ _ Hqs _ _ Hl)) as Hnd. rewrite <- (size_list_to_set (C := gset loc) l) by done.
  apply subseteq_size. intros e He%elem_of_list_to_set. by eapply qs_elems.
Qed.

Lemma queues_init d s qs h : queues d s qs → h ∈ heads → ∃ s', TAILQ_INIT h s = Ok () s' ∧ queues d s' (<[h := []]> qs).
Proof.
  intros Hqs Hh. destruct (qs_heads _ _ _ Hqs h Hh). eapply (queues_makes _ _ _ _ _ []); [done| |set_solver|done].
  by apply TAILQ_INIT_makes.
Qed.

Lemma queues_concat d s s' qs h1 h2 l1 l2 :
  queues d s qs → qs !! h1 = Some l1 → qs !! h2 = Some l2 → h1 ≠ h2 →
  queue d s' h1 (l1 ++ l2) → queue d s' h2 [] → touches (First h2 :: cells_of h1 (l1 ++ l2)) s s' →
  queues d s' (<[h2 := []]> (<[h1 := l1 ++ l2]> qs)).
Proof.
  intros Hqs Hl1 Hl2 Hne Hq1 Hq2 Ht. rewrite insert_insert_ne by done. rewrite <- (insert_delete_eq qs h2). rewrite insert_insert_ne by done.
  assert (Hdel : queues d s (delete h2 qs)).
  { destruct Hqs as [Heach Hapart Helems Hheads Halloc].
    split; [intros h l Hl|intros ha hb la lb e Ha Hb|intros h l e Hl|done..]; repeat match goal with H : delete _ _ !! _ = Some _ |- _ => apply lookup_delete_Some in H as [_ H] end; eauto. }
  assert (Hmine : ∀ e, e ∈ l1 ++ l2 → mine (delete h2 qs) h1 e).
  { intros e He. split; [apply elem_of_app in He as [He|He]; eauto using qs_elems|].
    intros h' l' Hh' [Hh2 Hl']%lookup_delete_Some Hin. apply elem_of_app in He as [He|He].
    - apply Hh'. eauto using qs_apart.
    - apply Hh2. eauto using qs_apart. }
  assert (Hmid : queues d s' (<[h1 := l1 ++ l2]> (delete h2 qs))).
  { eapply queues_update; [done|done|exact Ht| |exact Hmine|done].
    intros c [->|Hc]%elem_of_cons; [|by left]. right. exists h2. split; [done|]. apply lookup_delete_eq. }
  eapply (queues_update _ _ _ _ _ _ []); [exact Hmid|done|apply (touches_refl [])|set_solver..].
Qed.

(** *** One operation *)

Lemma queues_insert d s qs h l l' e (m : Q unit) :
  queues d s qs → qs !! h = Some l → loose qs e → (∀ e0, e0 ∈ l' → e0 ∈ e :: l) →
  (queue d s h l → e ∉ l → element d s e → makes d s m h l' (cells_of h (e :: l))) →
  ∃ s', m s = Ok () s' ∧ queues d s' (<[h := l']> qs).
Proof.
  intros Hqs Hl He Hsub Hm. eapply queues_makes; [done| |by eapply mine_cons|done].
  apply Hm; [by eapply qs_each|by eapply loose_notin|by eapply qs_alloc, He].
Qed.

Lemma queues_remove d s qs h l l' (m : Q unit) :
  queues d s qs → qs !! h = Some l → (∀ e, e ∈ l' → e ∈ l) → (queue d s h l → makes d s m h l' (cells_of h l)) →
  ∃ s', m s = Ok () s' ∧ queues d s' (<[h := l']> qs).
Proof.
  intros Hqs Hl Hsub Hm. eapply queues_makes; [done| |by intros; eapply mine_in|done]. by apply Hm, (qs_each _ _ _ Hqs).
Qed.

Lemma queue_head_run d s qs h e l :
  queues d s qs → qs !! h = Some (e :: l) → (f ← TAILQ_FIRST h; f ← from_option_ub f; TAILQ_REMOVE h f) s = TAILQ_REMOVE h e s.
Proof. intros Hqs Hl. pose proof (qs_each _ _ _ Hqs _ _ Hl) as Hq. by mstep using (TAILQ_FIRST_run _ _ _ _ Hq). Qed.

Lemma tailq_step s qs qs' op :
  queues true s qs → queue_spec true op qs = Some qs' → ∃ s', tailq_run op s = Ok () s' ∧ queues true s' qs'.
Proof.
  intros Hqs Hspec. destruct op; cbn in Hspec |- *.
  - apply bind_Some in Hspec as (Hh & _ & [= <-]). by apply queues_init.
  - apply bind_Some in Hspec as (l & Hl & (He & _ & [= <-])%bind_Some).
    eapply queues_insert; [done..|]. apply TAILQ_INSERT_HEAD_makes.
  - apply bind_Some in Hspec as (l & Hl & (He & _ & [= <-])%bind_Some).
    eapply queues_insert; [done..|set_solver|]. apply TAILQ_INSERT_TAIL_makes.
  - apply bind_Some in Hspec as (l & Hl & (He & _ & ([l1 l2] & ->%cut_Some & [= <-])%bind_Some)%bind_Some).
    eapply queues_insert; [done..|set_solver|]. apply TAILQ_INSERT_AFTER_makes.
  - apply bind_Some in Hspec as (_ & _ & (l & Hl & (He & _ & ([l1 l2] & ->%cut_Some & [= <-])%bind_Some)%bind_Some)%bind_Some).
    eapply queues_insert; [done..|set_solver|]. apply TAILQ_INSERT_BEFORE_makes.
  - apply bind_Some in Hspec as (l & Hl & ([l1 l2] & ->%cut_Some & [= <-])%bind_Some).
    eapply queues_remove; [done..|set_solver|]. apply TAILQ_REMOVE_makes.
  - apply bind_Some in Hspec as ([|e l] & Hl & Hspec); [done|]. injection Hspec as <-. rewrite (queue_head_run _ _ _ _ _ _ Hqs Hl).
    eapply queues_remove; [done..|set_solver|]. apply (TAILQ_REMOVE_makes s h []).
  - apply bind_Some in Hspec as (Hne & _ & (l1 & Hl1 & (l2 & Hl2 & [= <-])%bind_Some)%bind_Some).
    destruct (TAILQ_CONCAT_makes s h1 h2 l1 l2) as (s' & Hrun & [Hq1 Hq2] & Ht);
      [by eapply qs_each|by eapply qs_each|done|intros e He1 He2; by eapply Hne, qs_apart|].
    exists s'. split; [done|]. by eapply queues_concat.
Qed.

Lemma stailq_step s qs qs' op :
  queues false s qs → queue_spec false op qs = Some qs' → ∃ s', stailq_run op s = Ok () s' ∧ queues false s' qs'.
Proof.
  intros Hqs Hspec. destruct op; cbn in Hspec |- *.
  - apply bind_Some in Hspec as (Hh & _ & [= <-]). by apply queues_init.
  - apply bind_Some in Hspec as (l & Hl & (He & _ & [= <-])%bind_Some).
    eapply queues_insert; [done..|]. apply STAILQ_INSERT_HEAD_makes.
  - apply bind_Some in Hspec as (l & Hl & (He & _ & [= <-])%bind_Some).
    eapply queues_insert; [done..|set_solver|]. apply STAILQ_INSERT_TAIL_makes.
  - apply bind_Some in Hspec as (l & Hl & (He & _ & ([l1 l2] & ->%cut_Some & [= <-])%bind_Some)%bind_Some).
    eapply queues_insert; [done..|set_solver|]. apply STAILQ_INSERT_AFTER_makes.
  - done.
  - apply bind_Some in Hspec as (l & Hl & ([l1 l2] & ->%cut_Some & [= <-])%bind_Some).
    pose proof (queues_length _ _ _ _ _ Hqs Hl) as Hlen. rewrite length_app in Hlen.
    eapply queues_remove; [done..|set_solver|]. intros Hq. apply STAILQ_REMOVE_makes; [done|lia].
  - apply bind_Some in Hspec as ([|e l] & Hl & Hspec); [done|]. injection Hspec as <-.
    eapply queues_remove; [done..|set_solver|]. apply STAILQ_REMOVE_HEAD_makes.
  - apply bind_Some in Hspec as (Hne & _ & (l1 & Hl1 & (l2 & Hl2 & [= <-])%bind_Some)%bind_Some).
    destruct (STAILQ_CONCAT_makes s h1 h2 l1 l2) as (s' & Hrun & [Hq1 Hq2] & Ht);
      [by eapply qs_each|by eapply qs_each|done|intros e He1 He2; by eapply Hne, qs_apart|].
    exists s'. split; [done|]. by eapply queues_concat.
Qed.

(** *** Sequences of operations *)

Lemma queue_step d s qs qs' op :
  queues d s qs → queue_spec d op qs = Some qs' → ∃ s', queue_run d op s = Ok () s' ∧ queues d s' qs'.
Proof. destruct d; [apply tailq_step|apply stailq_step]. Qed.

Lemma queue_steps d s qs qs' ops :
  queues d s qs → queue_specs d ops qs = Some qs' → ∃ s', queue_runs d ops s = Ok () s' ∧ queues d s' qs'.
Proof.
  revert s qs. induction ops as [|op ops IH]; intros s qs Hqs; cbn; [intros [= <-]; by exists s|].
  intros (qs1 & Hstep & Hsteps)%bind_Some. destruct (queue_step _ _ _ _ _ Hqs Hstep) as (s1 & Hrun & Hqs1).
  destruct (IH s1 qs1 Hqs1 Hsteps) as (s2 & Hruns & Hqs2). exists s2. split; [by mstep using Hrun|done].
Qed.

(** The memory is allocated; what it holds does not matter. *)
Definition allocated d s : Prop :=
  (∀ h, h ∈ heads → is_Some (fwd s !! First h) ∧ is_Some (back s !! First h)) ∧ (∀ e, e ∈ elems → element d s e).

Lemma queues_none d s : allocated d s → queues d s ∅.
Proof. intros [Hh He]. split; [by intros ? ? ?%lookup_empty_Some|by intros ????? ?%lookup_empty_Some|by intros ??? ?%lookup_empty_Some|done..]. Qed.

(** What a program reads. *)
Definition reads d s h l : Prop :=
  TAILQ_EMPTY h s = Ok (bool_decide (l = [])) s ∧
  TAILQ_FIRST h s = Ok (head l) s ∧
  TAILQ_FOREACH (size elems) h s = Ok l s ∧
  if d then TAILQ_LAST h s = Ok (last l) s ∧ TAILQ_FOREACH_REVERSE (size elems) h s = Ok (rev l) s
  else STAILQ_LAST h s = Ok (last l) s.

Lemma queues_read d s qs h l : queues d s qs → qs !! h = Some l → reads d s h l.
Proof.
  intros Hqs Hl. pose proof (qs_each _ _ _ Hqs h l Hl) as Hq. pose proof (queues_length _ _ _ _ _ Hqs Hl) as Hlen.
  split; [|split; [|split]].
  - rewrite (TAILQ_EMPTY_run _ _ _ _ Hq). by destruct l.
  - by apply (TAILQ_FIRST_run d).
  - unfold TAILQ_FOREACH. mstep using (TAILQ_FIRST_run _ _ _ _ Hq). by apply (foreach_run d s h []).
  - destruct d; [|by apply STAILQ_LAST_run]. split; [by apply TAILQ_LAST_run|]. unfold TAILQ_FOREACH_REVERSE.
    mstep using (TAILQ_LAST_run _ _ _ Hq). apply (reverse_run s h l []); [by rewrite app_nil_r|done].
Qed.

(** C34: the macros for queues, of both kinds, keep lists: in any memory, whatever its pointers
    are, a sequence of macros on any number of queues that is meaningful for lists (what is
    inserted is in no queue, what is removed or inserted next to is in the queue) runs without
    undefined behaviour, and then every queue is the list: it is walked in its order, backwards
    too if it is doubly linked, and its first and last elements and its emptiness are those of
    the list. *)
Theorem queues_are_lists d ops s qs :
  allocated d s → queue_specs d ops ∅ = Some qs →
  ∃ s', queue_runs d ops s = Ok () s' ∧ ∀ h l, qs !! h = Some l → reads d s' h l.
Proof.
  intros Ha Hspec. destruct (queue_steps d s ∅ qs ops (queues_none _ _ Ha) Hspec) as (s' & Hrun & Hqs).
  exists s'. split; [done|]. intros h l. by apply queues_read.
Qed.
End sim.

(** Two queues and four elements, of zeroed memory. *)
Local Open Scope positive_scope.
Definition zeroed (d : bool) (heads elems : list loc) : queue_mem :=
  QueueMem (list_to_map ((λ h, (First h, None)) <$> heads) ∪ list_to_map ((λ e, (Next e, None)) <$> elems))
    (list_to_map ((λ h, (First h, None)) <$> heads) ∪ (if d then list_to_map ((λ e, (Next e, None)) <$> elems) else ∅)).

Definition demo_memory : queue_mem := zeroed true [1; 2] [3; 4; 5; 6].
Definition demo_ops : list queue_op :=
  [Init 1; Init 2; InsertTail 1 3; InsertHead 1 4; InsertTail 2 5; InsertAfter 1 4 6; Remove 1 3; InsertBefore 2 5 3;
   Concat 1 2; RemoveHead 1].

Lemma queues_are_lists_witness :
  ∃ s', queue_runs {[3; 4; 5; 6]} true demo_ops demo_memory = Ok () s' ∧
    reads {[3; 4; 5; 6]} true s' 1 [6; 3; 5] ∧ reads {[3; 4; 5; 6]} true s' 2 [].
Proof.
  destruct (queues_are_lists {[1; 2]} {[3; 4; 5; 6]} true demo_ops demo_memory {[1 := [6; 3; 5]; 2 := []]}) as (s' & Hrun & Hread).
  - split.
    + by apply (bool_decide_unpack (set_Forall (λ h, is_Some (fwd demo_memory !! First h) ∧ is_Some (back demo_memory !! First h)) {[1; 2]})).
    + by apply (bool_decide_unpack (set_Forall (element true demo_memory) {[3; 4; 5; 6]})).
  - vm_compute. reflexivity.
  - exists s'. split; [exact Hrun|]. split; by apply Hread.
Defined.
