(* ===== verification/AsyncQueues.v ===== *)
(** * The queues of the event loop in memory

    The model of the event loop has a list of structures for each queue, and one for what is
    left of the list that is worked on.  In memory these are [TAILQ]s and a copy of the head of
    one of them, which is walked while its elements are put into another.  Here the steps of
    the model are related to the macros at those places of event/async_wait.c and
    event/async_timer.c. *)

From S2P Require Import Prelude Queue QueueSpec AsyncState AsyncWait AsyncTimer AsyncInv.
Local Open Scope Z_scope.

(** [w_q_head] gets the pointers of [q_head], which is emptied; the answer is [w_q_n1]. *)
Definition copy_head (w_q_head q_head : loc) : Q (option loc) :=
  f ← load (First q_head);
  store (First w_q_head) f;;
  b ← load_back (First q_head);
  store_back (First w_q_head) b;;
  TAILQ_INIT q_head;;
  TAILQ_FIRST w_q_head.

Section queues.
(** Where the heads are. *)
Context (w_q_head : loc) (head_of : place → loc).
Context (head_inj : Inj (=) (=) head_of) (w_apart : ∀ p, head_of p ≠ w_q_head).

Implicit Types (a : async_state) (mem : queue_mem) (p : place) (e : loc) (v : option loc).

(** The places that are queues. *)
Definition tracked p : Prop :=
  match p with Queue | Free => True | Wheel k => 0 <= k < WHEEL_SIZE | Work | Sock _ _ => False end.

(** The list that a pointer leads to. *)
Fixpoint walk mem v (l : list loc) : Prop :=
  match l with
  | [] => v = None
  | e :: l' => v = Some e ∧ ∃ n, fwd mem !! Next e = Some n ∧ walk mem n l'
  end.

(** [v] is [w_q_n1]. *)
Record represents a mem v : Prop := {
  rp_queue p : tracked p → QueueSpec.queue true mem (head_of p) (queue a p);
  rp_apart p q e : e ∈ queue a p → e ∈ queue a q → p = q;
  rp_nodup : NoDup (queue a Work);
  rp_work : walk mem v (queue a Work);
  rp_alloc e : is_Some (cells a !! e) → element true mem e;
  rp_w : is_Some (fwd mem !! First w_q_head) ∧ is_Some (back mem !! First w_q_head);
}.

Lemma walk_touches C mem mem' v l : touches C mem mem' → (∀ e, e ∈ l → Next e ∉ C) → walk mem v l → walk mem' v l.
Proof.
  intros Ht. revert v. induction l as [|e l IH]; intros v Hsep; cbn; [done|]. intros (-> & n & Hn & Hw).
  split; [done|]. exists n. split; [|apply IH; [|done]; intros; apply Hsep; by right].
  rewrite (t_fwd C mem mem'); [done|done|]. apply Hsep. by left.
Qed.

Lemma seg_walk d mem c v l : seg d mem c l → fwd mem !! c = Some v → fwd mem !! tail_of c l = Some None → walk mem v l.
Proof.
  revert c v. induction l as [|e l IH]; intros c v; cbn; [congruence|]. intros (Hc & _ & Hseg) Hv Hend.
  rewrite Hc in Hv. injection Hv as <-. split; [done|]. exists (head l). pose proof (seg_head _ _ _ _ Hseg Hend). eauto.
Qed.

(** A queue is changed, and nothing else touched but the elements [L], which are in no other
    place. *)
Lemma represents_put a mem mem' v p l' L :
  represents a mem v → QueueSpec.queue true mem' (head_of p) l' → touches (cells_of (head_of p) L) mem mem' → tracked p →
  (∀ e q, e ∈ L → e ∈ queue a q → q = p) → (∀ e, e ∈ l' → e ∈ L) → represents (put_queue p l' a) mem' v.
Proof.
  intros [Hq Hap Hnd Hw Ha Hh] Hq' Ht Hp HL Hsub. split; cbn.
  - intros q Hq0. case_decide as Hd; [by subst|]. eapply queue_frame; [exact Ht| |by apply Hq].
    intros c [->|(e & -> & He)]%elem_of_cells [Hc|(e' & Hc & He')]%elem_of_cells; try done.
    + injection Hc as Hc%head_inj. done.
    + injection Hc as ->. by eapply Hd, HL.
  - intros q1 q2 e. case_decide as H1; case_decide as H2; subst; [done| | |eauto].
    + intros He He'. symmetry. eauto.
    + eauto.
  - case_decide as Hd; [by rewrite <- Hd in Hp|done].
  - case_decide as Hd; [by rewrite <- Hd in Hp|]. eapply walk_touches; [exact Ht| |done].
    intros e He [[=]|(e' & [= <-] & Hin)]%elem_of_cells. by eapply Hd, HL.
  - intros e He. destruct (Ha e He) as [Hf Hb]. split; [by eapply t_alloc|]. intros Hd. eapply t_alloc_back; eauto.
  - destruct Hh. split; [by eapply t_alloc|by eapply t_alloc_back].
Qed.

(** [TAILQ_INSERT_TAIL] of a structure that is in no place. *)
Lemma insert_tail_refines a mem v p e :
  represents a mem v → tracked p → is_Some (cells a !! e) → (∀ q, e ∉ queue a q) →
  ∃ mem' a', TAILQ_INSERT_TAIL (head_of p) e mem = Ok () mem' ∧ insert_tail p e a = Ok () a' ∧ represents a' mem' v.
Proof.
  intros Hr Hp He Hno. destruct (TAILQ_INSERT_TAIL_makes mem (head_of p) (queue a p) e) as (mem' & Hrun & Hq & Ht);
    [by apply (rp_queue _ _ _ Hr)|done|by apply (rp_alloc _ _ _ Hr)|].
  exists mem', (put_queue p (queue a p ++ [e]) a). split_and!; [done|done|]. eapply represents_put; [done..| |set_solver].
  intros e' q [->|He']%elem_of_cons Hq'; [by destruct (Hno q)|by eapply (rp_apart _ _ _ Hr)].
Qed.

(** [TAILQ_REMOVE]. *)
Lemma filter_middle l1 e l2 : NoDup (l1 ++ e :: l2) → filter (λ x, x ≠ e) (l1 ++ e :: l2) = l1 ++ l2.
Proof.
  intros (_ & Hdis & [Hin _]%NoDup_cons)%NoDup_app. rewrite filter_app, filter_cons_False by tauto.
  rewrite !filter_absent; [done|done|]. intros Hx. apply (Hdis e Hx). by left.
Qed.

Lemma remove_from_refines a mem v p e :
  represents a mem v → tracked p → e ∈ queue a p →
  ∃ mem' a', TAILQ_REMOVE (head_of p) e mem = Ok () mem' ∧ remove_from p e a = Ok () a' ∧ represents a' mem' v.
Proof.
  intros Hr Hp (l1 & l2 & Hl)%list_elem_of_split. pose proof (rp_queue _ _ _ Hr p Hp) as Hq. rewrite Hl in Hq.
  destruct (TAILQ_REMOVE_makes mem (head_of p) l1 e l2 Hq) as (mem' & Hrun & Hq' & Ht).
  exists mem', (put_queue p (l1 ++ l2) a). split_and!; [done| |].
  - unfold remove_from. mstep. rewrite decide_True by (rewrite Hl; set_solver). by rewrite Hl, filter_middle by apply (q_nodup _ _ _ _ Hq).
  - eapply represents_put; [done..| |set_solver]. intros e' q He' Hq2. eapply (rp_apart _ _ _ Hr); [done|by rewrite Hl].
Qed.

(** [TAILQ_FIRST] and [TAILQ_NEXT]. *)
Lemma next_refines a mem v p e :
  represents a mem v → tracked p →
  TAILQ_FIRST (head_of p) mem = Ok (head (queue a p)) mem ∧
  (e ∈ queue a p → TAILQ_NEXT e mem = Ok (next_in e (queue a p)) mem).
Proof.
  intros Hr Hp. pose proof (rp_queue _ _ _ Hr p Hp) as Hq. split; [by apply (TAILQ_FIRST_run true)|].
  intros (l1 & l2 & Hl)%list_elem_of_split. rewrite Hl in Hq |- *. rewrite (TAILQ_NEXT_run _ _ _ _ _ _ Hq). f_equal.
  pose proof (q_nodup _ _ _ _ Hq) as (_ & Hdis & _)%NoDup_app. clear -Hdis. induction l1 as [|x l1 IH]; cbn; [by rewrite decide_True|].
  rewrite decide_False; [apply IH; set_solver|]. intros ->. apply (Hdis e); by left.
Qed.

(** The list that is worked on begins as all of [q_head], and is walked by what was read before
    its element is put elsewhere. *)
Lemma copy_head_refines a mem v :
  represents a mem v → queue a Work = [] →
  ∃ mem' v', copy_head w_q_head (head_of Queue) mem = Ok v' mem' ∧
    represents (put_queue Queue [] (put_queue Work (queue a Queue) a)) mem' v'.
Proof.
  intros Hr Hwork. pose proof (rp_queue _ _ _ Hr Queue I) as Hq. pose proof Hq as [Hnd Hseg Hend Hback].
  pose proof (seg_head _ _ _ _ Hseg Hend) as Hf. destruct (rp_w _ _ _ Hr) as [Hw Hwb].
  assert (Hne : First w_q_head ≠ First (head_of Queue)) by (intros [= Heq]; by eapply w_apart).
  exists (set_back (First (head_of Queue)) (Some (First (head_of Queue))) (set_fwd (First (head_of Queue)) None
    (set_back (First w_q_head) (Some (tail_of (First (head_of Queue)) (queue a Queue))) (set_fwd (First w_q_head) (head (queue a Queue)) mem)))),
    (head (queue a Queue)). split.
  { unfold copy_head. qstep. qstep. qstep. qstep. erewrite bind_ok by (unfold TAILQ_INIT; qstep; apply store_back_ok; by qlook).
    apply load_ok. by qlook. }
  match goal with |- represents _ ?m _ => set (mem' := m) end.
  assert (Ht : touches [First (head_of Queue); First w_q_head] mem mem').
  { subst mem'. repeat first [apply touches_back | apply touches_fwd | apply touches_refl]; set_solver. }
  split.
  - intros p Hp. cbn. case_decide as Hd; [subst p|rewrite decide_False by (by intros ->)].
    { split; [constructor|done|by subst mem'; cbn; qlook..]. }
    eapply queue_frame; [exact Ht| |by apply (rp_queue _ _ _ Hr)].
    intros c Hc [->|(e & -> & _)]%elem_of_cells; [|set_solver]. apply elem_of_cons in Hc as [[= Hh%head_inj]|[= Hh]%list_elem_of_singleton]; [done|].
    by eapply w_apart.
  - intros p q e. cbn. repeat case_decide; subst; try done; try (by intros ?%elem_of_nil); try (by intros _ ?%elem_of_nil).
    + intros He He'. by destruct (rp_apart _ _ _ Hr _ _ _ He He').
    + intros He He'. by destruct (rp_apart _ _ _ Hr _ _ _ He He').
    + apply (rp_apart _ _ _ Hr).
  - done.
  - cbn. eapply walk_touches; [exact Ht|set_solver|]. by eapply seg_walk.
  - intros e He. destruct (rp_alloc _ _ _ Hr e He) as [H1 H2]. split; [by eapply t_alloc|]. intros Hd. eapply t_alloc_back; eauto.
  - split; [by eapply t_alloc|by eapply t_alloc_back].
Qed.

Lemma work_next_refines a mem v e ls :
  represents a mem v → queue a Work = e :: ls →
  v = Some e ∧ ∃ v', TAILQ_NEXT e mem = Ok v' mem ∧ represents (put_queue Work ls a) mem v' ∧
    ∀ q, e ∉ queue (put_queue Work ls a) q.
Proof.
  intros [Hq Hap Hnd Hw Ha Hh] Hl. rewrite Hl in Hw, Hnd. destruct Hw as (-> & n & Hn & Hw). apply NoDup_cons in Hnd as [Hin Hnd].
  split; [done|]. exists n. split_and!; [by apply load_ok| |].
  - split; cbn; [|..|done|done|done|done].
    + intros p Hp. rewrite decide_False by (by intros ->). by apply Hq.
    + assert (Hap' : ∀ q e', e' ∈ ls → e' ∈ queue a q → Work = q) by (intros q e' He; apply Hap; rewrite Hl; by right).
      intros p q e'. repeat case_decide; subst; try done; [by apply Hap'|intros ? ?; symmetry; by eapply Hap'|apply Hap].
  - intros q. cbn. case_decide as Hd; [done|]. intros He. apply Hd. symmetry. eapply Hap; [rewrite Hl; by left|done].
Qed.
End queues.
