(* ===== verification/Hex.v ===== *)
(** * Hexadecimal strings (src/util/hex.c) *)

From Stdlib Require Import Ascii.
From S2P Require Import Prelude CString.
Local Open Scope Z_scope.

Definition bin2hex_map : list cstring :=
  [
   $"00"; $"01"; $"02"; $"03"; $"04"; $"05"; $"06"; $"07"; $"08"; $"09"; $"0a"; $"0b"; $"0c"; $"0d"; $"0e"; $"0f";
   $"10"; $"11"; $"12"; $"13"; $"14"; $"15"; $"16"; $"17"; $"18"; $"19"; $"1a"; $"1b"; $"1c"; $"1d"; $"1e"; $"1f";
   $"20"; $"21"; $"22"; $"23"; $"24"; $"25"; $"26"; $"27"; $"28"; $"29"; $"2a"; $"2b"; $"2c"; $"2d"; $"2e"; $"2f";
   $"30"; $"31"; $"32"; $"33"; $"34"; $"35"; $"36"; $"37"; $"38"; $"39"; $"3a"; $"3b"; $"3c"; $"3d"; $"3e"; $"3f";
   $"40"; $"41"; $"42"; $"43"; $"44"; $"45"; $"46"; $"47"; $"48"; $"49"; $"4a"; $"4b"; $"4c"; $"4d"; $"4e"; $"4f";
   $"50"; $"51"; $"52"; $"53"; $"54"; $"55"; $"56"; $"57"; $"58"; $"59"; $"5a"; $"5b"; $"5c"; $"5d"; $"5e"; $"5f";
   $"60"; $"61"; $"62"; $"63"; $"64"; $"65"; $"66"; $"67"; $"68"; $"69"; $"6a"; $"6b"; $"6c"; $"6d"; $"6e"; $"6f";
   $"70"; $"71"; $"72"; $"73"; $"74"; $"75"; $"76"; $"77"; $"78"; $"79"; $"7a"; $"7b"; $"7c"; $"7d"; $"7e"; $"7f";
   $"80"; $"81"; $"82"; $"83"; $"84"; $"85"; $"86"; $"87"; $"88"; $"89"; $"8a"; $"8b"; $"8c"; $"8d"; $"8e"; $"8f";
   $"90"; $"91"; $"92"; $"93"; $"94"; $"95"; $"96"; $"97"; $"98"; $"99"; $"9a"; $"9b"; $"9c"; $"9d"; $"9e"; $"9f";
   $"a0"; $"a1"; $"a2"; $"a3"; $"a4"; $"a5"; $"a6"; $"a7"; $"a8"; $"a9"; $"aa"; $"ab"; $"ac"; $"ad"; $"ae"; $"af";
   $"b0"; $"b1"; $"b2"; $"b3"; $"b4"; $"b5"; $"b6"; $"b7"; $"b8"; $"b9"; $"ba"; $"bb"; $"bc"; $"bd"; $"be"; $"bf";
   $"c0"; $"c1"; $"c2"; $"c3"; $"c4"; $"c5"; $"c6"; $"c7"; $"c8"; $"c9"; $"ca"; $"cb"; $"cc"; $"cd"; $"ce"; $"cf";
   $"d0"; $"d1"; $"d2"; $"d3"; $"d4"; $"d5"; $"d6"; $"d7"; $"d8"; $"d9"; $"da"; $"db"; $"dc"; $"dd"; $"de"; $"df";
   $"e0"; $"e1"; $"e2"; $"e3"; $"e4"; $"e5"; $"e6"; $"e7"; $"e8"; $"e9"; $"ea"; $"eb"; $"ec"; $"ed"; $"ee"; $"ef";
   $"f0"; $"f1"; $"f2"; $"f3"; $"f4"; $"f5"; $"f6"; $"f7"; $"f8"; $"f9"; $"fa"; $"fb"; $"fc"; $"fd"; $"fe"; $"ff"].

Definition hex2bin_map : list Z :=
  [
   -1; -1; -1; -1; -1; -1; -1; -1; -1; -1; -1; -1; -1; -1; -1; -1;
   -1; -1; -1; -1; -1; -1; -1; -1; -1; -1; -1; -1; -1; -1; -1; -1;
   -1; -1; -1; -1; -1; -1; -1; -1; -1; -1; -1; -1; -1; -1; -1; -1;
   0; 1; 2; 3; 4; 5; 6; 7; 8; 9; -1; -1; -1; -1; -1; -1;
   -1; 10; 11; 12; 13; 14; 15; -1; -1; -1; -1; -1; -1; -1; -1; -1;
   -1; -1; -1; -1; -1; -1; -1; -1; -1; -1; -1; -1; -1; -1; -1; -1;
   -1; 10; 11; 12; 13; 14; 15; -1; -1; -1; -1; -1; -1; -1; -1; -1;
   -1; -1; -1; -1; -1; -1; -1; -1; -1; -1; -1; -1; -1; -1; -1; -1;
   -1; -1; -1; -1; -1; -1; -1; -1; -1; -1; -1; -1; -1; -1; -1; -1;
   -1; -1; -1; -1; -1; -1; -1; -1; -1; -1; -1; -1; -1; -1; -1; -1;
   -1; -1; -1; -1; -1; -1; -1; -1; -1; -1; -1; -1; -1; -1; -1; -1;
   -1; -1; -1; -1; -1; -1; -1; -1; -1; -1; -1; -1; -1; -1; -1; -1;
   -1; -1; -1; -1; -1; -1; -1; -1; -1; -1; -1; -1; -1; -1; -1; -1;
   -1; -1; -1; -1; -1; -1; -1; -1; -1; -1; -1; -1; -1; -1; -1; -1;
   -1; -1; -1; -1; -1; -1; -1; -1; -1; -1; -1; -1; -1; -1; -1; -1;
   -1; -1; -1; -1; -1; -1; -1; -1; -1; -1; -1; -1; -1; -1; -1; -1].

(** The loop of [nr_nbin2hex]: two characters of the table for each byte; [None]: an index
    outside of the table. *)
Fixpoint bin2hex_loop (bin : list Z) : option cstring :=
  match bin with
  | [] => Some []
  | b :: bin' =>
      entry ← bin2hex_map !! Z.to_nat b;
      c0 ← entry !! 0%nat; c1 ← entry !! 1%nat;
      rest ← bin2hex_loop bin';
      Some (c0 :: c1 :: rest)
  end.

(** The characters written to [hex], with the terminator if there is room for it, and
    [*len]. *)
Definition nr_nbin2hex (bin : list Z) (size : Z) : option (Z + (list Z * Z)) :=
  let hexlen := wrap 64 (2 * Z.of_nat (length bin)) in
  if size <? hexlen then Some (inl (abort_code R_BAD_ARGS))
  else
    hex ← bin2hex_loop bin;
    Some (inr ((uchar <$> hex) ++ (if hexlen + 1 <=? size then [0] else []), hexlen)).

(** [hex2bin_map[(int)c]]: a character is signed, and a negative one is outside of the
    table. *)
Definition hex2bin_at (c : ascii) : option Z :=
  if schar c <? 0 then None else hex2bin_map !! Z.to_nat (schar c).

Fixpoint hex2bin_loop (hex : cstring) : option (Z + list Z) :=
  match hex with
  | c1 :: c2 :: hex' =>
      h1 ← hex2bin_at c1; h2 ← hex2bin_at c2;
      if (h1 =? -1) || (h2 =? -1) then Some (inl (abort_code R_BAD_ARGS))
      else
        rest ← hex2bin_loop hex';
        Some (match rest with
              | inl r => inl r
              | inr bin => inr (wrap 8 (Z.lor (Z.shiftl h1 4) h2) :: bin)
              end)
  | _ => Some (inr [])
  end.

Definition nr_nhex2bin (hex : cstring) (size : Z) : option (Z + list Z) :=
  let hexlen := Z.of_nat (length hex) in
  if negb (hexlen mod 2 =? 0) then Some (inl (abort_code R_BAD_ARGS))
  else if size <? hexlen / 2 then Some (inl (abort_code R_BAD_ARGS))
  else hex2bin_loop hex.

(** ** Facts *)

(** A digit and its value. *)
Definition digit_val (c : ascii) : option Z :=
  match hex2bin_at c with Some h => if h =? -1 then None else Some h | None => None end.

Definition is_byte (b : Z) : Prop := 0 <= b < 256.

(** The two tables agree, checked on every byte. *)
Definition tables_agree (b : nat) : bool :=
  match bin2hex_map !! b with
  | Some [c0; c1] =>
      match hex2bin_at c0, hex2bin_at c1 with
      | Some h1, Some h2 =>
          negb (h1 =? -1) && negb (h2 =? -1) && (wrap 8 (Z.lor (Z.shiftl h1 4) h2) =? Z.of_nat b)
      | _, _ => false
      end
  | _ => false
  end.

Lemma tables_agree_all : forallb tables_agree (seq 0 256) = true.
Proof. vm_compute. reflexivity. Qed.

Lemma table_byte b : is_byte b →
  ∃ c0 c1 h1 h2, bin2hex_map !! Z.to_nat b = Some [c0; c1] ∧ hex2bin_at c0 = Some h1 ∧ hex2bin_at c1 = Some h2 ∧
    (h1 =? -1) = false ∧ (h2 =? -1) = false ∧ wrap 8 (Z.lor (Z.shiftl h1 4) h2) = b.
Proof.
  intros Hb. pose proof tables_agree_all as Hall. rewrite forallb_forall in Hall.
  specialize (Hall (Z.to_nat b)). unfold is_byte in Hb. unfold tables_agree in Hall.
  specialize (Hall ltac:(apply in_seq; lia)).
  destruct (bin2hex_map !! Z.to_nat b) as [[|c0 [|c1 [|]]]|]; try done.
  destruct (hex2bin_at c0) as [h1|] eqn:H1; [|done]. destruct (hex2bin_at c1) as [h2|] eqn:H2; [|done].
  apply andb_true_iff in Hall as [[Hn1 Hn2]%andb_true_iff Hv]. apply negb_true_iff in Hn1, Hn2.
  apply Z.eqb_eq in Hv. exists c0, c1, h1, h2. split_and!; [done..|]. rewrite Hv. lia.
Qed.

Lemma bin2hex_run bin :
  Forall is_byte bin →
  ∃ hex, bin2hex_loop bin = Some hex ∧ length hex = (2 * length bin)%nat ∧ hex2bin_loop hex = Some (inr bin).
Proof.
  induction 1 as [|b bin Hb _ (hex & Hrun & Hlen & Hback)]; [by exists []|].
  destruct (table_byte b Hb) as (c0 & c1 & h1 & h2 & Hm & H1 & H2 & Hn1 & Hn2 & Hv).
  exists (c0 :: c1 :: hex). split_and!.
  - cbn. rewrite Hm. cbn. by rewrite Hrun.
  - cbn. lia.
  - cbn [hex2bin_loop]. rewrite H1, H2. cbn. rewrite Hn1, Hn2. cbn. rewrite Hback. cbn. by rewrite Hv.
Qed.

(** The bytes written by [nr_nbin2hex] are read back by [nr_nhex2bin] as the bytes they were
    made from; both refuse a buffer that is too small, and the terminator is written
    exactly when there is room for it. *)
Theorem hex_roundtrip bin size size' :
  Forall is_byte bin → 2 * Z.of_nat (length bin) < 2 ^ 64 →
  ∃ hex, length hex = (2 * length bin)%nat ∧
    nr_nbin2hex bin size =
      Some (if size <? Z.of_nat (length hex) then inl R_BAD_ARGS
            else inr ((uchar <$> hex) ++ (if Z.of_nat (length hex) + 1 <=? size then [0] else []),
                      Z.of_nat (length hex))) ∧
    nr_nhex2bin hex size' = Some (if size' <? Z.of_nat (length bin) then inl R_BAD_ARGS else inr bin).
Proof.
  intros Hbin Hlen. destruct (bin2hex_run bin Hbin) as (hex & Hrun & Hl & Hback).
  exists hex. split; [done|].
  assert (Hz : Z.of_nat (length hex) = 2 * Z.of_nat (length bin)) by lia. split.
  - unfold nr_nbin2hex. rewrite wrap_small, <- Hz by lia. destruct (size <? _); [done|]. by rewrite Hrun.
  - unfold nr_nhex2bin. rewrite Hz. rewrite (Z.mul_comm 2), Z.mod_mul, Z.div_mul by done. cbn [Z.eqb negb].
    by destruct (size' <? _).
Qed.

Lemma hex_roundtrip_witness :
  ∃ hex, length hex = 6%nat ∧
    nr_nbin2hex [0; 127; 255] 6 = Some (inr ((uchar <$> hex) ++ [], 6)) ∧
    nr_nhex2bin hex 3 = Some (inr [0; 127; 255]).
Proof.
  destruct (hex_roundtrip [0; 127; 255] 6 3) as (hex & Hl & H1 & H2).
  - repeat constructor; lia.
  - cbn. lia.
  - exists hex. rewrite Hl in H1. split; [exact Hl|]. split; [exact H1|exact H2].
Defined.
