(* ===== verification/Escape.v ===== *)
(** * Quoting for the shell (src/util/escape.c) *)

From Stdlib Require Import Ascii.
From S2P Require Import Prelude CString.
Local Open Scope Z_scope.
Local Open Scope char_scope.

(** The quoting characters. *)
Definition squote : ascii := ascii_of_nat 39.
Definition dquote : ascii := ascii_of_nat 34.

Definition nr_isshok (c : ascii) : bool :=
  isalnum c ||
  bool_decide (c = ",") || bool_decide (c = "_") || bool_decide (c = ".") || bool_decide (c = ":") ||
  bool_decide (c = "-").

(** The first loop: how many characters are not safe. *)
Fixpoint needs_quoting (string : cstring) : nat :=
  match string with [] => 0 | c :: s' => ((if nr_isshok c then 0 else 1) + needs_quoting s')%nat end.

(** The second loop: a single quote is closed, put in double quotes, and opened again. *)
Fixpoint quote_loop (string : cstring) : cstring :=
  match string with
  | [] => []
  | c :: s' =>
      (if bool_decide (c = squote) then [squote; dquote; squote; dquote] else []) ++ c :: quote_loop s'
  end.

(** The bytes of the buffer that is allocated, and what is written to it.  [malloc_ok]:
    whether the allocation succeeds; [None]: the buffer is too small for what is
    written. *)
Definition quote_size (string : cstring) : nat := (length string + 4 * needs_quoting string + 3)%nat.

Definition nr_shell_quote_string (malloc_ok : bool) (string : cstring) : option (Z + cstring) :=
  if (needs_quoting string =? 0)%nat then Some (inl (abort_code R_REJECTED))
  else if negb malloc_ok then Some (inl (abort_code R_NO_MEMORY))
  else
    let quoted := squote :: quote_loop string ++ [squote] in
    if (quote_size string <? length quoted + 1)%nat then None else Some (inr quoted).

(** ** The shell

    A word as the shell reads it: plain characters, text in single quotes, taken as it is,
    and text in double quotes, in which four characters keep a meaning.  [None]: the word
    does not end here, or a character has a meaning to the shell. *)
Inductive sh_mode : Type := Plain | Single | Double.

Definition dquote_special (c : ascii) : bool :=
  bool_decide (c = "$") || bool_decide (c = "`") || bool_decide (c = "\") || bool_decide (c = "!").

Fixpoint sh_word (mode : sh_mode) (word : cstring) : option cstring :=
  match word with
  | [] => match mode with Plain => Some [] | _ => None end
  | c :: w =>
      match mode with
      | Plain =>
          if bool_decide (c = squote) then sh_word Single w
          else if bool_decide (c = dquote) then sh_word Double w
          else if nr_isshok c then cons c <$> sh_word Plain w else None
      | Single => if bool_decide (c = squote) then sh_word Plain w else cons c <$> sh_word Single w
      | Double =>
          if bool_decide (c = dquote) then sh_word Plain w
          else if dquote_special c then None else cons c <$> sh_word Double w
      end
  end.

Lemma quote_loop_length s : (length (quote_loop s) <= length s + 4 * needs_quoting s)%nat.
Proof.
  induction s as [|c s IH]; [done|]. cbn [quote_loop needs_quoting]. rewrite length_app. cbn [length].
  case_bool_decide as Hc; [|cbn; lia]. subst c. change (nr_isshok squote) with false. cbn. lia.
Qed.

Lemma quote_loop_read s : sh_word Single (quote_loop s ++ [squote]) = Some s.
Proof.
  induction s as [|c s IH]; [done|]. cbn [quote_loop]. case_bool_decide as Hc.
  - subst c. cbn. cbn in IH. by rewrite IH.
  - cbn. rewrite bool_decide_eq_false_2, IH by done. done.
Qed.

Lemma plain_read s : needs_quoting s = 0%nat → sh_word Plain s = Some s.
Proof.
  induction s as [|c s IH]; intros Hs; [done|]. cbn in Hs. destruct (nr_isshok c) eqn:Hc; [|lia].
  cbn. rewrite Hc, !bool_decide_eq_false_2, IH by (lia || (intros ->; by vm_compute in Hc)). done.
Qed.

(** An unsafe string is quoted, within its buffer. *)
Lemma quoted_run string :
  needs_quoting string ≠ 0%nat →
  nr_shell_quote_string true string = Some (inr (squote :: quote_loop string ++ [squote])) ∧
  sh_word Plain (squote :: quote_loop string ++ [squote]) = Some string ∧
  (length (squote :: quote_loop string ++ [squote]) + 1 <= quote_size string)%nat.
Proof.
  intros Hz. assert (Hfit : (length (squote :: quote_loop string ++ [squote]) + 1 <= quote_size string)%nat).
  { pose proof (quote_loop_length string). cbn [length]. rewrite length_app. unfold quote_size. cbn [length]. lia. }
  split_and!; [|cbn; apply quote_loop_read|done]. unfold nr_shell_quote_string.
  rewrite (proj2 (Nat.eqb_neq _ _) Hz). cbn [negb]. cbv zeta. by rewrite (proj2 (Nat.ltb_ge _ _) Hfit).
Qed.


Example quote_ex : nr_shell_quote_string true $"it's" =
  Some (inr ([squote; "i"%char; "t"%char; squote; dquote; squote; dquote] ++ [squote; "s"%char; squote])).
Proof. reflexivity. Qed.
