(* ===== verification/InetNtop.v ===== *)
(** * Addresses as text (src/util/util.c: inet_ntop)

    [inet_ntop] for IPv4 and IPv6, a reader of the text forms of RFC 4291, and that it reads
    back what is written. *)

From Stdlib Require Import Ascii.
From S2P Require Import Prelude CString Numbers.
Local Open Scope Z_scope.

(** ** Writing *)

(** [%x]. *)
Definition hex_char (d : Z) : ascii := default "0"%char ($"0123456789abcdef" !! Z.to_nat d).
Fixpoint print_hex (fuel : nat) (z : Z) : cstring :=
  match fuel with
  | O => []
  | S fuel' => if z <? 16 then [hex_char z] else print_hex fuel' (z / 16) ++ [hex_char (z mod 16)]
  end.

(** A function that returns a pointer: [Some None] is the null pointer, [Some (Some text)] the
    destination, which then has [text]; [None] is undefined. *)
Definition text_result : Type := option (option cstring).

(** [src] has four bytes.  The text is first written to [tmp], 16 characters, and fits. *)
Definition inet_ntop4 (src : list Z) (size : nat) : text_result :=
  match src with
  | a :: b :: c :: d :: _ =>
      let text := print_int a ++ "."%char :: print_int b ++ "."%char :: print_int c ++ "."%char :: print_int d in
      let l := length text in
      if ((l <=? 0) || (size <=? l))%nat then Some None else Some (Some (take 15 text))
  | _ => None
  end.

(** The bytes by twos. *)
Fixpoint words_of (src : list Z) : list Z :=
  match src with
  | hi :: lo :: src' => Z.lor (Z.shiftl hi 8) lo :: words_of src'
  | _ => []
  end.

(** [{ int base, len; }], with no base as [None]. *)
Definition run : Type := nat * nat.
Definition better (best cur : option run) : option run :=
  match cur with
  | None => best
  | Some c => match best with Some b => if (b.2 <? c.2)%nat then Some c else best | None => Some c end
  end.

(** The loop that looks for the longest run of zeros. *)
Fixpoint longest_run (i : nat) (words : list Z) (best cur : option run) : option run :=
  match words with
  | [] => better best cur
  | w :: words' =>
      if w =? 0 then longest_run (S i) words' best (Some (match cur with Some (base, len) => (base, S len) | None => (i, 1%nat) end))
      else longest_run (S i) words' (better best cur) None
  end.
Definition best_run (words : list Z) : option run :=
  match longest_run 0 words None None with
  | Some (base, len) => if (len <? 2)%nat then None else Some (base, len)
  | None => None
  end.

(** [tmp] has room for the longest text and its terminator. *)
Definition TMP6 : nat := 46.

Definition inside (best : option run) (i : nat) : bool :=
  match best with Some (base, len) => (base <=? i)%nat && (i <? base + len)%nat | None => false end.
Definition starts (best : option run) (i : nat) : bool := match best with Some (base, _) => (i =? base)%nat | None => false end.

(** An encapsulated IPv4 address; [words] are all eight. *)
Definition is_ipv4 (words : list Z) (best : option run) (i : nat) : bool :=
  match best with
  | Some (base, len) =>
      (i =? 6)%nat && (base =? 0)%nat &&
      ((len =? 6)%nat || ((len =? 7)%nat && negb (default 0 (words !! 7%nat) =? 1)) || ((len =? 5)%nat && (default 0 (words !! 5%nat) =? 0xffff)))
  | None => false
  end.

(** A character is added at [tp]: [None] for no room. *)
Definition add_checked (text : cstring) (c : ascii) : option cstring :=
  if (TMP6 <=? length text + 1)%nat then None else Some (text ++ [c]).

(** The loop over the words from the [i]th on; [text] is what has been written to [tmp]. *)
Fixpoint format_words (src words : list Z) (best : option run) (i : nat) (rest : list Z) (text : cstring) : text_result :=
  match rest with
  | [] => Some (Some text)
  | w :: rest' =>
      if inside best i then
        if starts best i then
          if (length text <? TMP6)%nat then format_words src words best (S i) rest' (text ++ [":"%char]) else None
        else format_words src words best (S i) rest' text
      else
        match (if (i =? 0)%nat then Some text else add_checked text ":") with
        | None => Some None
        | Some text =>
            if is_ipv4 words best i then
              match inet_ntop4 (drop 12 src) (TMP6 - length text) with
              | Some (Some t) => Some (Some (text ++ t))
              | r => r
              end
            else
              let h := print_hex 8 w in
              if ((length h <=? 0) || (TMP6 - length text <=? length h))%nat then Some None
              else format_words src words best (S i) rest' (text ++ h)
        end
  end.

Definition inet_ntop6 (src : list Z) (size : nat) : text_result :=
  if (length src <? 16)%nat then None
  else
    let words := words_of (take 16 src) in
    let best := best_run words in
    match format_words src words best 0 words [] with
    | Some (Some text) =>
        match (match best with
               | Some (base, len) => if (base + len =? 8)%nat then add_checked text ":" else Some text
               | None => Some text
               end) with
        | None => Some None
        | Some text =>
            if (TMP6 <=? length text + 1)%nat then Some None
            else if (size <? length text + 1)%nat then Some None
            else Some (Some text)
        end
    | r => r
    end.

(** [AF_INET] and [AF_INET6]; any other family is refused. *)
Inductive af := AF_INET | AF_INET6 | AF_OTHER.
#[export] Instance af_eq_dec : EqDecision af.
Proof. solve_decision. Defined.
Definition inet_ntop (family : af) (src : list Z) (size : nat) : text_result :=
  match family with
  | AF_INET => inet_ntop4 src size
  | AF_INET6 => inet_ntop6 src size
  | AF_OTHER => Some None
  end.

(** ** Reading (RFC 4291, section 2.2) *)

Fixpoint split_on (sep : ascii) (s : cstring) : list cstring :=
  match s with
  | [] => [[]]
  | c :: s' =>
      if bool_decide (c = sep) then [] :: split_on sep s'
      else match split_on sep s' with f :: fs => (c :: f) :: fs | [] => [[c]] end
  end.

Fixpoint digits_in (base : Z) (value : ascii → option Z) (acc : Z) (s : cstring) : option Z :=
  match s with
  | [] => Some acc
  | c :: s' => match value c with Some d => digits_in base value (base * acc + d) s' | None => None end
  end.
Definition hex_value (c : ascii) : option Z :=
  if isdigit c then Some (uchar c - 48) else if between "a" "f" c then Some (uchar c - 87)
  else if between "A" "F" c then Some (uchar c - 55) else None.
Definition dec_value (c : ascii) : option Z := if isdigit c then Some (uchar c - 48) else None.

(** One to four hexadecimal digits; one to three decimal digits of a byte. *)
Definition read_group (f : cstring) : option Z :=
  if ((1 <=? length f) && (length f <=? 4))%nat then digits_in 16 hex_value 0 f else None.
Definition read_byte (f : cstring) : option Z :=
  if ((1 <=? length f) && (length f <=? 3))%nat then v ← digits_in 10 dec_value 0 f; guard (v < 256);; Some v else None.
Definition pton4 (s : cstring) : option (list Z) :=
  bs ← mapM read_byte (split_on "." s); guard (length bs = 4%nat);; Some bs.

Definition group_bytes (w : Z) : list Z := [w / 256; w mod 256].

(** Groups between colons, the last of which may be an IPv4 address. *)
Fixpoint read_fields (fs : list cstring) : option (list Z) :=
  match fs with
  | [] => Some []
  | [f] => if bool_decide ("."%char ∈ f) then pton4 f else group_bytes <$> read_group f
  | f :: fs' => w ← read_group f; bs ← read_fields fs'; Some (group_bytes w ++ bs)
  end.
Definition read_part (s : cstring) : option (list Z) := match s with [] => Some [] | _ => read_fields (split_on ":" s) end.

(** The text before and after the first double colon. *)
Fixpoint split_double (s : cstring) : option (cstring * cstring) :=
  match s with
  | [] => None
  | c :: s' =>
      if bool_decide (c = ":"%char) && bool_decide (head s' = Some ":"%char) then Some ([], tail s')
      else prod_map (cons c) id <$> split_double s'
  end.

Definition pton6 (s : cstring) : option (list Z) :=
  match split_double s with
  | Some (l, r) =>
      bl ← read_part l; br ← read_part r;
      guard (length bl + length br <= 14)%nat;; Some (bl ++ replicate (16 - (length bl + length br)) 0 ++ br)
  | None => bs ← read_part s; guard (length bs = 16%nat);; Some bs
  end.
Definition inet_pton (family : af) (s : cstring) : option (list Z) :=
  match family with AF_INET => pton4 s | AF_INET6 => pton6 s | AF_OTHER => None end.

(** ** Fields and separators *)

Fixpoint join (sep : ascii) (fs : list cstring) : cstring :=
  match fs with
  | [] => []
  | [f] => f
  | f :: fs' => f ++ sep :: join sep fs'
  end.

Lemma join_cons sep f fs : fs ≠ [] → join sep (f :: fs) = f ++ sep :: join sep fs.
Proof. by destruct fs. Qed.

Lemma split_on_field sep f s : sep ∉ f → split_on sep (f ++ sep :: s) = f :: split_on sep s.
Proof.
  induction f as [|c f IH]; intros Hf; cbn; [by rewrite bool_decide_eq_true_2|].
  apply not_elem_of_cons in Hf as [Hc Hf]. by rewrite bool_decide_eq_false_2, IH.
Qed.

Lemma split_on_last sep f : sep ∉ f → split_on sep f = [f].
Proof.
  induction f as [|c f IH]; intros Hf; cbn; [done|].
  apply not_elem_of_cons in Hf as [Hc Hf]. by rewrite bool_decide_eq_false_2, IH.
Qed.

Lemma split_join sep fs : fs ≠ [] → Forall (λ f, sep ∉ f) fs → split_on sep (join sep fs) = fs.
Proof.
  intros Hne Hfs. induction Hfs as [|f fs Hf Hfs IH]; [done|]. destruct fs as [|g fs]; [by apply split_on_last|].
  rewrite join_cons, split_on_field, IH by done. done.
Qed.

Lemma join_free sep c fs : c ≠ sep → Forall (λ f, c ∉ f) fs → c ∉ join sep fs.
Proof.
  intros Hc Hfs. induction Hfs as [|f fs Hf Hfs IH]; [apply not_elem_of_nil|]. destruct fs as [|g fs]; [done|].
  rewrite join_cons, elem_of_app, elem_of_cons by done. by intros [?|[?|?]].
Qed.

(** A field without colon, in front of the rest. *)
Definition field (f : cstring) : Prop := f ≠ [] ∧ ":"%char ∉ f.

Lemma split_double_field f s : ":"%char ∉ f → split_double (f ++ s) = prod_map (app f) id <$> split_double s.
Proof.
  induction f as [|c f IH]; intros Hf; cbn [app split_double].
  - by destruct (split_double s) as [[]|].
  - apply not_elem_of_cons in Hf as [Hc Hf]. rewrite bool_decide_eq_false_2 by done. cbn [andb].
    rewrite IH by done. by destruct (split_double s) as [[]|].
Qed.

Lemma split_double_colon f s : field f → split_double (":"%char :: f ++ s) = prod_map (cons ":"%char) id <$> split_double (f ++ s).
Proof.
  intros [Hne Hf]. destruct f as [|c f]; [done|]. apply not_elem_of_cons in Hf as [Hc _]. cbn [split_double app head].
  rewrite (bool_decide_eq_false_2 (Some c = _)) by congruence. by rewrite andb_false_r.
Qed.

Lemma split_double_join fs s : Forall field fs → split_double (join ":" fs ++ ":"%char :: ":"%char :: s) = Some (join ":" fs, s).
Proof.
  intros Hfs. induction Hfs as [|f fs Hf Hfs IH]; [done|]. destruct fs as [|g fs].
  - cbn [join]. rewrite split_double_field by apply Hf. change (Some (f ++ [], s) = Some (f, s)). by rewrite app_nil_r.
  - rewrite join_cons, <- app_assoc, split_double_field by (done || apply Hf). cbn [app].
    assert (Hg : ∃ t, join ":" (g :: fs) = g ++ t) by (destruct fs; [exists []; by rewrite app_nil_r|by eexists]).
    destruct Hg as [t Ht]. rewrite Ht in *. rewrite <- app_assoc in *. apply Forall_cons in Hfs as [Hg _].
    rewrite split_double_colon, IH by done. done.
Qed.

Lemma split_double_none fs : Forall field fs → split_double (join ":" fs) = None.
Proof.
  intros Hfs. induction Hfs as [|f fs Hf Hfs IH]; [done|]. destruct fs as [|g fs].
  - cbn [join]. rewrite <- (app_nil_r f), split_double_field by apply Hf. done.
  - rewrite join_cons, split_double_field by (done || apply Hf).
    assert (Hg : ∃ t, join ":" (g :: fs) = g ++ t) by (destruct fs; [exists []; by rewrite app_nil_r|by eexists]).
    destruct Hg as [t Ht]. rewrite Ht in *. apply Forall_cons in Hfs as [Hg _].
    rewrite split_double_colon, IH by done. done.
Qed.

(** ** Groups and bytes *)

Definition word (w : Z) : Prop := 0 <= w < 2 ^ 16.
Definition byte (b : Z) : Prop := 0 <= b < 2 ^ 8.
Definition group (w : Z) : cstring := print_hex 8 w.
Arguments group w : simpl never.

Definition separator_free (s : cstring) : bool :=
  forallb (λ c, negb (bool_decide (c = ":"%char)) && negb (bool_decide (c = "."%char))) s.

Definition byte_ok (b : Z) : bool :=
  ((1 <=? length (print_int b)) && (length (print_int b) <=? 3))%nat &&
  separator_free (print_int b) &&
  bool_decide (read_byte (print_int b) = Some b).

Lemma all_in_range (p : Z → bool) n z : forallb p (seqZ 0 n) = true → 0 <= z < n → p z = true.
Proof. intros Hp Hz. apply (proj1 (forallb_forall _ _) Hp), list_elem_of_In, elem_of_seqZ. lia. Qed.

Lemma byte_ok_all b : byte b → byte_ok b = true.
Proof. apply (all_in_range byte_ok (2 ^ 8)). vm_compute. reflexivity. Qed.

Lemma no_separators s : separator_free s = true → ":"%char ∉ s ∧ "."%char ∉ s.
Proof.
  intros Hs. split; intros Hin%list_elem_of_In; pose proof (proj1 (forallb_forall _ _) Hs _ Hin) as Hc; by vm_compute in Hc.
Qed.

Lemma digits_in_app base value s t acc :
  digits_in base value acc (s ++ t) = v ← digits_in base value acc s; digits_in base value v t.
Proof. revert acc. induction s as [|c s IH]; intros acc; cbn; [done|]. by destruct (value c). Qed.

Definition digit_ok (d : Z) : bool := separator_free [hex_char d] && bool_decide (hex_value (hex_char d) = Some d).
Lemma hex_char_run d : 0 <= d < 16 → separator_free [hex_char d] = true ∧ hex_value (hex_char d) = Some d.
Proof.
  intros Hd. assert (Hok : digit_ok d = true) by (apply (all_in_range digit_ok 16); [vm_compute; reflexivity|done]).
  unfold digit_ok in Hok. rewrite andb_true_iff, bool_decide_eq_true in Hok. exact Hok.
Qed.

Lemma print_hex_run fuel k z :
  0 <= z < 16 ^ Z.of_nat k → (1 <= k <= fuel)%nat →
  separator_free (print_hex fuel z) = true ∧ (1 <= length (print_hex fuel z) <= k)%nat ∧
  digits_in 16 hex_value 0 (print_hex fuel z) = Some z.
Proof.
  revert k z. induction fuel as [|fuel IH]; intros k z Hz Hk; [lia|]. cbn [print_hex].
  destruct (Z.ltb_spec z 16) as [Hlt|Hge].
  - destruct (hex_char_run z) as [Hs Hv]; [lia|]. split_and!; [done|cbn; lia..|]. cbn. by rewrite Hv.
  - destruct k as [|k]; [lia|]. rewrite Nat2Z.inj_succ, Z.pow_succ_r in Hz by lia.
    assert (Hk1 : (1 <= k)%nat) by (destruct k; [cbn in Hz; lia|lia]).
    destruct (IH k (z / 16)) as (Hs & Hl & Hr); [split; [apply Z.div_pos; lia|apply Z.div_lt_upper_bound; lia]|lia|].
    destruct (hex_char_run (z mod 16)) as [Hs' Hv]; [apply Z.mod_pos_bound; lia|]. split_and!.
    + unfold separator_free in *. by rewrite forallb_app, Hs.
    + rewrite length_app. cbn. lia.
    + rewrite length_app. cbn. lia.
    + rewrite digits_in_app, Hr. cbn [mbind option_bind digits_in]. rewrite Hv. f_equal.
      pose proof (Z.div_mod z 16). lia.
Qed.

Record group_text (w : Z) : Prop := {
  gt_field : field (group w);
  gt_dot : "."%char ∉ group w;
  gt_length : (1 <= length (group w) <= 4)%nat;
  gt_read : read_group (group w) = Some w;
}.
Lemma group_run w : word w → group_text w.
Proof.
  intros Hw. destruct (print_hex_run 8 4 w) as ([Hc Hd]%no_separators & Hl & Hr); [exact Hw|lia|].
  change (print_hex 8 w) with (group w) in *. split; [|done|done|].
  - split; [|done]. intros Hnil. rewrite Hnil in Hl. cbn in Hl. lia.
  - unfold read_group. by rewrite !(proj2 (Nat.leb_le _ _)) by lia.
Qed.

Record byte_text (b : Z) : Prop := {
  bt_colon : ":"%char ∉ print_int b;
  bt_dot : "."%char ∉ print_int b;
  bt_length : (1 <= length (print_int b) <= 3)%nat;
  bt_read : read_byte (print_int b) = Some b;
}.
Lemma byte_run b : byte b → byte_text b.
Proof.
  intros Hb. pose proof (byte_ok_all b Hb) as Hok. unfold byte_ok in Hok. rewrite !andb_true_iff in Hok.
  destruct Hok as [[[Hl1%Nat.leb_le Hl2%Nat.leb_le] [Hc Hd]%no_separators] Hr%bool_decide_eq_true]. by split.
Qed.

(** ** IPv4 *)

Definition quad (a b c d : Z) : cstring := join "." [print_int a; print_int b; print_int c; print_int d].

Lemma pton4_quad a b c d : byte a → byte b → byte c → byte d → pton4 (quad a b c d) = Some [a; b; c; d].
Proof.
  intros Ha Hb Hc Hd. destruct (byte_run a Ha), (byte_run b Hb), (byte_run c Hc), (byte_run d Hd).
  unfold pton4, quad. rewrite split_join by (done || by repeat constructor).
  cbn [mapM]. by rewrite bt_read0, bt_read1, bt_read2, bt_read3.
Qed.

Lemma quad_text a b c d :
  byte a → byte b → byte c → byte d →
  (7 <= length (quad a b c d) <= 15)%nat ∧ ":"%char ∉ quad a b c d ∧ "."%char ∈ quad a b c d.
Proof.
  intros Ha Hb Hc Hd. destruct (byte_run a Ha), (byte_run b Hb), (byte_run c Hc), (byte_run d Hd).
  split; [|split].
  - unfold quad. cbn [join]. repeat (rewrite length_app; cbn [length]). lia.
  - apply join_free; [done|by repeat constructor].
  - unfold quad. cbn [join]. apply elem_of_app. right. by left.
Qed.

Lemma ntop4_run a b c d rest size :
  byte a → byte b → byte c → byte d →
  inet_ntop4 (a :: b :: c :: d :: rest) size =
    Some (if (length (quad a b c d) <? size)%nat then Some (quad a b c d) else None).
Proof.
  intros Ha Hb Hc Hd. destruct (quad_text a b c d Ha Hb Hc Hd) as (Hl & _). unfold inet_ntop4.
  change (print_int a ++ _) with (quad a b c d). cbv zeta.
  rewrite (proj2 (Nat.leb_gt (length (quad a b c d)) 0)) by lia. cbn [orb].
  destruct (Nat.ltb_spec (length (quad a b c d)) size).
  - rewrite (proj2 (Nat.leb_gt _ _)), take_ge by lia. done.
  - by rewrite (proj2 (Nat.leb_le _ _)) by lia.
Qed.

(** ** IPv6: the words *)

Lemma words_length n src : length src = (2 * n)%nat → length (words_of src) = n.
Proof.
  revert src. induction n as [|n IH]; intros src Hl; [by destruct src|].
  destruct src as [|a [|b src]]; cbn in Hl; [lia|lia|]. cbn. rewrite IH; lia.
Qed.

Lemma word_of_bytes hi lo :
  byte hi → byte lo → word (Z.lor (Z.shiftl hi 8) lo) ∧ group_bytes (Z.lor (Z.shiftl hi 8) lo) = [hi; lo].
Proof.
  unfold byte, word. intros Hh Hl. assert (Hand : Z.land (Z.shiftl hi 8) lo = 0).
  { apply Z.bits_inj'. intros n Hn. rewrite Z.land_spec, Z.bits_0. destruct (Z.lt_ge_cases n 8).
    - by rewrite Z.shiftl_spec_low.
    - assert (Hlo : Z.testbit lo n = false); [|by rewrite Hlo, andb_false_r].
      rewrite <- (Z.mod_small lo (2 ^ 8)) by lia. by apply Z.mod_pow2_bits_high. }
  assert (Hor : Z.lor (Z.shiftl hi 8) lo = hi * 256 + lo).
  { pose proof (Z.add_lor_land (Z.shiftl hi 8) lo) as Hadd. rewrite Hand, Z.shiftl_mul_pow2 in Hadd by lia.
    change (2 ^ 8) with 256 in Hadd. rewrite Z.shiftl_mul_pow2 by lia. change (2 ^ 8) with 256. lia. }
  rewrite Hor. change (2 ^ 8) with 256 in *. change (2 ^ 16) with 65536. split; [lia|]. unfold group_bytes.
  rewrite (Z.add_comm (hi * 256)), Z.div_add, Z.mod_add, Z.div_small, Z.mod_small by lia. done.
Qed.

Lemma words_run n src :
  length src = (2 * n)%nat → Forall byte src → Forall word (words_of src) ∧ words_of src ≫= group_bytes = src.
Proof.
  revert src. induction n as [|n IH]; intros src Hl Hb; [by destruct src|].
  destruct src as [|a [|b src]]; cbn in Hl; [lia|lia|]. apply Forall_cons in Hb as [Ha [Hb Hsrc]%Forall_cons].
  destruct (word_of_bytes a b Ha Hb) as [Hw Hg]. destruct (IH src) as [Hws Hgs]; [lia|done|].
  cbn [words_of mbind list_bind]. split; [by constructor|]. rewrite Hg. cbn. do 2 f_equal. exact Hgs.
Qed.

(** ** IPv6: the runs of zeros *)

Definition zeros (words : list Z) (b l : nat) : Prop := ∀ k, (b <= k < b + l)%nat → words !! k = Some 0.
Definition good_run (words : list Z) (r : option run) (i : nat) : Prop :=
  ∀ b l, r = Some (b, l) → zeros words b l ∧ (b + l <= i)%nat.

Lemma better_good words best cur i : good_run words best i → good_run words cur i → good_run words (better best cur) i.
Proof. intros Hb Hc b l. unfold better. destruct cur as [c|]; [|apply Hb]. destruct best as [d|]; [|apply Hc]. case_match; [apply Hc|apply Hb]. Qed.

Lemma longest_good words best cur i :
  good_run words best i → (∀ b l, cur = Some (b, l) → zeros words b l ∧ (b + l = i)%nat) → (i <= length words)%nat →
  good_run words (longest_run i (drop i words) best cur) (length words).
Proof.
  intros Hb Hc Hi. remember (drop i words) as rest eqn:Hrest. revert i best cur Hb Hc Hi Hrest.
  assert (Hup : ∀ r i j, good_run words r i → (i <= j)%nat → good_run words r j).
  { intros r i j Hr Hij b l Hbl. destruct (Hr b l Hbl). split; [done|lia]. }
  induction rest as [|w rest IH]; intros i best cur Hb Hc Hi Hrest; cbn.
  - apply better_good; [by apply (Hup _ i)|]. intros b l Hbl. destruct (Hc b l Hbl). split; [done|lia].
  - assert (Hw : words !! i = Some w).
    { rewrite <- (Nat.add_0_r i), <- lookup_drop, <- Hrest. done. }
    assert (Hlt : (i < length words)%nat) by (by apply lookup_lt_Some in Hw).
    assert (Hdrop : rest = drop (S i) words).
    { replace (S i) with (i + 1)%nat by lia. by rewrite <- drop_drop, <- Hrest. }
    destruct (Z.eqb_spec w 0) as [->|Hne].
    + apply IH; [apply (Hup _ i); [done|lia]| |lia|done]. intros b l [= Hbl]. destruct cur as [[b0 l0]|].
      * injection Hbl as <- <-. destruct (Hc b0 l0 eq_refl) as [Hz Hend]. split; [|lia].
        intros k Hk. destruct (decide (k = i)) as [->|]; [done|]. apply Hz. lia.
      * injection Hbl as <- <-. split; [|lia]. intros k Hk. by replace k with i by lia.
    + apply IH; [|done|lia|done]. apply (Hup _ i); [|lia]. apply better_good; [done|].
      intros b l Hbl. destruct (Hc b l Hbl). split; [done|]. lia.
Qed.

Lemma zeros_split words b l :
  zeros words b l → (b + l <= length words)%nat → words = take b words ++ replicate l 0 ++ drop (b + l) words.
Proof.
  intros Hz Hl. rewrite <- (take_drop b words) at 1. f_equal. rewrite <- (take_drop l (drop b words)), drop_drop. f_equal.
  apply list_eq. intros k. destruct (decide (k < l)%nat) as [Hk|Hk].
  - rewrite lookup_take_lt, lookup_drop, Hz, lookup_replicate_2 by lia. done.
  - rewrite !(proj2 (lookup_ge_None _ _)); [done|rewrite ?length_replicate, ?length_take; lia..].
Qed.

Lemma best_run_zeros words b l :
  best_run words = Some (b, l) → (2 <= l)%nat ∧ (b + l <= length words)%nat ∧ words = take b words ++ replicate l 0 ++ drop (b + l) words.
Proof.
  intros Hbest. assert (Hrun : longest_run 0 words None None = Some (b, l) ∧ (2 <= l)%nat).
  { unfold best_run in Hbest. destruct (longest_run 0 words None None) as [[b0 l0]|]; [|done].
    destruct (Nat.ltb_spec l0 2); [done|]. by injection Hbest as -> ->. }
  destruct Hrun as [Hrun Hl]. assert (Hg : good_run words (longest_run 0 (drop 0 words) None None) (length words)).
  { apply longest_good; [done|done|lia]. }
  rewrite drop_0 in Hg. destruct (Hg b l Hrun) as [Hz Hend]. split_and!; [done|done|by apply zeros_split].
Qed.

(** ** IPv6: the text *)

(** The groups of the words from the [i]th on, each after a colon but the first of all. *)
Fixpoint groups (i : nat) (ws : list Z) : cstring :=
  match ws with
  | [] => []
  | w :: ws' => (if (i =? 0)%nat then [] else [":"%char]) ++ group w ++ groups (S i) ws'
  end.

Lemma groups_length i ws : Forall word ws → (length (groups i ws) <= 5 * length ws)%nat.
Proof.
  intros Hws. revert i. induction Hws as [|w ws Hw Hws IH]; intros i; cbn [groups length]; [lia|].
  destruct (group_run w Hw) as [_ _ Hl _]. rewrite !length_app. specialize (IH (S i)). destruct (i =? 0)%nat; cbn [length]; lia.
Qed.

Lemma groups_join i ws : (0 < i)%nat → ws ≠ [] → groups i ws = ":"%char :: join ":" (group <$> ws).
Proof.
  revert i. induction ws as [|w ws IH]; intros i Hi Hne; [done|]. cbn [groups].
  rewrite (proj2 (Nat.eqb_neq _ _)) by lia. cbn [app]. destruct ws as [|w' ws]; [cbn; by rewrite app_nil_r|].
  rewrite IH by (done || lia). done.
Qed.

Lemma groups_first ws : groups 0 ws = join ":" (group <$> ws).
Proof.
  destruct ws as [|w ws]; [done|]. cbn [groups]. cbn [Nat.eqb app]. destruct ws as [|w' ws]; [cbn; by rewrite app_nil_r|].
  by rewrite groups_join by (done || lia).
Qed.

(** Words outside the run, and no encapsulated address among them. *)
Lemma format_plain src words best i ws rest text :
  (∀ k, (i <= k < i + length ws)%nat → inside best k = false ∧ is_ipv4 words best k = false) → Forall word ws →
  (length text + 5 * length ws < TMP6)%nat →
  format_words src words best i (ws ++ rest) text = format_words src words best (i + length ws) rest (text ++ groups i ws).
Proof.
  intros Hk Hws. revert i text Hk. induction Hws as [|w ws Hw Hws IH]; intros i text Hk Hl.
  { cbn. by rewrite app_nil_r, Nat.add_0_r. }
  cbn [app format_words groups length] in *. destruct (Hk i) as [-> ->]; [lia|]. destruct (group_run w Hw) as [_ _ Hg _].
  assert (Hadd : (if (i =? 0)%nat then Some text else add_checked text ":") = Some (text ++ if (i =? 0)%nat then [] else [":"%char])).
  { destruct (i =? 0)%nat; [by rewrite app_nil_r|]. unfold add_checked. by rewrite (proj2 (Nat.leb_gt _ _)) by lia. }
  rewrite Hadd. set (text' := text ++ _). assert (Hl' : (length text' <= length text + 1)%nat).
  { unfold text'. rewrite length_app. destruct (i =? 0)%nat; cbn; lia. }
  cbv zeta. change (print_hex 8 w) with (group w).
  rewrite (proj2 (Nat.leb_gt (length (group w)) 0)), (proj2 (Nat.leb_gt (TMP6 - length text') _)) by lia. cbn [orb].
  rewrite IH; [|intros k ?; apply Hk; lia|rewrite length_app; lia].
  unfold text'. rewrite <- !app_assoc. by replace (S i + length ws)%nat with (i + S (length ws))%nat by lia.
Qed.

(** The words of the run leave one colon. *)
Lemma format_zeros src words b l n i rest text :
  (b < i)%nat → (i + n = b + l)%nat →
  format_words src words (Some (b, l)) i (replicate n 0 ++ rest) text = format_words src words (Some (b, l)) (b + l) rest text.
Proof.
  revert i. induction n as [|n IH]; intros i Hi Hn; [by rewrite <- Hn, Nat.add_0_r|].
  cbn [replicate app format_words inside starts]. rewrite (proj2 (Nat.leb_le _ _)), (proj2 (Nat.ltb_lt _ _)) by lia. cbn [andb].
  rewrite (proj2 (Nat.eqb_neq _ _)) by lia. apply IH; lia.
Qed.

Lemma format_run src words b l rest text :
  (0 < l)%nat → (length text < TMP6)%nat →
  format_words src words (Some (b, l)) b (replicate l 0 ++ rest) text =
    format_words src words (Some (b, l)) (b + l) rest (text ++ [":"%char]).
Proof.
  intros Hl Ht. destruct l as [|l]; [lia|]. cbn [replicate app format_words inside starts].
  rewrite (proj2 (Nat.leb_le _ _)), (proj2 (Nat.ltb_lt b (b + S l))), Nat.eqb_refl, (proj2 (Nat.ltb_lt _ TMP6)) by lia. cbn [andb].
  apply format_zeros; lia.
Qed.

(** ** IPv6: reading *)

Lemma group_no_dot w : word w → bool_decide ("."%char ∈ group w) = false.
Proof. intros Hw. apply bool_decide_eq_false_2, group_run, Hw. Qed.

Lemma read_groups ws : Forall word ws → read_part (join ":" (group <$> ws)) = Some (ws ≫= group_bytes).
Proof.
  intros Hws. destruct (decide (ws = [])) as [->|Hne]; [done|].
  assert (Hfields : Forall (λ f, ":"%char ∉ f) (group <$> ws)).
  { apply Forall_fmap. eapply Forall_impl; [exact Hws|]. intros w Hw. apply (gt_field w), group_run, Hw. }
  assert (Hjoin : join ":" (group <$> ws) ≠ []).
  { destruct Hws as [|w ws Hw _]; [done|]. destruct (group_run w Hw) as [[Hf _] _ _ _].
    destruct ws as [|w' ws]; cbn [fmap list_fmap join]; destruct (group w); done. }
  unfold read_part. destruct (join ":" (group <$> ws)) as [|c t] eqn:Hj; [done|]. rewrite <- Hj, split_join; [|by destruct ws|done].
  clear -Hws Hne. induction Hws as [|w ws Hw Hws IH]; [done|]. destruct ws as [|w' ws].
  - cbn. rewrite group_no_dot by done. by rewrite (gt_read w (group_run w Hw)).
  - rewrite fmap_cons. change (read_fields (group w :: (group <$> w' :: ws)) = Some ((w :: w' :: ws) ≫= group_bytes)).
    assert (Hstep : ∀ f g fs, read_fields (f :: g :: fs) = w ← read_group f; bs ← read_fields (g :: fs); Some (group_bytes w ++ bs)) by done.
    rewrite fmap_cons, Hstep, (gt_read w (group_run w Hw)). cbn [mbind option_bind]. rewrite fmap_cons in IH. by rewrite IH.
Qed.

Lemma group_fields ws : Forall word ws → Forall field (group <$> ws).
Proof. intros Hws. apply Forall_fmap. eapply Forall_impl; [exact Hws|]. intros w Hw. apply group_run, Hw. Qed.

Lemma bytes_length ws : length (ws ≫= group_bytes) = (2 * length ws)%nat.
Proof. induction ws as [|w ws IH]; [done|]. cbn in *. lia. Qed.

Lemma bytes_zeros l : replicate l 0 ≫= group_bytes = replicate (2 * l) 0.
Proof. induction l as [|l IH]; [done|]. replace (2 * S l)%nat with (S (S (2 * l))) by lia. cbn [replicate mbind list_bind]. by rewrite IH. Qed.

(** The two forms without an encapsulated address. *)
Lemma read_full ws : Forall word ws → length ws = 8%nat → pton6 (join ":" (group <$> ws)) = Some (ws ≫= group_bytes).
Proof.
  intros Hws Hl. unfold pton6. rewrite split_double_none by by apply group_fields. rewrite read_groups by done.
  cbn [mbind option_bind]. by rewrite bytes_length, Hl.
Qed.

Lemma read_compressed pre l suf :
  Forall word pre → Forall word suf → (length pre + l + length suf = 8)%nat → (0 < l)%nat →
  pton6 (join ":" (group <$> pre) ++ ":"%char :: ":"%char :: join ":" (group <$> suf)) =
    Some ((pre ++ replicate l 0 ++ suf) ≫= group_bytes).
Proof.
  intros Hpre Hsuf Hlen Hl. unfold pton6. rewrite split_double_join by by apply group_fields.
  rewrite !read_groups by done. cbn [mbind option_bind]. rewrite !bytes_length.
  case_guard; [|lia]. cbn [mbind option_bind]. rewrite !bind_app, bytes_zeros.
  by replace (16 - (2 * length pre + 2 * length suf))%nat with (2 * l)%nat by lia.
Qed.

(** The encapsulated forms, [::a.b.c.d] and [::ffff:a.b.c.d]. *)
Lemma read_quad_field q : "."%char ∈ q → ":"%char ∉ q → read_part q = pton4 q.
Proof.
  intros Hd Hc. unfold read_part. destruct q as [|x t] eqn:Hq; [by apply not_elem_of_nil in Hd|]. rewrite <- Hq in *.
  rewrite split_on_last by done. cbn [read_fields]. by rewrite bool_decide_eq_true_2.
Qed.

Lemma read_embedded a b c d :
  byte a → byte b → byte c → byte d →
  pton6 ($"::" ++ quad a b c d) = Some (replicate 12 0 ++ [a; b; c; d]) ∧
  pton6 ($"::ffff:" ++ quad a b c d) = Some (replicate 10 0 ++ [0xff; 0xff; a; b; c; d]).
Proof.
  intros Ha Hb Hc Hd. pose proof (pton4_quad a b c d Ha Hb Hc Hd) as Hr. destruct (quad_text a b c d Ha Hb Hc Hd) as (Hl & Hcol & Hdot).
  assert (Hdouble : ∀ s, split_double ($"::" ++ s) = Some ([], s)) by done. split.
  - unfold pton6. rewrite Hdouble, read_quad_field, Hr by done. done.
  - unfold pton6. change ($"::ffff:" ++ quad a b c d) with ($"::" ++ ($"ffff" ++ ":"%char :: quad a b c d)). rewrite Hdouble.
    assert (Hpart : read_part ($"ffff" ++ ":"%char :: quad a b c d) = Some [0xff; 0xff; a; b; c; d]); [|by rewrite Hpart].
    change (read_part ?s) with (read_fields (split_on ":" s)). rewrite split_on_field, split_on_last by (done || by apply (bool_decide_unpack _)).
    change (read_fields [?f; ?g]) with (w ← read_group f; bs ← read_fields [g]; Some (group_bytes w ++ bs)).
    cbn [read_fields]. rewrite bool_decide_eq_true_2, Hr by done. reflexivity.
Qed.

(** ** IPv6: writing, case by case *)

Lemma not_inside_after b l k : (b + l <= k)%nat → inside (Some (b, l)) k = false.
Proof. intros Hk. unfold inside. rewrite (proj2 (Nat.ltb_ge k _)) by done. apply andb_false_r. Qed.

Lemma ipv4_only_at_6 words best k : k ≠ 6%nat → is_ipv4 words best k = false.
Proof. intros Hk. destruct best as [[b l]|]; [|done]. cbn [is_ipv4]. by rewrite (proj2 (Nat.eqb_neq _ _)). Qed.

Lemma ipv4_at_root words b l k : (0 < b)%nat → is_ipv4 words (Some (b, l)) k = false.
Proof. intros Hb. cbn [is_ipv4]. by rewrite (proj2 (Nat.eqb_neq b 0)), andb_false_r by lia. Qed.

(** Up to the end of the run. *)
Lemma format_until_run src words b l rest pre :
  Forall word pre → length pre = b → (b <= 8)%nat → (0 < l)%nat →
  format_words src words (Some (b, l)) 0 (pre ++ replicate l 0 ++ rest) [] =
    format_words src words (Some (b, l)) (b + l) rest (groups 0 pre ++ [":"%char]).
Proof.
  intros Hpre Hb Hb8 Hl. pose proof (groups_length 0 pre Hpre) as Hgl.
  rewrite format_plain; [|intros k Hk|done|cbn; unfold TMP6; lia].
  - cbn [app]. rewrite Nat.add_0_l, Hb. apply format_run; [done|unfold TMP6; lia].
  - split; [unfold inside; by rewrite (proj2 (Nat.leb_gt b _)) by lia|]. apply ipv4_at_root. lia.
Qed.

Lemma format_after_run src words b l suf text :
  Forall word suf → (length text + 5 * length suf < TMP6)%nat → ((b + l <= 6)%nat → is_ipv4 words (Some (b, l)) 6 = false) →
  format_words src words (Some (b, l)) (b + l) suf text = Some (Some (text ++ groups (b + l) suf)).
Proof.
  intros Hsuf Hl Hno. rewrite <- (app_nil_r suf) at 1. rewrite format_plain; [done| |done|done].
  intros k Hk. split; [apply not_inside_after; lia|]. destruct (decide (k = 6%nat)) as [->|]; [apply Hno; lia|by apply ipv4_only_at_6].
Qed.

(** The colon for a run at the end. *)
Definition ending (best : option run) : cstring :=
  match best with Some (base, len) => if (base + len =? 8)%nat then [":"%char] else [] | None => [] end.

Lemma finish6 src size text :
  length src = 16%nat →
  format_words src (words_of src) (best_run (words_of src)) 0 (words_of src) [] = Some (Some text) →
  (length (text ++ ending (best_run (words_of src))) <= 44)%nat →
  inet_ntop6 src size =
    Some (if (length (text ++ ending (best_run (words_of src))) <? size)%nat then Some (text ++ ending (best_run (words_of src))) else None).
Proof.
  intros Hsrc Hf Hl. unfold inet_ntop6. rewrite (proj2 (Nat.ltb_ge _ _)), (take_ge src) by lia. cbv zeta. rewrite Hf.
  set (best := best_run (words_of src)) in *.
  assert (Hend : match best with
      | Some (base, len) => if (base + len =? 8)%nat then add_checked text ":" else Some text
      | None => Some text end = Some (text ++ ending best)).
  { unfold ending in *. rewrite length_app in Hl. destruct best as [[b l]|]; [|by rewrite app_nil_r]. destruct (b + l =? 8)%nat; [|by rewrite app_nil_r].
    unfold add_checked. rewrite (proj2 (Nat.leb_gt _ _)) by (unfold TMP6; lia). done. }
  rewrite Hend. set (t := text ++ ending best) in *. rewrite (proj2 (Nat.leb_gt TMP6 _)) by (unfold TMP6; lia).
  destruct (Nat.ltb_spec size (length t + 1)), (Nat.ltb_spec (length t) size); (done || lia).
Qed.

(** What [inet_ntop6] does with sixteen bytes. *)
Definition writes6 (src : list Z) : Prop :=
  ∃ text, (∀ size, inet_ntop6 src size = Some (if (length text <? size)%nat then Some text else None)) ∧
    (length text <= 44)%nat ∧ pton6 text = Some src.

Lemma written src text :
  length src = 16%nat →
  format_words src (words_of src) (best_run (words_of src)) 0 (words_of src) [] = Some (Some text) →
  (length (text ++ ending (best_run (words_of src))) <= 44)%nat → pton6 (text ++ ending (best_run (words_of src))) = Some src →
  writes6 src.
Proof. intros Hsrc Hf Hl Hr. eexists. split_and!; [intros size; by apply finish6|done|done]. Qed.

Section writing.
Context (src : list Z).
Context (Hsrc : length src = 16%nat) (Hws : Forall word (words_of src)) (Hbytes : words_of src ≫= group_bytes = src).
Context (Hlen : length (words_of src) = 8%nat).

Lemma full_written : best_run (words_of src) = None → writes6 src.
Proof.
  intros Hbest. pose proof (groups_length 0 _ Hws) as Hg. apply (written src (groups 0 (words_of src))); [done|..].
  - rewrite Hbest. rewrite <- (app_nil_r (words_of src)) at 2. by rewrite format_plain by (done || (cbn; unfold TMP6; lia)).
  - rewrite Hbest. cbn [ending]. rewrite app_nil_r. lia.
  - rewrite Hbest. cbn [ending]. rewrite app_nil_r, groups_first, read_full by done. by rewrite Hbytes.
Qed.

Lemma plain_written pre l suf :
  best_run (words_of src) = Some (length pre, l) → words_of src = pre ++ replicate l 0 ++ suf → (2 <= l)%nat →
  ((length pre + l <= 6)%nat → is_ipv4 (words_of src) (Some (length pre, l)) 6 = false) → writes6 src.
Proof.
  intros Hbest Hsplit Hl Hno.
  assert (Hlens : (length pre + l + length suf = 8)%nat) by (rewrite Hsplit in Hlen; rewrite !length_app, length_replicate in Hlen; lia).
  pose proof Hws as Hws'. rewrite Hsplit in Hws'. apply Forall_app in Hws' as [Hpre [_ Hsuf]%Forall_app].
  pose proof (groups_length 0 pre Hpre) as Hg1. pose proof (groups_length (length pre + l) suf Hsuf) as Hg2.
  set (text := (groups 0 pre ++ [":"%char]) ++ groups (length pre + l) suf).
  assert (Htext : text ++ ending (best_run (words_of src)) = join ":" (group <$> pre) ++ ":"%char :: ":"%char :: join ":" (group <$> suf)).
  { rewrite Hbest. unfold text, ending. rewrite groups_first, <- !app_assoc. f_equal. cbn [app]. f_equal.
    destruct (decide (suf = [])) as [->|Hne].
    - rewrite (proj2 (Nat.eqb_eq _ _)) by (cbn in Hlens; lia). done.
    - rewrite groups_join by (done || lia). assert (length suf ≠ 0%nat) by by destruct suf.
      rewrite (proj2 (Nat.eqb_neq _ _)), app_nil_r by lia. done. }
  apply (written src text); [done| | |].
  - rewrite Hbest. rewrite Hsplit at 2. rewrite format_until_run by (done || lia). apply format_after_run; [done| |done].
    rewrite length_app. cbn [length]. unfold TMP6. lia.
  - unfold text, ending. rewrite Hbest, !length_app. cbn [length]. destruct (_ =? _)%nat; cbn [length]; lia.
  - rewrite Htext, (read_compressed pre l suf) by (done || lia). by rewrite <- Hsplit, Hbytes.
Qed.

Lemma embedded_written l :
  Forall byte src → best_run (words_of src) = Some (0%nat, l) → words_of src = replicate l 0 ++ drop l (words_of src) →
  (2 <= l <= 6)%nat → is_ipv4 (words_of src) (Some (0%nat, l)) 6 = true → writes6 src.
Proof.
  intros Hb Hbest Hsplit Hl Hip.
  assert (Htail : ∃ a b c d, drop 12 src = [a; b; c; d]).
  { assert (Hd : length (drop 12 src) = 4%nat) by (rewrite length_drop; lia).
    destruct (drop 12 src) as [|a [|b [|c [|d [|? ?]]]]]; try (cbn in Hd; lia). by exists a, b, c, d. }
  destruct Htail as (a & b & c & d & Htail).
  assert (Hbs : Forall byte [a; b; c; d]) by (rewrite <- Htail; by apply Forall_drop).
  repeat (apply Forall_cons in Hbs as [? Hbs]). destruct (quad_text a b c d) as (Hq & _); [done..|].
  destruct (read_embedded a b c d) as [Hr6 Hr5]; [done..|].
  assert (Hsub : ∀ zs ws, words_of src = zs ++ ws → length zs = 6%nat → src = (zs ≫= group_bytes) ++ [a; b; c; d]).
  { intros zs ws Hzs Hlz. rewrite <- Htail. rewrite <- (take_drop 12 src) at 1. f_equal.
    rewrite <- Hbytes, Hzs, bind_app. apply take_app_length'. by rewrite bytes_length, Hlz. }
  assert (Hend : ending (Some (0%nat, l)) = []) by (unfold ending; by rewrite (proj2 (Nat.eqb_neq _ _)) by lia).
  assert (Hlast : ∀ i text, i = 6%nat → (length text <= 6)%nat → ∀ w ws,
    format_words src (words_of src) (Some (0%nat, l)) i (w :: ws) text = Some (Some (text ++ ":"%char :: quad a b c d))).
  { intros i text -> Ht w ws. cbn [format_words]. rewrite (not_inside_after 0 l 6) by lia. cbn [Nat.eqb].
    unfold add_checked. rewrite (proj2 (Nat.leb_gt TMP6 _)) by (unfold TMP6; lia). rewrite Hip, Htail, ntop4_run by done.
    rewrite (proj2 (Nat.ltb_lt _ _)) by (rewrite length_app; cbn [length]; unfold TMP6; lia). by rewrite <- app_assoc. }
  assert (Hcase : l = 6%nat ∨ l = 5%nat ∧ words_of src !! 5%nat = Some 0xffff).
  { unfold is_ipv4 in Hip. cbn [Nat.eqb andb] in Hip. rewrite !orb_true_iff, !andb_true_iff in Hip.
    destruct Hip as [[->%Nat.eqb_eq|[->%Nat.eqb_eq _]]|[->%Nat.eqb_eq Hw%Z.eqb_eq]]; [by left|lia|right].
    split; [done|]. destruct (words_of src !! 5%nat); cbn in Hw; [by subst|done]. }
  assert (Hrun := format_until_run src (words_of src) 0 l (drop l (words_of src)) [] (Forall_nil_2 _) eq_refl ltac:(lia) ltac:(lia)).
  cbn [app groups Nat.add] in Hrun. rewrite <- Hsplit in Hrun. destruct Hcase as [->|[-> Hw5]].
  - assert (Hd2 : length (drop 6 (words_of src)) = 2%nat) by (rewrite length_drop; lia).
    destruct (drop 6 (words_of src)) as [|w6 ws] eqn:Hdrop; [done|].
    apply (written src ($"::" ++ quad a b c d)); [done|rewrite Hbest, Hrun; rewrite ?Hdrop; by rewrite Hlast by (done || (cbn; lia))|rewrite Hbest, Hend, app_nil_r, length_app; change (length $"::") with 2%nat; lia|].
    rewrite Hbest, Hend, app_nil_r, Hr6. f_equal. by rewrite (Hsub (replicate 6 0) (w6 :: ws)).
  - assert (Hd3 : length (drop 5 (words_of src)) = 3%nat) by (rewrite length_drop; lia).
    assert (Hhd : drop 5 (words_of src) !! 0%nat = Some 0xffff) by (by rewrite lookup_drop).
    destruct (drop 5 (words_of src)) as [|w5 [|w6 ws]] eqn:Hdrop; [done|done|]. injection Hhd as ->.
    apply (written src ($"::ffff:" ++ quad a b c d)); [done| |rewrite Hbest, Hend, app_nil_r, length_app; change (length $"::ffff:") with 7%nat; lia|].
    + rewrite Hbest, Hrun, ?Hdrop. change (0xffff :: w6 :: ws) with ([0xffff] ++ w6 :: ws). rewrite format_plain.
      * by rewrite Hlast by (done || (cbn; lia)).
      * intros k Hk. cbn [length] in Hk. replace k with 5%nat by lia. split; [by apply not_inside_after|by apply ipv4_only_at_6].
      * repeat constructor; unfold word; lia.
      * cbn; unfold TMP6; lia.
    + rewrite Hbest, Hend, app_nil_r, Hr5. f_equal. by rewrite (Hsub (replicate 5 0 ++ [0xffff]) (w6 :: ws)) by (done || by rewrite <- app_assoc).
Qed.
End writing.

(** Every address is written, and read back. *)
Lemma ntop6_run src : length src = 16%nat → Forall byte src → writes6 src.
Proof.
  intros Hsrc Hb. destruct (words_run 8 src Hsrc Hb) as [Hws Hbytes]. pose proof (words_length 8 src Hsrc) as Hlen.
  destruct (best_run (words_of src)) as [[b l]|] eqn:Hbest; [|by apply full_written].
  destruct (best_run_zeros _ _ _ Hbest) as (Hl & Hend & Hsplit). rewrite Hlen in Hend.
  assert (Hpre : length (take b (words_of src)) = b) by (rewrite length_take; lia).
  destruct (decide ((b + l <= 6)%nat ∧ is_ipv4 (words_of src) (Some (b, l)) 6 = true)) as [[H6 Hip]|Hno].
  - assert (b = 0%nat) as ->.
    { destruct b; [done|]. rewrite ipv4_at_root in Hip by lia. done. }
    by apply (embedded_written src Hsrc Hbytes Hlen l Hb Hbest).
  - apply (plain_written src Hsrc Hws Hbytes Hlen (take b (words_of src)) l (drop (b + l) (words_of src))); rewrite ?Hpre; [done..|].
    intros H6. apply not_true_is_false. intros Hip. by apply Hno.
Qed.

(** ** The text is the address *)

Definition address_size (family : af) : nat := match family with AF_INET => 4 | _ => 16 end.

(** C33: [inet_ntop] writes an IPv4 or IPv6 address in one of the text forms of RFC 4291, whichever
    runs of zeros it has, and a reader of these forms gets the address back.  The text has at
    most 15 characters for IPv4 and 44 for IPv6.  A destination without room for the text and
    its terminator is refused with a null pointer, and nothing is ever written outside the
    buffers. *)
Theorem ntop_pton family src :
  family ≠ AF_OTHER → length src = address_size family → Forall byte src →
  ∃ text, inet_pton family text = Some src ∧ (length text <= if decide (family = AF_INET) then 15 else 44)%nat ∧
    ∀ size, inet_ntop family src size = Some (if (length text <? size)%nat then Some text else None).
Proof.
  destruct family; intros Hf Hsrc Hb; [|destruct (ntop6_run src Hsrc Hb) as (text & ? & ? & ?); by exists text|done].
  destruct src as [|a [|b [|c [|d [|? ?]]]]]; try discriminate Hsrc.
  repeat (apply Forall_cons in Hb as [? Hb]). exists (quad a b c d). split_and!; [by apply pton4_quad|by apply quad_text|].
  intros size. by apply ntop4_run.
Qed.

Lemma ntop_pton_witness :
  ∃ text, inet_pton AF_INET6 text = Some [0x20; 1; 0xd; 0xb8; 0; 0; 0; 0; 0; 1; 0; 0; 0; 0; 0; 1] ∧ (length text <= 44)%nat ∧
    ∀ size, inet_ntop AF_INET6 [0x20; 1; 0xd; 0xb8; 0; 0; 0; 0; 0; 1; 0; 0; 0; 0; 0; 1] size =
      Some (if (length text <? size)%nat then Some text else None).
Proof.
  apply (ntop_pton AF_INET6 [0x20; 1; 0xd; 0xb8; 0; 0; 0; 0; 0; 1; 0; 0; 0; 0; 0; 1]); [discriminate|reflexivity|].
  repeat constructor; unfold byte; lia.
Defined.

(** The longest run is shortened, the first of two that are equally long. *)
Example ntop6_ex :
  inet_ntop AF_INET6 [0x20; 1; 0; 0; 0; 0; 0; 9; 0; 0; 0; 0; 0; 0; 0; 1] 46 = Some (Some $"2001:0:0:9::1") ∧
  inet_ntop AF_INET6 [0x20; 1; 0xd; 0xb8; 0; 0; 0; 0; 0; 1; 0; 0; 0; 0; 0; 1] 46 = Some (Some $"2001:db8::1:0:0:1") ∧
  inet_ntop AF_INET6 [0; 0; 0; 0; 0; 0; 0; 0; 0; 0; 0xff; 0xff; 192; 0; 2; 128] 46 = Some (Some $"::ffff:192.0.2.128").
Proof. vm_compute. done. Qed.
