(* ===== verification/PBuf.v ===== *)
(** * Packet buffers (src/util/p_buf.c)

    Buffers of a fixed size, recycled through a free list, and chains of them that a
    stream of bytes is written to. *)

From S2P Require Import Prelude.
Local Open Scope Z_scope.

Abbreviation loc := positive.

(** [pb_data] is the memory of the buffer, of [pb_size] bytes. *)
Record nr_p_buf := PBuf {
  pb_data : list Z;
  pb_size : Z;
  pb_r_offset : Z;
  pb_length : Z;
}.

(** The buffers, a context ([None]: destroyed) with its free list, and a chain. *)
Record pbuf_state := PState {
  bufs : gmap loc nr_p_buf;
  pbrk : loc;
  panswers : list bool;
  buf_size : option Z;
  free_list : list loc;
  chain : list loc;
}.

#[export] Instance pbuf_alloc : HasAlloc pbuf_state := {
  alloc_answers := panswers;
  set_alloc_answers l s := PState (bufs s) (pbrk s) l (buf_size s) (free_list s) (chain s);
}.
#[export] Instance pbuf_alloc_laws : AllocLaws pbuf_state.
Proof. split; [done|done|by intros []]. Qed.

Abbreviation P := (M pbuf_state).

Definition set_bufs (f : gmap loc nr_p_buf → gmap loc nr_p_buf) (s : pbuf_state) : pbuf_state :=
  PState (f (bufs s)) (pbrk s) (panswers s) (buf_size s) (free_list s) (chain s).
Definition new_buf (b : nr_p_buf) (s : pbuf_state) : pbuf_state :=
  PState (<[pbrk s := b]> (bufs s)) (Pos.succ (pbrk s)) (panswers s) (buf_size s) (free_list s) (chain s).
Definition set_ctx (size : option Z) (s : pbuf_state) : pbuf_state :=
  PState (bufs s) (pbrk s) (panswers s) size (free_list s) (chain s).
Definition set_free (l : list loc) (s : pbuf_state) : pbuf_state :=
  PState (bufs s) (pbrk s) (panswers s) (buf_size s) l (chain s).
Definition set_chain (l : list loc) (s : pbuf_state) : pbuf_state :=
  PState (bufs s) (pbrk s) (panswers s) (buf_size s) (free_list s) l.

Definition load_buf (l : loc) : P nr_p_buf := s ← get; from_option_ub (bufs s !! l).
Definition store_buf (l : loc) (b : nr_p_buf) : P unit := _ ← load_buf l; modify (set_bufs <[l := b]>).

Definition nr_p_buf_ctx_create (size : Z) : P unit :=
  alloc_or_abort;;
  modify (set_free []);;
  modify (set_ctx (Some size)).

(** [nr_p_buf_destroy]: freeing what is not allocated is undefined. *)
Definition nr_p_buf_destroy (l : loc) : P unit := _ ← load_buf l; modify (set_bufs (delete l)).

Fixpoint nr_p_buf_destroy_chain (ls : list loc) : P unit :=
  match ls with [] => mret () | l :: ls' => nr_p_buf_destroy l;; nr_p_buf_destroy_chain ls' end.

Definition nr_p_buf_ctx_destroy : P unit :=
  s ← get;
  match buf_size s with
  | None => mret ()
  | Some _ => nr_p_buf_destroy_chain (free_list s);; modify (set_free []);; modify (set_ctx None)
  end.

(** The two allocations of a new buffer; when the second fails the first is given back. *)
Definition nr_p_buf_alloc : P loc :=
  s ← get;
  buf ← (match free_list s with
         | l :: rest => modify (set_free rest);; mret l
         | [] =>
             size ← from_option_ub (buf_size s);
             alloc_or_abort;;
             alloc_or_abort;;
             s ← get;
             modify (new_buf (PBuf (replicate (Z.to_nat size) 0) size 0 0));;
             mret (pbrk s)
         end);
  b ← load_buf buf;
  store_buf buf (PBuf (pb_data b) (pb_size b) 0 0);;
  mret buf.

Definition nr_p_buf_free (l : loc) : P unit := s ← get; modify (set_free (free_list s ++ [l])).

(** The head of the chain is left as it is. *)
Fixpoint nr_p_buf_free_chain (ls : list loc) : P unit :=
  match ls with [] => mret () | l :: ls' => nr_p_buf_free l;; nr_p_buf_free_chain ls' end.

(** [memcpy] into the buffer, which must have the room. *)
Definition put_bytes (at_ : nat) (new old : list Z) : option (list Z) :=
  if (at_ + length new <=? length old)%nat then Some (take at_ old ++ new ++ drop (at_ + length new) old)
  else None.

(** The loop, with the bytes still to write.  Every turn but the first writes at least one
    byte, unless the size of the buffers is zero. *)
Fixpoint write_loop (fuel : nat) (buf : option loc) (data : list Z) : P unit :=
  match data with
  | [] => mret ()
  | _ =>
      match fuel with
      | O => undef
      | S fuel' =>
          l ← (match buf with
               | Some l => mret l
               | None =>
                   l ← nr_p_buf_alloc;
                   s ← get; modify (set_chain (chain s ++ [l]));; mret l
               end);
          b ← load_buf l;
          let room := wrap 32 (pb_size b - (pb_length b + pb_r_offset b)) in
          let len := Z.of_nat (length data) in
          let towrite := swrap 32 (if room <? len then room else len) in
          if towrite <? 0 then undef
          else
            let n := Z.to_nat towrite in
            mem ← from_option_ub (put_bytes (Z.to_nat (pb_length b + pb_r_offset b)) (take n data) (pb_data b));
            store_buf l (PBuf mem (pb_size b) (pb_r_offset b) (wrap 32 (pb_length b + towrite)));;
            write_loop fuel' None (drop n data)
      end
  end.

Definition nr_p_buf_write_to_chain (fuel : nat) (data : list Z) : P unit :=
  s ← get;
  write_loop fuel (last (chain s)) data.

(** ** Facts *)

(** What a buffer and a chain hold. *)
Definition buf_bytes (b : nr_p_buf) : list Z :=
  take (Z.to_nat (pb_length b)) (drop (Z.to_nat (pb_r_offset b)) (pb_data b)).
Definition chain_bytes (s : pbuf_state) (ls : list loc) : list Z :=
  l ← ls; match bufs s !! l with Some b => buf_bytes b | None => [] end.

Definition buf_wf (b : nr_p_buf) : Prop :=
  0 < pb_size b < 2 ^ 31 ∧ length (pb_data b) = Z.to_nat (pb_size b) ∧
  0 <= pb_r_offset b ∧ 0 <= pb_length b ∧ pb_length b + pb_r_offset b <= pb_size b.

Record pbuf_wf (s : pbuf_state) : Prop := {
  pw_bufs l : l ∈ free_list s ++ chain s → ∃ b, bufs s !! l = Some b ∧ buf_wf b;
  pw_nodup : NoDup (free_list s ++ chain s);
  pw_fresh l : (pbrk s <= l)%positive → bufs s !! l = None;
  pw_size : ∃ size, buf_size s = Some size ∧ 0 < size < 2 ^ 31;
  pw_mem : mem_plenty s;
}.

Section facts.
Implicit Types (s : pbuf_state) (l : loc) (b : nr_p_buf) (data : list Z).

Lemma load_buf_ok s l b : bufs s !! l = Some b → load_buf l s = Ok b s.
Proof. intros Hl. unfold load_buf. mstep. by rewrite Hl. Qed.

Lemma store_buf_ok s l b b' : bufs s !! l = Some b → store_buf l b' s = Ok () (set_bufs <[l := b']> s).
Proof. intros Hl. unfold store_buf. by mstep using load_buf_ok. Qed.

Lemma chain_bytes_app s ls ls' : chain_bytes s (ls ++ ls') = chain_bytes s ls ++ chain_bytes s ls'.
Proof. unfold chain_bytes. apply bind_app. Qed.

Lemma chain_bytes_one s l b : bufs s !! l = Some b → chain_bytes s [l] = buf_bytes b.
Proof. intros Hl. unfold chain_bytes. cbn. by rewrite Hl, app_nil_r. Qed.

Lemma chain_bytes_same s s' ls : (∀ l, l ∈ ls → bufs s' !! l = bufs s !! l) → chain_bytes s' ls = chain_bytes s ls.
Proof.
  intros Hsame. unfold chain_bytes. induction ls as [|l ls IH]; [done|]. cbn. rewrite Hsame by by left.
  f_equal. apply IH. intros x Hx. apply Hsame. by right.
Qed.

(** Writing at the end of what a buffer holds. *)
Lemma put_bytes_run b (new : list Z) :
  buf_wf b → Z.of_nat (length new) <= pb_size b - (pb_length b + pb_r_offset b) →
  ∃ mem, put_bytes (Z.to_nat (pb_length b + pb_r_offset b)) new (pb_data b) = Some mem ∧
    let b' := PBuf mem (pb_size b) (pb_r_offset b) (pb_length b + Z.of_nat (length new)) in
    buf_wf b' ∧ buf_bytes b' = buf_bytes b ++ new.
Proof.
  intros (Hsz & Hlen & Hr & Hl & Hfit) Hroom. unfold put_bytes.
  set (at_ := Z.to_nat (pb_length b + pb_r_offset b)).
  assert (Hat : (at_ + length new <= length (pb_data b))%nat) by lia.
  rewrite (proj2 (Nat.leb_le _ _) Hat). eexists. split; [done|]. cbv zeta. split.
  - split_and!; cbn; try lia. rewrite !length_app, length_take, length_drop. lia.
  - unfold buf_bytes. cbn.
    replace (Z.to_nat (pb_length b + Z.of_nat (length new))) with (Z.to_nat (pb_length b) + length new)%nat by lia.
    assert (Hsplit : at_ = (Z.to_nat (pb_r_offset b) + Z.to_nat (pb_length b))%nat) by lia.
    rewrite drop_app_le by (rewrite length_take; lia).
    rewrite (skipn_firstn_comm (Z.to_nat (pb_r_offset b))).
    replace (at_ - Z.to_nat (pb_r_offset b))%nat with (Z.to_nat (pb_length b)) by lia.
    rewrite take_app_ge by (rewrite length_take, length_drop; lia).
    rewrite length_take, length_drop.
    replace (Z.to_nat (pb_length b) `min` (length (pb_data b) - Z.to_nat (pb_r_offset b)))%nat
      with (Z.to_nat (pb_length b)) by lia.
    f_equal. rewrite take_app_le by lia. rewrite take_ge; [done|lia].
Qed.

(** The bytes go into the last buffer of the chain. *)
Lemma store_last s pre l b b' :
  pbuf_wf s → chain s = pre ++ [l] → bufs s !! l = Some b → buf_wf b' →
  pbuf_wf (set_bufs <[l := b']> s) ∧
  chain_bytes (set_bufs <[l := b']> s) (pre ++ [l]) = chain_bytes s pre ++ buf_bytes b'.
Proof.
  intros [Hb Hnd Hf Hs Hm] Hch Hl Hb'. split.
  - split; try done; cbn.
    + intros x Hx. rewrite lookup_insert. case_decide; [by exists b'|by apply Hb].
    + intros x Hx. rewrite lookup_insert_ne; [by apply Hf|]. intros <-. by rewrite Hf in Hl.
  - rewrite chain_bytes_app, (chain_bytes_one _ l b') by (cbn; by apply lookup_insert_eq).
    f_equal. apply chain_bytes_same. intros x Hx. cbn. rewrite lookup_insert_ne; [done|]. intros <-.
    rewrite Hch in Hnd. apply NoDup_app in Hnd as (_ & _ & Hnd). apply NoDup_app in Hnd as (_ & Hno & _).
    apply (Hno l Hx). by left.
Qed.

(** A buffer outside of the chain is emptied and put at its end. *)
Definition fetched s l s0 : Prop :=
  pbuf_wf (set_chain (chain s ++ [l]) s0) ∧ is_Some (bufs s0 !! l) ∧ chain s0 = chain s ∧
  (∀ x, x ∈ chain s → bufs s0 !! x = bufs s !! x) ∧ l ∉ chain s.

Lemma empty_run s l s0 :
  fetched s l s0 →
  ∃ b, let s1 := set_chain (chain s ++ [l]) (set_bufs <[l := b]> s0) in
    (b ← load_buf l; store_buf l (PBuf (pb_data b) (pb_size b) 0 0);; mret l) s0 = Ok l (set_bufs <[l := b]> s0) ∧
    pbuf_wf s1 ∧ bufs s1 !! l = Some b ∧ buf_bytes b = [] ∧ pb_length b = 0 ∧ pb_r_offset b = 0 ∧
    chain_bytes s1 (chain s) = chain_bytes s (chain s).
Proof.
  intros ([Hb0 Hnd0 Hf0 Hs0 Hm0] & [b0 Hl] & Hch & Hold & Hnew). exists (PBuf (pb_data b0) (pb_size b0) 0 0). cbn in *.
  split_and!; try done.
  - mstep using load_buf_ok. erewrite bind_ok by by eapply store_buf_ok. done.
  - split; try done; cbn.
    + intros x Hx. rewrite lookup_insert. case_decide as Hxl; [|by apply Hb0].
      destruct (Hb0 l) as (b1 & Hb1 & (? & ? & _)); [by subst|]. rewrite Hl in Hb1. injection Hb1 as <-.
      eexists. split; [done|]. split_and!; cbn; (done || lia).
    + intros x Hx. rewrite lookup_insert_ne; [by apply Hf0|]. intros <-. by rewrite Hf0 in Hl.
  - by apply lookup_insert_eq.
  - apply chain_bytes_same. intros x Hx. cbn. rewrite lookup_insert_ne; [by apply Hold|by intros <-].
Qed.

(** A new buffer, and one from the free list. *)
Lemma fetched_new s size :
  pbuf_wf s → free_list s = [] → buf_size s = Some size → 0 < size < 2 ^ 31 →
  fetched s (pbrk s) (new_buf (PBuf (replicate (Z.to_nat size) 0) size 0 0) s).
Proof.
  intros [Hb Hnd Hf (size' & Hsize' & _) Hm] Hfree Hsize Hrange. rewrite Hfree in Hb, Hnd. cbn [app] in Hb, Hnd.
  assert (Hbrk : pbrk s ∉ chain s).
  { intros Hin. destruct (Hb (pbrk s) Hin) as (b & Hx & _). by rewrite Hf in Hx. }
  split_and!; [split; cbn; rewrite ?Hfree; try done|by eexists; apply lookup_insert_eq|done| |done].
  - intros x Hx. rewrite app_nil_l in Hx. apply elem_of_app in Hx as [Hx|Hx].
    + rewrite lookup_insert_ne; [by apply Hb|]. intros Heq. apply Hbrk. by rewrite Heq.
    + apply list_elem_of_singleton in Hx as ->. rewrite lookup_insert_eq. eexists. split; [done|].
      split_and!; cbn; rewrite ?length_replicate; lia.
  - rewrite app_nil_l. apply NoDup_app. split_and!; [done| |apply NoDup_singleton].
    intros x Hx ->%list_elem_of_singleton. done.
  - intros x Hx. rewrite lookup_insert_ne by lia. apply Hf. lia.
  - by exists size.
  - intros x Hx. cbn. rewrite lookup_insert_ne; [done|]. intros Heq. apply Hbrk. by rewrite Heq.
Qed.

Lemma fetched_free s l rest : pbuf_wf s → free_list s = l :: rest → fetched s l (set_free rest s).
Proof.
  intros [Hb Hnd Hf Hsize Hm] Hfree. rewrite Hfree in Hb, Hnd. cbn in Hnd. apply NoDup_cons in Hnd as [Hno Hnd].
  destruct (Hb l) as (b0 & Hl0 & Hb0); [by left|].
  split_and!; [split; cbn; try done|by exists b0|done|done|].
  - intros x Hx. apply Hb. rewrite app_assoc in Hx. apply elem_of_app in Hx as [Hx|Hx]; [by right|].
    apply list_elem_of_singleton in Hx as ->. by left.
  - rewrite app_assoc. apply NoDup_app. split_and!; [done| |apply NoDup_singleton].
    intros x Hx ->%list_elem_of_singleton. done.
  - intros Hx. apply Hno, elem_of_app. by right.
Qed.

(** A fresh or recycled buffer, empty, at the end of the chain. *)
Lemma pbuf_alloc_run s :
  pbuf_wf s →
  ∃ l s1 b, (l ← nr_p_buf_alloc; s ← get; modify (set_chain (chain s ++ [l]));; mret l) s = Ok l s1 ∧
    pbuf_wf s1 ∧ chain s1 = chain s ++ [l] ∧ bufs s1 !! l = Some b ∧ buf_bytes b = [] ∧
    pb_length b = 0 ∧ pb_r_offset b = 0 ∧ chain_bytes s1 (chain s) = chain_bytes s (chain s).
Proof.
  intros Hwf. pose proof Hwf as [_ _ _ (size & Hsize & Hrange) Hm].
  assert (Hfetch : ∃ l s0, fetched s l s0 ∧
    nr_p_buf_alloc s = (b ← load_buf l; store_buf l (PBuf (pb_data b) (pb_size b) 0 0);; mret l) s0).
  { unfold nr_p_buf_alloc. destruct (free_list s) as [|l rest] eqn:Hfree.
    - eexists _, _. split; [by eapply fetched_new|]. mstep. rewrite Hfree, Hsize. erewrite bind_ok; [done|].
      mstep. mstep using alloc_or_abort_plenty. mstep using alloc_or_abort_plenty. by mstep.
    - eexists _, _. split; [by eapply fetched_free|]. mstep. rewrite Hfree. erewrite bind_ok; [done|]. by mstep. }
  destruct Hfetch as (l & s0 & Hfetch & Heq). destruct (empty_run s l s0 Hfetch) as (b & Hrun & Hwf1 & Hl & Hb & Hlen & Hr & Hbytes).
  exists l, (set_chain (chain s ++ [l]) (set_bufs <[l := b]> s0)), b. split_and!; try done.
  rewrite (bind_ok _ _ s l (set_bufs <[l := b]> s0)) by (by rewrite Heq). mstep.
  destruct Hfetch as (_ & _ & Hch & _). cbn. by rewrite Hch.
Qed.

(** One turn of the loop, with a buffer at the end of the chain. *)
Lemma turn_run s pre l b data fuel :
  pbuf_wf s → chain s = pre ++ [l] → bufs s !! l = Some b → Z.of_nat (length data) < 2 ^ 32 →
  let n := Z.to_nat (Z.min (Z.of_nat (length data)) (pb_size b - (pb_length b + pb_r_offset b))) in
  ∃ s', pbuf_wf s' ∧ chain s' = chain s ∧ chain_bytes s' (chain s') = chain_bytes s (chain s) ++ take n data ∧
    (b ← load_buf l;
     let room := wrap 32 (pb_size b - (pb_length b + pb_r_offset b)) in
     let len := Z.of_nat (length data) in
     let towrite := swrap 32 (if room <? len then room else len) in
     if towrite <? 0 then undef
     else
       let n := Z.to_nat towrite in
       mem ← from_option_ub (put_bytes (Z.to_nat (pb_length b + pb_r_offset b)) (take n data) (pb_data b));
       store_buf l (PBuf mem (pb_size b) (pb_r_offset b) (wrap 32 (pb_length b + towrite)));;
       write_loop fuel None (drop n data)) s = write_loop fuel None (drop n data) s'.
Proof.
  intros Hwf Hch Hl Hdata n. destruct (pw_bufs s Hwf l) as (b0 & Hb0 & Hb).
  { rewrite Hch. apply elem_of_app. right. apply elem_of_app. right. by left. }
  rewrite Hl in Hb0. injection Hb0 as <-. pose proof Hb as (Hsz & Hlen & Hr & Hlb & Hfit).
  assert (Hn : Z.of_nat (length (take n data)) = Z.of_nat n) by (rewrite length_take; unfold n; lia).
  destruct (put_bytes_run b (take n data) Hb) as (mem & Hput & Hb' & Hbytes); [rewrite Hn; unfold n; lia|].
  rewrite Hn in Hb', Hbytes.
  destruct (store_last s pre l b _ Hwf Hch Hl Hb') as [Hwf' Hchain].
  eexists. split_and!; [exact Hwf'|done| |].
  - cbn [set_bufs chain]. rewrite Hch, Hchain, Hbytes, chain_bytes_app, (chain_bytes_one s l b), app_assoc by done. done.
  - mstep using load_buf_ok. cbv zeta. rewrite wrap_small by lia.
    assert (Hmin : (if pb_size b - (pb_length b + pb_r_offset b) <? Z.of_nat (length data)
      then pb_size b - (pb_length b + pb_r_offset b) else Z.of_nat (length data)) = Z.of_nat n).
    { unfold n. destruct (Z.ltb_spec (pb_size b - (pb_length b + pb_r_offset b)) (Z.of_nat (length data))); lia. }
    rewrite Hmin, swrap_small by (unfold n; lia). destruct (Z.ltb_spec (Z.of_nat n) 0); [lia|].
    rewrite Nat2Z.id, Hput. mstep. rewrite wrap_small by (unfold n; lia).
    by erewrite bind_ok by by eapply store_buf_ok.
Qed.

Lemma write_loop_run fuel s data :
  pbuf_wf s → Z.of_nat (length data) < 2 ^ 32 → (length data <= fuel)%nat →
  ∃ s', write_loop fuel None data s = Ok () s' ∧ pbuf_wf s' ∧
    chain_bytes s' (chain s') = chain_bytes s (chain s) ++ data.
Proof.
  revert s data. induction fuel as [|fuel IH]; intros s data Hwf Hdata Hfuel.
  { destruct data; [|cbn in Hfuel; lia]. exists s. by rewrite app_nil_r. }
  destruct data as [|d data]; [exists s; by rewrite app_nil_r|].
  destruct (pbuf_alloc_run s Hwf) as (l & s1 & b & Hrun1 & Hwf1 & Hch1 & Hl1 & Hb1 & Hlen1 & Hr1 & Hold).
  destruct (pw_bufs s1 Hwf1 l) as (b0 & Hb0 & (Hsz & _)).
  { rewrite Hch1. apply elem_of_app. right. apply elem_of_app. right. by left. }
  rewrite Hl1 in Hb0. injection Hb0 as <-.
  destruct (turn_run s1 (chain s) l b (d :: data) fuel Hwf1 Hch1 Hl1 Hdata) as (s2 & Hwf2 & Hch2 & Hbytes & Hturn).
  rewrite Hlen1, Hr1 in Hbytes, Hturn. set (n := Z.to_nat _) in Hbytes, Hturn.
  assert (Hn : (1 <= n <= length (d :: data))%nat) by (unfold n; cbn [length]; lia).
  destruct (IH s2 (drop n (d :: data)) Hwf2) as (s3 & Hrun3 & Hwf3 & Hbytes3); [rewrite length_drop; lia..|].
  exists s3. split_and!; [|done|].
  - cbn [write_loop]. erewrite bind_ok by exact Hrun1. cbv zeta in Hturn |- *. by rewrite Hturn.
  - rewrite Hbytes3, Hbytes, Hch1, chain_bytes_app, (chain_bytes_one s1 l b), Hb1, app_nil_r, Hold by done.
    by rewrite <- app_assoc, take_drop.
Qed.

(** C18: [nr_p_buf_write_to_chain] ends, and the chain then holds what it held followed by the
    data, whatever the sizes of its buffers: the last one is filled up first, and recycled
    or new ones are added. *)
Theorem write_to_chain_appends s data fuel :
  pbuf_wf s → Z.of_nat (length data) < 2 ^ 32 → (length data < fuel)%nat →
  ∃ s', nr_p_buf_write_to_chain fuel data s = Ok () s' ∧ pbuf_wf s' ∧
    chain_bytes s' (chain s') = chain_bytes s (chain s) ++ data.
Proof.
  intros Hwf Hdata Hfuel. unfold nr_p_buf_write_to_chain. mstep.
  destruct (last (chain s)) as [l|] eqn:Hlast; [|by apply write_loop_run; [..|lia]].
  destruct data as [|d data]; [exists s; split_and!; [by destruct fuel|done|by rewrite app_nil_r]|].
  apply last_Some in Hlast as [pre Hch].
  destruct (pw_bufs s Hwf l) as (b & Hl & _).
  { rewrite Hch. apply elem_of_app. right. apply elem_of_app. right. by left. }
  destruct fuel as [|fuel]; [lia|].
  destruct (turn_run s pre l b (d :: data) fuel Hwf Hch Hl Hdata) as (s2 & Hwf2 & Hch2 & Hbytes & Hturn).
  set (n := Z.to_nat _) in Hbytes, Hturn.
  destruct (write_loop_run fuel s2 (drop n (d :: data)) Hwf2) as (s3 & Hrun3 & Hwf3 & Hbytes3);
    [rewrite length_drop; lia..|].
  exists s3. split_and!; [|done|].
  - cbn [write_loop]. mstep. cbv zeta in Hturn |- *. by rewrite Hturn.
  - by rewrite Hbytes3, Hbytes, <- app_assoc, take_drop.
Qed.
End facts.

(** A context of 4-byte buffers, one of them free, and a chain of one buffer that holds a
    byte at offset 1. *)
Definition demo : pbuf_state :=
  PState {[1%positive := PBuf [7; 8; 0; 0] 4 1 1; 2%positive := PBuf [0; 0; 0; 0] 4 3 1]} 3 [] (Some 4) [2%positive] [1%positive].

Lemma demo_wf : pbuf_wf demo.
Proof.
  split; try done.
  - intros l [->|[->|[]%not_elem_of_nil]%elem_of_cons]%elem_of_cons; eexists; (split; [reflexivity|]);
      split_and!; cbn; lia.
  - apply (bool_decide_unpack _). by vm_compute.
  - intros l Hl. cbn in Hl |- *. rewrite lookup_insert_ne by (intros <-; lia). by apply lookup_singleton_ne; intros <-; lia.
  - exists 4. split; [done|lia].
Qed.

Lemma write_to_chain_appends_witness :
  ∃ s', nr_p_buf_write_to_chain 10 [1; 2; 3; 4; 5; 6; 7; 8; 9] demo = Ok () s' ∧ pbuf_wf s' ∧
    chain_bytes s' (chain s') = chain_bytes demo [1%positive] ++ [1; 2; 3; 4; 5; 6; 7; 8; 9].
Proof. apply (write_to_chain_appends demo [1; 2; 3; 4; 5; 6; 7; 8; 9] 10); [exact demo_wf|cbn; lia..]. Defined.

(** The chain after that run: the first buffer filled up, the free one taken, a new one made. *)
Example write_to_chain_demo :
  match nr_p_buf_write_to_chain 10 [1; 2; 3; 4; 5; 6; 7; 8; 9] demo with
  | Ok _ s' => (chain s', free_list s', chain_bytes s' (chain s')) = ([1; 2; 3]%positive, [], [8; 1; 2; 3; 4; 5; 6; 7; 8; 9])
  | _ => False
  end.
Proof. by vm_compute. Qed.
