(* ===== verification/RMemory.v ===== *)
(** * The accounting allocator (src/util/libekr/r_memory.c)

    Every block carries a header with its type and size, and the totals are kept as blocks
    come and go.  The C library's allocator is asked for memory and may refuse. *)

From Stdlib Require Import Ascii.
From S2P Require Import Prelude CString.
Local Open Scope Z_scope.

Abbreviation loc := positive.

(** [r_malloc_chunk]: the memory's bytes, [None] for one that was never written. *)
Record r_malloc_chunk := Chunk { ck_type : Z; ck_size : Z; ck_memory : list (option Z) }.

Record mem_state := MemState {
  chunks : gmap loc r_malloc_chunk;
  mbrk : loc;
  manswers : list bool;
  mem_usage : Z;        (* UINT4 *)
  mem_stats : list Z;   (* UINT4[256] *)
}.

#[export] Instance mem_alloc : HasAlloc mem_state := {
  alloc_answers := manswers;
  set_alloc_answers l s := MemState (chunks s) (mbrk s) l (mem_usage s) (mem_stats s);
}.
#[export] Instance mem_alloc_laws : AllocLaws mem_state.
Proof. split; [done|done|by intros []]. Qed.

Abbreviation MM := (M mem_state).

Definition mem_initial : mem_state := MemState ∅ 1 [] 0 (replicate 256 0).

Section allocator.
(** [sizeof(r_malloc_chunk)]: 12, or 16 with [SANITY_CHECKS]. *)
Context (HEADER : Z).

Definition CHUNK_SIZE (size : Z) : Z := wrap 64 (size + HEADER).

(** [mem_stats[type]+=d]; the index must be that of an element. *)
Definition add_stats (type d : Z) (stats : list Z) : option (list Z) :=
  if type <? 0 then None
  else match stats !! Z.to_nat type with
       | Some v => Some (<[Z.to_nat type := wrap 32 (v + d)]> stats)
       | None => None
       end.

Definition account (type usage_delta stats_delta : Z) : MM unit :=
  s ← get;
  stats ← from_option_ub (add_stats type stats_delta (mem_stats s));
  modify (λ s, MemState (chunks s) (mbrk s) (manswers s) (wrap 32 (mem_usage s + usage_delta)) stats).

Definition set_chunks (f : gmap loc r_malloc_chunk → gmap loc r_malloc_chunk) (s : mem_state) : mem_state :=
  MemState (f (chunks s)) (mbrk s) (manswers s) (mem_usage s) (mem_stats s).

Definition load_chunk (l : loc) : MM r_malloc_chunk := s ← get; from_option_ub (chunks s !! l).

(** [None] is the null pointer.  The header keeps the low byte of the type and the low half
    of the size.  When adding the header's size wraps around, the block is smaller than the
    header that is then written to it. *)
Definition r_malloc (type size : Z) : MM (option loc) :=
  if 2 ^ 64 <=? size + HEADER then undef
  else
    ok ← alloc_ok;
    if (ok : bool) then
      s ← get;
      let chunk := mbrk s in
      modify (λ s, MemState
        (<[chunk := Chunk (wrap 8 type) (wrap 32 size) (replicate (Z.to_nat size) None)]> (chunks s))
        (Pos.succ (mbrk s)) (manswers s) (mem_usage s) (mem_stats s));;
      account type (CHUNK_SIZE size) size;;
      mret (Some chunk)
    else mret None.

(** [memset] and [memcpy] to the start of a block, which must have the room. *)
Definition write_memory (l : loc) (bytes : list Z) : MM unit :=
  c ← load_chunk l;
  if (length bytes <=? length (ck_memory c))%nat then
    modify (set_chunks <[l := Chunk (ck_type c) (ck_size c)
      ((Some <$> bytes) ++ drop (length bytes) (ck_memory c))]>)
  else undef.

(** The bytes cleared are [size], not [number*size]. *)
Definition r_calloc (type number size : Z) : MM (option loc) :=
  let total := wrap 64 (number * size) in
  ret ← r_malloc type total;
  match ret with
  | None => mret None
  | Some l => write_memory l (replicate (Z.to_nat size) 0);; mret (Some l)
  end.

Definition r_free (ptr : option loc) : MM unit :=
  match ptr with
  | None => mret ()
  | Some l =>
      chunk ← load_chunk l;
      account (ck_type chunk) (- CHUNK_SIZE (ck_size chunk)) (- ck_size chunk);;
      modify (set_chunks (delete l))
  end.

(** [realloc] may move the block: the old address is then dangling. *)
Definition r_realloc (ptr : option loc) (size : Z) : MM (option loc) :=
  match ptr with
  | None => r_malloc 255 size
  | Some l =>
      if 2 ^ 64 <=? size + HEADER then undef
      else
        chunk ← load_chunk l;
        ok ← alloc_ok;
        if (ok : bool) then
          s ← get;
          let nchunk := mbrk s in
          let mem := take (Z.to_nat size) (ck_memory chunk) ++
                     replicate (Z.to_nat size - length (ck_memory chunk)) None in
          account (ck_type chunk) (- CHUNK_SIZE (ck_size chunk)) (- ck_size chunk);;
          modify (λ s, MemState
            (<[nchunk := Chunk (ck_type chunk) (wrap 32 size) mem]> (delete l (chunks s)))
            (Pos.succ (mbrk s)) (manswers s) (mem_usage s) (mem_stats s));;
          account (ck_type chunk) (CHUNK_SIZE (wrap 32 size)) (wrap 32 size);;
          mret (Some nchunk)
        else mret None
  end.

(** A string whose length does not fit an [int] is left undefined. *)
Definition r_strdup (str : option cstring) : MM (option loc) :=
  match str with
  | None => mret None
  | Some str =>
      let len := Z.of_nat (strlen str) + 1 in
      if 2 ^ 31 <=? len then undef
      else
        nstr ← r_malloc 0 len;
        match nstr with
        | None => mret None
        | Some l => write_memory l (cbytes str);; mret (Some l)
        end
  end.

Definition r_mem_get_usage : MM Z := gets mem_usage.
Definition r_malloc_compat (size : Z) : MM (option loc) := r_malloc 255 size.

(** ** Facts *)

(** What the blocks in use add up to. *)
Definition sum_chunks (f : r_malloc_chunk → Z) (m : gmap loc r_malloc_chunk) : Z := map_fold (λ _ c acc, f c + acc) 0 m.
Definition used (c : r_malloc_chunk) : Z := CHUNK_SIZE (ck_size c).
Definition used_by (t : nat) (c : r_malloc_chunk) : Z := if ck_type c =? Z.of_nat t then ck_size c else 0.

Record accounted (s : mem_state) : Prop := {
  ac_usage : mem_usage s = wrap 32 (sum_chunks used (chunks s));
  ac_stats t : (t < 256)%nat → mem_stats s !! t = Some (wrap 32 (sum_chunks (used_by t) (chunks s)));
  ac_type l c : chunks s !! l = Some c → 0 <= ck_type c < 256;
  ac_fresh l : (mbrk s <= l)%positive → chunks s !! l = None;
}.

Lemma sum_insert f m l c : m !! l = None → sum_chunks f (<[l := c]> m) = f c + sum_chunks f m.
Proof. intros Hl. unfold sum_chunks. rewrite map_fold_insert_L; [done| |done]. intros. lia. Qed.

Lemma sum_delete f m l c : m !! l = Some c → sum_chunks f (delete l m) = sum_chunks f m - f c.
Proof.
  intros Hl. unfold sum_chunks. rewrite (map_fold_delete_L (λ _ c acc, f c + acc) 0 l c m); [lia| |done]. intros. lia.
Qed.

(** [wrap 32] of a sum, one summand at a time. *)
Lemma wrap_step a b c : wrap 32 b = wrap 32 c → wrap 32 (wrap 32 a + b) = wrap 32 (a + c).
Proof. unfold wrap. intros Hbc. rewrite Zplus_mod_idemp_l, Zplus_mod, Hbc, <- Zplus_mod. done. Qed.

Lemma CHUNK_SIZE_wrap a b : wrap 32 a = wrap 32 b → wrap 32 (CHUNK_SIZE a) = wrap 32 (CHUNK_SIZE b).
Proof.
  unfold CHUNK_SIZE, wrap. intros Hab.
  assert (Hmod : ∀ z, (z mod 2 ^ 64) mod 2 ^ 32 = z mod 2 ^ 32).
  { intros z. symmetry. apply Znumtheory.Zmod_div_mod; [lia|lia|]. by exists (2 ^ 32). }
  by rewrite !Hmod, Zplus_mod, Hab, <- Zplus_mod.
Qed.

(** The totals move with the blocks: [du] and [ds] are, modulo [2^32], what the new blocks
    [m'] use more than the old ones. *)
Lemma account_run s0 ty du ds m' brk' :
  accounted s0 → 0 <= ty < 256 →
  wrap 32 du = wrap 32 (sum_chunks used m' - sum_chunks used (chunks s0)) →
  (∀ t, (t < 256)%nat → wrap 32 (if ty =? Z.of_nat t then ds else 0) =
    wrap 32 (sum_chunks (used_by t) m' - sum_chunks (used_by t) (chunks s0))) →
  (∀ l c, m' !! l = Some c → 0 <= ck_type c < 256) → (∀ l, (brk' <= l)%positive → m' !! l = None) →
  ∃ u st, (∀ s, mem_usage s = mem_usage s0 → mem_stats s = mem_stats s0 →
      account ty du ds s = Ok () (MemState (chunks s) (mbrk s) (manswers s) u st)) ∧
    ∀ a, accounted (MemState m' brk' a u st).
Proof.
  intros [Hu Hst _ _] Hty Hdu Hds Htypes Hfresh.
  pose proof (Hst (Z.to_nat ty) ltac:(lia)) as Hv.
  eexists (wrap 32 (mem_usage s0 + du)), _. split.
  - intros s Husage Hstats. unfold account. mstep. unfold add_stats.
    destruct (Z.ltb_spec ty 0); [lia|]. rewrite Hstats, Hv. mstep. unfold modify. by rewrite Husage.
  - intros a. split; cbn; [| |done|done].
    + rewrite Hu, (wrap_step _ _ _ Hdu). f_equal. lia.
    + intros t Ht. specialize (Hds t Ht). destruct (Z.eqb_spec ty (Z.of_nat t)) as [->|Hne].
      * rewrite Nat2Z.id in Hv |- *. rewrite list_lookup_insert_eq by by eapply lookup_lt_Some.
        f_equal. rewrite (wrap_step _ _ _ Hds). f_equal. lia.
      * rewrite list_lookup_insert_ne by lia. rewrite Hst by done. f_equal.
        pose proof (wrap_step (sum_chunks (used_by t) (chunks s0)) _ _ Hds) as Heq.
        rewrite Z.add_0_r, wrap_wrap in Heq. rewrite Heq. f_equal. lia.
Qed.

(** A block is added, or taken out. *)
Lemma account_add s0 c size :
  accounted s0 → 0 <= ck_type c < 256 → ck_size c = wrap 32 size →
  ∃ u st, (∀ s, mem_usage s = mem_usage s0 → mem_stats s = mem_stats s0 →
      account (ck_type c) (CHUNK_SIZE size) size s = Ok () (MemState (chunks s) (mbrk s) (manswers s) u st)) ∧
    ∀ a, accounted (MemState (<[mbrk s0 := c]> (chunks s0)) (Pos.succ (mbrk s0)) a u st).
Proof.
  intros Hs Hty Hsize. assert (Hnew : chunks s0 !! mbrk s0 = None) by by apply Hs.
  apply account_run; [done|done|..].
  - rewrite sum_insert by done. replace (_ - _) with (used c) by lia. apply CHUNK_SIZE_wrap. by rewrite Hsize, wrap_wrap.
  - intros t Ht. rewrite sum_insert by done. replace (_ - _) with (used_by t c) by lia.
    unfold used_by. rewrite Hsize. destruct (ck_type c =? Z.of_nat t); [by rewrite wrap_wrap|done].
  - intros l c'. rewrite lookup_insert. case_decide; [by intros [= <-]|apply Hs].
  - intros l Hl. rewrite lookup_insert_ne by lia. apply Hs. lia.
Qed.

Lemma account_drop s0 l c :
  accounted s0 → chunks s0 !! l = Some c →
  ∃ u st, (∀ s, mem_usage s = mem_usage s0 → mem_stats s = mem_stats s0 →
      account (ck_type c) (- CHUNK_SIZE (ck_size c)) (- ck_size c) s =
        Ok () (MemState (chunks s) (mbrk s) (manswers s) u st)) ∧
    ∀ a, accounted (MemState (delete l (chunks s0)) (mbrk s0) a u st).
Proof.
  intros Hs Hl. apply account_run; [done|by apply (ac_type s0 Hs l)|..].
  - rewrite (sum_delete used _ l c) by done. f_equal. unfold used. lia.
  - intros t Ht. rewrite (sum_delete _ _ l c) by done. f_equal. unfold used_by. destruct (ck_type c =? Z.of_nat t); lia.
  - intros l' c' [_ Hl']%lookup_delete_Some. by apply (ac_type s0 Hs l').
  - intros l' Hl'. apply lookup_delete_None. right. by apply Hs.
Qed.

(** A size that the allocator is really asked for. *)
Definition fits (size : Z) : Prop := 0 <= size ∧ size + HEADER < 2 ^ 64.

(** Allocation answers with a fresh block, or with nothing and no change but the answer. *)
Definition allocated (s s' : mem_state) (r : option loc) (P : r_malloc_chunk → Prop) : Prop :=
  accounted s' ∧ manswers s' = tail (manswers s) ∧
  match r with
  | None => next_answer (manswers s) = false ∧ chunks s' = chunks s ∧ mem_usage s' = mem_usage s
  | Some l => next_answer (manswers s) = true ∧ chunks s !! l = None ∧
      ∃ c, P c ∧ chunks s' = <[l := c]> (chunks s)
  end.

Lemma malloc_run s type size :
  accounted s → 0 <= type < 256 → fits size →
  ∃ r s', r_malloc type size s = Ok r s' ∧
    allocated s s' r (λ c, c = Chunk type (wrap 32 size) (replicate (Z.to_nat size) None)).
Proof.
  intros Hs Hty [Hsz Hfit]. unfold r_malloc. destruct (Z.leb_spec (2 ^ 64) (size + HEADER)); [lia|].
  unfold alloc_ok. mstep. cbn [alloc_answers mem_alloc].
  destruct (next_answer (manswers s)) eqn:Hans; [|destruct Hs; eexists None, _; by split_and!].
  mstep. mstep. cbn [mbrk set_alloc_answers mem_alloc]. rewrite (wrap_small 8) by lia.
  set (c := Chunk type (wrap 32 size) (replicate (Z.to_nat size) None)).
  destruct (account_add s c size Hs Hty eq_refl) as (u & st & Hrun & Hacc).
  erewrite bind_ok by by apply Hrun. eexists (Some (mbrk s)), _. split; [done|].
  split_and!; [apply Hacc|done|done|by apply Hs|]. by exists c.
Qed.

(** Writing to a block leaves the books as they are. *)
Lemma write_run s l c bytes :
  accounted s → chunks s !! l = Some c → (length bytes <= length (ck_memory c))%nat →
  ∃ s', write_memory l bytes s = Ok () s' ∧ accounted s' ∧ manswers s' = manswers s ∧
    chunks s' = <[l := Chunk (ck_type c) (ck_size c) ((Some <$> bytes) ++ drop (length bytes) (ck_memory c))]> (chunks s).
Proof.
  intros [Hu Hst Hty Hf] Hl Hlen. unfold write_memory, load_chunk. erewrite bind_ok by (mstep; by rewrite Hl).
  rewrite (proj2 (Nat.leb_le _ _) Hlen). eexists. split; [done|]. split_and!; [|done|done].
  set (c' := Chunk _ _ _).
  assert (Hsum : ∀ f, f c' = f c → sum_chunks f (<[l := c']> (chunks s)) = sum_chunks f (chunks s)).
  { intros f Hfc. rewrite <- (insert_delete_eq (chunks s)), sum_insert by apply lookup_delete_eq.
    rewrite (sum_delete f _ l c) by done. lia. }
  split; cbn.
  - by rewrite Hsum.
  - intros t Ht. by rewrite Hsum, Hst.
  - intros l' c''. rewrite lookup_insert. case_decide; [|apply Hty]. intros [= <-]. exact (Hty l c Hl).
  - intros l' Hl'. rewrite lookup_insert_ne; [by apply Hf|]. intros <-. by rewrite Hf in Hl.
Qed.

Lemma free_run s l c :
  accounted s → chunks s !! l = Some c →
  ∃ s', r_free (Some l) s = Ok () s' ∧ accounted s' ∧ manswers s' = manswers s ∧ chunks s' = delete l (chunks s).
Proof.
  intros Hs Hl. unfold r_free, load_chunk. erewrite bind_ok by (mstep; by rewrite Hl).
  destruct (account_drop s l c Hs Hl) as (u & st & Hrun & Hacc).
  erewrite bind_ok by by apply Hrun. eexists. split; [done|]. by split_and!; [apply Hacc|..].
Qed.

(** A block that is resized keeps its type and the bytes that still fit, at a new address. *)
Lemma realloc_run s l c size :
  accounted s → chunks s !! l = Some c → fits size →
  ∃ r s', r_realloc (Some l) size s = Ok r s' ∧ accounted s' ∧ manswers s' = tail (manswers s) ∧
    match r with
    | None => next_answer (manswers s) = false ∧ chunks s' = chunks s
    | Some l' => next_answer (manswers s) = true ∧ ∃ c', ck_type c' = ck_type c ∧ ck_size c' = wrap 32 size ∧
        take (length (ck_memory c)) (ck_memory c') = take (Z.to_nat size) (ck_memory c) ∧
        length (ck_memory c') = Z.to_nat size ∧ chunks s' = <[l' := c']> (delete l (chunks s))
    end.
Proof.
  intros Hs Hl [Hsz Hfit]. unfold r_realloc. destruct (Z.leb_spec (2 ^ 64) (size + HEADER)); [lia|].
  unfold load_chunk. erewrite bind_ok by (mstep; by rewrite Hl). unfold alloc_ok. mstep.
  cbn [alloc_answers mem_alloc].
  destruct (next_answer (manswers s)) eqn:Hans; [|destruct Hs; eexists None, _; by split_and!].
  mstep. destruct (account_drop s l c Hs Hl) as (u & st & Hrun & Hacc). specialize (Hacc (tail (manswers s))).
  erewrite bind_ok by by apply Hrun. mstep.
  set (mem := take (Z.to_nat size) (ck_memory c) ++ replicate (Z.to_nat size - length (ck_memory c)) None).
  set (c' := Chunk (ck_type c) (wrap 32 size) mem).
  destruct (account_add _ c' (wrap 32 size) Hacc) as (u' & st' & Hrun' & Hacc');
    [exact (ac_type s Hs l c Hl)|cbn; by rewrite wrap_wrap|].
  erewrite bind_ok by by apply Hrun'. eexists (Some (mbrk s)), _. split; [done|].
  split_and!; [apply Hacc'|done|done|]. exists c'. split_and!; [done|done| | |done]; cbn; unfold mem.
  - rewrite take_app, !take_take, length_take.
    destruct (Nat.le_gt_cases (Z.to_nat size) (length (ck_memory c))) as [Hle|Hlt].
    + replace (Z.to_nat size - length (ck_memory c))%nat with 0%nat by lia. cbn [replicate].
      rewrite firstn_nil, app_nil_r. f_equal. lia.
    + rewrite (take_ge (ck_memory c) (Z.to_nat size)) by lia.
      replace (length (ck_memory c) - _)%nat with 0%nat by lia. rewrite take_0, app_nil_r. apply take_ge. lia.
  - rewrite length_app, length_take, length_replicate. lia.
Qed.

(** ** Programs *)

(** What a program does with the allocator: it resizes and frees blocks it was given and has
    not freed, and asks for sizes that exist. *)
Inductive mem_op : Type :=
| Malloc (type size : Z)
| Calloc (type number size : Z)
| Free (ptr : option loc)
| Realloc (ptr : option loc) (size : Z)
| Strdup (str : option cstring).

Definition run_mem_op (op : mem_op) : MM (option loc) :=
  match op with
  | Malloc type size => r_malloc type size
  | Calloc type number size => r_calloc type number size
  | Free ptr => r_free ptr;; mret None
  | Realloc ptr size => r_realloc ptr size
  | Strdup str => r_strdup str
  end.

Definition live (s : mem_state) (ptr : option loc) : Prop :=
  match ptr with None => True | Some l => is_Some (chunks s !! l) end.

Definition mem_legal (s : mem_state) (op : mem_op) : Prop :=
  match op with
  | Malloc type size => 0 <= type < 256 ∧ fits size
  | Calloc type number size => 0 <= type < 256 ∧ 1 <= number ∧ 0 <= size ∧ fits (number * size)
  | Free ptr => live s ptr
  | Realloc ptr size => live s ptr ∧ fits size
  | Strdup str => ∀ d, str = Some d → Z.of_nat (strlen d) + 1 < 2 ^ 31 ∧ fits (Z.of_nat (strlen d) + 1)
  end.

Context (HEADER_pos : 0 < HEADER).

(** Cleared or copied: the head of a new block holds [bytes]. *)
Lemma malloc_write_run s type size bytes :
  accounted s → 0 <= type < 256 → fits size → (length bytes <= Z.to_nat size)%nat →
  ∃ r s', (ret ← r_malloc type size;
           match ret with None => mret None | Some l => write_memory l bytes;; mret (Some l) end) s = Ok r s' ∧
    accounted s' ∧ manswers s' = tail (manswers s) ∧
    match r with
    | None => next_answer (manswers s) = false ∧ chunks s' = chunks s
    | Some l => chunks s !! l = None ∧ chunks s' = <[l := Chunk type (wrap 32 size)
        ((Some <$> bytes) ++ replicate (Z.to_nat size - length bytes) None)]> (chunks s)
    end.
Proof.
  intros Hs Hty Hsz Hlen. destruct (malloc_run s type size Hs Hty Hsz) as (r & s1 & Hrun & Hs1 & Ha & Hr).
  erewrite bind_ok by exact Hrun. destruct r as [l|]; [|destruct Hr as (? & ? & _); eexists None, s1; by split_and!].
  destruct Hr as (_ & Hnew & c & -> & Hch).
  destruct (write_run s1 l _ bytes Hs1 ltac:(by rewrite Hch, lookup_insert_eq)) as (s2 & Hrun2 & Hs2 & Ha2 & Hch2).
  { cbn. by rewrite length_replicate. }
  erewrite bind_ok by exact Hrun2. eexists (Some l), s2. split; [done|].
  split_and!; [done|by rewrite Ha2|done|]. rewrite Hch2, Hch, insert_insert_eq. cbn [ck_memory ck_type ck_size].
  by rewrite drop_replicate.
Qed.

(** C17: The books are right whatever the program does: [mem_usage] is the size of the blocks in
    use with their headers and each [mem_stats] counter that of the blocks of its type,
    modulo [2^32], and every legal call is defined; when nothing is in use all are zero. *)
Theorem memory_accounted s op :
  accounted s → mem_legal s op →
  (∃ r s', run_mem_op op s = Ok r s' ∧ accounted s') ∧
  (chunks s = ∅ → mem_usage s = 0 ∧ ∀ t, (t < 256)%nat → mem_stats s !! t = Some 0).
Proof.
  intros Hs Hop. split.
  2: { intros Hnone. split; [by rewrite (ac_usage s Hs), Hnone|]. intros t Ht.
       by rewrite (ac_stats s Hs t Ht), Hnone. }
  destruct op as [type size|type number size|[l|]|[l|] size|[d|]]; cbn [run_mem_op mem_legal live] in *.
  - destruct Hop as [Hty Hsz]. destruct (malloc_run s type size Hs Hty Hsz) as (r & s' & ? & ? & _). eauto.
  - destruct Hop as (Hty & Hn & Hsz & Hfit). unfold r_calloc. rewrite wrap_small by (unfold fits in Hfit; lia).
    destruct (malloc_write_run s type (number * size) (replicate (Z.to_nat size) 0) Hs Hty Hfit) as (r & s' & ? & ? & _).
    { rewrite length_replicate. nia. }
    eauto.
  - destruct Hop as [c Hc]. destruct (free_run s l c Hs Hc) as (s' & Hrun & Hs' & _). exists None, s'.
    by erewrite bind_ok by exact Hrun.
  - by exists None, s.
  - destruct Hop as [[c Hc] Hsz]. destruct (realloc_run s l c size Hs Hc Hsz) as (r & s' & ? & ? & _). eauto.
  - destruct Hop as [_ Hsz]. destruct (malloc_run s 255 size Hs ltac:(lia) Hsz) as (r & s' & ? & ? & _). eauto.
  - destruct (Hop d eq_refl) as [Hint Hsz]. unfold r_strdup.
    destruct (Z.leb_spec (2 ^ 31) (Z.of_nat (strlen d) + 1)); [lia|].
    destruct (malloc_write_run s 0 (Z.of_nat (strlen d) + 1) (cbytes d) Hs ltac:(lia) Hsz) as (r & s' & ? & ? & _).
    { rewrite length_cbytes. lia. }
    eauto.
  - by exists None, s.
Qed.

(** [r_calloc] clears the first [size] bytes only: with a [number] above one the rest of the
    block is left as the allocator gave it. *)
Theorem calloc_clears_first s type number size :
  accounted s → 0 <= type < 256 → 1 <= number → 0 <= size → fits (number * size) →
  ∃ r s', r_calloc type number size s = Ok r s' ∧
    match r with
    | None => next_answer (manswers s) = false
    | Some l => ck_memory <$> chunks s' !! l =
        Some (replicate (Z.to_nat size) (Some 0) ++ replicate (Z.to_nat ((number - 1) * size)) None)
    end.
Proof.
  intros Hs Hty Hn Hsz Hfit. unfold r_calloc. rewrite wrap_small by (unfold fits in Hfit; lia).
  destruct (malloc_write_run s type (number * size) (replicate (Z.to_nat size) 0) Hs Hty Hfit)
    as (r & s' & Hrun & _ & _ & Hr).
  { rewrite length_replicate. nia. }
  exists r, s'. split; [done|]. destruct r as [l|]; [|by destruct Hr]. destruct Hr as [_ ->].
  rewrite lookup_insert_eq. cbn. rewrite fmap_replicate, length_replicate. do 3 f_equal. nia.
Qed.
End allocator.

Lemma mem_initial_accounted : accounted 12 mem_initial.
Proof.
  split; [done| |done|done]. intros t Ht. unfold mem_initial, mem_stats. by rewrite lookup_replicate_2.
Qed.

Lemma memory_accounted_witness :
  ∃ r s', run_mem_op 12 (Calloc 7 3 100) mem_initial = Ok r s' ∧ accounted 12 s'.
Proof.
  apply (memory_accounted 12 eq_refl mem_initial (Calloc 7 3 100) mem_initial_accounted).
  split; [lia|]. split; [lia|]. split; [lia|]. split; lia.
Defined.

Lemma calloc_clears_first_witness :
  ∃ r s', r_calloc 12 7 2 1 mem_initial = Ok r s' ∧
    match r with
    | None => next_answer [] = false
    | Some l => ck_memory <$> chunks s' !! l = Some [Some 0; None]
    end.
Proof. apply (calloc_clears_first 12 eq_refl mem_initial 7 2 1 mem_initial_accounted); try lia. split; lia. Defined.
