(* ===== verification/RegFacade.v ===== *)
(** * The registry interface (src/registry/registry.c, c2ru.c)

    The functions programs call.  Each goes through the module table [reg_vtbl], whose
    entries are the operations of a class here, so that what is built on them (names made of
    a parent and a child, values read into fresh memory, lists of children) is the same for
    every module.  [RegModule] makes the local store an instance. *)

From Stdlib Require Import Ascii.
From stdpp Require Import pretty.
From S2P Require Import Prelude CString RegNames.
Local Open Scope Z_scope.

(** [nr_registry_vtbl] (registry_vtbl.h), over the state [S] of the module.  [vt_get] stands
    for the entries [get_char] to [get_double] and [vt_set] for [set_char] to [set_double];
    an array that is read comes back as the bytes written to the caller's buffer. *)
Class RegVtbl (S : Type) := {
  vt_present : S → bool;     (* reg_vtbl is not null *)
  vt_get : cstring → reg_type → M S Z;
  vt_get_registry : cstring → M S cstring;
  vt_get_bytes : cstring → Z → M S (list Z);
  vt_get_string : cstring → Z → M S (list Z);
  vt_get_length : cstring → M S Z;
  vt_get_type : cstring → M S cstring;
  vt_set : cstring → reg_type → Z → M S unit;
  vt_set_registry : cstring → M S unit;
  vt_set_bytes : cstring → list Z → M S unit;
  vt_set_string : cstring → cstring → M S unit;
  vt_del : cstring → M S unit;
  vt_get_child_count : cstring → M S Z;
  vt_get_children : cstring → nat → M S (list cstring);
  vt_fin : cstring → M S unit;
}.

Section facade.
Context {S : Type} `{HasAlloc S} `{RegVtbl S}.

(** [reg_vtbl->vtbl->...] *)
Definition through {A} (m : M S A) : M S A := s ← get; if vt_present s then m else undef.

Definition NR_reg_initted : M S bool := gets vt_present.

(** [NRREGGET] and [NRREGSET] *)
Definition NR_reg_get (type : reg_type) (name : cstring) : M S Z := through (vt_get name type).
Definition NR_reg_set (type : reg_type) (name : cstring) (data : Z) : M S unit := through (vt_set name type data).

Definition NR_reg_get_registry (name : cstring) : M S cstring := through (vt_get_registry name).
Definition NR_reg_get_bytes (name : cstring) (size : Z) : M S (list Z) := through (vt_get_bytes name size).
Definition NR_reg_get_string (name : cstring) (size : Z) : M S (list Z) := through (vt_get_string name size).
Definition NR_reg_get_length (name : cstring) : M S Z := through (vt_get_length name).
Definition NR_reg_get_type (name : cstring) : M S cstring := through (vt_get_type name).
Definition NR_reg_set_registry (name : cstring) : M S unit := through (vt_set_registry name).
Definition NR_reg_set_bytes (name : cstring) (data : list Z) : M S unit := through (vt_set_bytes name data).
Definition NR_reg_set_string (name data : cstring) : M S unit := through (vt_set_string name data).
Definition NR_reg_del (name : cstring) : M S unit := through (vt_del name).
Definition NR_reg_fin (name : cstring) : M S unit := through (vt_fin name).

(** The module writes a [size_t] where the caller has an [unsigned int], and the caller
    reads its low half; what the high half overwrites on a 64-bit machine is not modelled. *)
Definition NR_reg_get_child_count (parent : cstring) : M S Z :=
  count ← through (vt_get_child_count parent); mret (wrap 32 count).

Definition NR_reg_get_child_registry (parent : cstring) (i : nat) : M S cstring :=
  count ← through (vt_get_child_count parent);
  if count <=? Z.of_nat i then abort R_NOT_FOUND
  else
    let count := wrap 64 (count + 1) in
    alloc_or_abort;;
    children ← through (vt_get_children parent (Z.to_nat count));
    match children !! i with
    | None => abort R_NOT_FOUND
    | Some child => mret child
    end.

Definition NR_reg_get_children (parent : cstring) (size : nat) : M S (list cstring) :=
  through (vt_get_children parent size).

(** ** Values read into fresh memory *)

Definition NR_reg_alloc_data (name : cstring) : M S (list Z) :=
  length ← NR_reg_get_length name;
  alloc_or_abort;;
  tmp ← NR_reg_get_bytes name length;
  if length =? Z.of_nat (List.length tmp) then mret tmp else undef.   (* assert *)

(** The string at the start of a buffer; without a terminator in it [strlen] leaves it. *)
Fixpoint c_string_in (buf : list Z) : option cstring :=
  match buf with
  | [] => None
  | 0 :: _ => Some []
  | z :: buf' => (char_of z ::.) <$> c_string_in buf'
  end.

Definition NR_reg_alloc_string (name : cstring) : M S cstring :=
  length ← NR_reg_get_length name;
  alloc_or_abort;;
  tmp ← NR_reg_get_string name (length + 1);
  str ← from_option_ub (c_string_in tmp);
  if length =? Z.of_nat (strlen str) then mret str else undef.        (* assert *)

(** ** Names made of a parent and a child *)

(** The head of [NRGET2], [NRSET2] and the functions after their pattern. *)
Definition with_registry {A} (parent child : cstring) (k : cstring → M S A) : M S A :=
  match NR_reg_make_registry parent child with
  | inl r => abort r
  | inr registry => k registry
  end.

Definition NR_reg_get2 (type : reg_type) (parent child : cstring) : M S Z :=
  with_registry parent child (NR_reg_get type).
Definition NR_reg_alloc2_string (parent child : cstring) : M S cstring :=
  with_registry parent child NR_reg_alloc_string.
Definition NR_reg_alloc2_data (parent child : cstring) : M S (list Z) :=
  with_registry parent child NR_reg_alloc_data.
Definition NR_reg_get2_bytes (parent child : cstring) (size : Z) : M S (list Z) :=
  with_registry parent child (λ registry, NR_reg_get_bytes registry size).
Definition NR_reg_get2_string (parent child : cstring) (size : Z) : M S (list Z) :=
  with_registry parent child (λ registry, NR_reg_get_string registry size).
Definition NR_reg_set2 (type : reg_type) (parent child : cstring) (data : Z) : M S unit :=
  with_registry parent child (λ registry, NR_reg_set type registry data).
Definition NR_reg_set2_string (parent child data : cstring) : M S unit :=
  with_registry parent child (λ registry, NR_reg_set_string registry data).
Definition NR_reg_set2_bytes (prefix name : cstring) (data : list Z) : M S unit :=
  with_registry prefix name (λ registry, NR_reg_set_bytes registry data).
Definition NR_reg_get2_child_count (base name : cstring) : M S Z :=
  match nr_c2ru_make_registry base name with
  | inl r => abort r
  | inr registry => NR_reg_get_child_count registry
  end.
Definition NR_reg_get2_child_registry (base name : cstring) (i : nat) : M S cstring :=
  match nr_c2ru_make_registry base name with
  | inl r => abort r
  | inr registry => NR_reg_get_child_registry registry i
  end.

(** ** Structures in the registry (c2ru.c) *)

(** [NRGET]: [None] is the null pointer a name that is not there gives. *)
Definition c2ru_get {A} (get : cstring → M S A) (parent child : cstring) : M S (option A) :=
  match nr_c2ru_make_registry parent child with
  | inl r => abort r
  | inr registry =>
      r ← catch (get registry);
      match r with
      | inl r => if r =? R_NOT_FOUND then mret None else abort r
      | inr tmp => alloc_or_abort;; mret (Some tmp)
      end
  end.

Definition nr_c2ru_get (type : reg_type) : cstring → cstring → M S (option Z) := c2ru_get (NR_reg_get type).
Definition nr_c2ru_get_string : cstring → cstring → M S (option cstring) := c2ru_get NR_reg_alloc_string.
Definition nr_c2ru_get_data : cstring → cstring → M S (option (list Z)) := c2ru_get NR_reg_alloc_data.

(** [NRSET]: a null pointer sets nothing. *)
Definition c2ru_set {A} (set : cstring → A → M S unit) (parent child : cstring) (inp : option A) : M S unit :=
  match inp with
  | None => mret ()
  | Some v =>
      match nr_c2ru_make_registry parent child with
      | inl r => abort r
      | inr registry => set registry v
      end
  end.

Definition nr_c2ru_set (type : reg_type) : cstring → cstring → option Z → M S unit := c2ru_set (NR_reg_set type).
Definition nr_c2ru_set_string : cstring → cstring → option cstring → M S unit := c2ru_set NR_reg_set_string.
Definition nr_c2ru_set_data : cstring → cstring → option (list Z) → M S unit := c2ru_set NR_reg_set_bytes.

(** [nr_c2ru_free_string]: the pointer is read before it is tested. *)
Definition nr_c2ru_free_string (inp : option cstring) : M S unit :=
  match inp with None => undef | Some _ => mret () end.

(** Lists of structures, one per child; [get], [set] and [label] are the caller's. *)
Section children.
Context {E : Type}.

Fixpoint get_children_loop (get : cstring → M S E) (registry : cstring) (idx : list nat) (tailq : list E) : M S (list E) :=
  match idx with
  | [] => mret tailq
  | i :: idx' =>
      r ← catch (NR_reg_get_child_registry registry i);
      match r with
      | inl r => if r =? R_NOT_FOUND then get_children_loop get registry idx' tailq else abort r
      | inr name =>
          r ← catch (get name);
          match r with
          | inl r => if r =? R_NOT_FOUND then get_children_loop get registry idx' tailq else abort r
          | inr entry => get_children_loop get registry idx' (tailq ++ [entry])
          end
      end
  end.

Definition nr_c2ru_get_children (parent child : cstring) (get : cstring → M S E) : M S (list E) :=
  match nr_c2ru_make_registry parent child with
  | inl r => abort r
  | inr registry =>
      r ← catch (NR_reg_get_child_count registry);
      match r with
      | inl r => if r =? R_NOT_FOUND then mret [] else abort r
      | inr count => get_children_loop get registry (seq 0 (Z.to_nat count)) []
      end
  end.

(** [%d] *)
Definition decimal (i : nat) : cstring := cstr (pretty (N.of_nat i)).

Fixpoint set_children_loop (set : cstring → E → M S unit) (label : option (cstring → E → M S cstring))
    (registry : cstring) (tailq : list E) (i : nat) : M S unit :=
  match tailq with
  | [] => mret ()
  | entry :: tailq' =>
      buffer ← (match label with
                | None => mret (decimal i)
                | Some f =>
                    r ← catch (f registry entry);
                    mret (match r with inl _ => decimal i | inr b => b end)
                end);
      match nr_c2ru_make_registry registry buffer with
      | inl r => abort r
      | inr name =>
          set name entry;;
          set_children_loop set label registry tailq' (Datatypes.S i)
      end
  end.

Definition nr_c2ru_set_children (parent child : cstring) (tailq : list E) (set : cstring → E → M S unit)
    (label : option (cstring → E → M S cstring)) : M S unit :=
  match nr_c2ru_make_registry parent child with
  | inl r => abort r
  | inr registry =>
      ignore (NR_reg_del registry);;
      set_children_loop set label registry tailq 0
  end.
End children.
End facade.
