(* ===== verification/RegLabels.v ===== *)
(** * Labels of children

    The decimal labels nr_c2ru_set_children gives, the names made of them, and the order
    in which the registry lists them. *)

From Stdlib Require Import Ascii.
From stdpp Require Import sorting pretty.
From S2P Require Import Prelude CString RegNames RegLocal RegSpec RegTree RegFacade.
Local Open Scope Z_scope.

(** ** Decimal labels *)

Definition plain (r : cstring) : Prop := Forall (λ c, bad_char c = false ∧ c ≠ "."%char) r.

Lemma pretty_go_plain x s : plain (cstr s) → plain (cstr (pretty_N_go x s)).
Proof.
  revert s. induction (N.lt_wf_0 x) as [x _ IH]; intros s Hs.
  destruct (decide (x = 0)%N) as [->|Hx]; [done|].
  rewrite pretty_N_go_step by lia. apply IH; [apply N.div_lt; lia|].
  apply Forall_cons; split; [|done].
  unfold pretty_N_char. repeat case_match; done.
Qed.

Lemma cstr_inj a b : cstr a = cstr b → a = b.
Proof.
  unfold cstr. intros Hab. rewrite <- (String.string_of_list_ascii_of_string a).
  by rewrite Hab, String.string_of_list_ascii_of_string.
Qed.

Lemma decimal_plain i : plain (decimal i).
Proof.
  unfold decimal, pretty, pretty_N. case_decide; [by repeat constructor|].
  apply pretty_go_plain. constructor.
Qed.

Lemma decimal_inj i j : decimal i = decimal j → i = j.
Proof. unfold decimal. intros Hij%cstr_inj. apply (inj pretty) in Hij. lia. Qed.

Lemma decimal_not_nil i : decimal i ≠ [].
Proof.
  destruct (decide (i = 0)%nat) as [->|Hi]; [done|]. intros Hnil.
  assert (Hlen : pretty (N.of_nat i) = "") by (by apply cstr_inj).
  unfold pretty, pretty_N in Hlen. rewrite decide_False in Hlen by lia.
  assert (Hgo : ∀ x s, s ≠ "" → pretty_N_go x s ≠ "").
  { intros x. induction (N.lt_wf_0 x) as [x _ IH]. intros s Hs.
    destruct (decide (x = 0)%N) as [->|Hx]; [done|]. rewrite pretty_N_go_step by lia.
    apply IH; [apply N.div_lt; lia|done]. }
  rewrite pretty_N_go_step in Hlen by lia. by apply Hgo in Hlen.
Qed.

(** ** Names *)

Lemma make_registry_inr parent child n :
  NR_reg_make_registry parent child = inr n → valid n ∧ n ≠ [] ∧ up n = parent.
Proof.
  intros Hn. pose proof (make_registry_run parent child) as Hm. rewrite Hn in Hm.
  destruct Hm as (Hv & Hup & Hne & _). split_and!; [by apply nr_reg_is_valid_spec|done|done].
Qed.

Lemma make_registry_plain p r :
  valid p → plain r → r ≠ [] → (length p + length r + 2 <= 128)%nat →
  NR_reg_make_registry p r = inr (join p r).
Proof.
  intros Hp Hr Hne Hlen. pose proof (make_registry_run p r) as Hm.
  assert (Hdot : ∀ i, r !! i ≠ Some "."%char).
  { intros i Hi. by destruct (proj1 (Forall_lookup _ _) Hr i _ Hi). }
  destruct (NR_reg_make_registry p r) as [z|out].
  - destruct Hm as (_ & [Hv|[Hnil|[Hd|[Hd|Hl]]]]); [|done| | |lia].
    + apply nr_reg_is_valid_spec in Hp. congruence.
    + by destruct (Hdot 0%nat).
    + rewrite last_index in Hd. by apply Hdot in Hd.
  - destruct Hm as (_ & _ & _ & Hout). f_equal. by apply Hout.
Qed.

Lemma plain_no_dot r : plain r → "."%char ∉ r.
Proof. intros Hr Hin. by destruct (proj1 (list.Forall_forall _ _) Hr _ Hin). Qed.

Lemma ancestors_join p r : p ≠ [] → "."%char ∉ r → ancestors (join p r) = p :: ancestors p.
Proof.
  intros Hp Hr. rewrite ancestors_unfold. unfold join. rewrite bool_decide_false by done. cbn.
  by rewrite parent_of_app.
Qed.

Lemma join_inj p r r' : join p r = join p r' → r = r'.
Proof. unfold join. intros Heq. by do 2 apply app_inv_head in Heq. Qed.

(** ** The order of names *)

Lemma casele_prefix p a b : casele (p ++ a) (p ++ b) ↔ casele a b.
Proof.
  induction p as [|c p IH]; [done|]. rewrite <- IH. unfold casele. cbn.
  by rewrite Z.ltb_irrefl, Z.eqb_refl.
Qed.

#[export] Instance casele_trans : Transitive casele.
Proof.
  intros a. induction a as [|x a IH]; intros [|y b] [|z c] Hab Hbc; try done. unfold casele in *. cbn in *.
  destruct (Z.ltb_spec (uchar (tolower x)) (uchar (tolower y)));
    destruct (Z.ltb_spec (uchar (tolower y)) (uchar (tolower z)));
    destruct (Z.eqb_spec (uchar (tolower x)) (uchar (tolower y)));
    destruct (Z.eqb_spec (uchar (tolower y)) (uchar (tolower z)));
    destruct (Z.ltb_spec (uchar (tolower x)) (uchar (tolower z))); try done; try lia;
    destruct (Z.eqb_spec (uchar (tolower x)) (uchar (tolower z))); (lia || by eapply IH).
Qed.

Lemma Sorted_map {A B} (R : relation A) (R' : relation B) (f : A → B) l :
  (∀ x y, R x y → R' (f x) (f y)) → Sorted R l → Sorted R' (f <$> l).
Proof.
  intros Hf. induction 1 as [|x l Hl IH Hx]; cbn; constructor; [done|].
  destruct Hx; cbn; constructor. by apply Hf.
Qed.

Lemma casele_antisym a b : casele a b → casele b a → tolower <$> a = tolower <$> b.
Proof.
  revert b. induction a as [|x a IH]; intros [|y b] Hab Hba; try done. unfold casele in *. cbn in *.
  destruct (Z.ltb_spec (uchar (tolower x)) (uchar (tolower y)));
    destruct (Z.ltb_spec (uchar (tolower y)) (uchar (tolower x)));
    destruct (Z.eqb_spec (uchar (tolower x)) (uchar (tolower y)));
    destruct (Z.eqb_spec (uchar (tolower y)) (uchar (tolower x))); try done; try lia.
  f_equal; [by apply uchar_inj|by apply IH].
Qed.

(** Labels have no letters, so the order tells them apart. *)
Lemma pretty_go_lower x s : tolower <$> cstr s = cstr s → tolower <$> cstr (pretty_N_go x s) = cstr (pretty_N_go x s).
Proof.
  revert s. induction (N.lt_wf_0 x) as [x _ IH]; intros s Hs.
  destruct (decide (x = 0)%N) as [->|Hx]; [done|].
  rewrite pretty_N_go_step by lia. apply IH; [apply N.div_lt; lia|]. cbn. f_equal; [|exact Hs].
  unfold pretty_N_char. repeat case_match; done.
Qed.

Lemma decimal_lower i : tolower <$> decimal i = decimal i.
Proof. unfold decimal, pretty, pretty_N. case_decide; [done|]. by apply pretty_go_lower. Qed.

Lemma decimal_antisym i j : casele (decimal i) (decimal j) → casele (decimal j) (decimal i) → i = j.
Proof. intros Hij Hji. apply decimal_inj. rewrite <- (decimal_lower i), <- (decimal_lower j). by apply casele_antisym. Qed.

(** Below ten the labels are in order. *)
Lemma decimal_sorted k : (k <= 10)%nat → Sorted casele (decimal <$> seq 0 k).
Proof. intros Hk. do 11 (destruct k as [|k]; [repeat constructor|]). lia. Qed.

(** The name of the child with label [i]. *)
Definition child_name p (i : nat) : cstring := join p (decimal i).

Lemma child_name_facts p i :
  p ≠ [] → up (child_name p i) = p ∧ ancestors (child_name p i) = p :: ancestors p ∧ child_name p i ≠ [] ∧
    iter_match p (child_name p i) = true ∧ child_name p i ≠ p.
Proof.
  intros Hp. pose proof (plain_no_dot _ (decimal_plain i)) as Hdot. pose proof (decimal_not_nil i) as Hnil.
  assert (Hup : up (child_name p i) = p) by (by apply join_up).
  assert (Hne : child_name p i ≠ []) by (unfold child_name, join; by destruct p).
  split_and!; [done|by apply ancestors_join|done| |].
  - apply iter_match_up; [done|]. right. rewrite Hup. apply iter_match_refl.
  - intros Heq. pose proof (up_shorter _ Hne) as Hlt. rewrite Hup, Heq in Hlt. lia.
Qed.

Lemma iter_match_length p m : iter_match p m = true → (length p <= length m)%nat.
Proof.
  intros [->|[->|[r ->]]]%iter_match_spec; [cbn; lia|done|]. rewrite length_app. lia.
Qed.

(** Sorted lists of the same children are the same list. *)
Lemma child_names_unique p k cs cs' :
  cs ≡ₚ child_name p <$> seq 0 k → cs' ≡ₚ child_name p <$> seq 0 k → Sorted casele cs → Sorted casele cs' → cs = cs'.
Proof.
  intros Hcs Hcs' Hs Hs'. apply (Sorted_unique_strong casele); [|done|done|by rewrite Hcs, Hcs'].
  intros x y Hx Hy. rewrite Hcs in Hx. rewrite Hcs' in Hy.
  apply list_elem_of_fmap in Hx as (i & -> & _). apply list_elem_of_fmap in Hy as (j & -> & _).
  unfold child_name, join. rewrite !casele_prefix. intros Hij Hji. by rewrite (decimal_antisym i j).
Qed.

Lemma child_names_sorted p k : (k <= 10)%nat → Sorted casele (child_name p <$> seq 0 k).
Proof.
  intros Hk. unfold child_name. rewrite (list_fmap_compose decimal (join p)).
  eapply Sorted_map; [|by apply decimal_sorted]. intros x y Hxy. unfold join. by rewrite !casele_prefix.
Qed.
