(* ===== verification/RegFacadeSpec.v ===== *)
(** * What the registry interface guarantees

    The laws a registry module promises its clients, over an abstract view of its state, and
    the behaviour of the interface (registry.c, c2ru.c) proved from them alone.  [RegModule]
    discharges the laws for the local store and [RegRemoteSpec] for a store behind a
    connection. *)

From Stdlib Require Import Ascii.
From stdpp Require Import sorting.
From S2P Require Import Prelude CString RegNames RegLocal RegInv RegSpec RegTree RegFacade RegLabels.
Local Open Scope Z_scope.

(** The name can be set to a value of type [ty]: it has that type already, or it and its
    missing ancestors can be created. *)
Definition writable (v : view) (n : cstring) (ty : reg_type) : Prop :=
  match v n with
  | None => creatable v (ancestors n)
  | Some x => value_type x = ty
  end.

Definition only_children (v : view) (p : cstring) (cs : list cstring) : Prop :=
  NoDup cs ∧ ∀ n, n ∈ cs ↔ is_Some (v n) ∧ n ≠ [] ∧ up n = p.

(** ** Reading *)

(** The invariant of a module's states, and the names and values they stand for. *)
Class RegAbs (S : Type) := {
  vt_inv : S → Prop;
  vt_view : S → view;
}.

(** A state that stands for the same registry. *)
Definition quiet {S} `{RegAbs S} (s s' : S) : Prop := vt_inv s' ∧ ∀ m, vt_view s' m = vt_view s m.

(** A computation that answers, a status on the left or a result on the right, and changes
    nothing a client can see. *)
Definition gives {S} `{RegAbs S} {A} (m : M S A) (s : S) (o : Z + A) : Prop :=
  ∃ s', quiet s s' ∧ m s = match o with inl r => Err r s' | inr a => Ok a s' end.

Section gives.
Context {S : Type} `{RegAbs S}.
Implicit Types (s : S).

Lemma quiet_refl s : vt_inv s → quiet s s.
Proof. by split. Qed.

Lemma quiet_trans s s' s'' : quiet s s' → quiet s' s'' → quiet s s''.
Proof. intros [_ Hv] [Hi Hv']. split; [done|]. intros m. by rewrite Hv'. Qed.

Lemma gives_ok {A} (m : M S A) s a : vt_inv s → m s = Ok a s → gives m s (inr a).
Proof. intros Hs Hm. exists s. by split; [apply quiet_refl|]. Qed.

Lemma gives_err {A} (m : M S A) s r : vt_inv s → m s = Err r s → gives m s (inl r).
Proof. intros Hs Hm. exists s. by split; [apply quiet_refl|]. Qed.

Lemma gives_ret {A} s (a : A) : vt_inv s → gives (mret a) s (inr a).
Proof. intros Hs. by apply gives_ok. Qed.

Lemma gives_abort {A} s r : vt_inv s → r ≠ 0 → gives (A := A) (abort r) s (inl r).
Proof. intros Hs Hr. apply gives_err; [done|]. unfold abort. by rewrite abort_code_id. Qed.

Lemma gives_bind {A B} (m : M S A) (k : A → M S B) s a o :
  gives m s (inr a) → (∀ s', quiet s s' → gives (k a) s' o) → gives (m ≫= k) s o.
Proof.
  intros (s' & Hq & Hm) Hk. destruct (Hk s' Hq) as (s'' & Hq' & Hrun). exists s''.
  split; [by eapply quiet_trans|]. by erewrite bind_ok.
Qed.

Lemma gives_bind_err {A B} (m : M S A) (k : A → M S B) s r : gives m s (inl r) → gives (m ≫= k) s (inl r).
Proof. intros (s' & Hq & Hm). exists s'. split; [done|]. by apply bind_err. Qed.

Lemma gives_catch {A} (m : M S A) s o : gives m s o → gives (catch m) s (inr o).
Proof. intros (s' & Hq & Hm). exists s'. split; [done|]. destruct o; [by apply catch_err|by apply catch_ok]. Qed.
End gives.

(** The first computation of a sequence answers as a lemma says. *)
Ltac giveq s' Hq := eapply gives_bind; [|intros s' Hq; cbn beta iota].

(** ** The laws *)

(** What a read answers, and that a write and a deletion succeed with the view they leave. *)
Class RegLaws (S : Type) `{HasAlloc S} `{RegVtbl S} `{RegAbs S} := {
  law_ready s : vt_inv s → vt_present s = true ∧ mem_plenty s;
  law_valid s n x : vt_inv s → vt_view s n = Some x → valid n;
  law_get s n ty : vt_inv s → is_scalar ty = true → valid n →
    gives (vt_get n ty) s
      match vt_view s n with
      | None => inl R_NOT_FOUND
      | Some (VScalar ty' w) => if decide (ty' = ty) then inr w else inl R_FAILED
      | Some (VArray _ _) => inl R_FAILED
      end;
  law_string s n d size : vt_inv s → valid n → no_nul d →
    vt_view s n = Some (VArray NR_REG_TYPE_STRING (cbytes d)) →
    Z.of_nat (length d) + 1 < 2 ^ 32 ∧
    gives (vt_get_length n) s (inr (Z.of_nat (length d))) ∧
    if size <? Z.of_nat (length d) + 1 then gives (vt_get_string n size) s (inl R_BAD_ARGS)
    else ∃ bs, c_string_in bs = Some d ∧ gives (vt_get_string n size) s (inr bs);
  law_no_length s n : vt_inv s → valid n → vt_view s n = None → gives (vt_get_length n) s (inl R_NOT_FOUND);
  law_count s p : vt_inv s → valid p → p ≠ [] →
    match vt_view s p with
    | Some (VScalar NR_REG_TYPE_REGISTRY _) => ∃ cs, only_children (vt_view s) p cs ∧
        gives (vt_get_child_count p) s (inr (wrap 32 (Z.of_nat (length cs))))
    | Some _ => gives (vt_get_child_count p) s (inl R_FAILED)
    | None => gives (vt_get_child_count p) s (inl R_NOT_FOUND)
    end;
  law_children s p size : vt_inv s → valid p → (0 < size)%nat → Z.of_nat size <= 2 ^ 33 →
    ∃ cs, only_children (vt_view s) p cs ∧ Sorted casele cs ∧
      ((length cs < size)%nat → gives (vt_get_children p size) s (inr cs));
  law_set s n ty data : vt_inv s → valid n → is_scalar ty = true → vt_view s n = None →
    creatable (vt_view s) (ancestors n) →
    ∃ s', vt_set n ty data s = Ok () s' ∧ vt_inv s' ∧
      ∀ m, vt_view s' m = upd (fill (vt_view s) (new_parents (vt_view s) n)) n
                              (Some (VScalar ty (stored ty 0 data))) m;
  law_set_string s n d : vt_inv s → valid n → no_nul d → writable (vt_view s) n NR_REG_TYPE_STRING →
    Z.of_nat (length d) + 1 < 2 ^ 32 →
    ∃ s', vt_set_string n d s = Ok () s' ∧ vt_inv s' ∧
      vt_view s' n = Some (VArray NR_REG_TYPE_STRING (cbytes d)) ∧
      (vt_view s n = None → ∀ m, vt_view s' m =
         upd (fill (vt_view s) (new_parents (vt_view s) n)) n (Some (VArray NR_REG_TYPE_STRING (cbytes d))) m);
  law_del s n : vt_inv s → valid n → n ≠ [] →
    ∃ s', vt_del n s = Ok () s' ∧ vt_inv s' ∧
      ∀ m, vt_view s' m = if iter_match n m then None else vt_view s m;
}.

(** ** Clients of a module *)

Section clients.
Context {S : Type} `{AllocLaws S} `{RegVtbl S} `{!RegAbs S} `{!RegLaws S}.
Implicit Types (s : S) (n p : cstring).

Lemma through_run {A} (m : M S A) s : vt_inv s → through m s = m s.
Proof. intros Hs. unfold through. mstep. by rewrite (proj1 (law_ready s Hs)). Qed.

Lemma gives_through {A} (m : M S A) s o : vt_inv s → gives m s o → gives (through m) s o.
Proof. intros Hs (s' & Hq & Hm). exists s'. split; [done|]. by rewrite through_run. Qed.

(** An allocation succeeds and changes nothing at all. *)
Lemma gives_alloc {A} (k : unit → M S A) s o : vt_inv s → gives (k ()) s o → gives (alloc_or_abort ≫= k) s o.
Proof.
  intros Hs (s' & Hq & Hk). exists s'. split; [done|].
  by erewrite bind_ok by by apply alloc_or_abort_plenty, (law_ready s).
Qed.

Lemma only_children_perm v p cs cs' : only_children v p cs → only_children v p cs' → cs ≡ₚ cs'.
Proof.
  intros [Hnd Hcs] [Hnd' Hcs']. apply NoDup_Permutation; [done..|]. intros n. by rewrite Hcs, Hcs'.
Qed.

Lemma only_children_ext v v' p cs : (∀ m, v' m = v m) → only_children v' p cs → only_children v p cs.
Proof. intros Hv [Hnd Hcs]. split; [done|]. intros n. by rewrite Hcs, Hv. Qed.

(** Counting and indexing the children of a registry other than the root. *)
Lemma children_run s p :
  vt_inv s → valid p → p ≠ [] → vt_view s p = Some VRegistry →
  ∃ cs, only_children (vt_view s) p cs ∧ Sorted casele cs ∧
    (Z.of_nat (length cs) < 2 ^ 32 →
     gives (NR_reg_get_child_count p) s (inr (Z.of_nat (length cs))) ∧
     ∀ i, gives (NR_reg_get_child_registry p i) s
       match cs !! i with Some c => inr c | None => inl R_NOT_FOUND end).
Proof.
  intros Hs Hp Hne Hv. pose proof (law_count s p Hs Hp Hne) as Hcount. rewrite Hv in Hcount.
  destruct Hcount as (ns & Hns & s1 & Hq1 & Hcount). cbn in Hcount.
  set (count := wrap 32 (Z.of_nat (length ns))) in Hcount.
  assert (Hc : 0 <= count < 2 ^ 32) by (by apply wrap_range).
  destruct (law_children s1 p (Z.to_nat (count + 1)) (proj1 Hq1) Hp) as (cs & Hcs & Hsort & Hget); [lia..|].
  apply (only_children_ext (vt_view s)) in Hcs; [|apply Hq1].
  exists cs. split_and!; [done|done|]. intros Hlt.
  assert (Hlen : count = Z.of_nat (length cs)).
  { unfold count. rewrite (Permutation_length (only_children_perm _ _ _ _ Hns Hcs)). apply wrap_small. lia. }
  rewrite Hlen in Hcount, Hget, Hc. split.
  - exists s1. split; [done|]. unfold NR_reg_get_child_count.
    erewrite bind_ok by by rewrite through_run. by rewrite wrap_small.
  - intros i. unfold NR_reg_get_child_registry.
    assert (Hthen : ∀ (k : Z → M S cstring) o, gives (k (Z.of_nat (length cs))) s1 o →
      gives (through (vt_get_child_count p) ≫= k) s o).
    { intros k o (s2 & Hq2 & Hk). exists s2. split; [by eapply quiet_trans|].
      by erewrite bind_ok by by rewrite through_run. }
    apply Hthen. destruct (Z.leb_spec (Z.of_nat (length cs)) (Z.of_nat i)).
    { rewrite lookup_ge_None_2 by lia. apply gives_abort; [apply Hq1|done]. }
    rewrite wrap_small by lia. apply gives_alloc; [apply Hq1|].
    giveq s2 Hq2; [apply gives_through; [apply Hq1|apply Hget; lia]|].
    destruct (lookup_lt_is_Some_2 cs i) as [c Hi]; [lia|]. rewrite Hi. apply gives_ret, Hq2.
Qed.

Lemma c_string_in_cbytes d : no_nul d → c_string_in (cbytes d) = Some d.
Proof.
  unfold cbytes. induction 1 as [|c d Hc _ IH]; [done|]. cbn [fmap list_fmap app c_string_in].
  destruct (uchar c) as [|z|z] eqn:Hz; [done| |]; rewrite IH; cbn; by rewrite <- Hz, char_of_uchar.
Qed.

Lemma alloc_string_run s n d :
  vt_inv s → no_nul d → vt_view s n = Some (VArray NR_REG_TYPE_STRING (cbytes d)) →
  gives (NR_reg_alloc_string n) s (inr d).
Proof.
  intros Hs Hd Hv. pose proof (law_valid s n _ Hs Hv) as Hn. unfold NR_reg_alloc_string.
  giveq s1 Hq1; [apply gives_through; [done|]; by apply (law_string s n d 0)|].
  apply gives_alloc; [apply Hq1|]. rewrite <- (proj2 Hq1) in Hv.
  destruct (law_string s1 n d (Z.of_nat (length d) + 1) (proj1 Hq1) Hn Hd Hv) as (_ & _ & Hget).
  rewrite Z.ltb_irrefl in Hget. destruct Hget as (bs & Hbs & Hget).
  giveq s2 Hq2; [apply gives_through; [apply Hq1|exact Hget]|]. rewrite Hbs. cbn [from_option_ub].
  giveq s3 Hq3; [apply gives_ret, Hq2|]. unfold strlen. rewrite Z.eqb_refl. apply gives_ret, Hq3.
Qed.

(** [NRGET]: the three outcomes of a read. *)
Lemma c2ru_get_run {A} (get : cstring → M S A) parent child n s o :
  vt_inv s → NR_reg_make_registry parent child = inr n → gives (get n) s o → (∀ r, o = inl r → r ≠ 0) →
  gives (c2ru_get get parent child) s
    match o with
    | inr v => inr (Some v)
    | inl r => if r =? R_NOT_FOUND then inr None else inl r
    end.
Proof.
  intros Hs Hn Hget Hr. unfold c2ru_get, nr_c2ru_make_registry. rewrite Hn.
  giveq s1 Hq1; [by apply gives_catch|]. destruct o as [r|v].
  - destruct (r =? R_NOT_FOUND); [apply gives_ret, Hq1|]. apply gives_abort; [apply Hq1|by apply Hr].
  - apply gives_alloc; [apply Hq1|]. apply gives_ret, Hq1.
Qed.

(** Reading the children one after the other, in states that all stand for [s]'s registry. *)
Lemma get_loop_run {E} (get : cstring → M S E) (f : cstring → E) p cs s :
  (∀ s' i, quiet s s' → gives (NR_reg_get_child_registry p i) s'
     match cs !! i with Some c => inr c | None => inl R_NOT_FOUND end) →
  (∀ s' n, quiet s s' → n ∈ cs → gives (get n) s' (inr (f n))) →
  ∀ suf pre tailq s', quiet s s' → cs = pre ++ suf →
    gives (get_children_loop get p (seq (length pre) (length suf)) tailq) s' (inr (tailq ++ (f <$> suf))).
Proof.
  intros Hnth Hget suf. induction suf as [|n suf IH]; intros pre tailq s' Hq Hcs; cbn.
  { rewrite app_nil_r. apply gives_ret, Hq. }
  assert (Hi : cs !! length pre = Some n) by (rewrite Hcs; by apply list_lookup_middle).
  giveq s1 Hq1; [apply gives_catch, Hnth, Hq|]. rewrite Hi. assert (Hs1 : quiet s s1) by by eapply quiet_trans.
  giveq s2 Hq2; [apply gives_catch, Hget; [exact Hs1|by eapply list_elem_of_lookup_2]|].
  specialize (IH (pre ++ [n]) (tailq ++ [f n]) s2). rewrite length_app, Nat.add_1_r, <- !app_assoc in IH.
  apply IH; [by eapply quiet_trans|done].
Qed.

(** *** Writing the children of a registry *)

(** The registry [p] after the entries [d] were written below it, and nothing else. *)
Record written (ty : reg_type) p (d : list Z) s : Prop := {
  wr_inv : vt_inv s;
  wr_path : creatable (vt_view s) (p :: ancestors p);
  wr_reg : vt_view s p = if decide (d = []) then None else Some VRegistry;
  wr_children m x : iter_match p m = true → m ≠ p →
    vt_view s m = Some x ↔ ∃ i e, d !! i = Some e ∧ m = child_name p i ∧ x = VScalar ty (stored ty 0 e);
}.

Lemma written_quiet ty p d s s' : quiet s s' → written ty p d s → written ty p d s'.
Proof.
  intros [Hi Hv] [_ Hpath Hreg Hch]. split; [done| |by rewrite Hv|].
  - by apply (creatable_ext _ (vt_view s)).
  - intros m x Hm Hne. rewrite Hv. by apply Hch.
Qed.

Lemma write_one ty p d e s :
  is_scalar ty = true → p ≠ [] → written ty p d s → valid (child_name p (length d)) →
  ∃ s', NR_reg_set ty (child_name p (length d)) e s = Ok () s' ∧ written ty p (d ++ [e]) s'.
Proof.
  intros Hty Hp [Hs Hpath Hreg Hch] Hvalid.
  destruct (child_name_facts p (length d) Hp) as (Hup & Hanc & Hne & Hm & Hnep).
  assert (Hnone : vt_view s (child_name p (length d)) = None).
  { destruct (vt_view s (child_name p (length d))) as [x|] eqn:Hx; [|done]. apply Hch in Hx as (i & e' & Hi & Heq & _); [|done..].
    apply join_inj, decimal_inj in Heq as <-. apply lookup_lt_Some in Hi. lia. }
  destruct (law_set s _ ty e Hs Hvalid Hty Hnone) as (s' & Hrun & Hs' & Hview); [by rewrite Hanc|].
  exists s'. split; [unfold NR_reg_set; by rewrite through_run|].
  unfold new_parents in Hview. rewrite Hanc in Hview.
  assert (Hp' : vt_view s' p = Some VRegistry).
  { rewrite Hview. unfold upd, fill. rewrite decide_False by done. cbn [missing]. rewrite Hreg.
    destruct (decide (d = [])); [by rewrite decide_True by by left|].
    by rewrite decide_False by apply not_elem_of_nil. }
  split; [done| |by rewrite decide_False by by destruct d|].
  - cbn [creatable] in *. rewrite Hp'. by split; [apply Hpath|].
  - intros m x Hmm Hmp. rewrite Hview. unfold upd. destruct (decide (m = child_name p (length d))) as [->|Hmn].
    + split.
      * intros [= <-]. exists (length d), e. split_and!; [|done|done]. by apply list_lookup_middle.
      * intros (i & e' & Hi & Heq & ->). apply join_inj, decimal_inj in Heq as <-.
        rewrite list_lookup_middle in Hi by done. by injection Hi as <-.
    + unfold fill. rewrite decide_False.
      2: { intros [[->|Hin]%elem_of_cons _]%missing_sub; [done|]. apply ancestors_shorter in Hin.
           apply iter_match_length in Hmm. lia. }
      rewrite Hch by done. split; intros (i & e' & Hi & -> & ->).
      * exists i, e'. split_and!; [|done|done]. by apply lookup_app_l_Some.
      * exists i, e'. split_and!; [|done|done]. apply lookup_app_Some in Hi as [Hi|[Hlen Hi]]; [done|].
        destruct (i - length d)%nat as [|k] eqn:Hk; [|by destruct k]. destruct Hmn. f_equal. lia.
Qed.

Lemma set_loop_run ty p es d s :
  is_scalar ty = true → valid p → p ≠ [] → written ty p d s →
  (∀ i, (i < length d + length es)%nat → length p + length (decimal i) + 2 <= 128)%nat →
  ∃ s', set_children_loop (NR_reg_set ty) None p es (length d) s = Ok () s' ∧ written ty p (d ++ es) s'.
Proof.
  intros Hty Hv Hp. revert d s. induction es as [|e es IH]; intros d s Hw Hlen.
  { exists s. by rewrite app_nil_r. }
  assert (Hmk : NR_reg_make_registry p (decimal (length d)) = inr (child_name p (length d))).
  { apply make_registry_plain; [done|apply decimal_plain|apply decimal_not_nil|]. apply Hlen. cbn. lia. }
  destruct (make_registry_inr _ _ _ Hmk) as (Hvn & _).
  destruct (write_one ty p d e s Hty Hp Hw Hvn) as (s1 & Hrun1 & Hw1).
  destruct (IH (d ++ [e]) s1 Hw1) as (s' & Hrun & Hw').
  { intros i Hi. apply Hlen. rewrite length_app in Hi. cbn in Hi |- *. lia. }
  exists s'. rewrite <- app_assoc in Hw'. split; [|done].
  cbn [set_children_loop]. mstep. unfold nr_c2ru_make_registry. rewrite Hmk. erewrite bind_ok by exact Hrun1.
  by rewrite length_app, Nat.add_1_r in Hrun.
Qed.

(** The children that were written are the children there are. *)
Lemma written_children ty p d s cs :
  p ≠ [] → written ty p d s → only_children (vt_view s) p cs → cs ≡ₚ child_name p <$> seq 0 (length d).
Proof.
  intros Hp Hw [Hnd Hcs]. apply NoDup_Permutation; [done| |].
  - apply NoDup_fmap_2_strong; [|apply NoDup_seq]. intros i j _ _ Heq. by apply join_inj, decimal_inj in Heq.
  - intros m. rewrite Hcs, list_elem_of_fmap. split.
    + intros ([x Hx] & Hne & Hup). assert (Hm : iter_match p m = true).
      { apply iter_match_up; [done|]. right. rewrite Hup. apply iter_match_refl. }
      apply (wr_children _ _ _ _ Hw) in Hx as (i & e & Hi & -> & _); [|done|].
      * exists i. split; [done|]. apply elem_of_seq. apply lookup_lt_Some in Hi. lia.
      * intros ->. pose proof (up_shorter _ Hne) as Hlt. rewrite Hup in Hlt. lia.
    + intros (i & -> & [_ Hi]%elem_of_seq). destruct (child_name_facts p i Hp) as (Hup & _ & Hne & Hm & Hnep).
      split_and!; [|done|done]. destruct (lookup_lt_is_Some_2 d i) as [e He]; [lia|].
      exists (VScalar ty (stored ty 0 e)). apply (wr_children _ _ _ _ Hw); [done|done|]. by exists i, e.
Qed.

(** Deleting a registry leaves it ready to be written. *)
Lemma del_ready ty p s :
  vt_inv s → valid p → p ≠ [] → creatable (vt_view s) (ancestors p) →
  ∃ s', NR_reg_del p s = Ok () s' ∧ written ty p [] s'.
Proof.
  intros Hs Hv Hp Hpath. destruct (law_del s p Hs Hv Hp) as (s' & Hrun & Hs' & Hview).
  exists s'. split; [unfold NR_reg_del; by rewrite through_run|].
  assert (Hgone : ∀ m, iter_match p m = true → vt_view s' m = None) by (intros m Hm; by rewrite Hview, Hm).
  split; [done| |by apply Hgone, iter_match_refl|].
  - cbn [creatable]. rewrite Hgone by apply iter_match_refl. split; [done|].
    assert (Hkeep : ∀ q, q ∈ ancestors p → vt_view s' q = vt_view s q).
    { intros q Hq%ancestors_shorter. rewrite Hview. destruct (iter_match p q) eqn:Hm; [|done].
      apply iter_match_length in Hm. lia. }
    revert Hpath Hkeep. generalize (ancestors p). intros l. induction l as [|q l IH]; [done|].
    cbn [creatable]. intros [Hq Hl] Hkeep. rewrite (Hkeep q) by by left. split; [done|].
    destruct (vt_view s q); [done|]. apply IH; [done|]. intros q' Hq'. apply Hkeep. by right.
  - intros m x Hm _. rewrite Hgone by done. split; [done|]. by intros (i & e & Hi & _).
Qed.

(** What a registry that was written reads back as. *)
Lemma written_read ty p d s :
  is_scalar ty = true → ty ≠ NR_REG_TYPE_DOUBLE → valid p → p ≠ [] → written ty p d s → d ≠ [] →
  Z.of_nat (length d) < 2 ^ 32 →
  ∃ es, gives (count ← NR_reg_get_child_count p;
               get_children_loop (NR_reg_get ty) p (seq 0 (Z.to_nat count)) []) s (inr es) ∧
    es ≡ₚ d ∧ ((length d <= 10)%nat → es = d).
Proof.
  intros Hty Hdbl Hv Hp Hw Hd Hlt.
  assert (Hread : ∀ s', quiet s s' → ∃ cs, cs ≡ₚ child_name p <$> seq 0 (length d) ∧ Sorted casele cs ∧
    gives (NR_reg_get_child_count p) s' (inr (Z.of_nat (length d))) ∧
    ∀ i, gives (NR_reg_get_child_registry p i) s' match cs !! i with Some c => inr c | None => inl R_NOT_FOUND end).
  { intros s' Hq. apply (written_quiet ty p d) in Hq; [|done]. pose proof (wr_reg _ _ _ _ Hq) as Hreg.
    rewrite decide_False in Hreg by done.
    destruct (children_run s' p (wr_inv _ _ _ _ Hq) Hv Hp Hreg) as (cs & Hcs & Hsort & Hnth).
    pose proof (written_children ty p d s' cs Hp Hq Hcs) as Hperm.
    assert (Hlen : length cs = length d) by (by rewrite Hperm, length_fmap, length_seq).
    rewrite Hlen in Hnth. destruct Hnth as [Hcount Hnth]; [done|]. by exists cs. }
  destruct (Hread s) as (cs & Hperm & Hsort & Hcount & _); [by apply quiet_refl, Hw|].
  assert (Hlen : length cs = length d) by (by rewrite Hperm, length_fmap, length_seq).
  set (f n := match vt_view s n with Some (VScalar _ w) => w | _ => 0 end).
  assert (Hf : ∀ i e, d !! i = Some e → vt_view s (child_name p i) = Some (VScalar ty e)).
  { intros i e Hi. destruct (child_name_facts p i Hp) as (_ & _ & _ & Hm & Hne).
    apply (wr_children _ _ _ _ Hw); [done..|]. exists i, e. split_and!; [done..|].
    by rewrite (proj1 (stored_spec ty 0 e)). }
  assert (Hall : f <$> (child_name p <$> seq 0 (length d)) = d).
  { apply list_eq. intros i. rewrite !list_lookup_fmap. destruct (d !! i) as [e|] eqn:Hi.
    - rewrite lookup_seq_lt by by eapply lookup_lt_Some. cbn. unfold f. by rewrite (Hf i e).
    - apply lookup_ge_None in Hi. by rewrite lookup_seq_ge. }
  exists (f <$> cs). split_and!; [|by rewrite Hperm, Hall|].
  - giveq s1 Hq1; [exact Hcount|]. rewrite Nat2Z.id, <- Hlen.
    apply (get_loop_run (NR_reg_get ty) f p cs s) with (pre := []) (tailq := []); [| |done|done].
    + intros s' i Hq. destruct (Hread s' Hq) as (cs' & Hperm' & Hsort' & _ & Hnth).
      by rewrite (child_names_unique p (length d) cs cs').
    + intros s' n Hq Hn. rewrite Hperm in Hn. apply list_elem_of_fmap in Hn as (i & -> & [_ Hi]%elem_of_seq).
      destruct (lookup_lt_is_Some_2 d i) as [e He]; [lia|]. pose proof (Hf i e He) as Hx.
      apply gives_through; [apply Hq|].
      pose proof (law_get s' (child_name p i) ty (proj1 Hq) Hty (law_valid s _ _ (wr_inv _ _ _ _ Hw) Hx)) as Hget.
      rewrite (proj2 Hq), Hx, decide_True in Hget by done. unfold f. by rewrite Hx.
  - intros Hten. rewrite <- Hall. f_equal. apply (child_names_unique p (length d)); [done|done|done|].
    by apply child_names_sorted.
Qed.

(** [NR_reg_get_child_registry] indexes the children of a registry in the order of
    [NR_reg_get_children], each index below [NR_reg_get_child_count] giving a different one
    and every other index [R_NOT_FOUND]; reading leaves the registry as it is. *)
Theorem child_registry_nth s p :
  vt_inv s → valid p → p ≠ [] → vt_view s p = Some VRegistry →
  ∃ cs, only_children (vt_view s) p cs ∧ Sorted casele cs ∧
    (Z.of_nat (length cs) < 2 ^ 32 →
     gives (NR_reg_get_child_count p) s (inr (Z.of_nat (length cs))) ∧
     ∀ i, gives (NR_reg_get_child_registry p i) s
       match cs !! i with Some c => inr c | None => inl R_NOT_FOUND end).
Proof. apply children_run. Qed.

(** A string written by [nr_c2ru_set_string] is what [nr_c2ru_get_string] then returns. *)
Theorem c2ru_string_roundtrip s parent child n (d : cstring) :
  vt_inv s → NR_reg_make_registry parent child = inr n → writable (vt_view s) n NR_REG_TYPE_STRING →
  no_nul d → Z.of_nat (length d) + 1 < 2 ^ 32 →
  ∃ s', nr_c2ru_set_string parent child (Some d) s = Ok () s' ∧
    gives (nr_c2ru_get_string parent child) s' (inr (Some d)).
Proof.
  intros Hs Hn Hw Hd Hlen. destruct (make_registry_inr _ _ _ Hn) as (Hv & _).
  destruct (law_set_string s n d Hs Hv Hd Hw Hlen) as (s' & Hrun & Hs' & Hview & _). exists s'. split.
  - unfold nr_c2ru_set_string, c2ru_set, nr_c2ru_make_registry, NR_reg_set_string. rewrite Hn.
    by rewrite through_run.
  - apply (c2ru_get_run NR_reg_alloc_string parent child n s' (inr d)); [done|done|by apply alloc_string_run|done].
Qed.

(** [nr_c2ru_get_*]: a name that is not there gives the null pointer and success, a scalar of
    the type asked for its value, and a name of another type an error; [nr_c2ru_get_string]
    likewise gives null for a name that is not there, which [nr_c2ru_free_string] cannot be
    given. *)
Theorem c2ru_get_cases s parent child n ty :
  vt_inv s → NR_reg_make_registry parent child = inr n → is_scalar ty = true →
  match vt_view s n with
  | None => gives (nr_c2ru_get ty parent child) s (inr None) ∧
      gives (nr_c2ru_get_string parent child) s (inr None) ∧
      (v ← nr_c2ru_get_string parent child; nr_c2ru_free_string v) s = UB
  | Some (VScalar ty' w) =>
      gives (nr_c2ru_get ty parent child) s (if decide (ty' = ty) then inr (Some w) else inl R_FAILED)
  | Some (VArray _ _) => gives (nr_c2ru_get ty parent child) s (inl R_FAILED)
  end.
Proof.
  intros Hs Hn Hty. destruct (make_registry_inr _ _ _ Hn) as (Hv & _).
  pose proof (law_get s n ty Hs Hty Hv) as Hlaw. apply gives_through in Hlaw; [|done].
  pose proof (c2ru_get_run (NR_reg_get ty) parent child n s _ Hs Hn Hlaw) as Hget.
  unfold nr_c2ru_get. destruct (vt_view s n) as [[ty' w|ty' bs]|] eqn:Hx.
  - case_decide; [by apply Hget|apply Hget; by intros r [= <-]].
  - apply Hget. by intros r [= <-].
  - assert (Hstr : gives (nr_c2ru_get_string parent child) s (inr None)).
    { apply (c2ru_get_run NR_reg_alloc_string parent child n s (inl R_NOT_FOUND)); [done|done| |by intros r [= <-]].
      apply gives_bind_err, gives_through; [done|]. by apply law_no_length. }
    split_and!; [apply Hget; by intros r [= <-]|done|].
    destruct Hstr as (s' & _ & Hrun). by erewrite bind_ok by exact Hrun.
Qed.

End clients.
