(* ===== verification/RegModule.v ===== *)
(** * The local store as a registry module

    [nr_reg_local_vtbl] (registry_local.c), the laws of [RegFacadeSpec] for it, and the
    interface run on the registries of [RegDemo]. *)

From Stdlib Require Import Ascii.
From stdpp Require Import sorting.
From S2P Require Import Prelude CString AssocSpec RegNames RegState RegCb RegLocal RegInv RegSpec RegTree RegDemo RegFacade RegLabels RegFacadeSpec.
Local Open Scope Z_scope.

#[export] Instance nr_reg_local_vtbl : RegVtbl reg_state := {
  vt_present := reg_vtbl;
  vt_get := nr_reg_get;
  vt_get_registry := nr_reg_local_get_registry;
  vt_get_bytes := nr_reg_local_get_bytes;
  vt_get_string := nr_reg_local_get_string;
  vt_get_length := nr_reg_local_get_length;
  vt_get_type := nr_reg_local_get_type;
  vt_set := nr_reg_local_set_scalar;
  vt_set_registry := nr_reg_local_set_registry;
  vt_set_bytes := nr_reg_local_set_bytes;
  vt_set_string := nr_reg_local_set_string;
  vt_del := nr_reg_local_del;
  vt_get_child_count := nr_reg_local_get_child_count;
  vt_get_children := nr_reg_local_get_children;
  vt_fin := nr_reg_local_fin;
}.

#[export] Instance local_abs : RegAbs reg_state := { vt_inv := good; vt_view := reg_view }.

Section laws.
Implicit Types (s : reg_state) (n p : cstring).

Lemma valid_true n : valid n → nr_reg_is_valid n = true.
Proof. apply nr_reg_is_valid_spec. Qed.

Lemma local_get s n ty :
  good s → is_scalar ty = true → valid n →
  gives (nr_reg_get n ty) s
    match reg_view s n with
    | None => inl R_NOT_FOUND
    | Some (VScalar ty' w) => if decide (ty' = ty) then inr w else inl R_FAILED
    | Some (VArray _ _) => inl R_FAILED
    end.
Proof.
  intros Hg Hty Hv. exists s. split; [by apply quiet_refl|]. rewrite get_scalar_run, valid_true by done.
  destruct (reg_view s n) as [[]|]; [by case_decide|done|done].
Qed.

Lemma string_length_bound s n d :
  good s → reg_view s n = Some (VArray NR_REG_TYPE_STRING (cbytes d)) → Z.of_nat (length d) + 1 < 2 ^ 32.
Proof.
  intros Hg (l & nd & Hat & Hval)%view_node. pose proof (length_cbytes d) as Hcb. unfold strlen in Hcb.
  destruct (node_at_objs s n l nd Hg Hat) as (_ & Hnd & _).
  destruct nd as [ty w|ty len buf]; [done|]. injection Hval as -> Hbuf. destruct Hnd as (_ & Hl & Hb).
  rewrite <- Hbuf, length_take in Hcb. lia.
Qed.

Lemma local_string s n d size :
  good s → valid n → no_nul d → reg_view s n = Some (VArray NR_REG_TYPE_STRING (cbytes d)) →
  Z.of_nat (length d) + 1 < 2 ^ 32 ∧
  gives (nr_reg_local_get_length n) s (inr (Z.of_nat (length d))) ∧
  if size <? Z.of_nat (length d) + 1 then gives (nr_reg_local_get_string n size) s (inl R_BAD_ARGS)
  else ∃ bs, c_string_in bs = Some d ∧ gives (nr_reg_local_get_string n size) s (inr bs).
Proof.
  intros Hg Hv Hd Hx. destruct (string_read s n d size Hg Hv Hx) as [Hlen Hget].
  split; [by eapply string_length_bound|]. split; [by apply gives_ok|]. destruct (size <? Z.of_nat (length d) + 1); [by apply gives_err|].
  exists (cbytes d). split; [by apply c_string_in_cbytes|by apply gives_ok].
Qed.

Lemma local_no_length s n :
  good s → valid n → reg_view s n = None → gives (nr_reg_local_get_length n) s (inl R_NOT_FOUND).
Proof.
  intros Hg Hv Hn%view_none. apply gives_err; [done|]. unfold nr_reg_local_get_length, fetch_any.
  rewrite valid_true by done. cbn [negb]. apply bind_err, bind_err. by rewrite assoc_fetch_node, Hn.
Qed.

Lemma local_count s p :
  good s → valid p → p ≠ [] →
  match reg_view s p with
  | Some (VScalar NR_REG_TYPE_REGISTRY _) => ∃ cs, only_children (reg_view s) p cs ∧
      gives (nr_reg_local_get_child_count p) s (inr (wrap 32 (Z.of_nat (length cs))))
  | Some _ => gives (nr_reg_local_get_child_count p) s (inl R_FAILED)
  | None => gives (nr_reg_local_get_child_count p) s (inl R_NOT_FOUND)
  end.
Proof.
  intros Hg Hv Hp.
  assert (Herr : ∀ r, nr_reg_fetch_node p NR_REG_TYPE_REGISTRY s = Err r s →
    gives (nr_reg_local_get_child_count p) s (inl r)).
  { intros r Hr. apply gives_err; [done|]. unfold nr_reg_local_get_child_count.
    rewrite valid_true by done. cbn [negb]. by apply bind_err. }
  pose proof (fetch_node_spec s p NR_REG_TYPE_REGISTRY Hg) as Hf. rewrite valid_true in Hf by done.
  destruct (reg_view s p) as [x|] eqn:Hx.
  - apply view_node in Hx as (l & nd & Hat & <-). rewrite Hat in Hf.
    destruct (node_at_objs s p l nd Hg Hat) as (_ & Hnd & _).
    destruct nd as [ty w|ty len buf]; cbn in Hf, Hnd |- *.
    + destruct (decide (ty = NR_REG_TYPE_REGISTRY)) as [->|Hne]; [|destruct ty; by apply Herr || by destruct Hne].
      destruct Hnd as [_ Hw]. rewrite Hw in Hat by done.
      destruct (child_count_run s p l Hg Hv Hat) as (ns & Hnd & Hns & Hrun). exists ns. split; [|by apply gives_ok].
      split; [done|]. intros n. rewrite Hns. split.
      * intros (? & ? & [?|?]); [by destruct Hp|done].
      * intros (? & ? & ?). by split_and!; [..|right].
    + rewrite decide_False in Hf by (intros ->; by destruct Hnd). by apply Herr.
  - apply view_none in Hx. rewrite Hx in Hf. by apply Herr.
Qed.

Lemma local_server_children s p size :
  good s → valid p → (0 < size)%nat →
  ∃ cs, only_children (reg_view s) p cs ∧ Sorted casele cs ∧
    gives (nr_reg_local_get_children p size) s (if (length cs <? size)%nat then inr cs else inl R_BAD_ARGS).
Proof.
  intros Hg Hv Hsize. destruct (get_children_run s p size Hg Hv Hsize) as (cs & ? & ? & ? & Hrun). exists cs.
  split_and!; [done|done|]. destruct (_ <? _)%nat; [by apply gives_ok|by apply gives_err].
Qed.

Lemma local_children s p size :
  good s → valid p → (0 < size)%nat → Z.of_nat size <= 2 ^ 33 →
  ∃ cs, only_children (reg_view s) p cs ∧ Sorted casele cs ∧
    ((length cs < size)%nat → gives (nr_reg_local_get_children p size) s (inr cs)).
Proof.
  intros Hg Hv Hsize _. destruct (local_server_children s p size Hg Hv Hsize) as (cs & ? & ? & Hrun). exists cs.
  split_and!; [done|done|]. intros Hlt. by rewrite (proj2 (Nat.ltb_lt _ _) Hlt) in Hrun.
Qed.

Lemma local_set s n ty data :
  good s → valid n → is_scalar ty = true → reg_view s n = None → creatable (reg_view s) (ancestors n) →
  ∃ s', nr_reg_local_set_scalar n ty data s = Ok () s' ∧ good s' ∧
    ∀ m, reg_view s' m = upd (fill (reg_view s) (new_parents (reg_view s) n)) n
                             (Some (VScalar ty (stored ty 0 data))) m.
Proof.
  intros Hg Hv Hty Hx Hc. pose proof (set_scalar_run s n ty data Hg Hv Hty) as Hspec. rewrite Hx in Hspec.
  destruct (Hspec Hc) as (s' & Hrun & Hev). exists s'. by split_and!; [|apply Hev..].
Qed.

Lemma local_set_string s n d :
  good s → valid n → no_nul d → writable (reg_view s) n NR_REG_TYPE_STRING → Z.of_nat (length d) + 1 < 2 ^ 32 →
  ∃ s', nr_reg_local_set_string n d s = Ok () s' ∧ good s' ∧
    reg_view s' n = Some (VArray NR_REG_TYPE_STRING (cbytes d)) ∧
    (reg_view s n = None → ∀ m, reg_view s' m =
       upd (fill (reg_view s) (new_parents (reg_view s) n)) n (Some (VArray NR_REG_TYPE_STRING (cbytes d))) m).
Proof.
  intros Hg Hv _ Hw Hlen. pose proof (length_cbytes d) as Hcb. unfold strlen in Hcb.
  pose proof (set_array_run s n NR_REG_TYPE_STRING (cbytes d) Hg Hv eq_refl ltac:(lia)) as Hspec.
  assert (Hdone : ∀ s' v evs, evolves s s' (upd v n (Some (VArray NR_REG_TYPE_STRING (cbytes d)))) evs →
    good s' ∧ reg_view s' n = Some (VArray NR_REG_TYPE_STRING (cbytes d))).
  { intros s' v evs Hev. split; [apply Hev|]. rewrite (ev_view _ _ _ _ Hev). unfold upd. by rewrite decide_True. }
  unfold writable in Hw. destruct (reg_view s n) as [[ty w|ty old]|] eqn:Hx; cbn in Hw.
  - exfalso. subst ty. apply view_node in Hx as (l & nd & Hat & Hval).
    destruct (node_at_objs s n l nd Hg Hat) as (_ & Hnd & _). destruct nd as [ty' w'|]; [|done].
    injection Hval as -> ->. by destruct Hnd.
  - subst ty. rewrite decide_True in Hspec by done. destruct Hspec as (s' & Hrun & Hev). exists s'.
    destruct (Hdone _ _ _ Hev). by split_and!.
  - destruct (Hspec Hw) as (s' & Hrun & Hev). exists s'. destruct (Hdone _ _ _ Hev).
    split_and!; [done..|]. intros _. apply Hev.
Qed.

Lemma local_del s n :
  good s → valid n → n ≠ [] →
  ∃ s', nr_reg_local_del n s = Ok () s' ∧ good s' ∧
    ∀ m, reg_view s' m = if iter_match n m then None else reg_view s m.
Proof.
  intros Hg Hv Hn. destruct (del_run s n Hg Hv) as (s' & Hrun & Hev). rewrite decide_False in Hev by done.
  exists s'. by split_and!; [|apply Hev..].
Qed.
End laws.

#[export] Instance local_laws : RegLaws reg_state := {|
  law_ready s Hg := conj (g_vtbl s Hg) (g_mem s Hg);
  law_valid := view_valid;
  law_get := local_get;
  law_string := local_string;
  law_no_length := local_no_length;
  law_count := local_count;
  law_children := local_children;
  law_set := local_set;
  law_set_string := local_set_string;
  law_del := local_del;
|}.

(** ** Instances *)

(** Eleven entries, written and read back by running the store. *)
Definition eleven : list Z := [0; 1; 2; 3; 4; 5; 6; 7; 8; 9; 10].
Example eleven_out_of_order :
  match (nr_reg_local_init;;
         nr_c2ru_set_children $"net" $"ports" eleven (NR_reg_set NR_REG_TYPE_INT4) None;;
         nr_c2ru_get_children $"net" $"ports" (NR_reg_get NR_REG_TYPE_INT4)) null_registry with
  | Ok es _ => es = [0; 1; 10; 2; 3; 4; 5; 6; 7; 8; 9]
  | _ => False
  end.
Proof. vm_compute. reflexivity. Qed.

#[local] Opaque demo_init demo_mtu demo_host.

Lemma demo_mtu_inv : vt_inv demo_mtu.
Proof. exact demo_mtu_good. Qed.

Lemma child_registry_nth_witness :
  ∃ cs, only_children (reg_view demo_mtu) $"net" cs ∧ Sorted casele cs ∧
    (Z.of_nat (length cs) < 2 ^ 32 →
     gives (NR_reg_get_child_count $"net") demo_mtu (inr (Z.of_nat (length cs))) ∧
     ∀ i, gives (NR_reg_get_child_registry $"net" i) demo_mtu
       match cs !! i with Some c => inr c | None => inl R_NOT_FOUND end).
Proof.
  apply (child_registry_nth demo_mtu $"net" demo_mtu_inv ltac:(valid_name)); [discriminate|].
  change (reg_view demo_mtu $"net" = Some VRegistry). rewrite demo_mtu_view. reflexivity.
Defined.

Lemma demo_host_writable : writable (reg_view demo_mtu) $"net.host" NR_REG_TYPE_STRING.
Proof. unfold writable. rewrite demo_mtu_view. cbn. apply demo_host_path. Qed.

Lemma c2ru_string_roundtrip_witness :
  ∃ s', nr_c2ru_set_string $"net" $"host" (Some $"ekr") demo_mtu = Ok () s' ∧
    gives (nr_c2ru_get_string $"net" $"host") s' (inr (Some $"ekr")).
Proof.
  apply (c2ru_string_roundtrip demo_mtu $"net" $"host" $"net.host" $"ekr" demo_mtu_inv);
    [vm_compute; reflexivity|exact demo_host_writable|by repeat constructor|vm_compute; reflexivity].
Defined.

Lemma c2ru_get_cases_witness : gives (nr_c2ru_get NR_REG_TYPE_INT4 $"net" $"mtu") demo_mtu (inr (Some 1500)).
Proof.
  pose proof (c2ru_get_cases demo_mtu $"net" $"mtu" $"net.mtu" NR_REG_TYPE_INT4 demo_mtu_inv
    ltac:(vm_compute; reflexivity) eq_refl) as Hcases.
  change (vt_view demo_mtu $"net.mtu") with (reg_view demo_mtu $"net.mtu") in Hcases.
  rewrite demo_mtu_view in Hcases. exact Hcases.
Defined.

