(* ===== verification/RegRemote.v ===== *)
(** * The registry behind a connection (src/registry/regrpc_server.c, regrpc_client.c)

    In remote mode the module table holds functions that call registryd, whose procedures
    call the registry there.  A call and its result are delivered unchanged, or no result is
    delivered: the state says which, for the calls to come.  [RegTravel] shows that the stubs
    and encodings rpcgen makes are no different.  The server's registry is any module, so this
    file builds a module from a module.  The callback connection is in [RegRelay]. *)

From Stdlib Require Import Ascii.
From S2P Require Import Prelude CString RegNames RegFacade.
Local Open Scope Z_scope.

(** ** The server *)

(** The static buffers of [nr_reg_get_bytes_1_svc] and [nr_reg_get_string_1_svc] ([None]: not
    yet allocated), and those of [nr_reg_get_children_1_svc]. *)
Record svc_buf := SvcBuf { sb_allocated : bool; sb_maxlen : Z }.

Record svc_state (S : Type) := SvcState {
  svc_reg : S;
  svc_bytes : svc_buf;
  svc_string : svc_buf;
  svc_children : svc_buf;
}.
Arguments SvcState {S} _ _ _ _.
Arguments svc_reg {S} _.
Arguments svc_bytes {S} _.
Arguments svc_string {S} _.
Arguments svc_children {S} _.

Section server.
Context {S : Type} `{AllocLaws S} `{RegVtbl S}.

Definition set_svc_reg (r : S) (s : svc_state S) : svc_state S := SvcState r (svc_bytes s) (svc_string s) (svc_children s).

#[export] Instance svc_alloc : HasAlloc (svc_state S) := {
  alloc_answers s := alloc_answers (svc_reg s);
  set_alloc_answers l s := set_svc_reg (set_alloc_answers l (svc_reg s)) s;
}.

(** A call of the registry. *)
Definition on_reg {A} (m : M S A) : M (svc_state S) A := λ s,
  match m (svc_reg s) with
  | Ok a r => Ok a (set_svc_reg r s)
  | Err e r => Err e (set_svc_reg r s)
  | UB => UB
  end.

(** The procedures that only pass the call on. *)
Definition nr_reg_get_1_svc (type : reg_type) (name : cstring) : M (svc_state S) Z := on_reg (NR_reg_get type name).
Definition nr_reg_set_1_svc (type : reg_type) (name : cstring) (data : Z) : M (svc_state S) unit :=
  on_reg (NR_reg_set type name data).
Definition nr_reg_get_registry_1_svc (name : cstring) : M (svc_state S) cstring := on_reg (NR_reg_get_registry name).
Definition nr_reg_get_length_1_svc (name : cstring) : M (svc_state S) Z :=
  len ← on_reg (NR_reg_get_length name); mret (wrap 32 len).
Definition nr_reg_get_type_1_svc (name : cstring) : M (svc_state S) cstring := on_reg (NR_reg_get_type name).
Definition nr_reg_set_registry_1_svc (name : cstring) : M (svc_state S) unit := on_reg (NR_reg_set_registry name).
Definition nr_reg_set_bytes_1_svc (name : cstring) (data : list Z) : M (svc_state S) unit :=
  on_reg (NR_reg_set_bytes name data).
Definition nr_reg_set_string_1_svc (name data : cstring) : M (svc_state S) unit := on_reg (NR_reg_set_string name data).
Definition nr_reg_del_1_svc (name : cstring) : M (svc_state S) unit := on_reg (NR_reg_del name).
Definition nr_reg_fin_1_svc (name : cstring) : M (svc_state S) unit := on_reg (NR_reg_fin name).
Definition nr_reg_get_child_count_1_svc (parent : cstring) : M (svc_state S) Z := on_reg (NR_reg_get_child_count parent).

(** [maybe_adjust_ptr]: the buffer's new size. *)
Definition maybe_adjust_ptr (name : cstring) (maxlen : Z) : M (svc_state S) Z :=
  r ← catch (on_reg (NR_reg_get_length name));
  len ← (match r with
         | inr len => mret len
         | inl r => if r =? R_NOT_FOUND then mret (wrap 64 (maxlen + 1)) else abort r
         end);
  if maxlen <=? len then alloc_or_abort;; mret (wrap 64 (len + 2)) else mret maxlen.

(** The two procedures that read into a buffer which grows when it is too small. *)
Section buffered.
Context (buf : svc_state S → svc_buf) (set_buf : svc_buf → svc_state S → svc_state S).
Context (read : cstring → Z → M S (list Z)).

Definition read_growing (name : cstring) : M (svc_state S) (list Z) :=
  s ← get;
  (if sb_allocated (buf s) then mret ()
   else alloc_or_abort;; modify (set_buf (SvcBuf true (sb_maxlen (buf s)))));;
  let maxlen := sb_maxlen (buf s) in
  r ← catch (on_reg (read name maxlen));
  match r with
  | inr bs => mret bs
  | inl r =>
      if r =? R_BAD_ARGS then
        maxlen ← maybe_adjust_ptr name maxlen;
        modify (set_buf (SvcBuf true maxlen));;
        on_reg (read name maxlen)
      else abort r
  end.
End buffered.

Definition set_svc_bytes (b : svc_buf) (s : svc_state S) : svc_state S := SvcState (svc_reg s) b (svc_string s) (svc_children s).
Definition set_svc_string (b : svc_buf) (s : svc_state S) : svc_state S := SvcState (svc_reg s) (svc_bytes s) b (svc_children s).
Definition set_svc_children (b : svc_buf) (s : svc_state S) : svc_state S := SvcState (svc_reg s) (svc_bytes s) (svc_string s) b.

Definition nr_reg_get_bytes_1_svc (name : cstring) : M (svc_state S) (list Z) :=
  read_growing svc_bytes set_svc_bytes NR_reg_get_bytes name.

(** What is sent is the string at the start of the buffer. *)
Definition nr_reg_get_string_1_svc (name : cstring) : M (svc_state S) cstring :=
  out ← read_growing svc_string set_svc_string NR_reg_get_string name;
  from_option_ub (c_string_in out).

(** The room doubles until the children fit.  [max_count] is a [size_t], so that 64 doublings
    bring it to zero: the fuel is more than the code can use. *)
Fixpoint children_svc (fuel : nat) (parent : cstring) : M (svc_state S) (list cstring) :=
  match fuel with
  | O => undef
  | Datatypes.S fuel' =>
      s ← get;
      let max_count := sb_maxlen (svc_children s) in
      (if sb_allocated (svc_children s) then mret ()
       else alloc_or_abort;; alloc_or_abort;; modify (set_svc_children (SvcBuf true max_count)));;
      r ← catch (on_reg (NR_reg_get_children parent (Z.to_nat max_count)));
      match r with
      | inr cs => mret cs
      | inl r =>
          if negb (r =? R_BAD_ARGS) || negb (nr_reg_is_valid parent) then abort r
          else
            modify (set_svc_children (SvcBuf false (wrap 64 (max_count * 2))));;
            children_svc fuel' parent
      end
  end.
Definition nr_reg_get_children_1_svc (parent : cstring) : M (svc_state S) (list cstring) := children_svc 64 parent.
End server.

(** registryd just started. *)
Definition svc_start {S} (r : S) : svc_state S := SvcState r (SvcBuf false 32) (SvcBuf false 32) (SvcBuf false 32).

(** ** The client *)

(** What becomes of a call: it returns, its result is lost, or it never arrives. *)
Inductive delivery : Type := Delivered | ReplyLost | CallLost.

Record remote_state (S : Type) := RemoteState {
  server : svc_state S;
  clnt : bool;                 (* __clnt is not null *)
  remote_vtbl : bool;          (* NR_reg_init(NR_REG_MODE_REMOTE) was called *)
  canswers : list bool;        (* the client's allocations *)
  net : list delivery;         (* the calls to come; after them all are delivered *)
  connects : list bool;        (* likewise whether clnttcp_create succeeds *)
}.
Arguments RemoteState {S} _ _ _ _ _ _.
Arguments server {S} _.
Arguments clnt {S} _.
Arguments remote_vtbl {S} _.
Arguments canswers {S} _.
Arguments net {S} _.
Arguments connects {S} _.

Section client.
Context {S : Type} `{AllocLaws S} `{RegVtbl S}.
Abbreviation C := (M (remote_state S)).

#[export] Instance remote_alloc : HasAlloc (remote_state S) := {
  alloc_answers := canswers;
  set_alloc_answers l s := RemoteState (server s) (clnt s) (remote_vtbl s) l (net s) (connects s);
}.
#[export] Instance remote_alloc_laws : AllocLaws (remote_state S).
Proof. split; [done|done|by intros []]. Qed.

Definition set_server (v : svc_state S) (s : remote_state S) : remote_state S :=
  RemoteState v (clnt s) (remote_vtbl s) (canswers s) (net s) (connects s).
Definition set_clnt (b : bool) (s : remote_state S) : remote_state S :=
  RemoteState (server s) b (remote_vtbl s) (canswers s) (net s) (connects s).
Definition next_delivery (s : remote_state S) : delivery := match net s with [] => Delivered | d :: _ => d end.
Definition pop_net (s : remote_state S) : remote_state S :=
  RemoteState (server s) (clnt s) (remote_vtbl s) (canswers s) (tail (net s)) (connects s).
Definition pop_connect (s : remote_state S) : remote_state S :=
  RemoteState (server s) (clnt s) (remote_vtbl s) (canswers s) (net s) (tail (connects s)).

(** [nr_reg_get_client] *)
Definition nr_reg_get_client : C unit :=
  s ← get;
  if clnt s then mret ()
  else
    modify pop_connect;;
    if next_answer (connects s) then modify (set_clnt true) else abort R_FAILED.

Definition nr_reg_reset_client : C unit := modify (set_clnt false).

(** The part of [nr_reg_init_clnt] that concerns the calls. *)
Definition nr_reg_init_clnt : C unit := nr_reg_get_client.

(** A stub: the result, or a null pointer. *)
Definition rpc {A} (svc : M (svc_state S) A) : C (option (Z + A)) := λ s,
  match next_delivery s with
  | CallLost => Ok None (pop_net s)
  | d =>
      match svc (server s) with
      | Ok a v => Ok (if d is Delivered then Some (inr a) else None) (set_server v (pop_net s))
      | Err r v => Ok (if d is Delivered then Some (inl r) else None) (set_server v (pop_net s))
      | UB => UB
      end
  end.

(** [CLIENT_ENTER], the call and [ABORT_IF_RPC_FAILED], with the tries that are left. *)
Fixpoint client_call {A} (tries : nat) (svc : M (svc_state S) A) : C A :=
  nr_reg_get_client;;
  result ← rpc svc;
  match result with
  | Some (inr a) => mret a
  | Some (inl r) => abort r
  | None =>
      match tries with
      | O => abort R_IO_ERROR
      | Datatypes.S tries' =>
          nr_reg_reset_client;;
          ignore nr_reg_init_clnt;;
          client_call tries' svc
      end
  end.
Definition TRIES : nat := 5.

Definition nr_reg_get_1_clnt (name : cstring) (type : reg_type) : C Z := client_call TRIES (nr_reg_get_1_svc type name).
Definition nr_reg_get_registry_1_clnt (name : cstring) : C cstring :=
  out ← client_call TRIES (nr_reg_get_registry_1_svc name);
  if (NR_REG_MAX_NR_REGISTRY_LEN <=? strlen out)%nat then abort R_BAD_ARGS else mret out.
Definition nr_reg_get_bytes_1_clnt (name : cstring) (size : Z) : C (list Z) :=
  out ← client_call TRIES (nr_reg_get_bytes_1_svc name);
  if size <? Z.of_nat (length out) then abort R_BAD_ARGS else mret out.
(** [strncpy] fills the buffer up with zeros. *)
Definition nr_reg_get_string_1_clnt (name : cstring) (size : Z) : C (list Z) :=
  out ← client_call TRIES (nr_reg_get_string_1_svc name);
  if size <=? Z.of_nat (strlen out) then abort R_BAD_ARGS
  else mret ((uchar <$> out) ++ replicate (Z.to_nat (size - Z.of_nat (strlen out))) 0).
Definition nr_reg_get_length_1_clnt (name : cstring) : C Z := client_call TRIES (nr_reg_get_length_1_svc name).
Definition nr_reg_get_type_1_clnt (name : cstring) : C cstring :=
  out ← client_call TRIES (nr_reg_get_type_1_svc name); mret (take NR_REG_MAX_TYPE_LEN out).
Definition nr_reg_set_1_clnt (name : cstring) (type : reg_type) (data : Z) : C unit :=
  client_call TRIES (nr_reg_set_1_svc type name data).
Definition nr_reg_set_registry_1_clnt (name : cstring) : C unit := client_call TRIES (nr_reg_set_registry_1_svc name).
Definition nr_reg_set_bytes_1_clnt (name : cstring) (data : list Z) : C unit :=
  client_call TRIES (nr_reg_set_bytes_1_svc name data).
Definition nr_reg_set_string_1_clnt (name data : cstring) : C unit := client_call TRIES (nr_reg_set_string_1_svc name data).
Definition nr_reg_del_1_clnt (name : cstring) : C unit := client_call TRIES (nr_reg_del_1_svc name).
Definition nr_reg_fin_1_clnt (name : cstring) : C unit := client_call TRIES (nr_reg_fin_1_svc name).
Definition nr_reg_get_child_count_1_clnt (parent : cstring) : C Z := client_call TRIES (nr_reg_get_child_count_1_svc parent).
Definition nr_reg_get_children_1_clnt (parent : cstring) (size : nat) : C (list cstring) :=
  out ← client_call TRIES (nr_reg_get_children_1_svc parent);
  if (size <? length out)%nat then abort R_BAD_ARGS
  else mret (take (NR_REG_MAX_NR_REGISTRY_LEN - 1) <$> out).

#[export] Instance nr_regrpc_vtbl : RegVtbl (remote_state S) := {
  vt_present := remote_vtbl;
  vt_get := nr_reg_get_1_clnt;
  vt_get_registry := nr_reg_get_registry_1_clnt;
  vt_get_bytes := nr_reg_get_bytes_1_clnt;
  vt_get_string := nr_reg_get_string_1_clnt;
  vt_get_length := nr_reg_get_length_1_clnt;
  vt_get_type := nr_reg_get_type_1_clnt;
  vt_set := nr_reg_set_1_clnt;
  vt_set_registry := nr_reg_set_registry_1_clnt;
  vt_set_bytes := nr_reg_set_bytes_1_clnt;
  vt_set_string := nr_reg_set_string_1_clnt;
  vt_del := nr_reg_del_1_clnt;
  vt_get_child_count := nr_reg_get_child_count_1_clnt;
  vt_get_children := nr_reg_get_children_1_clnt;
  vt_fin := nr_reg_fin_1_clnt;
}.
End client.

(** A client connected to a server. *)
Definition connected {S} (v : svc_state S) : remote_state S := RemoteState v true true [] [] [].
