(* ===== verification/RegRemoteSpec.v ===== *)
(** * The laws hold behind a connection

    A client whose calls are delivered sees a registry module that satisfies [RegLaws]
    whenever the server's does: everything [RegFacadeSpec] proves of the interface holds of it.
    Lost calls are retried, and a write that is repeated writes once. *)

From Stdlib Require Import Ascii.
From stdpp Require Import sorting.
From S2P Require Import Prelude CString RegNames RegLocal RegInv RegSpec RegTree RegFacade RegLabels RegFacadeSpec RegRemote.
Local Open Scope Z_scope.

(** What a server's module also has to promise: its refusal of too little room. *)
Class ServerLaws (S : Type) `{HasAlloc S} `{RegVtbl S} `{RegAbs S} := {
  server_children s p size : vt_inv s → valid p → (0 < size)%nat →
    ∃ cs, only_children (vt_view s) p cs ∧ Sorted casele cs ∧
      gives (vt_get_children p size) s (if (length cs <? size)%nat then inr cs else inl R_BAD_ARGS);
}.

Section server.
Context {S : Type} `{AllocLaws S} `{RegVtbl S} `{!RegAbs S} `{!RegLaws S} `{!ServerLaws S}.
Implicit Types (v : svc_state S) (n p : cstring).

Definition buf_ok (b : svc_buf) : Prop := 0 < sb_maxlen b < 2 ^ 40.

Record svc_inv v : Prop := {
  si_reg : vt_inv (svc_reg v);
  si_bytes : buf_ok (svc_bytes v);
  si_string : buf_ok (svc_string v);
  si_children : buf_ok (svc_children v);
}.

#[export] Instance svc_abs : RegAbs (svc_state S) := { vt_inv := svc_inv; vt_view v := vt_view (svc_reg v) }.

Lemma gives_on_reg {A} (m : M S A) v o : svc_inv v → gives m (svc_reg v) o → gives (on_reg m) v o.
Proof.
  intros [_ Hb Hs Hc] (r & [Hi Hv] & Hm). exists (set_svc_reg r v). split; [by split|].
  unfold on_reg. rewrite Hm. by destruct o.
Qed.

Lemma gives_svc_through {A} (m : M S A) v o : svc_inv v → gives m (svc_reg v) o → gives (on_reg (through m)) v o.
Proof. intros Hv Hm. apply gives_on_reg; [done|]. apply gives_through; [apply Hv|done]. Qed.

(** An allocation of the server succeeds and changes nothing. *)
Lemma gives_svc_alloc {A} (k : unit → M (svc_state S) A) v o : svc_inv v → gives (k ()) v o → gives (alloc_or_abort ≫= k) v o.
Proof.
  intros Hv (v' & Hq & Hk). exists v'. split; [done|].
  destruct (law_ready _ (si_reg _ Hv)) as [_ Hm]. pose proof (alloc_ok_plenty _ Hm) as Ha.
  unfold alloc_or_abort, alloc_ok, mbind, M_bind in *. cbn in *. unfold mem_plenty in Hm.
  rewrite Hm in *. cbn in *. injection Ha as Ha. rewrite Ha. by destruct v.
Qed.

(** A step that changes only what the client cannot see. *)
Lemma gives_modify {A} (f : svc_state S → svc_state S) (k : unit → M (svc_state S) A) v o :
  quiet v (f v) → gives (k ()) (f v) o → gives (modify f ≫= k) v o.
Proof. intros Hq (v' & Hq' & Hk). exists v'. split; [by eapply quiet_trans|done]. Qed.

Lemma gives_get {A} (k : svc_state S → M (svc_state S) A) v o : gives (k v) v o → gives (get ≫= k) v o.
Proof. done. Qed.

(** A sequence whose answer is only known up to [Q]. *)
Lemma gives_bind_ex {A B} (m : M (svc_state S) A) (k : A → M (svc_state S) B) v a (Q : B → Prop) :
  gives m v (inr a) → (∀ v', quiet v v' → ∃ b, Q b ∧ gives (k a) v' (inr b)) →
  ∃ b, Q b ∧ gives (m ≫= k) v (inr b).
Proof.
  intros (v' & Hq & Hm) Hk. destruct (Hk v' Hq) as (b & Hb & v'' & Hq' & Hrun). exists b. split; [done|].
  exists v''. split; [by eapply quiet_trans|]. by erewrite bind_ok.
Qed.

Lemma quiet_string b v : svc_inv v → buf_ok b → quiet v (set_svc_string b v).
Proof. intros [? ? ? ?] Hb. split; [by constructor|done]. Qed.

Lemma quiet_children b v : svc_inv v → buf_ok b → quiet v (set_svc_children b v).
Proof. intros [? ? ? ?] Hb. split; [by constructor|done]. Qed.

(** [maybe_adjust_ptr] makes room for a value that did not fit. *)
Lemma maybe_adjust_run v n maxlen len :
  svc_inv v → gives (vt_get_length n) (svc_reg v) (inr len) → 0 <= maxlen <= len → len + 2 < 2 ^ 64 →
  gives (maybe_adjust_ptr n maxlen) v (inr (len + 2)).
Proof.
  intros Hv Hlen Hm Hl. unfold maybe_adjust_ptr.
  giveq v1 Hq1; [apply gives_catch, gives_svc_through; done|].
  giveq v2 Hq2; [apply gives_ret, Hq1|]. rewrite (proj2 (Z.leb_le _ _)) by lia.
  apply gives_svc_alloc; [apply Hq2|]. rewrite wrap_small by lia. apply gives_ret, Hq2.
Qed.

Lemma read_growing_string v n d :
  svc_inv v → valid n → no_nul d → vt_view (svc_reg v) n = Some (VArray NR_REG_TYPE_STRING (cbytes d)) →
  ∃ bs, c_string_in bs = Some d ∧ gives (read_growing svc_string set_svc_string NR_reg_get_string n) v (inr bs).
Proof.
  intros Hv Hn Hd Hx. set (maxlen := sb_maxlen (svc_string v)).
  assert (Hm : 0 < maxlen < 2 ^ 40) by apply Hv.
  assert (Hlaw : ∀ v' size, quiet v v' → _) by
    exact (λ v' size Hq, law_string (svc_reg v') n d size (si_reg _ (proj1 Hq)) Hn Hd
             (eq_trans (proj2 Hq n) Hx)).
  unfold read_growing. apply (gives_bind_ex get _ v v); [by apply gives_ok|]. intros v0 Hq0.
  eapply (gives_bind_ex _ _ v0 ()).
  { destruct (sb_allocated _); [apply gives_ret, Hq0|]. apply gives_svc_alloc; [apply Hq0|].
    exists (set_svc_string (SvcBuf true maxlen) v0). split; [|done]. by apply quiet_string; [apply Hq0|]. }
  intros v1 Hq1%(quiet_trans _ _ _ Hq0). fold maxlen.
  destruct (Hlaw v1 maxlen Hq1) as (Hb & _ & Hget). destruct (maxlen <? Z.of_nat (length d) + 1) eqn:Hsz.
  - apply Z.ltb_lt in Hsz.
    eapply gives_bind_ex; [apply gives_catch, gives_svc_through; [apply Hq1|exact Hget]|].
    intros v2 Hq2%(quiet_trans _ _ _ Hq1). cbn.
    eapply gives_bind_ex; [apply maybe_adjust_run; [apply Hq2|by apply (Hlaw v2 0)|lia..]|].
    intros v3 Hq3%(quiet_trans _ _ _ Hq2). set (b := SvcBuf true (Z.of_nat (length d) + 2)).
    assert (Hq4 : quiet v3 (set_svc_string b v3)) by (apply quiet_string; [apply Hq3|unfold buf_ok; cbn; lia]).
    apply (gives_bind_ex _ _ v3 ()); [by exists (set_svc_string b v3)|]. intros v4 Hq5%(quiet_trans _ _ _ Hq3).
    destruct (Hlaw v4 (Z.of_nat (length d) + 2) Hq5) as (_ & _ & Hget').
    rewrite (proj2 (Z.ltb_ge _ _)) in Hget' by lia. destruct Hget' as (bs & Hbs & Hget'). exists bs.
    split; [done|]. by apply gives_svc_through; [apply Hq5|].
  - destruct Hget as (bs & Hbs & Hget).
    eapply gives_bind_ex; [apply gives_catch, gives_svc_through; [apply Hq1|exact Hget]|].
    intros v2 Hq2. exists bs. split; [done|]. apply gives_ret, Hq2.
Qed.

Lemma get_string_svc v n d :
  svc_inv v → valid n → no_nul d → vt_view (svc_reg v) n = Some (VArray NR_REG_TYPE_STRING (cbytes d)) →
  gives (nr_reg_get_string_1_svc n) v (inr d).
Proof.
  intros Hv Hn Hd Hx. destruct (read_growing_string v n d Hv Hn Hd Hx) as (bs & Hbs & Hread).
  unfold nr_reg_get_string_1_svc. giveq v1 Hq1; [exact Hread|]. rewrite Hbs. apply gives_ret, Hq1.
Qed.

(** As many doublings as it takes give room for [N] children, and the loop ends. *)
Lemma children_svc_run (N : nat) p fuel v :
  Z.of_nat N < 2 ^ 33 → svc_inv v → valid p → (∀ cs, only_children (vt_view (svc_reg v)) p cs → length cs = N) →
  (0 < fuel)%nat → Z.of_nat N * 2 < sb_maxlen (svc_children v) * 2 ^ Z.of_nat fuel →
  ∃ cs, (only_children (vt_view (svc_reg v)) p cs ∧ Sorted casele cs) ∧ gives (children_svc fuel p) v (inr cs).
Proof.
  intros HN Hv Hp. revert v Hv. induction fuel as [|fuel IH]; intros v Hv Hlen Hpos Hroom; [lia|].
  set (m := sb_maxlen (svc_children v)) in *. assert (Hm : 0 < m < 2 ^ 40) by apply Hv.
  cbn [children_svc]. apply (gives_bind_ex get _ v v); [by apply gives_ok|]. intros v0 Hq0. fold m.
  eapply (gives_bind_ex _ _ v0 ()).
  { destruct (sb_allocated _); [apply gives_ret, Hq0|]. do 2 (apply gives_svc_alloc; [apply Hq0|]).
    exists (set_svc_children (SvcBuf true m) v0). split; [|done]. by apply quiet_children; [apply Hq0|]. }
  intros v1 Hq1%(quiet_trans _ _ _ Hq0).
  destruct (server_children (svc_reg v1) p (Z.to_nat m)) as (cs & Hcs & Hsort & Hget); [apply Hq1|done|lia|].
  apply (only_children_ext (vt_view (svc_reg v))) in Hcs; [|apply Hq1]. rewrite (Hlen cs Hcs) in Hget.
  eapply gives_bind_ex; [apply gives_catch, gives_svc_through; [apply Hq1|exact Hget]|].
  intros v2 Hq2%(quiet_trans _ _ _ Hq1).
  destruct (Nat.ltb_spec N (Z.to_nat m)) as [Hlt|Hge]; [exists cs; split; [done|]; apply gives_ret, Hq2|].
  rewrite (proj2 (nr_reg_is_valid_spec p) Hp). cbn [negb orb]. rewrite Z.eqb_refl. cbn [negb orb].
  rewrite wrap_small by lia. set (v3 := set_svc_children (SvcBuf false (m * 2)) v2).
  assert (Hq3 : quiet v2 v3) by (apply quiet_children; [apply Hq2|unfold buf_ok; cbn; lia]).
  rewrite Nat2Z.inj_succ, Z.pow_succ_r in Hroom by lia.
  assert (Hext : ∀ cs', only_children (vt_view (svc_reg v3)) p cs' → only_children (vt_view (svc_reg v)) p cs')
    by (intros cs'; apply only_children_ext, Hq2).
  destruct (IH v3) as (cs' & [Hcs' Hsort'] & Hrun); [apply Hq3|by intros cs' ?%Hext; apply Hlen|..].
  - destruct fuel; [cbn in Hroom|]; lia.
  - cbn [sb_maxlen svc_children v3 set_svc_children]. lia.
  - exists cs'. split; [by split; [apply Hext|]|]. apply gives_modify; [exact Hq3|exact Hrun].
Qed.

(** [nr_reg_get_children_1_svc], for every number of children a client can have room for. *)
Lemma get_children_svc (N : nat) p v :
  Z.of_nat N < 2 ^ 33 → svc_inv v → valid p → (∀ cs, only_children (vt_view (svc_reg v)) p cs → length cs = N) →
  ∃ cs, (only_children (vt_view (svc_reg v)) p cs ∧ Sorted casele cs) ∧ gives (nr_reg_get_children_1_svc p) v (inr cs).
Proof.
  intros HN Hv Hp Hlen. apply (children_svc_run N); [done..|lia|].
  pose proof (si_children _ Hv) as [? _]. change (2 ^ Z.of_nat 64) with (2 ^ 64). nia.
Qed.
End server.

Section client.
Context {S : Type} `{AllocLaws S} `{RegVtbl S} `{!RegAbs S} `{!RegLaws S} `{!ServerLaws S}.
Implicit Types (s : remote_state S) (v : svc_state S) (n p : cstring).

(** Connected, with every call of the future delivered. *)
Record remote_inv s : Prop := {
  ri_server : svc_inv (server s);
  ri_clnt : clnt s = true;
  ri_vtbl : remote_vtbl s = true;
  ri_net : net s = [];
  ri_mem : canswers s = [];
}.

#[export] Instance remote_abs : RegAbs (remote_state S) := { vt_inv := remote_inv; vt_view s := vt_view (svc_reg (server s)) }.

Lemma remote_set_server v s : remote_inv s → svc_inv v → remote_inv (set_server v s).
Proof. intros [_ ? ? ? ?] ?. by constructor. Qed.

(** A call that is delivered is the procedure. *)
Lemma delivered {A} tries (svc : M (svc_state S) A) s :
  remote_inv s →
  client_call tries svc s =
    match svc (server s) with
    | Ok a v => Ok a (set_server v s)
    | Err r v => Err (abort_code r) (set_server v s)
    | UB => UB
    end.
Proof.
  intros [_ Hc _ Hnet _]. destruct s as [v c b l nt cs]. cbn in *. subst.
  destruct tries; unfold client_call, nr_reg_get_client, mbind, M_bind, rpc, next_delivery; cbn; by destruct (svc v).
Qed.

Lemma gives_call {A} tries (svc : M (svc_state S) A) s o :
  remote_inv s → (∀ r, o = inl r → r ≠ 0) → gives svc (server s) o → gives (client_call tries svc) s o.
Proof.
  intros Hs Hr (v & [Hv Hview] & Hrun). exists (set_server v s). split; [by split; [apply remote_set_server|]|].
  rewrite delivered, Hrun by done. destruct o as [r|a]; [|done]. by rewrite abort_code_id by by apply Hr.
Qed.

(** The same through the interface on the server. *)
Lemma gives_call_reg {A} tries (m : M S A) s o :
  remote_inv s → (∀ r, o = inl r → r ≠ 0) → gives m (svc_reg (server s)) o →
  gives (client_call tries (on_reg (through m))) s o.
Proof. intros Hs Hr Hm. apply gives_call; [done..|]. by apply gives_svc_through; [apply Hs|]. Qed.

Lemma call_reg_ok {A} tries (m : M S A) s a r :
  remote_inv s → m (svc_reg (server s)) = Ok a r → vt_inv r →
  client_call tries (on_reg (through m)) s = Ok a (set_server (set_svc_reg r (server s)) s) ∧
  remote_inv (set_server (set_svc_reg r (server s)) s).
Proof.
  intros Hs Hm Hr. rewrite delivered by done. unfold on_reg. rewrite through_run by apply Hs. rewrite Hm.
  split; [done|]. apply remote_set_server; [done|]. by destruct (ri_server _ Hs).
Qed.

Lemma c_string_in_padded d k : no_nul d → c_string_in ((uchar <$> d) ++ replicate (Datatypes.S k) 0) = Some d.
Proof.
  induction 1 as [|c d Hc _ IH]; [done|]. cbn [fmap list_fmap app c_string_in].
  destruct (uchar c) as [|z|z] eqn:Hz; [done| |]; rewrite IH; cbn; by rewrite <- Hz, char_of_uchar.
Qed.

Lemma remote_get s n ty :
  remote_inv s → is_scalar ty = true → valid n →
  gives (nr_reg_get_1_clnt n ty) s
    match vt_view s n with
    | None => inl R_NOT_FOUND
    | Some (VScalar ty' w) => if decide (ty' = ty) then inr w else inl R_FAILED
    | Some (VArray _ _) => inl R_FAILED
    end.
Proof.
  intros Hs Hty Hn. apply gives_call_reg; [done| |exact (law_get _ n ty (si_reg _ (ri_server _ Hs)) Hty Hn)].
  intros r. destruct (vt_view s n) as [[]|]; [case_decide|..]; by intros [= <-].
Qed.

Lemma remote_string s n d size :
  remote_inv s → valid n → no_nul d → vt_view s n = Some (VArray NR_REG_TYPE_STRING (cbytes d)) →
  Z.of_nat (length d) + 1 < 2 ^ 32 ∧
  gives (nr_reg_get_length_1_clnt n) s (inr (Z.of_nat (length d))) ∧
  if size <? Z.of_nat (length d) + 1 then gives (nr_reg_get_string_1_clnt n size) s (inl R_BAD_ARGS)
  else ∃ bs, c_string_in bs = Some d ∧ gives (nr_reg_get_string_1_clnt n size) s (inr bs).
Proof.
  intros Hs Hn Hd Hx. pose proof (ri_server _ Hs) as Hv.
  destruct (law_string (svc_reg (server s)) n d size (si_reg _ Hv) Hn Hd Hx) as (Hb & Hlen & _).
  split; [done|]. split.
  - apply gives_call; [done..|]. unfold nr_reg_get_length_1_svc. giveq v Hq; [by apply gives_svc_through|].
    rewrite wrap_small by lia. apply gives_ret, Hq.
  - assert (Hcall : gives (client_call TRIES (nr_reg_get_string_1_svc n)) s (inr d))
      by (apply gives_call; [done..|by apply get_string_svc]).
    unfold nr_reg_get_string_1_clnt, strlen. destruct (Z.ltb_spec size (Z.of_nat (length d) + 1)).
    + giveq s1 Hq1; [exact Hcall|]. rewrite (proj2 (Z.leb_le _ _)) by lia. apply gives_abort; [apply Hq1|done].
    + destruct (Z.to_nat (size - Z.of_nat (length d))) as [|k] eqn:Hk; [lia|].
      exists ((uchar <$> d) ++ replicate (Datatypes.S k) 0). split; [by apply c_string_in_padded|].
      giveq s1 Hq1; [exact Hcall|]. rewrite (proj2 (Z.leb_gt _ _)), Hk by lia. apply gives_ret, Hq1.
Qed.

Lemma remote_no_length s n :
  remote_inv s → valid n → vt_view s n = None → gives (nr_reg_get_length_1_clnt n) s (inl R_NOT_FOUND).
Proof.
  intros Hs Hn Hx. apply gives_call; [done|by intros r [= <-]|]. unfold nr_reg_get_length_1_svc.
  apply gives_bind_err, gives_svc_through; [apply Hs|]. by apply law_no_length; [apply Hs|..].
Qed.

Lemma remote_count s p :
  remote_inv s → valid p → p ≠ [] →
  match vt_view s p with
  | Some (VScalar NR_REG_TYPE_REGISTRY _) => ∃ cs, only_children (vt_view s) p cs ∧
      gives (nr_reg_get_child_count_1_clnt p) s (inr (wrap 32 (Z.of_nat (length cs))))
  | Some _ => gives (nr_reg_get_child_count_1_clnt p) s (inl R_FAILED)
  | None => gives (nr_reg_get_child_count_1_clnt p) s (inl R_NOT_FOUND)
  end.
Proof.
  intros Hs Hp Hne. pose proof (law_count (svc_reg (server s)) p (si_reg _ (ri_server _ Hs)) Hp Hne) as Hlaw.
  assert (Herr : ∀ r, r ≠ 0 → gives (vt_get_child_count p) (svc_reg (server s)) (inl r) →
    gives (nr_reg_get_child_count_1_clnt p) s (inl r)).
  { intros r Hr Hg. apply gives_call; [done|by intros r' [= <-]|].
    destruct (gives_svc_through _ _ _ (ri_server _ Hs) Hg) as (v & Hq & Hrun). exists v. split; [done|].
    revert Hrun. unfold nr_reg_get_child_count_1_svc, NR_reg_get_child_count, on_reg.
    destruct (through (vt_get_child_count p) _) eqn:Ht; [done| |done]. by rewrite (bind_err _ _ _ _ _ Ht). }
  cbn [vt_view remote_abs]. destruct (vt_view (svc_reg (server s)) p) as [[[] ?|]|].
  12: { destruct Hlaw as (cs & Hcs & Hg). exists cs. split; [done|].
    apply gives_call; [done..|]. apply gives_on_reg; [apply Hs|]. unfold NR_reg_get_child_count.
    giveq r Hq; [by apply gives_through; [apply Hs|]|]. rewrite wrap_wrap. apply gives_ret, Hq. }
  all: by apply Herr.
Qed.

(** The client hands on the children the server found, when its caller has room for them. *)
Lemma remote_children_run s p cs size :
  remote_inv s → only_children (vt_view s) p cs → gives (nr_reg_get_children_1_svc p) (server s) (inr cs) →
  (length cs <= size)%nat → gives (nr_reg_get_children_1_clnt p size) s (inr cs).
Proof.
  intros Hs Hcs Hrun Hle. unfold nr_reg_get_children_1_clnt.
  giveq s1 Hq1; [by apply gives_call|]. rewrite (proj2 (Nat.ltb_ge _ _)) by done.
  assert (Htake : take (NR_REG_MAX_NR_REGISTRY_LEN - 1) <$> cs = cs); [|rewrite Htake; apply gives_ret, Hq1].
  rewrite <- (list_fmap_id cs) at 2. apply Forall_fmap_ext. apply Forall_forall. intros n Hn.
  destruct (proj1 (proj2 Hcs n) Hn) as ([x Hx] & _).
  destruct (law_valid (svc_reg (server s)) n x (si_reg _ (ri_server _ Hs)) Hx) as [Hl _].
  apply take_ge. cbn; unfold id, NR_REG_MAX_NR_REGISTRY_LEN. lia.
Qed.

Lemma remote_children s p size :
  remote_inv s → valid p → (0 < size)%nat → Z.of_nat size <= 2 ^ 33 →
  ∃ cs, only_children (vt_view s) p cs ∧ Sorted casele cs ∧
    ((length cs < size)%nat → gives (nr_reg_get_children_1_clnt p size) s (inr cs)).
Proof.
  intros Hs Hp Hsize Hmax. pose proof (ri_server _ Hs) as Hv.
  destruct (server_children (svc_reg (server s)) p size (si_reg _ Hv) Hp Hsize) as (cs0 & Hcs0 & Hsort0 & _).
  destruct (decide (length cs0 < size)%nat) as [Hlt|Hge]; [|by exists cs0].
  assert (Hlen : ∀ cs, only_children (vt_view (svc_reg (server s))) p cs → length cs = length cs0)
    by (intros cs Hcs; by apply Permutation_length, (only_children_perm (vt_view (svc_reg (server s))) p)).
  destruct (get_children_svc (length cs0) p (server s)) as (cs & [Hcs Hsort] & Hrun); [lia|done..|].
  exists cs. split_and!; [done..|]. intros _. apply remote_children_run; [done..|]. by rewrite (Hlen cs Hcs); lia.
Qed.

#[export] Instance remote_laws : RegLaws (remote_state S).
Proof.
  split.
  - intros s Hs. by split; apply Hs.
  - intros s n x Hs. exact (law_valid _ n x (si_reg _ (ri_server _ Hs))).
  - exact remote_get.
  - exact remote_string.
  - exact remote_no_length.
  - exact remote_count.
  - exact remote_children.
  - intros s n ty data Hs Hn Hty Hx Hc.
    destruct (law_set _ n ty data (si_reg _ (ri_server _ Hs)) Hn Hty Hx Hc) as (r & Hrun & Hr & Hview).
    destruct (call_reg_ok TRIES _ s _ r Hs Hrun Hr) as [Hcall Hinv]. by eexists.
  - intros s n d Hs Hn Hd Hw Hlen.
    destruct (law_set_string _ n d (si_reg _ (ri_server _ Hs)) Hn Hd Hw Hlen) as (r & Hrun & Hr & Hview).
    destruct (call_reg_ok TRIES _ s _ r Hs Hrun Hr) as [Hcall Hinv]. by eexists.
  - intros s n Hs Hn Hne.
    destruct (law_del _ n (si_reg _ (ri_server _ Hs)) Hn Hne) as (r & Hrun & Hr & Hview).
    destruct (call_reg_ok TRIES _ s _ r Hs Hrun Hr) as [Hcall Hinv]. by eexists.
Qed.
End client.
