(* ===== verification/RegRetry.v ===== *)
(** * Lost calls

    What the retries of regrpc_client.c do to a local store behind the connection: a client
    that loses a call connects and sends it again, so that a call is carried out at least
    once, and more often when results are lost. *)

From Stdlib Require Import Ascii.
From stdpp Require Import sorting.
From S2P Require Import Prelude CString RegNames RegState RegCb RegLocal RegInv RegSpec RegTree RegDemo RegFacade RegLabels RegFacadeSpec RegModule RegRemote RegRemoteSpec.
Local Open Scope Z_scope.

#[export] Instance local_server_laws : ServerLaws reg_state.
Proof. split. exact local_server_children. Qed.

(** ** Tries *)

Section tries.
Context {S : Type} `{AllocLaws S} `{RegVtbl S} {A : Type}.
Implicit Types (s : remote_state S) (v : svc_state S) (svc : M (svc_state S) A) (ds : list delivery).

Definition lost (d : delivery) : Prop := d ≠ Delivered.

(** The server after tries none of which returned. *)
Fixpoint attempts svc ds v : option (svc_state S) :=
  match ds with
  | [] => Some v
  | ReplyLost :: ds' =>
      match svc v with
      | Ok _ v' => attempts svc ds' v'
      | Err _ v' => attempts svc ds' v'
      | UB => None
      end
  | _ :: ds' => attempts svc ds' v
  end.

(** Connected, with [ds] the fate of the calls to come and every connection succeeding. *)
Definition online s v ds : Prop := s = RemoteState v true true [] ds [].

Lemma client_call_lost tries svc d ds v :
  lost d →
  client_call tries svc (RemoteState v true true [] (d :: ds) []) =
    match attempts svc [d] v with
    | None => UB
    | Some v' =>
        let s' := RemoteState v' true true [] ds [] in
        match tries with O => Err R_IO_ERROR s' | Datatypes.S k => client_call k svc s' end
    end.
Proof.
  intros Hd. assert (Hrpc : rpc svc (RemoteState v true true [] (d :: ds) []) =
    match attempts svc [d] v with None => UB | Some v' => Ok None (RemoteState v' true true [] ds []) end).
  { unfold rpc, next_delivery. cbn. destruct d; [done| |done]. by destruct (svc v). }
  assert (Hk : ∀ k s, client_call (Datatypes.S k) svc s =
    (nr_reg_get_client;; result ← rpc svc;
     match result with
     | Some (inr a) => mret a
     | Some (inl r) => abort r
     | None => nr_reg_reset_client;; ignore nr_reg_init_clnt;; client_call k svc
     end) s) by done.
  revert Hrpc. generalize (attempts svc [d] v). intros o Hrpc. destruct tries as [|k].
  - unfold client_call, nr_reg_get_client, mbind, M_bind. cbn. rewrite Hrpc. by destruct o.
  - rewrite Hk. generalize (client_call k svc). intros m.
    unfold nr_reg_init_clnt, nr_reg_get_client, mbind, M_bind. cbn. rewrite Hrpc. by destruct o.
Qed.

Lemma attempts_cons svc d ds v : attempts svc (d :: ds) v = attempts svc [d] v ≫= attempts svc ds.
Proof. destruct d; cbn; [done| |done]. by destruct (svc v). Qed.

(** Five losses at most: the call is carried out after them. *)
Lemma tries_left tries svc ds v :
  Forall lost ds → (length ds <= tries)%nat →
  client_call tries svc (RemoteState v true true [] ds []) =
    match attempts svc ds v with
    | None => UB
    | Some v' => client_call (tries - length ds) svc (RemoteState v' true true [] [] [])
    end.
Proof.
  intros Hlost. revert tries v. induction Hlost as [|d ds Hd _ IH]; intros tries v Hlen.
  { cbn. by rewrite Nat.sub_0_r. }
  cbn in Hlen. rewrite client_call_lost, (attempts_cons svc d ds) by done.
  destruct (attempts svc [d] v) as [v'|]; [|done]. cbn. destruct tries as [|k]; [lia|].
  rewrite IH by lia. done.
Qed.

(** More losses than that: the client gives up. *)
Lemma tries_out tries svc ds d v :
  Forall lost ds → lost d → length ds = tries →
  client_call tries svc (RemoteState v true true [] (ds ++ [d]) []) =
    match attempts svc (ds ++ [d]) v with
    | None => UB
    | Some v' => Err R_IO_ERROR (RemoteState v' true true [] [] [])
    end.
Proof.
  intros Hlost Hd. revert tries v. induction Hlost as [|d' ds Hd' _ IH]; intros tries v Hlen; cbn in Hlen; subst.
  - cbn [app length]. by rewrite client_call_lost.
  - cbn [app]. rewrite client_call_lost, (attempts_cons svc d' (ds ++ [d])) by done.
    destruct (attempts svc [d'] v) as [v'|]; [|done]. cbn. by rewrite IH.
Qed.
End tries.

#[export] Instance delivery_eq_dec : EqDecision delivery.
Proof. solve_decision. Defined.

(** The number of tries that were carried out. *)
Definition carried_out (ds : list delivery) : nat := length (filter (λ d, d = ReplyLost) ds).

(** ** Writes that are sent again *)

(** The same names and values, the same registered callbacks, the same calls made. *)
Record same_store (r r' : reg_state) : Prop := {
  ss_good : good r';
  ss_view m : reg_view r' m = reg_view r m;
  ss_cbs m : registered r' m = registered r m;
  ss_calls : calls r' = calls r;
}.

Section writes.
Implicit Types (v : svc_state reg_state) (r : reg_state) (n : cstring) (ds : list delivery).

(** A client whose next calls fare as [ds] says, and whose connections succeed. *)
Definition faring v ds : remote_state reg_state := RemoteState v true true [] ds [].

(** A procedure that keeps succeeding once it has. *)
Lemma attempts_closed (svc : M (svc_state reg_state) unit) (P : svc_state reg_state → Prop) ds v :
  (∀ v0, P v0 → ∃ v', svc v0 = Ok () v' ∧ P v') → P v → ∃ v', attempts svc ds v = Some v' ∧ P v'.
Proof.
  intros HP. revert v. induction ds as [|d ds IH]; intros v Hv; [by exists v|].
  destruct d; cbn; [by apply IH| |by apply IH]. destruct (HP v Hv) as (v' & -> & Hv'). by apply IH.
Qed.

Lemma attempts_first (svc : M (svc_state reg_state) unit) (P : svc_state reg_state → Prop) ds v v1 :
  (∀ v0, P v0 → ∃ v', svc v0 = Ok () v' ∧ P v') → svc v = Ok () v1 → P v1 →
  ∃ v', attempts svc ds v = Some v' ∧ if decide (ReplyLost ∈ ds) then P v' else v' = v.
Proof.
  intros HP Hrun Hv1. induction ds as [|d ds (v' & IH & Hif)].
  { exists v. rewrite decide_False by by apply not_elem_of_nil. done. }
  destruct (decide (d = ReplyLost)) as [->|Hd].
  - cbn. rewrite Hrun. destruct (attempts_closed svc P ds v1 HP Hv1) as (v2 & -> & Hv2).
    exists v2. by rewrite decide_True by by left.
  - exists v'. split; [by destruct d|].
    destruct (decide (ReplyLost ∈ ds)); [by rewrite decide_True by by right|].
    by rewrite decide_False by by intros [<-|?]%elem_of_cons.
Qed.

Lemma same_store_refl r : good r → same_store r r.
Proof. by split. Qed.

(** Setting the value a name has already. *)
Lemma set_again r r1 n ty data w :
  valid n → is_scalar ty = true → reg_view r1 n = Some (VScalar ty w) → scalar_ne ty w data = false →
  same_store r1 r → ∃ r', nr_reg_local_set_scalar n ty data r = Ok () r' ∧ same_store r1 r'.
Proof.
  intros Hn Hty Hx Hw [Hg Hview Hcbs Hcalls]. pose proof (set_scalar_run r n ty data Hg Hn Hty) as Hset.
  rewrite Hview, Hx, decide_True in Hset by done. destruct Hset as (r' & Hrun & [Hg' Hcbs' Hview' Hcalls']).
  unfold stored in Hview'. rewrite Hw in Hview', Hcalls'. exists r'. split; [done|]. split; [done| |..].
  - intros m. rewrite Hview'. unfold upd. case_decide; [by subst|]. apply Hview.
  - intros m. by rewrite Hcbs', Hcbs.
  - by rewrite Hcalls', app_nil_r.
Qed.

(** A set succeeds, and once it has, setting the same again changes nothing. *)
Lemma set_once r n ty data :
  good r → valid n → is_scalar ty = true → scalar_ne ty data data = false → writable (reg_view r) n ty →
  ∃ r1, nr_reg_local_set_scalar n ty data r = Ok () r1 ∧ same_store r1 r1 ∧
    ∀ r2, same_store r1 r2 → ∃ r', nr_reg_local_set_scalar n ty data r2 = Ok () r' ∧ same_store r1 r'.
Proof.
  intros Hg Hn Hty Hdata Hw. pose proof (set_scalar_run r n ty data Hg Hn Hty) as Hset.
  assert (Hstored : ∀ old, scalar_ne ty (stored ty old data) data = false).
  { intros old. unfold stored. by destruct (scalar_ne ty old data) eqn:?. }
  assert (Hex : ∃ r1 w (vw : view) evs, nr_reg_local_set_scalar n ty data r = Ok () r1 ∧ evolves r r1 vw evs ∧
    vw n = Some (VScalar ty w) ∧ scalar_ne ty w data = false).
  { unfold writable in Hw. destruct (reg_view r n) as [[ty' old|ty' bs]|] eqn:Hx; cbn in Hw; subst.
    - rewrite decide_True in Hset by done. destruct Hset as (r1 & Hrun & Hev). do 4 eexists.
      split_and!; [done|done|unfold upd; by rewrite decide_True|done].
    - exfalso. apply view_node in Hx as (l & nd & Hat & Hval).
      destruct (node_at_objs r n l nd Hg Hat) as (_ & Hnd & _). destruct nd as [|ty' len buf]; [done|].
      injection Hval as -> _. by destruct Hnd as [Harr _], ty.
    - destruct (Hset Hw) as (r1 & Hrun & Hev). do 4 eexists.
      split_and!; [done|done|unfold upd; by rewrite decide_True|done]. }
  destruct Hex as (r1 & w & vw & evs & Hrun & [Hg1 _ Hv _] & Hx & Hne). rewrite <- Hv in Hx. exists r1.
  split_and!; [done|by apply same_store_refl|]. intros r2. by eapply set_again.
Qed.

Lemma set_svc_run v n ty data r1 :
  good (svc_reg v) → nr_reg_local_set_scalar n ty data (svc_reg v) = Ok () r1 →
  nr_reg_set_1_svc ty n data v = Ok () (set_svc_reg r1 v).
Proof.
  intros Hg Hrun. unfold nr_reg_set_1_svc, on_reg, NR_reg_set. rewrite through_run by done.
  cbn [vt_set nr_reg_local_vtbl]. by rewrite Hrun.
Qed.

(** The server after tries to set a name that were lost. *)
Lemma set_attempts v n ty data ds :
  good (svc_reg v) → valid n → is_scalar ty = true → scalar_ne ty data data = false →
  writable (reg_view (svc_reg v)) n ty →
  ∃ r1, nr_reg_local_set_scalar n ty data (svc_reg v) = Ok () r1 ∧ same_store r1 r1 ∧
    (∀ v0, same_store r1 (svc_reg v0) → ∃ v', nr_reg_set_1_svc ty n data v0 = Ok () v' ∧ same_store r1 (svc_reg v')) ∧
    ∃ v', attempts (nr_reg_set_1_svc ty n data) ds v = Some v' ∧
      if decide (ReplyLost ∈ ds) then same_store r1 (svc_reg v') else v' = v.
Proof.
  intros Hg Hn Hty Hdata Hw. destruct (set_once _ n ty data Hg Hn Hty Hdata Hw) as (r1 & Hrun & Hs1 & Hagain).
  assert (Hcl : ∀ v0, same_store r1 (svc_reg v0) →
    ∃ v', nr_reg_set_1_svc ty n data v0 = Ok () v' ∧ same_store r1 (svc_reg v')).
  { intros v0 Hv0. destruct (Hagain _ Hv0) as (r' & Hr' & Hs'). exists (set_svc_reg r' v0).
    split; [|done]. apply set_svc_run; [apply Hv0|done]. }
  exists r1. split_and!; [done..|].
  eapply (attempts_first _ (λ v0, same_store r1 (svc_reg v0))); [done|by apply set_svc_run|done].
Qed.

Lemma faring_call {A} (m : M (remote_state reg_state) A) v ds : through m (faring v ds) = m (faring v ds).
Proof. done. Qed.

(** A server's procedure called when nothing is lost. *)
Lemma online_call {A} tries (svc : M (svc_state reg_state) A) v a v' :
  svc v = Ok a v' → client_call tries svc (faring v []) = Ok a (faring v' []).
Proof.
  intros Hrun. unfold faring. destruct tries; unfold client_call, nr_reg_get_client, mbind, M_bind, rpc, next_delivery;
    cbn; by rewrite Hrun.
Qed.

(** C20: Up to five losses: a set that the client repeats succeeds, and leaves the names, values
    and callbacks, and has made the calls, of setting the name once in the server's store. *)
Theorem remote_set_once v n ty data ds :
  good (svc_reg v) → valid n → is_scalar ty = true → scalar_ne ty data data = false →
  writable (reg_view (svc_reg v)) n ty → Forall lost ds → (length ds <= TRIES)%nat →
  ∃ r1 v', nr_reg_local_set_scalar n ty data (svc_reg v) = Ok () r1 ∧
    NR_reg_set ty n data (faring v ds) = Ok () (faring v' []) ∧ same_store r1 (svc_reg v').
Proof.
  intros Hg Hn Hty Hdata Hw Hlost Hlen.
  destruct (set_attempts v n ty data ds Hg Hn Hty Hdata Hw) as (r1 & Hrun & Hs1 & Hcl & v1 & Hatt & Hv1).
  assert (Hlast : ∃ v', nr_reg_set_1_svc ty n data v1 = Ok () v' ∧ same_store r1 (svc_reg v')).
  { destruct (decide (ReplyLost ∈ ds)); [by apply Hcl|]. subst v1. exists (set_svc_reg r1 v).
    split; [by apply set_svc_run|done]. }
  destruct Hlast as (v' & Hlast & Hs'). exists r1, v'. split_and!; [done| |done].
  unfold NR_reg_set. rewrite faring_call. cbn [vt_set nr_regrpc_vtbl]. unfold nr_reg_set_1_clnt, faring.
  rewrite tries_left, Hatt by done. by apply online_call.
Qed.

(** A sixth loss: the client reports [R_IO_ERROR], and the name is set all the same if any of
    the six calls arrived. *)
Theorem remote_set_io_error v n ty data ds d :
  good (svc_reg v) → valid n → is_scalar ty = true → scalar_ne ty data data = false →
  writable (reg_view (svc_reg v)) n ty → Forall lost ds → lost d → length ds = TRIES →
  ∃ r1 v', nr_reg_local_set_scalar n ty data (svc_reg v) = Ok () r1 ∧
    NR_reg_set ty n data (faring v (ds ++ [d])) = Err R_IO_ERROR (faring v' []) ∧
    if decide (ReplyLost ∈ ds ++ [d]) then same_store r1 (svc_reg v') else v' = v.
Proof.
  intros Hg Hn Hty Hdata Hw Hlost Hd Hlen.
  destruct (set_attempts v n ty data (ds ++ [d]) Hg Hn Hty Hdata Hw) as (r1 & Hrun & _ & _ & v' & Hatt & Hv').
  exists r1, v'. split_and!; [done| |done].
  unfold NR_reg_set. rewrite faring_call. cbn [vt_set nr_regrpc_vtbl]. unfold nr_reg_set_1_clnt, faring.
  by rewrite tries_out, Hatt.
Qed.

Lemma del_svc_run v n :
  good (svc_reg v) → valid n → n ≠ [] →
  ∃ v', nr_reg_del_1_svc n v = Ok () v' ∧
    evolves (svc_reg v) (svc_reg v') (λ m, if iter_match n m then None else reg_view (svc_reg v) m)
      (event_calls (svc_reg v) NR_REG_CB_ACTION_DELETE n).
Proof.
  intros Hg Hn Hne. destruct (del_run (svc_reg v) n Hg Hn) as (r & Hrun & Hev). rewrite decide_False in Hev by done.
  exists (set_svc_reg r v). split; [|done].
  unfold nr_reg_del_1_svc, on_reg, NR_reg_del. rewrite through_run by done. cbn [vt_del nr_reg_local_vtbl].
  by rewrite Hrun.
Qed.

Lemma del_attempts v n ds :
  good (svc_reg v) → valid n → n ≠ [] →
  ∃ v', attempts (nr_reg_del_1_svc n) ds v = Some v' ∧
    evolves (svc_reg v) (svc_reg v')
      (λ m, if decide (ReplyLost ∈ ds) then if iter_match n m then None else reg_view (svc_reg v) m
            else reg_view (svc_reg v) m)
      (concat (replicate (carried_out ds) (event_calls (svc_reg v) NR_REG_CB_ACTION_DELETE n))).
Proof.
  intros Hg Hn Hne. revert v Hg. induction ds as [|d ds IH]; intros v Hg.
  { exists v. split; [done|]. by apply evolves_refl. }
  destruct (decide (d = ReplyLost)) as [->|Hd].
  - destruct (del_svc_run v n Hg Hn Hne) as (v1 & Hrun & Hev1).
    destruct (IH v1 (ev_good _ _ _ _ Hev1)) as (v' & Hatt & Hev'). exists v'. cbn [attempts]. rewrite Hrun.
    split; [done|]. unfold carried_out. rewrite filter_cons_True by done. cbn [length replicate concat].
    rewrite (event_calls_same _ _ _ _ (ev_cbs _ _ _ _ Hev1)) in Hev'.
    eapply evolves_ext; [by eapply evolves_trans|]. intros m. cbn. rewrite decide_True by by left.
    rewrite (ev_view _ _ _ _ Hev1). by destruct (decide (ReplyLost ∈ ds)), (iter_match n m).
  - destruct (IH v Hg) as (v' & Hatt & Hev'). exists v'. split; [by destruct d|].
    unfold carried_out. rewrite filter_cons_False by done. eapply evolves_ext; [done|]. intros m. cbn.
    destruct (decide (ReplyLost ∈ ds)); [by rewrite decide_True by by right|].
    by rewrite decide_False by by intros [<-|?]%elem_of_cons.
Qed.

(** A deletion that is repeated deletes what one deletion would, but the [DELETE] event is
    raised for every time the server carried it out. *)
Theorem remote_del_repeats v n ds :
  good (svc_reg v) → valid n → n ≠ [] → Forall lost ds → (length ds <= TRIES)%nat →
  ∃ v', NR_reg_del n (faring v ds) = Ok () (faring v' []) ∧
    evolves (svc_reg v) (svc_reg v') (λ m, if iter_match n m then None else reg_view (svc_reg v) m)
      (concat (replicate (carried_out ds + 1) (event_calls (svc_reg v) NR_REG_CB_ACTION_DELETE n))).
Proof.
  intros Hg Hn Hne Hlost Hlen. destruct (del_attempts v n ds Hg Hn Hne) as (v1 & Hatt & Hev1).
  destruct (del_svc_run v1 n (ev_good _ _ _ _ Hev1) Hn Hne) as (v' & Hrun & Hev'). exists v'. split.
  - unfold NR_reg_del. rewrite faring_call. cbn [vt_del nr_regrpc_vtbl]. unfold nr_reg_del_1_clnt, faring.
    rewrite tries_left, Hatt by done. by apply online_call.
  - rewrite (event_calls_same _ _ _ _ (ev_cbs _ _ _ _ Hev1)) in Hev'.
    rewrite replicate_add, concat_app. cbn [replicate concat]. rewrite app_nil_r.
    eapply evolves_ext; [by eapply evolves_trans|]. intros m. cbn. rewrite (ev_view _ _ _ _ Hev1).
    by destruct (decide (ReplyLost ∈ ds)), (iter_match n m).
Qed.
End writes.

(** ** What is read through a connection *)

Section reads.
Context {S : Type} `{AllocLaws S} `{RegVtbl S} `{!RegAbs S} `{!RegLaws S} `{!ServerLaws S}.
Implicit Types (s : remote_state S) (n p : cstring).

End reads.

(** ** Instances *)

#[local] Opaque demo_init demo_mtu demo_host.

Definition demo_server : svc_state reg_state := svc_start demo_mtu.

Lemma demo_connected_inv : remote_inv (connected demo_server).
Proof. split; [|done..]. split; [exact demo_mtu_good|by unfold buf_ok; cbn..]. Qed.

Lemma demo_mtu_writable : writable (reg_view demo_mtu) $"net.mtu" NR_REG_TYPE_INT4.
Proof. unfold writable. rewrite demo_mtu_view. reflexivity. Qed.

Lemma remote_set_once_witness :
  ∃ r1 v', nr_reg_local_set_scalar $"net.mtu" NR_REG_TYPE_INT4 9000 demo_mtu = Ok () r1 ∧
    NR_reg_set NR_REG_TYPE_INT4 $"net.mtu" 9000 (faring demo_server [CallLost; ReplyLost; ReplyLost]) = Ok () (faring v' []) ∧
    same_store r1 (svc_reg v').
Proof.
  apply (remote_set_once demo_server $"net.mtu" NR_REG_TYPE_INT4 9000 [CallLost; ReplyLost; ReplyLost] demo_mtu_good
    ltac:(valid_name) eq_refl eq_refl demo_mtu_writable); [by repeat constructor|vm_compute; lia].
Defined.

Lemma remote_set_io_error_witness :
  ∃ r1 v', nr_reg_local_set_scalar $"net.mtu" NR_REG_TYPE_INT4 9000 demo_mtu = Ok () r1 ∧
    NR_reg_set NR_REG_TYPE_INT4 $"net.mtu" 9000
      (faring demo_server ([ReplyLost; CallLost; CallLost; CallLost; CallLost] ++ [CallLost])) = Err R_IO_ERROR (faring v' []) ∧
    same_store r1 (svc_reg v').
Proof.
  apply (remote_set_io_error demo_server $"net.mtu" NR_REG_TYPE_INT4 9000
    [ReplyLost; CallLost; CallLost; CallLost; CallLost] CallLost demo_mtu_good
    ltac:(valid_name) eq_refl eq_refl demo_mtu_writable); [by repeat constructor|done|reflexivity].
Defined.

Lemma remote_del_repeats_witness :
  ∃ v', NR_reg_del $"net" (faring demo_server [ReplyLost; CallLost]) = Ok () (faring v' []) ∧
    evolves demo_mtu (svc_reg v') (λ m, if iter_match $"net" m then None else reg_view demo_mtu m)
      (concat (replicate 2 (event_calls demo_mtu NR_REG_CB_ACTION_DELETE $"net"))).
Proof.
  apply (remote_del_repeats demo_server $"net" [ReplyLost; CallLost] demo_mtu_good ltac:(valid_name));
    [discriminate|by repeat constructor|vm_compute; lia].
Defined.

