(* ===== verification/RegTypes.v ===== *)
(** * The types of names

    A name of the registry has one type from its creation to its deletion, and every module
    reports it: the law is a class of its own, with instances for the local store and for a
    store behind a connection. *)

From Stdlib Require Import Ascii.
From S2P Require Import Prelude CString RegNames RegState RegLocal RegInv RegSpec RegTree RegDemo RegFacade RegFacadeSpec RegModule RegRemote RegRemoteSpec.
Local Open Scope Z_scope.

(** The word for a type. *)
Definition type_word (ty : reg_type) : cstring := default [] (nr_reg_type_name (type_code ty)).

Lemma compute_type_word ty : nr_reg_compute_type (type_word ty) = inr (type_code ty).
Proof. by destruct ty. Qed.

(** What a module answers when it is asked for a type. *)
Definition type_answer (v : view) (n : cstring) : Z + cstring :=
  match v n with Some x => inr (type_word (value_type x)) | None => inl R_NOT_FOUND end.

Class TypeLaw (S : Type) `{RegVtbl S} `{RegAbs S} := {
  law_type s n : vt_inv s → valid n → gives (vt_get_type n) s (type_answer (vt_view s) n);
}.

(** ** The local store *)

Section local.
Implicit Types (s : reg_state) (n : cstring) (ty : reg_type).

Lemma get_type_run s n :
  good s → valid n →
  nr_reg_local_get_type n s =
    match type_answer (reg_view s) n with inr w => Ok w s | inl r => Err r s end.
Proof.
  intros Hg Hv. unfold nr_reg_local_get_type, type_answer. destruct (reg_view s n) as [x|] eqn:Hx.
  - apply view_node in Hx as (l & nd & Hat & <-). erewrite bind_ok by by eapply fetch_any_run.
    rewrite node_type_value. by destruct (node_type nd).
  - apply bind_err. unfold fetch_any. rewrite valid_true by done. cbn [negb]. apply bind_err.
    apply view_none in Hx. by rewrite assoc_fetch_node, Hx.
Qed.

#[export] Instance local_type : TypeLaw reg_state.
Proof.
  split. intros s n Hg Hv. exists s. split; [by apply quiet_refl|]. cbn. by rewrite get_type_run.
Qed.

(** An operation that does not delete the name leaves it there, with its type. *)
Definition spares (op : reg_op) n : Prop := ∀ m, op = Del m → m ≠ [] ∧ iter_match m n = false.

Lemma keeps_when_created v n x m y :
  v n = None → v m = Some y → upd (fill v (new_parents v n)) n (Some x) m = Some y.
Proof.
  intros Hn Hm. unfold upd. rewrite decide_False by congruence. apply fill_old; [done|].
  by intros p [_ Hp]%missing_sub.
Qed.

Lemma keeps_when_changed v n old x m y :
  v n = Some old → value_type old = value_type x → v m = Some y →
  ∃ y', upd v n (Some x) m = Some y' ∧ value_type y' = value_type y.
Proof.
  intros Hn Hty Hm. unfold upd. case_decide; [|by eauto]. subst m. exists x. split; [done|]. congruence.
Qed.

Lemma run_op_keeps s op s' n x :
  good s → legal (reg_view s) op → run_op op s = Ok () s' → reg_view s n = Some x → spares op n →
  ∃ x', reg_view s' n = Some x' ∧ value_type x' = value_type x.
Proof.
  intros Hg Hlegal Hrun Hx Hsp.
  assert (Harr : ∀ name ty data, valid name → is_array ty = true → Z.of_nat (length data) < 2 ^ 32 →
    (reg_view s name = None → creatable (reg_view s) (ancestors name)) →
    nr_reg_set_array RegLocal.NR_reg_set_registry name ty data s = Ok () s' →
    ∃ x', reg_view s' n = Some x' ∧ value_type x' = value_type x).
  { intros name ty data Hv Hty Hlen Hc Hr. pose proof (set_array_run s name ty data Hg Hv Hty Hlen) as Hspec.
    destruct (reg_view s name) as [[ty' w|ty' old]|] eqn:Hn; [congruence| |].
    - case_decide; [|congruence]. subst ty'. destruct Hspec as (s1 & Hr1 & Hev). rewrite Hr in Hr1. injection Hr1 as <-.
      rewrite (ev_view _ _ _ _ Hev). by eapply keeps_when_changed.
    - destruct Hspec as (s1 & Hr1 & Hev); [by apply Hc|]. rewrite Hr in Hr1. injection Hr1 as <-.
      exists x. rewrite (ev_view _ _ _ _ Hev). split; [by apply keeps_when_created|done]. }
  destruct op as [name ty data|name data|name data|name]; cbn [legal run_op] in *.
  - destruct Hlegal as (Hv & Hty & Hc). pose proof (set_scalar_run s name ty data Hg Hv Hty) as Hspec.
    destruct (reg_view s name) as [[ty' old|ty' bs]|] eqn:Hn; [|congruence|].
    + case_decide; [|congruence]. subst ty'. destruct Hspec as (s1 & Hr1 & Hev). rewrite Hrun in Hr1. injection Hr1 as <-.
      rewrite (ev_view _ _ _ _ Hev). by eapply keeps_when_changed.
    + destruct Hspec as (s1 & Hr1 & Hev); [by apply Hc|]. rewrite Hrun in Hr1. injection Hr1 as <-.
      exists x. rewrite (ev_view _ _ _ _ Hev). split; [by apply keeps_when_created|done].
  - destruct Hlegal as (? & ? & ?). by apply (Harr name NR_REG_TYPE_BYTES data).
  - destruct Hlegal as (? & ? & ?). apply (Harr name NR_REG_TYPE_STRING (cbytes data)); [done|done| |done|done]. rewrite length_cbytes. unfold strlen. lia.
  - destruct (Hsp name eq_refl) as [Hne Hm]. destruct (del_run s name Hg Hlegal) as (s1 & Hr1 & Hev).
    rewrite Hrun in Hr1. injection Hr1 as <-. rewrite decide_False in Hev by done.
    exists x. by rewrite (ev_view _ _ _ _ Hev), Hm.
Qed.

(** C28: A name keeps its type: whatever call of the store succeeds, other than the deletion of
    the name or of a registry above it, the name is still there with the type it had.  That
    type is what the store reports, a scalar of it can be read with this type and with no
    other, and an array cannot be read as a scalar at all. *)
Theorem names_keep_type s op s' n x :
  reachable s → legal (reg_view s) op → run_op op s = Ok () s' → reg_view s n = Some x → spares op n →
  nr_reg_local_get_type n s' = Ok (type_word (value_type x)) s' ∧
  ∀ ty, is_scalar ty = true →
    (∃ w, nr_reg_get n ty s' = Ok w s' ∧ ty = value_type x) ∨
    (nr_reg_get n ty s' = Err R_FAILED s' ∧ ty ≠ value_type x).
Proof.
  intros Hreach Hlegal Hrun Hx Hsp. destruct (reachable_inv s Hreach) as [Hg Htree].
  assert (Hg' : good s').
  { destruct (run_op_spec s op Hg Htree Hlegal) as [(s1 & Hr & ? & _)|Hr]; [|congruence].
    rewrite Hrun in Hr. by injection Hr as <-. }
  destruct (run_op_keeps s op s' n x Hg Hlegal Hrun Hx Hsp) as (x' & Hx' & Hty).
  pose proof (view_valid s' n x' Hg' Hx') as Hv. split.
  - rewrite get_type_run by done. unfold type_answer. by rewrite Hx', Hty.
  - intros ty Hsc. rewrite get_scalar_run, valid_true, Hx' by done. rewrite <- Hty.
    apply view_node in Hx' as (l & nd & Hat & <-). destruct (node_at_objs s' n l nd Hg' Hat) as (_ & Hnd & _).
    destruct nd as [ty' w|ty' len buf]; cbn in Hnd |- *.
    + case_decide as Hd; [left; eauto|]. right. split; [done|]. by intros ->.
    + right. split; [done|]. intros ->. destruct Hnd as [Ha _]. by destruct ty'.
Qed.
End local.

(** ** Behind a connection *)

Section remote.
Context {S : Type} `{AllocLaws S} `{RegVtbl S} `{!RegAbs S} `{!RegLaws S} `{!ServerLaws S} `{!TypeLaw S}.

#[export] Instance remote_type : TypeLaw (remote_state S).
Proof.
  split. intros s n Hs Hn. change (vt_get_type n) with (nr_reg_get_type_1_clnt n).
  pose proof (law_type (svc_reg (server s)) n (si_reg _ (ri_server _ Hs)) Hn) as Hlaw.
  assert (Hcall : gives (client_call TRIES (nr_reg_get_type_1_svc n)) s (type_answer (vt_view s) n)).
  { apply gives_call_reg; [done| |done]. unfold type_answer. intros r. by case_match; intros [= <-]. }
  unfold nr_reg_get_type_1_clnt, type_answer in *. destruct (vt_view s n) as [x|].
  - giveq s1 Hq; [exact Hcall|]. replace (take _ _) with (type_word (value_type x)) by by destruct (value_type x).
    apply gives_ret, Hq.
  - by apply gives_bind_err.
Qed.
End remote.

(** ** An instance *)

#[local] Opaque demo_init demo_mtu demo_host.

Lemma names_keep_type_witness :
  nr_reg_local_get_type $"net.mtu" demo_host = Ok $"INT4" demo_host ∧
  ∀ ty, is_scalar ty = true →
    (∃ w, nr_reg_get $"net.mtu" ty demo_host = Ok w demo_host ∧ ty = NR_REG_TYPE_INT4) ∨
    (nr_reg_get $"net.mtu" ty demo_host = Err R_FAILED demo_host ∧ ty ≠ NR_REG_TYPE_INT4).
Proof.
  apply (names_keep_type demo_mtu (SetString $"net.host" $"ekr") demo_host $"net.mtu" (VScalar NR_REG_TYPE_INT4 1500)
    demo_mtu_reachable).
  - split; [valid_name|]. split; [vm_compute; reflexivity|]. intros _. apply demo_host_path.
  - exact demo_host_run.
  - rewrite demo_mtu_view. reflexivity.
  - intros m Hm. discriminate Hm.
Defined.
