(* ===== verification/RegRelay.v ===== *)
(** * Events sent to clients (src/registry/registryd.c, regrpc_client_cb.c)

    registryd registers [nr_reg_send_event] on the root for every action and writes each event
    as a line to every client that asked.  A client splits what it reads into lines and
    raises the events in its own callback tables.  Sockets and the buffer [c_buf], whose source
    is not in the repository, are parameters. *)

From Stdlib Require Import Ascii.
From S2P Require Import Prelude CString RegNames RegState RegCb RegInv.
Local Open Scope Z_scope.

(** ** registryd *)

(** [nr_reg_client]: its socket, what was written to it, and whether the next writes succeed. *)
Record nr_reg_client := NrRegClient { cl_fd : Z; cl_sent : list ascii; cl_writes : list bool }.

Definition client_write (buffer : list ascii) (c : nr_reg_client) : option nr_reg_client :=
  if next_answer (cl_writes c) then Some (NrRegClient (cl_fd c) (cl_sent c ++ buffer) (tail (cl_writes c)))
  else None.

(** A client whose socket fails is closed and removed. *)
Fixpoint nr_reg_send_to_clients (buffer : list ascii) (nr_reg_client_list : list nr_reg_client) : list nr_reg_client :=
  match nr_reg_client_list with
  | [] => []
  | client :: next_client =>
      match client_write buffer client with
      | Some client => client :: nr_reg_send_to_clients buffer next_client
      | None => nr_reg_send_to_clients buffer next_client
      end
  end.

(** What [snprintf] leaves in a buffer of [size] bytes, terminator apart. *)
Definition snprintf_text (size : nat) (text : list ascii) : list ascii := take (size - 1) text.

Definition CR : ascii := "013".
Definition LF : ascii := "010".

Definition event_text (action : Z) (name : cstring) : list ascii :=
  let action_str := nr_reg_action_name action in
  snprintf_text (strlen name + strlen action_str + 5) (action_str ++ " "%char :: name ++ [LF; CR]).

Definition nr_reg_send_event (action : Z) (name : cstring) : list nr_reg_client → list nr_reg_client :=
  nr_reg_send_to_clients (event_text action name).

Definition nr_reg_cleanup_dead_clients : list nr_reg_client → list nr_reg_client := nr_reg_send_to_clients [LF].

(** [nr_reg_register_for_callbacks]: the descriptor of the connection back to the client, or
    [None] when one of the socket calls fails; then whether there is memory. *)
Definition nr_reg_register_for_callbacks (cbfd : option Z) (mem : bool) (writes : list bool) :
    M (list nr_reg_client) unit :=
  modify nr_reg_cleanup_dead_clients;;
  match cbfd with
  | None => abort R_FAILED
  | Some fd => if mem then modify (.++ [NrRegClient fd [] writes]) else abort R_NO_MEMORY
  end.

(** The callbacks that ran: those of [nr_reg_send_event], whose address is [cb], write. *)
Fixpoint relay_calls (cb : Z) (cs : list cb_call) (l : list nr_reg_client) : list nr_reg_client :=
  match cs with
  | [] => l
  | c :: cs' =>
      relay_calls cb cs' (if call_cb c =? cb then nr_reg_send_event (call_action c) (call_name c) l else l)
  end.

(** ** The client *)

(** [c_buf]: the bytes not yet read ([C_RPTR], [C_RLEFT]), filling, [C_READ] and [C_ZERO]. *)
Class CBuf (B : Type) := {
  c_unread : B → list ascii;
  c_fill : list ascii → B → B;
  c_read : nat → B → B;
  c_zero : B → B;
}.
Class CBufLaws (B : Type) `{CBuf B} := {
  unread_fill d b : c_unread (c_fill d b) = c_unread b ++ d;
  unread_read n b : c_unread (c_read n b) = drop n (c_unread b);
  unread_zero b : c_unread b = [] → c_unread (c_zero b) = [];
}.

(** What [nr_c_buf_nb_fill] finds. *)
Inductive fill_result : Type := Filled (data : list ascii) | FillEod | FillFailed.

Record listener (B : Type) := Listener {
  ls_buf : B;
  ls_reg : reg_state;      (* the client's callback tables *)
  ls_waiting : bool;       (* [NR_ASYNC_WAIT] is set *)
  ls_exited : bool;        (* [exit(1)] *)
}.
Arguments Listener {B} _ _ _ _.
Arguments ls_buf {B} _.
Arguments ls_reg {B} _.
Arguments ls_waiting {B} _.
Arguments ls_exited {B} _.

Definition is_eol (c : ascii) : bool := bool_decide (c = LF) || bool_decide (c = CR).

(** The string at the start of a line. *)
Fixpoint until_nul (l : list ascii) : cstring :=
  match l with
  | [] => []
  | c :: l' => if uchar c =? 0 then [] else c :: until_nul l'
  end.

Definition nr_reg_cb_process_line (line : list ascii) : R unit :=
  let line := until_nul line in
  if strncaseprefix $"change " line then nr_reg_raise_event (drop 7 line) NR_REG_CB_ACTION_CHANGE
  else if strncaseprefix $"add " line then nr_reg_raise_event (drop 4 line) NR_REG_CB_ACTION_ADD
  else if strncaseprefix $"delete " line then nr_reg_raise_event (drop 7 line) NR_REG_CB_ACTION_DELETE
  else if strncaseprefix $"final " line then nr_reg_raise_event (drop 6 line) NR_REG_CB_ACTION_FINAL
  else abort R_BAD_DATA.

Section client.
Context {B : Type} `{CBuf B}.

Definition set_ls_buf (b : B) (s : listener B) : listener B := Listener b (ls_reg s) (ls_waiting s) (ls_exited s).
Definition set_ls_waiting (w : bool) (s : listener B) : listener B := Listener (ls_buf s) (ls_reg s) w (ls_exited s).
Definition set_exited (s : listener B) : listener B := Listener (ls_buf s) (ls_reg s) (ls_waiting s) true.

Definition on_ls_reg {A} (m : R A) : M (listener B) A := λ s,
  match m (ls_reg s) with
  | Ok a r => Ok a (Listener (ls_buf s) r (ls_waiting s) (ls_exited s))
  | Err e r => Err e (Listener (ls_buf s) r (ls_waiting s) (ls_exited s))
  | UB => UB
  end.

(** [parse_next_line]: every turn reads at least one byte. *)
Fixpoint parse_lines (fuel : nat) : M (listener B) unit :=
  s ← get;
  let unread := c_unread (ls_buf s) in
  match index_where is_eol unread with
  | None => mret ()
  | Some i =>
      match fuel with
      | O => undef
      | S fuel' =>
          modify (set_ls_buf (c_read (i + 1) (ls_buf s)));;
          (if (0 <? i)%nat then ignore (on_ls_reg (nr_reg_cb_process_line (take i unread))) else mret ());;
          parse_lines fuel'
      end
  end.

(** [nr_reg_cb_async_wait_cb]; [reconnect] is what [nr_reg_client_cb_init] gives. *)
Definition nr_reg_cb_async_wait_cb (r : fill_result) (reconnect : option B) : M (listener B) unit :=
  match r with
  | FillEod =>
      match reconnect with
      | Some b => modify (λ s, set_ls_waiting true (set_ls_buf b s))
      | None => modify set_exited
      end
  | FillFailed => modify set_exited
  | Filled data =>
      modify (λ s, set_ls_buf (c_fill data (ls_buf s)) s);;
      s ← get;
      parse_lines (length (c_unread (ls_buf s)));;
      modify (set_ls_waiting true);;
      modify (λ s, if bool_decide (c_unread (ls_buf s) = []) then set_ls_buf (c_zero (ls_buf s)) s else s)
  end.

(** The callback once for each piece of the stream; the event loop clears the wait before
    it calls. *)
Fixpoint listen (chunks : list (list ascii)) : M (listener B) unit :=
  match chunks with
  | [] => mret ()
  | data :: chunks' =>
      modify (set_ls_waiting false);;
      nr_reg_cb_async_wait_cb (Filled data) None;;
      listen chunks'
  end.
End client.
