(* ===== verification/RegRelaySpec.v ===== *)
(** * Events arrive

    However the byte stream to a client is cut into pieces, the client raises the events
    registryd raised, in order and once each, in its own callback tables. *)

From Stdlib Require Import Ascii.
From S2P Require Import Prelude CString Crc32 AssocSpec RegNames RegState RegCb RegInv RegCbSpec RegDemo RegRelay.
Local Open Scope Z_scope.

(** An event: its action and the name it is raised on. *)
Abbreviation event := (Z * cstring)%type.

Definition event_ok (e : event) : Prop := e.1 ∈ CB_ACTIONS ∧ valid e.2.
Definition line_text (e : event) : list ascii := nr_reg_action_name e.1 ++ " "%char :: e.2.
Definition event_bytes (e : event) : list ascii := event_text e.1 e.2.
Definition events_calls (s : reg_state) (evs : list event) : list cb_call := e ← evs; event_calls s e.1 e.2.

(** ** Lines *)

(** The lines of a stream that are complete and not empty, and what is left, after [acc]. *)
Fixpoint split_lines (acc u : list ascii) : list (list ascii) * list ascii :=
  match u with
  | [] => ([], acc)
  | c :: u' =>
      if is_eol c then
        let lr := split_lines [] u' in
        ((match acc with [] => lr.1 | _ :: _ => acc :: lr.1 end), lr.2)
      else split_lines (acc ++ [c]) u'
  end.

Definition no_eol (l : list ascii) : Prop := Forall (λ c, is_eol c = false) l.

Lemma split_app acc u1 u2 :
  split_lines acc (u1 ++ u2) =
    let lr1 := split_lines acc u1 in
    let lr2 := split_lines lr1.2 u2 in
    (lr1.1 ++ lr2.1, lr2.2).
Proof.
  revert acc. induction u1 as [|c u1 IH]; intros acc; cbn; [by destruct (split_lines acc u2)|].
  destruct (is_eol c); [|apply IH]. rewrite IH. by destruct acc.
Qed.

Lemma split_no_eol acc u : no_eol u → split_lines acc u = ([], acc ++ u).
Proof.
  intros Hu. revert acc. induction Hu as [|c u Hc _ IH]; intros acc; cbn; [by rewrite app_nil_r|].
  by rewrite Hc, IH, <- app_assoc.
Qed.

Lemma split_rest_no_eol acc u : no_eol acc → no_eol (split_lines acc u).2.
Proof.
  revert acc. induction u as [|c u IH]; intros acc Hacc; cbn; [done|].
  destruct (is_eol c) eqn:Hc; [cbn; apply IH; constructor|]. apply IH, Forall_app. by split; [|constructor].
Qed.

(** The search for the end of a line. *)
Lemma split_first u :
  match index_where is_eol u with
  | None => no_eol u
  | Some i => (i < length u)%nat ∧ split_lines [] u =
      let lr := split_lines [] (drop (i + 1) u) in
      ((match take i u with [] => lr.1 | _ :: _ => take i u :: lr.1 end), lr.2)
  end.
Proof.
  destruct (index_where is_eol u) as [i|] eqn:Hi.
  - apply index_where_Some in Hi as [(c & Hc & Heol) Hbefore]. pose proof (lookup_lt_Some _ _ _ Hc) as Hlt.
    split; [done|]. rewrite <- (take_drop_middle u i c Hc) at 1. rewrite split_app, split_no_eol.
    + cbn. rewrite Heol, Nat.add_1_r. by destruct (take i u).
    + apply Forall_forall. intros d (j & Hd)%list_elem_of_lookup. pose proof (lookup_lt_Some _ _ _ Hd) as Hj.
      rewrite length_take in Hj. rewrite lookup_take_lt in Hd by lia. by eapply Hbefore; [|done]; lia.
  - apply Forall_forall. by apply index_where_None.
Qed.

(** ** One line *)

Lemma valid_plain n : valid n → Forall (λ c, uchar c ≠ 0 ∧ is_eol c = false) n.
Proof.
  intros Hn. apply Forall_forall. intros c Hc%(valid_chars n Hn). unfold bad_char, isspace, isprint in Hc.
  apply orb_false_iff in Hc as [[Hs Hp%negb_false_iff]%orb_false_iff _]. split; [lia|].
  unfold is_eol. apply orb_false_iff. split; apply bool_decide_eq_false; intros ->; revert Hs; by vm_compute.
Qed.

Lemma action_plain a : a ∈ CB_ACTIONS → Forall (λ c, uchar c ≠ 0 ∧ is_eol c = false) (nr_reg_action_name a).
Proof.
  unfold CB_ACTIONS. rewrite !elem_of_cons. intros [->|[->|[->|[->|[]%not_elem_of_nil]]]]; by repeat constructor.
Qed.

Lemma line_plain e : event_ok e → Forall (λ c, uchar c ≠ 0 ∧ is_eol c = false) (line_text e).
Proof.
  intros [Ha Hn]. unfold line_text. apply Forall_app. split; [by apply action_plain|].
  constructor; [done|by apply valid_plain].
Qed.

Lemma until_nul_plain l : Forall (λ c, uchar c ≠ 0 ∧ is_eol c = false) l → until_nul l = l.
Proof. induction 1 as [|c l [Hc _] _ IH]; [done|]. cbn. by rewrite (proj2 (Z.eqb_neq _ _)), IH. Qed.

Lemma no_eol_plain l : Forall (λ c, uchar c ≠ 0 ∧ is_eol c = false) l → no_eol l.
Proof. intros Hl. eapply Forall_impl; [exact Hl|by intros c []]. Qed.

(** A line names its event. *)
Lemma process_line_event e :
  event_ok e → nr_reg_cb_process_line (line_text e) = nr_reg_raise_event e.2 e.1.
Proof.
  intros He. unfold nr_reg_cb_process_line. rewrite until_nul_plain by by apply line_plain.
  destruct e as [a n], He as [Ha _]. unfold line_text, CB_ACTIONS in *. cbn [fst snd] in *. revert Ha.
  rewrite !elem_of_cons. by intros [->|[->|[->|[->|[]%not_elem_of_nil]]]].
Qed.

(** The buffer [snprintf] writes to has room for the line. *)
Lemma event_bytes_line e : event_bytes e = line_text e ++ [LF; CR].
Proof.
  destruct e as [a n]. unfold event_bytes, event_text, snprintf_text, line_text, strlen. cbn [fst snd].
  rewrite take_ge; [by rewrite <- app_assoc|]. rewrite length_app. cbn. rewrite length_app. cbn. lia.
Qed.

Lemma split_event e u :
  event_ok e → split_lines [] (event_bytes e ++ u) = (line_text e :: (split_lines [] u).1, (split_lines [] u).2).
Proof.
  intros He. rewrite event_bytes_line, <- app_assoc, split_app, split_no_eol by by apply no_eol_plain, line_plain.
  cbn. destruct (line_text e) as [|c l] eqn:Hl; [|done]. unfold line_text in Hl. by destruct (nr_reg_action_name e.1).
Qed.

Lemma split_events evs :
  Forall event_ok evs → split_lines [] (concat (event_bytes <$> evs)) = (line_text <$> evs, []).
Proof. induction 1 as [|e evs He _ IH]; [done|]. cbn. by rewrite split_event, IH. Qed.

(** ** The stream *)

(** The client's callback tables can raise events. *)
Definition can_raise (r : reg_state) : Prop := cb_ok r ∧ mem_plenty r.

Lemma can_raise_calls l r : can_raise r → can_raise (add_calls l r).
Proof. intros [Hcb Hm]. split; [by apply cb_ok_add_calls|done]. Qed.

Lemma events_calls_same l r evs : events_calls (add_calls l r) evs = events_calls r evs.
Proof. done. Qed.

Section client.
Context {B : Type} `{CBufLaws B}.
Implicit Types (s : listener B) (evs : list event).

(** The client after [evs] were raised, with [rest] still in its buffer. *)
Record heard s evs (rest : list ascii) s' : Prop := {
  hd_unread : c_unread (ls_buf s') = rest;
  hd_reg : ls_reg s' = add_calls (events_calls (ls_reg s) evs) (ls_reg s);
  hd_exited : ls_exited s' = ls_exited s;
}.

Lemma heard_trans s evs rest s' evs' rest' s'' :
  heard s evs rest s' → heard s' evs' rest' s'' → heard s (evs ++ evs') rest' s''.
Proof.
  intros [_ Hr He] [Hu' Hr' He']. split; [done| |by rewrite He'].
  rewrite Hr', Hr, add_calls_app. f_equal. unfold events_calls. by rewrite bind_app.
Qed.

Lemma parse_lines_run fuel s evs rest :
  can_raise (ls_reg s) → Forall event_ok evs → (length (c_unread (ls_buf s)) <= fuel)%nat →
  split_lines [] (c_unread (ls_buf s)) = (line_text <$> evs, rest) →
  ∃ s', parse_lines fuel s = Ok () s' ∧ heard s evs rest s' ∧ ls_waiting s' = ls_waiting s.
Proof.
  revert s evs. induction fuel as [|fuel IH]; intros s evs Hr Hevs Hfuel Hsplit.
  all: pose proof (split_first (c_unread (ls_buf s))) as Hfirst; cbn [parse_lines]; mstep.
  all: destruct (index_where is_eol (c_unread (ls_buf s))) as [i|] eqn:Hi.
  1: lia.
  1, 3: rewrite split_no_eol in Hsplit by done; injection Hsplit as Hnil <-; destruct evs; [|done];
    exists s; split; [done|]; split; [|done]; split; [done|by rewrite add_calls_nil|done].
  destruct Hfirst as [Hlt Heq]. rewrite Hsplit in Heq. mstep.
  set (s1 := set_ls_buf (c_read (i + 1) (ls_buf s)) s).
  assert (Hu1 : c_unread (ls_buf s1) = drop (i + 1) (c_unread (ls_buf s))) by apply unread_read.
  assert (Hlen : (length (c_unread (ls_buf s1)) <= fuel)%nat) by (rewrite Hu1, length_drop; lia).
  rewrite <- Hu1 in Heq. destruct (Nat.ltb_spec 0 i) as [Hpos|Hpos].
  - assert (Htake : take i (c_unread (ls_buf s)) ≠ []).
    { intros Hnil%(f_equal length). rewrite length_take in Hnil. cbn in Hnil. lia. }
    destruct (take i (c_unread (ls_buf s))) as [|c l] eqn:Hline; [done|]. injection Heq as Hevs' Hrest.
    destruct evs as [|e evs]; [done|]. injection Hevs' as Htext Hevs'.
    apply Forall_cons in Hevs as [He Hevs].
    set (s2 := Listener (ls_buf s1) (add_calls (event_calls (ls_reg s) e.1 e.2) (ls_reg s)) (ls_waiting s) (ls_exited s)).
    erewrite (bind_ok _ _ s1 () s2).
    2: { unfold ignore, on_ls_reg. rewrite <- Htext, process_line_event by done.
         destruct Hr, He. by rewrite raise_event_spec. }
    destruct (IH s2 evs) as (s' & Hrun & Hh & Hw); [by apply can_raise_calls|done|done| |].
    { rewrite (surjective_pairing (split_lines [] _)). f_equal; [exact (eq_sym Hevs')|exact (eq_sym Hrest)]. }
    exists s'. split_and!; [done| |done]. eapply (heard_trans s [e] (c_unread (ls_buf s1)) s2); [|done].
    split; [done| |done]. unfold events_calls. cbn. by rewrite app_nil_r.
  - destruct i; [|lia]. cbn [take] in Heq.
    destruct (IH s1 evs) as (s' & Hrun & Hh & Hw); [done|done|done| |].
    { rewrite (surjective_pairing (split_lines [] _)). injection Heq as Hevs' Hrest. f_equal; [exact (eq_sym Hevs')|exact (eq_sym Hrest)]. }
    exists s'. split_and!; [done| |done]. by destruct Hh.
Qed.

(** One piece of the stream, and all of them. *)
Lemma wait_cb_run data s evs rest :
  can_raise (ls_reg s) → no_eol (c_unread (ls_buf s)) → Forall event_ok evs →
  split_lines (c_unread (ls_buf s)) data = (line_text <$> evs, rest) →
  ∃ s', nr_reg_cb_async_wait_cb (Filled data) None s = Ok () s' ∧ heard s evs rest s' ∧ ls_waiting s' = true.
Proof.
  intros Hr Hno Hevs Hsplit. unfold nr_reg_cb_async_wait_cb. mstep. mstep.
  set (s1 := set_ls_buf (c_fill data (ls_buf s)) s).
  assert (Hu1 : c_unread (ls_buf s1) = c_unread (ls_buf s) ++ data) by apply unread_fill.
  destruct (parse_lines_run (length (c_unread (ls_buf s1))) s1 evs rest) as (s2 & Hrun & [Hu2 Hr2 He2] & Hw); [done|done|lia| |].
  { rewrite Hu1, split_app, split_no_eol by done. cbn. by rewrite Hsplit. }
  erewrite bind_ok by exact Hrun. mstep. eexists. split; [done|]. split; [|by case_bool_decide].
  unfold set_ls_waiting. cbn [ls_buf]. case_bool_decide as Hnil; (split; [|done|done]); cbn [ls_buf set_ls_buf].
  - rewrite unread_zero by done. by rewrite <- Hu2.
  - done.
Qed.

Lemma listen_run chunks s evs rest :
  can_raise (ls_reg s) → no_eol (c_unread (ls_buf s)) → Forall event_ok evs →
  split_lines (c_unread (ls_buf s)) (concat chunks) = (line_text <$> evs, rest) →
  ∃ s', listen chunks s = Ok () s' ∧ heard s evs rest s'.
Proof.
  revert s evs. induction chunks as [|data chunks IH]; intros s evs Hr Hno Hevs Hsplit; cbn [concat listen] in *.
  { injection Hsplit as Hnil <-. destruct evs; [|done]. exists s. split; [done|].
    split; [done|by rewrite add_calls_nil|done]. }
  rewrite split_app in Hsplit. cbn in Hsplit.
  pose proof (split_rest_no_eol (c_unread (ls_buf s)) data Hno) as Hno1.
  destruct (split_lines (c_unread (ls_buf s)) data) as [l1 r1] eqn:H1. cbn in Hsplit, Hno1.
  destruct (split_lines r1 (concat chunks)) as [l2 r2] eqn:H2. injection Hsplit as Hevs' <-.
  symmetry in Hevs'. apply fmap_app_inv in Hevs' as (e1 & e2 & -> & -> & ->).
  apply Forall_app in Hevs as [Hevs1 Hevs2]. mstep.
  destruct (wait_cb_run data (set_ls_waiting false s) e1 r1) as (s1 & Hrun1 & [Hu1 Hr1 He1] & _); [done..|].
  erewrite bind_ok by exact Hrun1.
  destruct (IH s1 e2) as (s' & Hrun & Hh); [rewrite Hr1; by apply can_raise_calls|by rewrite Hu1|done|by rewrite Hu1|].
  exists s'. split; [done|]. by eapply (heard_trans s e1 r1 s1).
Qed.
End client.

(** ** What registryd writes *)

(** The events among the calls made of the callback at [cb]. *)
Definition relayed (cb : Z) (cs : list cb_call) : list event :=
  (λ c, (call_action c, call_name c)) <$> filter (λ c, call_cb c = cb) cs.

(** [nr_reg_send_event], at address [cb], is registered on the root for every action, and
    nowhere else. *)
Definition relay_installed (s : reg_state) (cb : Z) : Prop :=
  (∀ a, a ∈ CB_ACTIONS → ∃ arg n, CbInfo a cb arg n ∈ registered s []) ∧
  (∀ n i, n ≠ [] → i ∈ registered s n → cbi_cb i ≠ cb).

Section server.
Implicit Types (s : reg_state) (evs : list event) (c : nr_reg_client) (l : list nr_reg_client).

(** The one element of a list that satisfies [P]. *)
Lemma filter_one {A B} (f : A → B) (P : A → Prop) `{∀ x, Decision (P x)} (l : list A) x :
  NoDup (f <$> l) → x ∈ l → P x → (∀ y, P y → f y = f x) → filter P l = [x].
Proof.
  intros Hnd Hx HP Hf. apply Permutation_singleton_r. apply NoDup_Permutation.
  - by eapply NoDup_filter, NoDup_fmap_1.
  - apply NoDup_singleton.
  - intros y. rewrite list_elem_of_filter, list_elem_of_singleton. split; [|by intros ->].
    intros [HPy Hy]. apply list_elem_of_lookup in Hx as [i Hi], Hy as [j Hj].
    assert (i = j) as ->; [|congruence].
    eapply (NoDup_lookup (f <$> l) i j (f x)); [done|by rewrite list_lookup_fmap, Hi|].
    by rewrite list_lookup_fmap, Hj; cbn; rewrite Hf.
Qed.

Lemma relayed_app cb cs cs' : relayed cb (cs ++ cs') = relayed cb cs ++ relayed cb cs'.
Proof. unfold relayed. by rewrite filter_app, fmap_app. Qed.

Lemma relayed_calls_of cb a n (l : list nr_reg_cb_info) :
  relayed cb (calls_of a n l) = (λ _, (a, n)) <$> filter (λ i, cbi_cb i = cb ∧ cbi_action i = a) l.
Proof.
  unfold calls_of. induction l as [|i l IH]; [done|]. rewrite !filter_cons.
  destruct (decide (cbi_action i = a)) as [Ha|Ha].
  - cbn [mbind list_bind app]. unfold relayed in *. rewrite filter_cons. cbn [call_cb].
    destruct (decide (cbi_cb i = cb)) as [Hc|Hc]; [rewrite decide_True by done|rewrite decide_False by naive_solver];
      cbn; by rewrite <- IH.
  - rewrite decide_False by naive_solver. done.
Qed.

(** An event is written once. *)
Lemma relayed_event s cb a n :
  cb_ok s → relay_installed s cb → a ∈ CB_ACTIONS → relayed cb (event_calls s a n) = [(a, n)].
Proof.
  intros Hok [Hroot Helse] Ha. unfold event_calls.
  cut (∀ p, relayed cb (q ← lineage p; calls_of a n (registered s q)) = [(a, n)]); [done|]. intros p.
  induction p as [p IH] using (induction_ltof1 _ (@length ascii)); unfold ltof in IH.
  rewrite lineage_unfold, event_calls_cons, relayed_app, relayed_calls_of.
  destruct p as [|x p].
  - destruct (Hroot a Ha) as (arg & m & Hin).
    rewrite (filter_one _ _ _ (CbInfo a cb arg m) (registered_ids s [] Hok) Hin); [done|done|].
    by intros i [<- <-].
  - rewrite (IH (up (x :: p))) by by apply up_shorter.
    replace (filter _ _) with (@nil nr_reg_cb_info); [done|]. symmetry. apply elem_of_nil_inv.
    intros i [[Hcb _] Hi]%list_elem_of_filter. by destruct (Helse (x :: p) i).
Qed.

Lemma relayed_events s cb evs :
  cb_ok s → relay_installed s cb → Forall event_ok evs → relayed cb (events_calls s evs) = evs.
Proof.
  intros Hok Hin. induction 1 as [|[a n] evs [Ha _] _ IH]; [done|]. cbn in Ha.
  change (events_calls s ((a, n) :: evs)) with (event_calls s a n ++ events_calls s evs).
  by rewrite relayed_app, IH, relayed_event.
Qed.

(** A client whose socket works gets every line. *)
Lemma send_alive buffer l c :
  c ∈ l → cl_writes c = [] → NrRegClient (cl_fd c) (cl_sent c ++ buffer) [] ∈ nr_reg_send_to_clients buffer l.
Proof.
  intros Hc Hw. induction l as [|d l IH]; [by apply not_elem_of_nil in Hc|]. cbn.
  apply elem_of_cons in Hc as [->|Hc].
  - unfold client_write. rewrite Hw. by left.
  - destruct (client_write buffer d); [right|]; by apply IH.
Qed.

Lemma relay_alive cb cs l c :
  c ∈ l → cl_writes c = [] →
  NrRegClient (cl_fd c) (cl_sent c ++ concat (event_bytes <$> relayed cb cs)) [] ∈ relay_calls cb cs l.
Proof.
  revert l c. induction cs as [|x cs IH]; intros l c Hc Hw; cbn [relay_calls].
  { cbn. rewrite app_nil_r. destruct c. by cbn in *; subst. }
  unfold relayed. rewrite filter_cons. destruct (decide (call_cb x = cb)) as [Hcb|Hcb].
  - rewrite (proj2 (Z.eqb_eq _ _)) by done. cbn. rewrite app_assoc.
    apply (IH _ (NrRegClient (cl_fd c) _ [])); [|done]. by apply send_alive.
  - rewrite (proj2 (Z.eqb_neq _ _)) by done. by apply IH.
Qed.
End server.

(** From the server's callbacks to the client's: [evs] raised in registryd's store, to which
    the relay is attached, write to every client whose socket works a stream that, read in any
    pieces, raises [evs] in the client's tables, in order and once each. *)
Theorem events_arrive {B} `{CBufLaws B} (srv : reg_state) cb (evs : list event) l c (s : listener B) :
  cb_ok srv → relay_installed srv cb → Forall event_ok evs →
  c ∈ l → cl_writes c = [] → cl_sent c = [] → can_raise (ls_reg s) → c_unread (ls_buf s) = [] →
  ∃ c', c' ∈ relay_calls cb (events_calls srv evs) l ∧ cl_fd c' = cl_fd c ∧
    ∀ chunks, concat chunks = cl_sent c' →
      ∃ s', listen chunks s = Ok () s' ∧ ls_exited s' = ls_exited s ∧ c_unread (ls_buf s') = [] ∧
        ls_reg s' = add_calls (events_calls (ls_reg s) evs) (ls_reg s).
Proof.
  intros Hok Hin Hevs Hc Hw Hsent Hr Hu. pose proof (relay_alive cb (events_calls srv evs) l c Hc Hw) as Halive.
  rewrite relayed_events, Hsent in Halive by done. eexists. split; [exact Halive|]. split; [done|].
  cbn [cl_sent app]. intros chunks Hchunks.
  destruct (listen_run chunks s evs []) as (s' & Hrun & [Hu' Hr' He']); [done|by rewrite Hu; constructor|done| |by exists s'].
  by rewrite Hu, Hchunks, split_events.
Qed.

(** ** Instances *)

(** A buffer that is the bytes in it. *)
#[local] Instance list_buf : CBuf (list ascii) := {
  c_unread b := b;
  c_fill d b := b ++ d;
  c_read n b := drop n b;
  c_zero b := b;
}.
#[local] Instance list_buf_laws : CBufLaws (list ascii).
Proof. by split. Qed.

(** The relay at address 7 attached to a store just initialised. *)
Definition relay_demo (a : Z) (s : reg_state) : reg_state := after (nr_reg_register_callback [] a 7 0) s.
Definition relay1 : reg_state := relay_demo NR_REG_CB_ACTION_ADD demo_init.
Definition relay2 : reg_state := relay_demo NR_REG_CB_ACTION_CHANGE relay1.
Definition relay3 : reg_state := relay_demo NR_REG_CB_ACTION_DELETE relay2.
Definition relay4 : reg_state := relay_demo NR_REG_CB_ACTION_FINAL relay3.

Lemma relay_demo_step s a :
  good s → a ∈ CB_ACTIONS → cb_room s [] →
  rereg s (relay_demo a s) [] (λ i, i = CbInfo a 7 0 [] ∨ i ∈ registered s [] ∧ ¬ same_id a 7 i).
Proof.
  intros Hg Ha Hroom. destruct (register_run s [] a 7 0) as (s' & Hrun & Hrr); [done|by valid_name|done|done|done|].
  unfold relay_demo. by rewrite (after_ok _ _ _ _ Hrun).
Qed.

Lemma relay4_installed : good relay4 ∧ relay_installed relay4 7.
Proof.
  destruct demo_init_ok as (_ & Hg & Hnone & _).
  assert (Hroom : ∀ s, (cb_count s + 1 <? 2 ^ 31) && (length (registered s []) <? 100)%nat = true → cb_room s [])
    
    by (intros s [H1%Z.ltb_lt H2%Nat.ltb_lt]%andb_true_iff; unfold cb_room; lia).
  pose proof (relay_demo_step demo_init NR_REG_CB_ACTION_ADD Hg) as H1.
  destruct H1 as [Hg1 _ _ Ho1 Hh1]; [by left|apply Hroom; vm_compute; reflexivity|].
  pose proof (relay_demo_step relay1 NR_REG_CB_ACTION_CHANGE Hg1) as H2.
  destruct H2 as [Hg2 _ _ Ho2 Hh2]; [by do 2 right; left|apply Hroom; vm_compute; reflexivity|].
  pose proof (relay_demo_step relay2 NR_REG_CB_ACTION_DELETE Hg2) as H3.
  destruct H3 as [Hg3 _ _ Ho3 Hh3]; [by right; left|apply Hroom; vm_compute; reflexivity|].
  pose proof (relay_demo_step relay3 NR_REG_CB_ACTION_FINAL Hg3) as H4.
  destruct H4 as [Hg4 _ _ Ho4 Hh4]; [by do 3 right; left|apply Hroom; vm_compute; reflexivity|].
  split; [exact Hg4|]. split.
  - intros a Ha. exists 0, []. unfold relay4. rewrite Hh4. unfold relay3. rewrite Hh3. unfold relay2.
    rewrite Hh2. unfold relay1. rewrite Hh1. generalize (registered demo_init []). revert Ha.
    clear. unfold same_id, CB_ACTIONS. cbn.
    rewrite !elem_of_cons. intros [->|[->|[->|[->|[]%not_elem_of_nil]]]] l; naive_solver.
  - intros n i Hn. unfold relay4. rewrite Ho4 by exact Hn. unfold relay3. rewrite Ho3 by exact Hn. unfold relay2.
    rewrite Ho2 by exact Hn. unfold relay1. rewrite Ho1, Hnone by exact Hn. by intros ?%not_elem_of_nil.
Qed.

#[local] Opaque relay4 demo_cb.

(** A change and an addition to a client, in two pieces that cut both lines. *)
Lemma events_arrive_witness :
  ∃ c', c' ∈ relay_calls 7 (events_calls relay4 [(NR_REG_CB_ACTION_CHANGE, $"net.mtu"); (NR_REG_CB_ACTION_ADD, $"net.host")])
                [NrRegClient 4 [] [false]; NrRegClient 5 [] []] ∧ cl_fd c' = 5 ∧
    ∀ chunks, concat chunks = cl_sent c' →
      ∃ s', listen chunks (Listener ([] : list ascii) demo_cb true false) = Ok () s' ∧ ls_exited s' = false ∧ c_unread (ls_buf s') = [] ∧
        ls_reg s' = add_calls (events_calls demo_cb [(NR_REG_CB_ACTION_CHANGE, $"net.mtu"); (NR_REG_CB_ACTION_ADD, $"net.host")]) demo_cb.
Proof.
  apply (events_arrive (B := list ascii) relay4 7 [(NR_REG_CB_ACTION_CHANGE, $"net.mtu"); (NR_REG_CB_ACTION_ADD, $"net.host")]
    [NrRegClient 4 [] [false]; NrRegClient 5 [] []] (NrRegClient 5 [] []) (Listener [] demo_cb true false)).
  - apply relay4_installed.
  - apply relay4_installed.
  - constructor; [split; [do 2 right; left|valid_name]|constructor; [split; [left|valid_name]|constructor]].
  - right. left.
  - reflexivity.
  - reflexivity.
  - split; apply (rr_good _ _ _ _ (proj2 demo_cb_ok)).
  - reflexivity.
Defined.
