(* ===== verification/RLog.v ===== *)
(** * The logger (src/log/r_log.c)

    Facilities, destinations and levels, and which messages go where.  The levels are keys of
    the registry, which the logger follows with callbacks; [run_log_cb] is what a recorded
    call of one of them does.  The messages the registry itself logs are not modelled. *)

From Stdlib Require Import Ascii.
From S2P Require Import Prelude CString Numbers RegNames RegState RegCb RegFacade RegModule.
Local Open Scope Z_scope.

(** ** State *)

Definition LOGGING_DEFAULT_LEVEL : Z := 5.
Definition LOG_EMERG : Z := 0.
Definition LOG_DEBUG : Z := 7.
Definition LOG_LEVEL_UNDEFINED : Z := -1.
Definition LOG_LEVEL_NONE : Z := -2.
Definition LOG_NUM_DESTINATIONS : nat := 3.
Definition MAX_LOG_TYPES : nat := 1024.
Definition MAX_ERROR_STRING_SIZE : nat := 512.

Definition log_level_strings : list cstring :=
  [$"EMERG"; $"ALERT"; $"CRIT"; $"ERR"; $"WARNING"; $"NOTICE"; $"INFO"; $"DEBUG"].
Definition log_level_reg_strings : list cstring :=
  [$"emergency"; $"alert"; $"critical"; $"error"; $"warning"; $"notice"; $"info"; $"debug"].

(** [facility_name] is null when [r_strdup] had no memory. *)
Record log_type := LogType { facility_name : option cstring; lt_level : list Z; dest_facility_key : list cstring }.

Inductive vlog : Type := StderrVlog | SyslogVlog | NoopVlog | UserVlog (f : Z).

Record log_destination := LogDestination { dest_name : cstring; enabled : Z; default_level : Z; dest_vlog : vlog }.

(** The environment variables [R_LOG_LEVEL], [R_LOG_DESTINATION] and [R_LOG_VERBOSE]. *)
Record environment := Environment { env_level : option cstring; env_destination : option cstring; env_verbose : option cstring }.

(** A message handed to a destination: the format is not expanded. *)
Record log_line := LogLine { ll_vlog : vlog; ll_facility : Z; ll_level : Z; ll_format : cstring }.

Record log_state := LogState {
  log_types : list log_type;                  (* the first log_type_ct entries *)
  log_destinations : list log_destination;
  r_log_level : Z;
  r_log_level_environment : Z;
  r_log_initted : nat;
  r_log_env_verbose : Z;
  NR_LOG_LOGGING : Z;
  log_env : environment;
  log_reg : reg_state;
  log_out : list log_line;
}.

Definition initial_destinations : list log_destination :=
  [LogDestination $"stderr" 0 LOGGING_DEFAULT_LEVEL StderrVlog;
   LogDestination $"syslog" 1 LOGGING_DEFAULT_LEVEL SyslogVlog;
   LogDestination $"extra" 0 LOGGING_DEFAULT_LEVEL NoopVlog].
Definition log_initial (env : environment) (r : reg_state) : log_state :=
  LogState [] initial_destinations LOGGING_DEFAULT_LEVEL 0 0 0 0 env r [].

Abbreviation L := (M log_state).

Definition set_types (l : list log_type) (s : log_state) : log_state :=
  LogState l (log_destinations s) (r_log_level s) (r_log_level_environment s) (r_log_initted s) (r_log_env_verbose s)
    (NR_LOG_LOGGING s) (log_env s) (log_reg s) (log_out s).
Definition set_destinations (l : list log_destination) (s : log_state) : log_state :=
  LogState (log_types s) l (r_log_level s) (r_log_level_environment s) (r_log_initted s) (r_log_env_verbose s)
    (NR_LOG_LOGGING s) (log_env s) (log_reg s) (log_out s).
Definition set_levels (level env : Z) (s : log_state) : log_state :=
  LogState (log_types s) (log_destinations s) level env (r_log_initted s) (r_log_env_verbose s)
    (NR_LOG_LOGGING s) (log_env s) (log_reg s) (log_out s).
Definition set_initted (n : nat) (s : log_state) : log_state :=
  LogState (log_types s) (log_destinations s) (r_log_level s) (r_log_level_environment s) n (r_log_env_verbose s)
    (NR_LOG_LOGGING s) (log_env s) (log_reg s) (log_out s).
Definition set_verbose (v : Z) (s : log_state) : log_state :=
  LogState (log_types s) (log_destinations s) (r_log_level s) (r_log_level_environment s) (r_log_initted s) v
    (NR_LOG_LOGGING s) (log_env s) (log_reg s) (log_out s).
Definition set_logging (f : Z) (s : log_state) : log_state :=
  LogState (log_types s) (log_destinations s) (r_log_level s) (r_log_level_environment s) (r_log_initted s)
    (r_log_env_verbose s) f (log_env s) (log_reg s) (log_out s).
Definition set_log_reg (r : reg_state) (s : log_state) : log_state :=
  LogState (log_types s) (log_destinations s) (r_log_level s) (r_log_level_environment s) (r_log_initted s)
    (r_log_env_verbose s) (NR_LOG_LOGGING s) (log_env s) r (log_out s).
Definition emit (l : log_line) (s : log_state) : log_state :=
  LogState (log_types s) (log_destinations s) (r_log_level s) (r_log_level_environment s) (r_log_initted s)
    (r_log_env_verbose s) (NR_LOG_LOGGING s) (log_env s) (log_reg s) (log_out s ++ [l]).

(** A call of the registry. *)
Definition on_log_reg {A} (m : R A) : L A := λ s,
  match m (log_reg s) with
  | Ok a r => Ok a (set_log_reg r s)
  | Err e r => Err e (set_log_reg r s)
  | UB => UB
  end.

(** ** Levels *)

(** [r_log_get_reg_level]; [level] is a buffer of 32 bytes. *)
Definition level_of_text (level : cstring) : Z :=
  if strcaseeq level $"none" then LOG_LEVEL_NONE
  else
    match index_where (strcaseeq level) log_level_reg_strings with
    | Some i => Z.of_nat i
    | None => LOG_LEVEL_UNDEFINED
    end.
Definition r_log_get_reg_level (name : cstring) : L Z :=
  level ← on_log_reg (NR_reg_get_string name 32);
  level ← from_option_ub (c_string_in level);
  mret (level_of_text level).

(** [log_types[i].level[j] = v] *)
Definition put_level (i j : nat) (v : Z) (s : log_state) : log_state :=
  set_types (alter (λ t, LogType (facility_name t) (<[j:=v]> (lt_level t)) (dest_facility_key t)) i (log_types s)) s.
Definition put_key (i j : nat) (k : cstring) (s : log_state) : log_state :=
  set_types (alter (λ t, LogType (facility_name t) (lt_level t) (<[j:=k]> (dest_facility_key t))) i (log_types s)) s.

Section logger.
(** The addresses of the logger's callbacks and of [log_types[i].level[j]]. *)
Context (facility_change_addr facility_delete_addr destination_change_addr default_level_change_addr : Z).
Context (level_addr : nat → nat → Z).

(** ** Facilities *)

(** One turn of the loop over the destinations of [r_log_register]. *)
Definition register_dest (facility_name : cstring) (i j : nat) (dest : log_destination) : L unit :=
  modify (put_level i j LOG_LEVEL_UNDEFINED);;
  s ← get;
  if reg_vtbl (log_reg s) then
    let dest_prefix := $"logging." ++ dest_name dest ++ $".facility" in
    if (NR_REG_MAX_NR_REGISTRY_LEN <=? strlen dest_prefix)%nat then abort R_INTERNAL
    else
      match NR_reg_make_registry dest_prefix facility_name with
      | inl r => abort r
      | inr dest_facility_prefix =>
          let key := dest_facility_prefix ++ $".level" in
          modify (put_key i j (take (NR_REG_MAX_NR_REGISTRY_LEN - 1) key));;
          if (NR_REG_MAX_NR_REGISTRY_LEN <=? strlen key)%nat then abort R_INTERNAL
          else
            r ← catch (r_log_get_reg_level key);
            match r with inr level => modify (put_level i j level) | inl _ => mret () end;;
            on_log_reg (NR_reg_register_callback key (Z.lor NR_REG_CB_ACTION_ADD NR_REG_CB_ACTION_CHANGE)
                          facility_change_addr (level_addr i j));;
            on_log_reg (NR_reg_register_callback key NR_REG_CB_ACTION_DELETE facility_delete_addr (level_addr i j))
      end
  else mret ().

Fixpoint register_dests (facility_name : cstring) (i j : nat) (dests : list log_destination) : L unit :=
  match dests with
  | [] => mret ()
  | dest :: dests' => register_dest facility_name i j dest;; register_dests facility_name i (S j) dests'
  end.

(** The search for a name; [strcmp] of a null pointer is undefined. *)
Fixpoint find_facility (name : cstring) (i : nat) (types : list log_type) : option (option nat) :=
  match types with
  | [] => Some None
  | t :: types' =>
      match facility_name t with
      | None => None
      | Some n => if streq name n then Some (Some i) else find_facility name (S i) types'
      end
  end.

(** [r_log_register]; [log_facility] is the assignment to [*log_facility]. *)
Definition r_log_register (facility_name : cstring) (log_facility : Z → log_state → log_state) : L unit :=
  s ← get;
  found ← from_option_ub (find_facility facility_name 0 (log_types s));
  match found with
  | Some i => modify (log_facility (Z.of_nat i))
  | None =>
      let i := length (log_types s) in
      if (i =? MAX_LOG_TYPES)%nat then abort R_INTERNAL
      else
        ok ← on_log_reg alloc_ok;
        let name := if ok : bool then Some facility_name else None in
        modify (λ s, set_types (log_types s ++ [LogType name (replicate LOG_NUM_DESTINATIONS 0)
                                                    (replicate LOG_NUM_DESTINATIONS [])]) s);;
        modify (log_facility (Z.of_nat i));;
        s ← get;
        register_dests facility_name i 0 (log_destinations s)
  end.

Definition r_log_facility (facility : Z) : L (option cstring) :=
  s ← get;
  if (0 <=? facility) && (facility <? Z.of_nat (length (log_types s))) then
    match log_types s !! Z.to_nat facility with
    | Some t => mret (facility_name t)
    | None => undef
    end
  else abort R_NOT_FOUND.

(** [cb_arg] points to [log_types[i].level[j]]. *)
Definition r_log_facility_change_cb (i j : nat) (name : cstring) : L unit :=
  r ← catch (r_log_get_reg_level name);
  match r with inr level => modify (put_level i j level) | inl _ => mret () end.
Definition r_log_facility_delete_cb (i j : nat) : L unit := modify (put_level i j LOG_LEVEL_UNDEFINED).

(** ** Destinations *)

Definition r_log_get_default_level : L unit :=
  s ← get;
  match env_level (log_env s) with
  | Some log =>
      level ← from_option_ub (atoi log);
      modify (set_levels level level)
  | None => modify (λ s, set_levels LOGGING_DEFAULT_LEVEL (r_log_level_environment s) s)
  end.

Definition upd_dest (i : nat) (f : log_destination → log_destination) (s : log_state) : log_state :=
  set_destinations (alter f i (log_destinations s)) s.
Definition put_enabled (v : Z) (d : log_destination) : log_destination := LogDestination (dest_name d) v (default_level d) (dest_vlog d).
Definition put_default (v : Z) (d : log_destination) : log_destination := LogDestination (dest_name d) (enabled d) v (dest_vlog d).

Definition all_actions : Z := Z.lor (Z.lor NR_REG_CB_ACTION_ADD NR_REG_CB_ACTION_CHANGE) NR_REG_CB_ACTION_DELETE.

(** The keys [logging.<dest>.level] and [logging.<dest>.enabled] of one destination. *)
Definition read_dest (i : nat) (dest : log_destination) : L unit :=
  let reg_key := $"logging." ++ dest_name dest ++ $".level" in
  if (NR_REG_MAX_NR_REGISTRY_LEN <=? strlen reg_key)%nat then abort R_INTERNAL
  else
    ignore (on_log_reg (NR_reg_register_callback reg_key all_actions default_level_change_addr 0));;
    r ← catch (r_log_get_reg_level reg_key);
    match r with
    | inl r => if r =? R_NOT_FOUND then modify (upd_dest i (put_default LOG_LEVEL_UNDEFINED)) else abort R_INTERNAL
    | inr value => modify (upd_dest i (put_default value))
    end;;
    let reg_key := $"logging." ++ dest_name dest ++ $".enabled" in
    if (NR_REG_MAX_NR_REGISTRY_LEN <=? strlen reg_key)%nat then abort R_INTERNAL
    else
      ignore (on_log_reg (NR_reg_register_callback reg_key all_actions destination_change_addr 0));;
      r ← catch (on_log_reg (NR_reg_get NR_REG_TYPE_CHAR reg_key));
      match r with
      | inl r => if r =? R_NOT_FOUND then modify (upd_dest i (put_enabled 0)) else abort r
      | inr c => modify (upd_dest i (put_enabled c))
      end.

Fixpoint read_dests (i : nat) (dests : list log_destination) : L unit :=
  match dests with
  | [] => mret ()
  | dest :: dests' => read_dest i dest;; read_dests (S i) dests'
  end.

Definition r_log_get_destinations (usereg : bool) : L unit :=
  s ← get;
  match env_destination (log_env s) with
  | Some log =>
      modify (λ s, set_destinations
        ((λ d, put_enabled (if streq log (dest_name d) then 1 else 0) d) <$> log_destinations s) s)
  | None => if usereg then read_dests 0 (log_destinations s) else mret ()
  end.

Definition r_log_destination_change_cb : L unit := ignore (r_log_get_destinations true).
Definition r_log_default_level_change_cb : L unit := ignore (r_log_get_destinations true).

Definition _r_log_init (use_reg : bool) : L unit :=
  s ← get;
  (if use_reg then
     if (r_log_initted s <? 2)%nat then
       r_log_get_default_level;;
       ignore (r_log_get_destinations true);;
       ignore (r_log_register $"generic" (λ _ s, s));;
       ignore (r_log_register $"logging" set_logging);;
       modify (set_initted 2)
     else mret ()
   else
     if (r_log_initted s <? 1)%nat then
       r_log_get_default_level;;
       ignore (r_log_get_destinations false);;
       modify (set_initted 1)
     else mret ());;
  s ← get;
  match env_verbose (log_env s) with
  | Some log => v ← from_option_ub (atoi log); modify (set_verbose v)
  | None => mret ()
  end.

Definition r_log_init : L unit := _r_log_init true.

(** The null function pointer takes the destination away. *)
Definition r_log_set_extra_destination (level : Z) (f : option Z) : L unit :=
  s ← get;
  match index_where (λ d, streq $"extra" (dest_name d)) (log_destinations s) with
  | None => abort R_INTERNAL
  | Some i =>
      modify (upd_dest i (λ d,
        match f with
        | None => LogDestination (dest_name d) 0 (default_level d) NoopVlog
        | Some f => LogDestination (dest_name d) 1 level (UserVlog f)
        end))
  end.

(** ** Messages *)

(** The level of a facility: an index of [log_type_ct] passes the check and reads the next,
    still empty, entry of the array, which ends at [MAX_LOG_TYPES]. *)
Definition facility_level (types : list log_type) (facility : Z) (dest_index : nat) : option Z :=
  match types !! Z.to_nat facility with
  | Some t => lt_level t !! dest_index
  | None => if facility <? Z.of_nat MAX_LOG_TYPES then Some 0 else None
  end.

Definition r_logging_dest (dest_index : nat) (facility level : Z) : L bool :=
  _r_log_init false;;
  s ← get;
  d ← from_option_ub (log_destinations s !! dest_index);
  if enabled d =? 0 then mret false
  else if level <=? r_log_level_environment s then mret true
  else if (r_log_initted s <? 2)%nat then mret (level <=? r_log_level s)
  else if (facility <? 0) || (Z.of_nat (length (log_types s)) <? facility) then mret (level <=? r_log_level s)
  else
    l ← from_option_ub (facility_level (log_types s) facility dest_index);
    if l =? LOG_LEVEL_NONE then mret false
    else if 0 <=? l then mret (level <=? l)
    else if negb (default_level d =? LOG_LEVEL_UNDEFINED) then mret (level <=? default_level d)
    else mret (level <=? r_log_level s).

Fixpoint logging_loop (idx : list nat) (facility level : Z) : L bool :=
  match idx with
  | [] => mret false
  | i :: idx' => b ← r_logging_dest i facility level; if b : bool then mret true else logging_loop idx' facility level
  end.
Definition r_logging (facility level : Z) : L bool :=
  _r_log_init false;; logging_loop (seq 0 LOG_NUM_DESTINATIONS) facility level.

(** [snprintf] into [log_fmt_buf]. *)
Definition verbose_format (s : log_state) (facility level : Z) (format : cstring) : cstring :=
  let level_str := if (LOG_EMERG <=? level) && (level <=? LOG_DEBUG)
                   then default $"unknown" (log_level_strings !! Z.to_nat level) else $"unknown" in
  let facility_str := if (0 <=? facility) && (facility <? Z.of_nat (length (log_types s)))
                      then default $"(null)" (log_types s !! Z.to_nat facility ≫= facility_name) else $"unknown" in
  take (MAX_ERROR_STRING_SIZE - 1)
    ($"(" ++ facility_str ++ $"/" ++ level_str ++ $") " ++ format).

Fixpoint vlog_loop (idx : list nat) (facility level : Z) (fmt_str : cstring) : L unit :=
  match idx with
  | [] => mret ()
  | i :: idx' =>
      b ← r_logging_dest i facility level;
      (if b : bool then
         s ← get;
         d ← from_option_ub (log_destinations s !! i);
         modify (emit (LogLine (dest_vlog d) facility level fmt_str))
       else mret ());;
      vlog_loop idx' facility level fmt_str
  end.

Definition r_vlog (facility level : Z) (format : cstring) : L unit :=
  s ← get;
  let fmt_str := if r_log_env_verbose s =? 0 then format else verbose_format s facility level format in
  vlog_loop (seq 0 LOG_NUM_DESTINATIONS) facility level fmt_str.

Definition r_log (facility level : Z) (format : cstring) : L unit := r_vlog facility level format.

(** [r_vlog_e] and [r_vlog_nr], which differ in the text they append.  The check leaves no room
    for the terminator of [": "] after a format of 510 characters. *)
Definition vlog_suffix (facility level : Z) (suffix format : cstring) : L unit :=
  on ← r_logging facility level;
  if on : bool then
    let formatlen := strlen format in
    if (MAX_ERROR_STRING_SIZE <? formatlen + 2)%nat then abort 1
    else if (MAX_ERROR_STRING_SIZE <? formatlen + 3)%nat then undef
    else r_vlog facility level (format ++ $": " ++ take (MAX_ERROR_STRING_SIZE - formatlen - 3) suffix)
  else mret ().

Definition r_vlog_e (facility level : Z) (strerror format : cstring) : L unit := vlog_suffix facility level strerror format.
Definition r_vlog_nr (facility level : Z) (nr_strerror format : cstring) : L unit := vlog_suffix facility level nr_strerror format.

(** What the call of a registry callback does when it is one of the logger's. *)
Definition run_log_cb (where_is : Z → option (nat * nat)) (c : cb_call) : L unit :=
  if call_cb c =? facility_change_addr then
    ij ← from_option_ub (where_is (call_arg c)); r_log_facility_change_cb ij.1 ij.2 (call_name c)
  else if call_cb c =? facility_delete_addr then
    ij ← from_option_ub (where_is (call_arg c)); r_log_facility_delete_cb ij.1 ij.2
  else if call_cb c =? destination_change_addr then r_log_destination_change_cb
  else if call_cb c =? default_level_change_addr then r_log_default_level_change_cb
  else mret ().

Fixpoint run_log_cbs (where_is : Z → option (nat * nat)) (cs : list cb_call) : L unit :=
  match cs with
  | [] => mret ()
  | c :: cs' => run_log_cb where_is c;; run_log_cbs where_is cs'
  end.

(** An operation of the registry, and what the callbacks it ran do to the logger. *)
Definition with_callbacks (where_is : Z → option (nat * nat)) (m : R unit) : L unit :=
  s ← get;
  on_log_reg m;;
  s' ← get;
  run_log_cbs where_is (drop (length (calls (log_reg s))) (calls (log_reg s'))).
End logger.
