(* ===== verification/RLogSpec.v ===== *)
(** * The logger follows the registry

    Registering a facility reads its levels and attaches callbacks that keep them up to date;
    which messages are logged depends on the levels alone. *)

From Stdlib Require Import Ascii.
From S2P Require Import Prelude CString RegNames RegState RegCb RegLocal RegInv RegSpec RegTree RegCbSpec RegFacade RegLabels RegFacadeSpec RegModule RLog.
Local Open Scope Z_scope.

(** ** Levels in the registry *)

(** Strings are only stored with their terminator. *)
Definition strings_ok (v : view) : Prop :=
  ∀ n bs, v n = Some (VArray NR_REG_TYPE_STRING bs) → ∃ d, no_nul d ∧ bs = cbytes d.

(** The level a key has, or why it cannot be read. *)
Definition key_level (v : view) (n : cstring) : Z + Z :=
  if nr_reg_is_valid n then
    match v n with
    | None => inl R_NOT_FOUND
    | Some (VArray NR_REG_TYPE_STRING bs) =>
        if 32 <? Z.of_nat (length bs) then inl R_BAD_ARGS else inr (level_of_text (default [] (c_string_in bs)))
    | Some _ => inl R_FAILED
    end
  else inl R_BAD_ARGS.

(** The registry the logger works on. *)
Record reg_ready (r : reg_state) : Prop := {
  rr_reg : good r;
  rr_strings : strings_ok (reg_view r);
}.

Section levels.
Implicit Types (s : log_state) (r : reg_state) (n key : cstring) (i j : nat).

Lemma set_log_reg_id s : set_log_reg (log_reg s) s = s.
Proof. by destruct s. Qed.

Lemma reg_level_run s n :
  reg_ready (log_reg s) →
  r_log_get_reg_level n s =
    match key_level (reg_view (log_reg s)) n with inr l => Ok l s | inl e => Err e s end.
Proof.
  intros [Hg Hstr]. unfold r_log_get_reg_level, key_level.
  assert (Hinner : NR_reg_get_string n 32 (log_reg s) = nr_reg_get_array n NR_REG_TYPE_STRING 32 (log_reg s)).
  { unfold NR_reg_get_string. by rewrite through_run. }
  rewrite get_array_run in Hinner by done.
  unfold on_log_reg, mbind, M_bind. rewrite Hinner. clear Hinner.
  destruct (nr_reg_is_valid n); [|by rewrite set_log_reg_id].
  destruct (reg_view (log_reg s) n) as [[ty w|ty bs]|] eqn:Hx.
  - rewrite set_log_reg_id. by destruct ty.
  - destruct (decide (ty = NR_REG_TYPE_STRING)) as [->|Hty]; [|rewrite set_log_reg_id; by destruct ty].
    destruct (32 <? Z.of_nat (length bs)); [by rewrite set_log_reg_id|]. destruct (Hstr n bs Hx) as (d & Hd & ->).
    by rewrite set_log_reg_id, c_string_in_cbytes.
  - by rewrite set_log_reg_id.
Qed.

(** A text the logger's buffer has room for. *)
Lemma key_level_text v n d :
  valid n → no_nul d → (length d < 32)%nat → v n = Some (VArray NR_REG_TYPE_STRING (cbytes d)) →
  key_level v n = inr (level_of_text d).
Proof.
  intros Hn Hd Hlen Hv. unfold key_level. rewrite (proj2 (nr_reg_is_valid_spec n)), Hv by done.
  pose proof (length_cbytes d) as Hcb. unfold strlen in Hcb. rewrite (proj2 (Z.ltb_ge _ _)) by lia.
  by rewrite c_string_in_cbytes.
Qed.
End levels.

(** ** Registering the callbacks of one key *)

Section logger.
Context (facility_change_addr facility_delete_addr destination_change_addr default_level_change_addr : Z).
Context (level_addr : nat → nat → Z) (where_is : Z → option (nat * nat)).
Hypothesis addr_change : 0 < facility_change_addr < 2 ^ 64.
Hypothesis addr_delete : 0 < facility_delete_addr < 2 ^ 64.
Hypothesis addr_ne : facility_change_addr ≠ facility_delete_addr.
Hypothesis where_level : ∀ i j, where_is (level_addr i j) = Some (i, j).
Implicit Types (s : log_state) (r : reg_state) (n key name : cstring) (i j : nat).

Abbreviation register_dest := (register_dest facility_change_addr facility_delete_addr level_addr).
Abbreviation register_dests := (register_dests facility_change_addr facility_delete_addr level_addr).
Abbreviation r_log_register := (r_log_register facility_change_addr facility_delete_addr level_addr).

(** The callbacks of the logger on the key of destination [j] of facility [i]. *)
Definition followers i j key : list nr_reg_cb_info :=
  [CbInfo NR_REG_CB_ACTION_ADD facility_change_addr (level_addr i j) key;
   CbInfo NR_REG_CB_ACTION_CHANGE facility_change_addr (level_addr i j) key;
   CbInfo NR_REG_CB_ACTION_DELETE facility_delete_addr (level_addr i j) key].

(** Only registrations changed, and only those of [key]. *)
Record attached r r' key (P : nr_reg_cb_info → Prop) : Prop := {
  at_good : good r';
  at_view m : reg_view r' m = reg_view r m;
  at_calls : calls r' = calls r;
  at_others m : m ≠ key → registered r' m = registered r m;
  at_here c : c ∈ registered r' key ↔ P c;
}.

Lemma attached_of_rereg r r' key P : rereg r r' key P → attached r r' key P.
Proof. intros [? ? ? ? ?]. by split. Qed.

Lemma attached_trans r r' r'' key P Q :
  attached r r' key P → attached r' r'' key Q → attached r r'' key Q.
Proof.
  intros [_ Hv Hc Ho _] [Hg' Hv' Hc' Ho' Hh']. split; [done| | | |done].
  - intros m. by rewrite Hv'.
  - by rewrite Hc'.
  - intros m Hm. by rewrite Ho', Ho.
Qed.

Lemma attached_ext r r' key P Q : attached r r' key P → (∀ c, Q c ↔ P c) → attached r r' key Q.
Proof. intros [? ? ? ? Hh] HQ. split; [done..|]. intros c. by rewrite HQ. Qed.

Lemma each_add_change (f : Z → R unit) :
  each_action f CB_ACTIONS (Z.lor NR_REG_CB_ACTION_ADD NR_REG_CB_ACTION_CHANGE) =
    (f NR_REG_CB_ACTION_ADD;; f NR_REG_CB_ACTION_CHANGE;; mret 0).
Proof. reflexivity. Qed.

Lemma each_delete (f : Z → R unit) :
  each_action f CB_ACTIONS NR_REG_CB_ACTION_DELETE = (f NR_REG_CB_ACTION_DELETE;; mret 0).
Proof. reflexivity. Qed.

Lemma register_change_run r key arg k :
  good r → valid key → 2 <= k → cb_free k r →
  ∃ r', NR_reg_register_callback key (Z.lor NR_REG_CB_ACTION_ADD NR_REG_CB_ACTION_CHANGE) facility_change_addr arg r = Ok () r' ∧
    cb_free (k - 2) r' ∧
    attached r r' key (λ c, c = CbInfo NR_REG_CB_ACTION_CHANGE facility_change_addr arg key ∨
      (c = CbInfo NR_REG_CB_ACTION_ADD facility_change_addr arg key ∨
       c ∈ registered r key ∧ ¬ same_id NR_REG_CB_ACTION_ADD facility_change_addr c) ∧
      ¬ same_id NR_REG_CB_ACTION_CHANGE facility_change_addr c).
Proof.
  intros Hg Hv Hk Hfree.
  destruct (register_free r key NR_REG_CB_ACTION_ADD facility_change_addr arg k) as (r1 & Hrun1 & Hrr1 & Hfree1);
    [done|done|by left|done|lia|done|].
  destruct (register_free r1 key NR_REG_CB_ACTION_CHANGE facility_change_addr arg (k - 1)) as (r2 & Hrun2 & Hrr2 & Hfree2);
    [apply Hrr1|done|by do 2 right; left|done|lia|done|].
  exists r2. split_and!.
  - unfold NR_reg_register_callback. rewrite each_add_change. rewrite (bind_ok _ _ r 0 r2); [done|].
    erewrite bind_ok by exact Hrun1. by erewrite bind_ok by exact Hrun2.
  - by replace (k - 2) with (k - 1 - 1) by lia.
  - eapply attached_ext; [eapply attached_trans; by apply attached_of_rereg|].
    intros c. cbn beta. by rewrite (rr_here _ _ _ _ Hrr1).
Qed.

Lemma register_delete_run r key arg k :
  good r → valid key → 1 <= k → cb_free k r →
  ∃ r', NR_reg_register_callback key NR_REG_CB_ACTION_DELETE facility_delete_addr arg r = Ok () r' ∧
    cb_free (k - 1) r' ∧
    attached r r' key (λ c, c = CbInfo NR_REG_CB_ACTION_DELETE facility_delete_addr arg key ∨
      c ∈ registered r key ∧ ¬ same_id NR_REG_CB_ACTION_DELETE facility_delete_addr c).
Proof.
  intros Hg Hv Hk Hfree.
  destruct (register_free r key NR_REG_CB_ACTION_DELETE facility_delete_addr arg k) as (r1 & Hrun1 & Hrr1 & Hfree1);
    [done|done|by right; left|done|lia|done|].
  exists r1. split_and!; [|done|by apply attached_of_rereg].
  unfold NR_reg_register_callback. rewrite each_delete. rewrite (bind_ok _ _ r 0 r1); [done|]. by erewrite bind_ok by exact Hrun1.
Qed.

(** The callback addresses the logger puts on a key. *)
Definition of_logger (c : nr_reg_cb_info) : Prop :=
  cbi_cb c = facility_change_addr ∨ cbi_cb c = facility_delete_addr.

(** What the logger has on [key]: its three callbacks and no other of its own. *)
Definition following r i j key : Prop :=
  ∀ c, c ∈ followers i j key ↔ c ∈ registered r key ∧ of_logger c.

Definition unfollowed r key : Prop := ∀ c, c ∈ registered r key → ¬ of_logger c.

Lemma attach_run r key i j k :
  good r → valid key → 3 <= k → cb_free k r → unfollowed r key →
  ∃ r', (NR_reg_register_callback key (Z.lor NR_REG_CB_ACTION_ADD NR_REG_CB_ACTION_CHANGE) facility_change_addr (level_addr i j);;
         NR_reg_register_callback key NR_REG_CB_ACTION_DELETE facility_delete_addr (level_addr i j)) r = Ok () r' ∧
    cb_free (k - 3) r' ∧ following r' i j key ∧
    attached r r' key (λ c, c ∈ followers i j key ∨ c ∈ registered r key).
Proof.
  intros Hg Hv Hk Hfree Hun.
  destruct (register_change_run r key (level_addr i j) k) as (r1 & Hrun1 & Hfree1 & Hat1); [done|done|lia|done|].
  destruct (register_delete_run r1 key (level_addr i j) (k - 2)) as (r2 & Hrun2 & Hfree2 & Hat2);
    [apply Hat1|done|lia|done|].
  assert (Hhere : ∀ c, c ∈ registered r2 key ↔ c ∈ followers i j key ∨ c ∈ registered r key).
  { intros c. rewrite (at_here _ _ _ _ Hat2), (at_here _ _ _ _ Hat1). unfold followers.
    rewrite !elem_of_cons. specialize (Hun c). unfold of_logger, same_id in *. split.
    - intros [->|[[->|[[->|[Hc _]] _]] _]]; [tauto..|by right].
    - assert (Hnil : c ∉ @nil nr_reg_cb_info) by apply not_elem_of_nil.
      intros [[->|[->|[->|?]]]|Hc]; cbn; [..|done|].
      + right. split; [|intros [? _]; congruence]. right. split; [by left|by intros [_ ?]].
      + right. split; [by left|intros [? _]; congruence].
      + by left.
      + right. split; [|intros [? _]; apply Hun; tauto]. right. split; [|intros [? _]; apply Hun; tauto].
        right. split; [done|]. intros [? _]. apply Hun; tauto. }
  exists r2. split_and!.
  - erewrite bind_ok by exact Hrun1. exact Hrun2.
  - by replace (k - 3) with (k - 2 - 1) by lia.
  - intros c. rewrite Hhere. split.
    + intros Hc. split; [by left|]. unfold followers, of_logger in *. rewrite !elem_of_cons in Hc.
      destruct Hc as [->|[->|[->|[]%not_elem_of_nil]]]; auto.
    + intros [[Hc|Hc] Hl]; [done|]. by destruct (Hun c).
  - eapply attached_ext; [by eapply attached_trans|]. intros c. rewrite <- Hhere. apply (at_here _ _ _ _ Hat2).
Qed.

(** ** Registering a facility *)

Definition dest_names : list cstring := [$"stderr"; $"syslog"; $"extra"].

(** The key of a facility's level, if a name can be made for it. *)
Definition facility_key (dn name : cstring) : option cstring :=
  match NR_reg_make_registry ($"logging." ++ dn ++ $".facility") name with
  | inl _ => None
  | inr p => if (NR_REG_MAX_NR_REGISTRY_LEN <=? strlen (p ++ $".level"))%nat then None else Some (p ++ $".level")
  end.

Definition level_or (v : view) key : Z := match key_level v key with inr l => l | inl _ => LOG_LEVEL_UNDEFINED end.

Definition put_dest i j key (l : Z) s : log_state :=
  set_types (alter (λ t, LogType (facility_name t) (<[j:=l]> (lt_level t)) (<[j:=key]> (dest_facility_key t))) i (log_types s)) s.

Lemma put_dest_once i j key l s : put_key i j key (put_level i j l s) = put_dest i j key l s.
Proof. unfold put_key, put_level, put_dest, set_types. cbn. f_equal. apply list_alter_alter_eq. Qed.

Lemma put_dest_twice i j key l l0 s : put_level i j l (put_key i j key (put_level i j l0 s)) = put_dest i j key l s.
Proof.
  rewrite put_dest_once. unfold put_level, put_dest, set_types. cbn. f_equal. rewrite list_alter_alter_eq.
  apply list_alter_ext; [|done]. intros t _. cbn. by rewrite list_insert_insert_eq.
Qed.

Lemma facility_key_valid dn name key :
  facility_key dn name = Some key →
  valid key ∧ key ≠ [] ∧ ∃ rest, key = ($"logging." ++ dn ++ $".facility") ++ rest.
Proof.
  unfold facility_key. destruct (NR_reg_make_registry _ name) as [e|p] eqn:Hmk; [done|].
  destruct (Nat.leb_spec NR_REG_MAX_NR_REGISTRY_LEN (strlen (p ++ $".level"))) as [|Hlen]; [done|]. intros [= <-].
  destruct (make_registry_inr _ _ _ Hmk) as (Hv & Hne & Hup). split_and!.
  - assert (Hj : join p $"level" = p ++ $".level") by (unfold join; by rewrite bool_decide_eq_false_2).
    cut (valid (join p $"level")); [rewrite Hj; by intros ?|]. apply join_valid; [done|done|by apply (bool_decide_unpack _)|..].
    + intros c Hc. by repeat (apply elem_of_cons in Hc as [->|Hc]; [by vm_compute|]); apply not_elem_of_nil in Hc.
    + unfold strlen in Hlen. rewrite length_app in Hlen. unfold NR_REG_MAX_NR_REGISTRY_LEN in Hlen.
      cbn in Hlen |- *. lia.
  - by destruct p.
  - revert Hmk. clear. generalize ($"logging." ++ dn ++ $".facility"). intros pre.
    unfold NR_reg_make_registry. repeat (case_match; [done|]). intros [= <-]. eexists. by rewrite <- app_assoc.
Qed.

Lemma register_dest_run name i j dest key k s :
  reg_ready (log_reg s) → facility_key (dest_name dest) name = Some key → 3 <= k → cb_free k (log_reg s) →
  (strlen ($"logging." ++ dest_name dest ++ $".facility") < 128)%nat → unfollowed (log_reg s) key →
  ∃ r', register_dest name i j dest s =
      Ok () (set_log_reg r' (put_dest i j key (level_or (reg_view (log_reg s)) key) s)) ∧
    cb_free (k - 3) r' ∧ following r' i j key ∧
    attached (log_reg s) r' key (λ c, c ∈ followers i j key ∨ c ∈ registered (log_reg s) key).
Proof.
  intros Hr Hkey Hk Hfree Hpre Hun. destruct (facility_key_valid _ _ _ Hkey) as (Hv & _).
  destruct (attach_run (log_reg s) key i j k) as (r' & Hrun & Hfree' & Hfol & Hat); [apply Hr|done..|].
  exists r'. split_and!; [|done..]. unfold RLog.register_dest. mstep. mstep. unfold facility_key in Hkey.
  cbn [log_reg put_level set_types]. rewrite (g_vtbl _ (rr_reg _ Hr)).
  rewrite (proj2 (Nat.leb_gt _ _)) by exact Hpre.
  destruct (NR_reg_make_registry _ name) as [e|p]; [done|].
  destruct (Nat.leb_spec NR_REG_MAX_NR_REGISTRY_LEN (strlen (p ++ $".level"))) as [|Hlen]; [done|].
  assert (p ++ $".level" = key) as <- by congruence. rewrite take_ge by (unfold strlen, NR_REG_MAX_NR_REGISTRY_LEN in *; lia). mstep.
  set (s1 := put_key i j (p ++ $".level") (put_level i j LOG_LEVEL_UNDEFINED s)).
  assert (Hreg : log_reg s1 = log_reg s) by done.
  assert (Hread : catch (r_log_get_reg_level (p ++ $".level")) s1 =
    Ok (match key_level (reg_view (log_reg s)) (p ++ $".level") with inr l => inr l | inl e => inl e end) s1).
  { unfold catch. rewrite reg_level_run by by rewrite Hreg. rewrite Hreg. by destruct (key_level _ _). }
  erewrite bind_ok by exact Hread.
  set (s2 := put_dest i j (p ++ $".level") (level_or (reg_view (log_reg s)) (p ++ $".level")) s).
  erewrite (bind_ok _ _ s1 () s2).
  2: { unfold s1, s2, level_or. destruct (key_level _ _); [by rewrite <- put_dest_once|].
       by rewrite <- put_dest_twice with (l0 := LOG_LEVEL_UNDEFINED). }
  revert Hrun. unfold mbind at 1, M_bind at 1. intros Hrun. unfold mbind, M_bind, on_log_reg.
  change (log_reg s2) with (log_reg s).
  destruct (NR_reg_register_callback _ _ facility_change_addr _ (log_reg s)) as [[] r1| |]; [|done|done].
  cbn [log_reg set_log_reg]. by rewrite Hrun.
Qed.

(** The names of the facilities, in order; the state between calls. *)
Record log_wf s (ns : list cstring) : Prop := {
  lw_names : facility_name <$> log_types s = Some <$> ns;
  lw_distinct : NoDup ns;
  lw_sizes t : t ∈ log_types s → length (lt_level t) = LOG_NUM_DESTINATIONS ∧ length (dest_facility_key t) = LOG_NUM_DESTINATIONS;
  lw_room : (length (log_types s) <= MAX_LOG_TYPES)%nat;
  lw_dests : dest_name <$> log_destinations s = dest_names;
  lw_reg : reg_ready (log_reg s);
}.

(** The level of a facility at a destination. *)
Definition level_at s i j : option Z := log_types s !! i ≫= λ t, lt_level t !! j.

Lemma find_facility_spec name k (types : list log_type) (ns : list cstring) :
  facility_name <$> types = Some <$> ns →
  find_facility name k types = Some ((λ i, k + i)%nat <$> index_where (streq name) ns).
Proof.
  revert k ns. induction types as [|t types IH]; intros k [|n ns] Hns; try done.
  cbn in Hns. injection Hns as Ht Hns. cbn. rewrite Ht. destruct (streq name n); cbn; [by rewrite Nat.add_0_r|].
  rewrite (IH _ ns) by done. destruct (index_where _ ns) as [i|]; [|done]. cbn. do 2 f_equal. lia.
Qed.

Lemma index_where_absent name (ns : list cstring) : name ∉ ns → index_where (streq name) ns = None.
Proof.
  intros Hn. apply index_where_None. intros n Hin. apply not_true_iff_false. rewrite streq_spec. by intros ->.
Qed.

Lemma index_where_there name (ns : list cstring) i :
  NoDup ns → ns !! i = Some name → index_where (streq name) ns = Some i.
Proof.
  intros Hnd Hi. destruct (index_where (streq name) ns) as [k|] eqn:Hk.
  - apply index_where_Some in Hk as [(n & Hn & <-%streq_spec) _]. f_equal. by eapply NoDup_lookup.
  - rewrite index_where_None in Hk. specialize (Hk name). rewrite (proj2 (streq_spec name name)) in Hk by done.
    by discriminate Hk; eapply list_elem_of_lookup_2.
Qed.

(** A facility's keys are free for it: none of them follows another facility. *)
Definition keys_free r name (dns keys : list cstring) : Prop :=
  Forall2 (λ dn key, facility_key dn name = Some key) dns keys ∧ ∀ key, key ∈ keys → unfollowed r key.

Lemma keys_distinct name (a b : cstring) key :
  facility_key a name = Some key → facility_key b name = Some key → a ∈ dest_names → b ∈ dest_names → a = b.
Proof.
  intros (_ & _ & ra & Ha)%facility_key_valid (_ & _ & rb & Hb)%facility_key_valid. rewrite Ha in Hb. revert Hb.
  unfold dest_names. rewrite !elem_of_cons.
  intros Hb [->|[->|[->|[]%not_elem_of_nil]]] [->|[->|[->|[]%not_elem_of_nil]]]; done.
Qed.

Lemma level_or_ext v v' key : (∀ m, v' m = v m) → level_or v' key = level_or v key.
Proof. intros Hv. unfold level_or, key_level. by rewrite Hv. Qed.

(** The levels and keys of several destinations. *)
Definition put_dests (v : view) i (jks : list (nat * cstring)) s : log_state :=
  foldl (λ s jk, put_dest i jk.1 jk.2 (level_or v jk.2) s) s jks.

Lemma put_dests_reg v i jks r s : put_dests v i jks (set_log_reg r s) = set_log_reg r (put_dests v i jks s).
Proof. unfold put_dests. revert s. induction jks as [|jk jks IH]; intros s; [done|]. cbn. by rewrite <- IH. Qed.

Lemma put_dests_ext v v' i jks s : (∀ m, v' m = v m) → put_dests v' i jks s = put_dests v i jks s.
Proof. intros Hv. apply foldl_ext. intros s0 jk. by rewrite (level_or_ext v v'). Qed.

(** The loop over the destinations. *)
Lemma register_dests_run name i dests keys j k s :
  reg_ready (log_reg s) → Forall (λ dest, dest_name dest ∈ dest_names) dests → NoDup (dest_name <$> dests) →
  keys_free (log_reg s) name (dest_name <$> dests) keys →
  3 * Z.of_nat (length dests) <= k → cb_free k (log_reg s) →
  ∃ r', register_dests name i j dests s =
      Ok () (set_log_reg r' (put_dests (reg_view (log_reg s)) i (zip (seq j (length dests)) keys) s)) ∧
    good r' ∧ (∀ m, reg_view r' m = reg_view (log_reg s) m) ∧ calls r' = calls (log_reg s) ∧
    (∀ m, m ∉ keys → registered r' m = registered (log_reg s) m) ∧
    (∀ l key, keys !! l = Some key → following r' i (j + l) key).
Proof.
  intros Hr Hds Hnd [Hkeys Hfree0]. revert j k s Hr Hfree0. revert keys Hkeys.
  induction dests as [|dest dests IH]; intros keys Hkeys j k s Hr Hun Hk Hfree.
  { apply Forall2_nil_inv_l in Hkeys as ->. exists (log_reg s). cbn. rewrite set_log_reg_id.
    split_and!; [done|apply Hr|done..|by intros l key Hl]. }
  apply Forall2_cons_inv_l in Hkeys as (key & keys' & Hkey & Hkeys & ->).
  apply Forall_cons in Hds as [Hd Hds]. apply NoDup_cons in Hnd as [Hnin Hnd]. cbn [length] in Hk.
  destruct (register_dest_run name i j dest key k s Hr Hkey) as (r1 & Hrun1 & Hfree1 & Hfol1 & Hat1);
    [lia|done| |apply Hun; by left|].
  { revert Hd. unfold dest_names. rewrite !elem_of_cons. intros [->|[->|[->|[]%not_elem_of_nil]]]; vm_compute; lia. }
  assert (Hout : key ∉ keys').
  { intros (l & Hl)%list_elem_of_lookup. destruct (Forall2_lookup_r _ _ _ _ _ Hkeys Hl) as (dn & Hdn & Hk').
    apply Hnin. rewrite (keys_distinct name (dest_name dest) dn key); [by eapply list_elem_of_lookup_2|done..|].
    apply list_elem_of_lookup_2 in Hdn. apply list_elem_of_fmap in Hdn as (d & -> & Hin).
    by apply (proj1 (Forall_forall _ _) Hds). }
  set (s0 := put_dest i j key (level_or (reg_view (log_reg s)) key) s).
  destruct (IH Hds Hnd keys' Hkeys (S j) (k - 3) (set_log_reg r1 s0)) as (r' & Hrun & Hg' & Hv' & Hc' & Ho' & Hf').
  - destruct Hr as [Hg Hstr]. split; [apply Hat1|]. intros m bs. cbn. rewrite (at_view _ _ _ _ Hat1). apply Hstr.
  - intros key' Hin. unfold unfollowed. cbn [log_reg set_log_reg].
    rewrite (at_others _ _ _ _ Hat1) by (intros ->; done). apply Hun. by right.
  - lia.
  - done.
  - cbn [log_reg set_log_reg] in *. exists r'. split_and!.
    + cbn [RLog.register_dests]. erewrite bind_ok by exact Hrun1. fold s0. rewrite Hrun. f_equal.
      rewrite put_dests_reg, (put_dests_ext (reg_view (log_reg s))) by apply Hat1. done.
    + done.
    + intros m. rewrite Hv'. apply Hat1.
    + rewrite Hc'. apply Hat1.
    + intros m [Hm Hm']%not_elem_of_cons. rewrite Ho' by done. by apply (at_others _ _ _ _ Hat1).
    + intros [|l] key' Hl; cbn in Hl.
      * injection Hl as <-. rewrite Nat.add_0_r. intros c. rewrite Ho' by done. apply Hfol1.
      * rewrite Nat.add_succ_r. by apply Hf'.
Qed.

Lemma alter_last {A} (f : A → A) (l : list A) x : alter f (length l) (l ++ [x]) = l ++ [f x].
Proof. induction l as [|y l IH]; [done|]. cbn. by rewrite <- IH. Qed.

(** The three levels of a facility just entered. *)
Lemma put_dests_new v (ts : list log_type) nm ls ks (k0 k1 k2 : cstring) s :
  log_types s = ts ++ [LogType nm ls ks] → length ls = 3%nat → length ks = 3%nat →
  put_dests v (length ts) (zip (seq 0 3) [k0; k1; k2]) s =
    set_types (ts ++ [LogType nm [level_or v k0; level_or v k1; level_or v k2] [k0; k1; k2]]) s.
Proof.
  intros Hts Hls Hks. destruct ls as [|? [|? [|? [|]]]], ks as [|? [|? [|? [|]]]]; try done.
  unfold put_dests. cbn [seq zip zip_with foldl fst snd]. unfold put_dest, set_types. cbn [log_types].
  by rewrite Hts, !alter_last.
Qed.

(** The whole registration of a new facility. *)
Lemma register_new_run s ns name keys :
  log_wf s ns → name ∉ ns → (length ns < MAX_LOG_TYPES)%nat → keys_free (log_reg s) name dest_names keys →
  cb_free 9 (log_reg s) →
  ∃ s', r_log_register name set_logging s = Ok () s' ∧ log_wf s' (ns ++ [name]) ∧
    NR_LOG_LOGGING s' = Z.of_nat (length ns) ∧
    (∀ m, reg_view (log_reg s') m = reg_view (log_reg s) m) ∧ calls (log_reg s') = calls (log_reg s) ∧
    (∀ m, m ∉ keys → registered (log_reg s') m = registered (log_reg s) m) ∧
    (∀ i j, (i < length ns)%nat → level_at s' i j = level_at s i j) ∧
    ∀ j key, keys !! j = Some key →
      level_at s' (length ns) j = Some (level_or (reg_view (log_reg s)) key) ∧ following (log_reg s') (length ns) j key.
Proof.
  intros [Hns Hnd Hsz Hroom Hdn Hr] Hname Hmax Hkeys Hfree.
  assert (Hlen : length (log_types s) = length ns) by (by rewrite <- (length_fmap facility_name), Hns, length_fmap).
  set (s1 := set_types (log_types s ++ [LogType (Some name) (replicate LOG_NUM_DESTINATIONS 0) (replicate LOG_NUM_DESTINATIONS [])]) s).
  set (s2 := set_logging (Z.of_nat (length ns)) s1).
  destruct (register_dests_run name (length ns) (log_destinations s) keys 0 9 s2)
    as (r' & Hrun & Hg' & Hv' & Hc' & Ho' & Hf').
  { exact Hr. }
  { apply Forall_forall. intros d Hd. rewrite <- Hdn. by apply list_elem_of_fmap_2. }
  { rewrite Hdn. by apply (bool_decide_unpack _). }
  { by rewrite Hdn. }
  { rewrite <- (length_fmap dest_name), Hdn. done. }
  { exact Hfree. }
  assert (Hd3 : length (log_destinations s) = 3%nat) by (by rewrite <- (length_fmap dest_name), Hdn).
  destruct keys as [|k0 [|k1 [|k2 [|]]]]; try by (destruct Hkeys as [Hk _]; apply Forall2_length in Hk).
  assert (Hput : put_dests (reg_view (log_reg s)) (length ns) (zip (seq 0 (length (log_destinations s))) [k0; k1; k2]) s2 =
    set_types (log_types s ++ [LogType (Some name) [level_or (reg_view (log_reg s)) k0; level_or (reg_view (log_reg s)) k1;
      level_or (reg_view (log_reg s)) k2] [k0; k1; k2]]) s2).
  { rewrite <- Hlen, Hd3. by eapply put_dests_new. }
  change (log_reg s2) with (log_reg s) in *. rewrite Hput in Hrun. clear Hput.
  eexists. split; [|split; [|split; [|split; [|split; [|split; [|split]]]]]].
  - unfold RLog.r_log_register. mstep. rewrite (find_facility_spec name 0 _ ns Hns), index_where_absent by done.
    cbn [from_option_ub fmap option_fmap option_map]. mstep. rewrite (proj2 (Nat.eqb_neq _ _)) by lia.
    erewrite bind_ok.
    2: { unfold on_log_reg. rewrite alloc_ok_plenty by apply Hr. by rewrite set_log_reg_id. }
    mstep. rewrite Hlen. mstep. mstep. exact Hrun.
  - split; cbn [log_types log_destinations log_reg set_log_reg set_types].
    + rewrite !fmap_app, Hns. done.
    + apply NoDup_app. split_and!; [done| |by apply NoDup_singleton]. intros n Hn ->%list_elem_of_singleton. done.
    + intros t [Ht| ->%list_elem_of_singleton]%elem_of_app; [by apply Hsz|done].
    + rewrite length_app. cbn. lia.
    + done.
    + destruct Hr as [_ Hstr]. split; [done|]. intros m bs. rewrite Hv'. apply Hstr.
  - done.
  - exact Hv'.
  - exact Hc'.
  - exact Ho'.
  - intros i j Hi. unfold level_at. cbn. by rewrite lookup_app_l by lia.
  - intros j key Hj. split; [|by apply (Hf' j)]. unfold level_at. cbn. rewrite lookup_app_r, Hlen, Nat.sub_diag by lia.
    cbn. destruct j as [|[|[|]]]; cbn in Hj |- *; by simplify_eq.
Qed.

(** Registering a facility that is there. *)
Lemma register_again_run s ns name i :
  log_wf s ns → ns !! i = Some name →
  r_log_register name set_logging s = Ok () (set_logging (Z.of_nat i) s) ∧
  r_log_facility (Z.of_nat i) s = Ok (Some name) s.
Proof.
  intros [Hns Hnd _ _ _ _] Hi. assert (Ht : facility_name <$> (log_types s !! i) = Some (Some name)).
  { by rewrite <- list_lookup_fmap, Hns, list_lookup_fmap, Hi. }
  split.
  - unfold RLog.r_log_register. mstep. rewrite (find_facility_spec name 0 _ ns Hns), (index_where_there name ns i) by done.
    done.
  - unfold r_log_facility. mstep. destruct (log_types s !! i) as [t|] eqn:Hti; [|done]. injection Ht as Ht.
    pose proof (lookup_lt_Some _ _ _ Hti). rewrite (proj2 (Z.leb_le _ _)), (proj2 (Z.ltb_lt _ _)), Nat2Z.id, Hti by lia.
    cbn. by rewrite Ht.
Qed.

(** ** Following the keys *)

Abbreviation run_log_cb := (run_log_cb facility_change_addr facility_delete_addr destination_change_addr default_level_change_addr where_is).
Abbreviation run_log_cbs := (run_log_cbs facility_change_addr facility_delete_addr destination_change_addr default_level_change_addr where_is).
Abbreviation with_callbacks := (with_callbacks facility_change_addr facility_delete_addr destination_change_addr default_level_change_addr where_is).

(** The addresses of the logger's callbacks. *)
Definition log_addr (a : Z) : Prop :=
  a = facility_change_addr ∨ a = facility_delete_addr ∨ a = destination_change_addr ∨ a = default_level_change_addr.

(** On the way from [key] to the root the logger has nothing but the callbacks of [i], [j]. *)
Definition alone r i j key : Prop :=
  following r i j key ∧
  ∀ p c, p ∈ lineage key → c ∈ registered r p → log_addr (cbi_cb c) → p = key ∧ of_logger c.

Lemma run_other c s : ¬ log_addr (call_cb c) → run_log_cb c s = Ok () s.
Proof.
  intros Hno. unfold RLog.run_log_cb, log_addr in *.
  by rewrite !(proj2 (Z.eqb_neq _ _)) by tauto.
Qed.

Lemma put_level_twice i j l s : put_level i j l (put_level i j l s) = put_level i j l s.
Proof.
  unfold put_level, set_types. cbn. f_equal. rewrite list_alter_alter_eq.
  apply list_alter_ext; [|done]. intros t _. cbn. by rewrite list_insert_insert_eq.
Qed.

(** Calls of which every one of the logger's sets the level [i], [j] to [l]. *)
Lemma run_cbs_level i j l r cs s :
  (∀ c s0, c ∈ cs → log_addr (call_cb c) → log_reg s0 = r → run_log_cb c s0 = Ok () (put_level i j l s0)) →
  log_reg s = r →
  ∃ s', run_log_cbs cs s = Ok () s' ∧
    if existsb (λ c, (call_cb c =? facility_change_addr) || (call_cb c =? facility_delete_addr)) cs
    then s' = put_level i j l s else s' = s ∨ s' = put_level i j l s.
Proof.
  intros Hcs. revert s. induction cs as [|c cs IH]; intros s Hr; cbn [existsb RLog.run_log_cbs].
  { exists s. split; [done|by left]. }
  assert (Hdec : log_addr (call_cb c) ∨ ¬ log_addr (call_cb c)) by (unfold log_addr; lia).
  destruct Hdec as [Hl|Hl].
  - destruct (IH (λ c0 s0 Hc, Hcs c0 s0 (list_elem_of_further _ _ _ Hc)) (put_level i j l s)) as (s' & Hrun & Hs'); [done|].
    exists s'. erewrite bind_ok by by apply Hcs; [left|..]. split; [done|]. rewrite put_level_twice in Hs'.
    destruct (existsb _ cs); [by rewrite orb_true_r|]. destruct Hs' as [->| ->]; by destruct (_ || _ || _); [|right].
  - destruct (IH (λ c0 s0 Hc, Hcs c0 s0 (list_elem_of_further _ _ _ Hc)) s) as (s' & Hrun & Hs'); [done|].
    exists s'. rewrite (bind_ok _ _ s () s) by by apply run_other. split; [done|].
    unfold log_addr in Hl. by rewrite !(proj2 (Z.eqb_neq (call_cb c) _)) by tauto.
Qed.

(** The calls of an event between [key] and the root. *)
Lemma event_call_of r i j key a n c :
  alone r i j key → (∀ p, p ∈ lineage n → p ∈ lineage key) → (key ∈ lineage n → n = key) →
  c ∈ event_calls r a n → log_addr (call_cb c) →
  call_arg c = level_addr i j ∧ call_name c = key ∧ call_action c = a ∧
  (call_cb c = facility_change_addr ∧ (a = NR_REG_CB_ACTION_ADD ∨ a = NR_REG_CB_ACTION_CHANGE) ∨
   call_cb c = facility_delete_addr ∧ a = NR_REG_CB_ACTION_DELETE).
Proof.
  intros [Hfol Halone] Hsub Hkey Hc Hl. unfold event_calls in Hc.
  apply list_elem_of_bind in Hc as (p & Hc & Hp). unfold calls_of in Hc.
  apply list_elem_of_bind in Hc as (x & ->%list_elem_of_singleton & [Ha Hx]%list_elem_of_filter). cbn in Hl |- *.
  destruct (Halone p x (Hsub p Hp) Hx Hl) as [-> Hof]. rewrite (Hkey Hp). assert (Hin : x ∈ followers i j key) by by apply Hfol.
  unfold followers in Hin. rewrite !elem_of_cons in Hin.
  destruct Hin as [->|[->|[->|[]%not_elem_of_nil]]]; cbn in Ha |- *; subst; auto 10.
Qed.

Lemma event_call_in r i j key a :
  following r i j key → a = NR_REG_CB_ACTION_ADD ∨ a = NR_REG_CB_ACTION_CHANGE →
  CbCall facility_change_addr (level_addr i j) a key ∈ event_calls r a key.
Proof.
  intros Hfol Ha. unfold event_calls. rewrite lineage_unfold, event_calls_cons. apply elem_of_app. left. unfold calls_of.
  apply list_elem_of_bind. exists (CbInfo a facility_change_addr (level_addr i j) key). split; [by left|].
  apply list_elem_of_filter. split; [done|]. apply Hfol. unfold followers. destruct Ha as [-> | ->]; [by left|right; by left].
Qed.

Lemma event_call_delete r i j key :
  following r i j key →
  CbCall facility_delete_addr (level_addr i j) NR_REG_CB_ACTION_DELETE key ∈ event_calls r NR_REG_CB_ACTION_DELETE key.
Proof.
  intros Hfol. unfold event_calls. rewrite lineage_unfold, event_calls_cons. apply elem_of_app. left. unfold calls_of.
  apply list_elem_of_bind. exists (CbInfo NR_REG_CB_ACTION_DELETE facility_delete_addr (level_addr i j) key).
  split; [by left|]. apply list_elem_of_filter. split; [done|]. apply Hfol. unfold followers. right; right; by left.
Qed.

Lemma log_wf_reg s ns r : log_wf s ns → reg_ready r → log_wf (set_log_reg r s) ns.
Proof. intros [? ? ? ? ? _] ?. by split. Qed.

Lemma put_level_names i j l s : facility_name <$> log_types (put_level i j l s) = facility_name <$> log_types s.
Proof. cbn. generalize (log_types s). intros ts. revert i. induction ts as [|t ts IH]; intros [|i]; cbn; [done..|]. by rewrite IH. Qed.

Lemma put_level_wf s ns i j l : log_wf s ns → log_wf (put_level i j l s) ns.
Proof.
  intros [Hns Hnd Hsz Hroom Hd Hr]. split; [by rewrite put_level_names|done| |cbn; by rewrite length_alter|done|done].
  intros t Ht. apply list_elem_of_lookup in Ht as [k Hk]. cbn in Hk. destruct (decide (i = k)) as [->|Hne].
  - rewrite list_lookup_alter_eq in Hk. destruct (log_types s !! k) as [t0|] eqn:Ht0; [|done]. injection Hk as <-.
    cbn. rewrite length_insert. eapply Hsz, list_elem_of_lookup_2, Ht0.
  - rewrite list_lookup_alter_ne in Hk by done. eapply Hsz, list_elem_of_lookup_2, Hk.
Qed.

Lemma put_level_at s i j l : is_Some (level_at s i j) → level_at (put_level i j l s) i j = Some l.
Proof.
  unfold level_at. intros [l0 Hl]. cbn. rewrite list_lookup_alter_eq. destruct (log_types s !! i) as [t|]; [|done]. cbn in *.
  apply list_lookup_insert_eq. by eapply lookup_lt_Some.
Qed.

Lemma put_level_ne s i j l i' j' : (i', j') ≠ (i, j) → level_at (put_level i j l s) i' j' = level_at s i' j'.
Proof.
  unfold level_at. intros Hne. cbn. destruct (decide (i = i')) as [->|Hi].
  - rewrite list_lookup_alter_eq. destruct (log_types s !! i') as [t|]; [|done]. cbn.
    apply list_lookup_insert_ne. congruence.
  - by rewrite list_lookup_alter_ne.
Qed.

(** Only the level [i], [j] changed, to [l]. *)
Record level_becomes s s' (ns : list cstring) i j (l : Z) : Prop := {
  lb_wf : log_wf s' ns;
  lb_here : level_at s' i j = Some l;
  lb_others i' j' : (i', j') ≠ (i, j) → level_at s' i' j' = level_at s i' j';
}.

(** A step of the registry whose events set the level [i], [j] to [l], or leave it there. *)
Lemma with_callbacks_level s ns i j l (m : R unit) r' evs :
  log_wf s ns → m (log_reg s) = Ok () r' → reg_ready r' → calls r' = calls (log_reg s) ++ evs →
  (∀ c s0, c ∈ evs → log_addr (call_cb c) → log_reg s0 = r' → run_log_cb c s0 = Ok () (put_level i j l s0)) →
  is_Some (level_at s i j) →
  level_at s i j = Some l ∨ (∃ c, c ∈ evs ∧ (call_cb c = facility_change_addr ∨ call_cb c = facility_delete_addr)) →
  ∃ s', with_callbacks m s = Ok () s' ∧ level_becomes s s' ns i j l.
Proof.
  intros Hwf Hrun Hr Hcalls Hcs Hsome Hset. pose proof (log_wf_reg s ns r' Hwf Hr) as Hwf1.
  destruct (run_cbs_level i j l r' evs (set_log_reg r' s)) as (s' & Hrun' & Hs'); [done|done|].
  exists s'. split.
  - unfold RLog.with_callbacks, on_log_reg. mstep. erewrite bind_ok by by rewrite Hrun. mstep. cbn [log_reg set_log_reg].
    by rewrite Hcalls, drop_app_length.
  - assert (Hput : level_becomes s (put_level i j l (set_log_reg r' s)) ns i j l).
    { split; [by apply put_level_wf|by apply put_level_at|]. intros i' j' Hne. by rewrite put_level_ne. }
    destruct (existsb _ evs) eqn:Hex; [by subst|]. destruct Hs' as [->| ->]; [|done].
    destruct Hset as [Hl|(c & Hc & Hcb)]; [by split|]. exfalso.
    assert (Htrue : existsb (λ c, (call_cb c =? facility_change_addr) || (call_cb c =? facility_delete_addr)) evs = true);
      [|congruence]. apply existsb_exists. exists c. split; [by apply list_elem_of_In|]. lia.
Qed.

Lemma change_cb_level s r' i j c key l :
  log_reg s = r' → reg_ready r' → key_level (reg_view r') key = inr l →
  call_cb c = facility_change_addr → call_arg c = level_addr i j → call_name c = key →
  run_log_cb c s = Ok () (put_level i j l s).
Proof.
  intros Hs Hr Hl Hcb Harg Hname. unfold RLog.run_log_cb. rewrite Hcb, Z.eqb_refl, Harg, where_level, Hname. mstep.
  unfold r_log_facility_change_cb. cbn [fst snd]. erewrite bind_ok; [|apply catch_ok]; [|rewrite reg_level_run by by rewrite Hs]; [done|].
  by rewrite Hs, Hl.
Qed.

Lemma delete_cb_level s i j c :
  call_cb c = facility_delete_addr → call_arg c = level_addr i j → run_log_cb c s = Ok () (put_level i j LOG_LEVEL_UNDEFINED s).
Proof.
  intros Hcb Harg. unfold RLog.run_log_cb. rewrite Hcb, Harg, where_level, (proj2 (Z.eqb_neq _ _)), Z.eqb_refl by done. done.
Qed.

Lemma lineage_sub n key p : n ∈ lineage key → p ∈ lineage n → p ∈ lineage key.
Proof.
  rewrite !lineage_spec. intros Hn Hp. induction key as [key IH] using (induction_ltof1 _ (@length ascii)); unfold ltof in IH.
  destruct (decide (key = [])) as [->|Hne].
  - assert (n = []) as ->; [|done]. apply iter_match_length in Hn. apply nil_length_inv. cbn in Hn. lia.
  - apply (iter_match_up _ _ Hne) in Hn as [<-|Hn]; [done|]. apply (iter_match_up _ _ Hne). right.
    apply IH; [by apply up_shorter|done].
Qed.

(** Setting the text of a key, new or not. *)
Lemma set_text_run r key d :
  good r → strings_ok (reg_view r) → valid key → no_nul d → (length d < 32)%nat →
  writable (reg_view r) key NR_REG_TYPE_STRING →
  ∃ r' evs, nr_reg_local_set_string key d r = Ok () r' ∧ reg_ready r' ∧ calls r' = calls r ++ evs ∧
    (∀ n, registered r' n = registered r n) ∧ key_level (reg_view r') key = inr (level_of_text d) ∧
    (∀ c, c ∈ evs → ∃ a n, (a = NR_REG_CB_ACTION_ADD ∨ a = NR_REG_CB_ACTION_CHANGE) ∧ n ∈ key :: ancestors key ∧ c ∈ event_calls r a n) ∧
    (reg_view r key = Some (VArray NR_REG_TYPE_STRING (cbytes d)) ∨
     ∃ a, (a = NR_REG_CB_ACTION_ADD ∨ a = NR_REG_CB_ACTION_CHANGE) ∧ ∀ c, c ∈ event_calls r a key → c ∈ evs).
Proof.
  intros Hg Hstr Hv Hd Hlen Hw. pose proof (length_cbytes d) as Hcb. unfold strlen in Hcb.
  pose proof (set_array_run r key NR_REG_TYPE_STRING (cbytes d) Hg Hv eq_refl ltac:(lia)) as Hspec.
  assert (Hdone : ∀ r' (v : view) evs, evolves r r' (upd v key (Some (VArray NR_REG_TYPE_STRING (cbytes d)))) evs →
    (∀ n bs, v n = Some (VArray NR_REG_TYPE_STRING bs) → reg_view r n = Some (VArray NR_REG_TYPE_STRING bs)) →
    reg_ready r' ∧ calls r' = calls r ++ evs ∧ (∀ n, registered r' n = registered r n) ∧
    key_level (reg_view r') key = inr (level_of_text d)).
  { intros r' v evs [Hg' Hcbs Hv' Hc'] Hback. split_and!; [split; [done|]|done|done|].
    - intros n bs. rewrite Hv'. unfold upd. case_decide; [intros [= <-]; by exists d|]. intros Hx. by eapply Hstr, Hback.
    - apply key_level_text; [done..|]. rewrite Hv'. unfold upd. by rewrite decide_True. }
  unfold writable in Hw. destruct (reg_view r key) as [[ty w|ty old]|] eqn:Hx; cbn in Hw.
  - exfalso. subst ty. apply view_node in Hx as (l & nd & Hat & Hval).
    destruct (node_at_objs r key l nd Hg Hat) as (_ & Hnd & _). destruct nd as [ty' w'|]; [|done].
    injection Hval as -> ->. by destruct Hnd.
  - subst ty. rewrite decide_True in Hspec by done. destruct Hspec as (r' & Hrun & Hev).
    destruct (Hdone _ _ _ Hev) as (? & ? & ? & ?); [done|]. eexists r', _. split_and!; [done..| |].
    + intros c. destruct (decide (old = cbytes d)); [by intros ?%not_elem_of_nil|]. intros Hc.
      exists NR_REG_CB_ACTION_CHANGE, key. split_and!; [by right|by left|done].
    + destruct (decide (old = cbytes d)) as [->|]; [by left|]. right. exists NR_REG_CB_ACTION_CHANGE. split; [by right|done].
  - destruct (Hspec Hw) as (r' & Hrun & Hev). destruct (Hdone _ _ _ Hev) as (? & ? & ? & ?).
    { intros n bs. unfold fill. case_decide; done. }
    eexists r', _. split_and!; [done..| |].
    + intros c (n & Hc & Hn)%list_elem_of_bind. exists NR_REG_CB_ACTION_ADD, n. split_and!; [by left| |done].
      rewrite elem_of_reverse in Hn. apply elem_of_cons in Hn as [->|[Hn _]%missing_sub]; [by left|by right].
    + right. exists NR_REG_CB_ACTION_ADD. split; [by left|]. intros c Hc. apply list_elem_of_bind. exists key.
      split; [done|]. rewrite elem_of_reverse. by left.
Qed.

(** The names whose events a new key raises lie on its way to the root. *)
Lemma on_the_way key n :
  valid key → key ≠ [] → n ∈ key :: ancestors key → n ∈ lineage key ∧ (key ∈ lineage n → n = key).
Proof.
  intros Hv Hne Hn. split.
  - rewrite lineage_ancestors by done. apply elem_of_cons in Hn as [->|Hn]; [by left|]. right. apply elem_of_app. by left.
  - intros Hk%lineage_spec%iter_match_length. apply elem_of_cons in Hn as [->|Hn%ancestors_shorter]; [done|lia].
Qed.

Lemma follows_set_run s ns i j key d :
  log_wf s ns → alone (log_reg s) i j key → level_at s i j = Some (level_or (reg_view (log_reg s)) key) →
  valid key → key ≠ [] → no_nul d → (length d < 32)%nat → writable (reg_view (log_reg s)) key NR_REG_TYPE_STRING →
  ∃ s', with_callbacks (nr_reg_local_set_string key d) s = Ok () s' ∧ level_becomes s s' ns i j (level_of_text d).
Proof.
  intros Hwf Halone Hlevel Hv Hne Hd Hlen Hw. destruct (lw_reg _ _ Hwf) as [Hg Hstr].
  destruct (set_text_run (log_reg s) key d) as (r' & evs & Hrun & Hr' & Hcalls & _ & Hkl & Hevs & Hfired); [done..|].
  eapply with_callbacks_level; [done..| |by eexists|].
  - intros c s0 Hc Hl Hs0. destruct (Hevs c Hc) as (a & n & Ha & Hn & Hin). destruct (on_the_way key n Hv Hne Hn) as [Hway Hself].
    destruct (event_call_of (log_reg s) i j key a n c Halone) as (Harg & Hname & _ & [[Hcb _]|[_ Hdel]]); [|done..| |].
    + intros p. by apply lineage_sub.
    + by eapply change_cb_level.
    + exfalso. by destruct Ha; subst.
  - destruct Hfired as [Hsame|(a & Ha & Hfired)].
    + left. rewrite Hlevel. f_equal. unfold level_or. by rewrite (key_level_text _ key d).
    + right. eexists. split; [by apply Hfired, (event_call_in (log_reg s) i j); [apply Halone|]|by left].
Qed.

Lemma follows_del_run s ns i j key :
  log_wf s ns → alone (log_reg s) i j key → is_Some (level_at s i j) → valid key → key ≠ [] →
  ∃ s', with_callbacks (nr_reg_local_del key) s = Ok () s' ∧ level_becomes s s' ns i j LOG_LEVEL_UNDEFINED.
Proof.
  intros Hwf Halone Hlevel Hv Hne. destruct (lw_reg _ _ Hwf) as [Hg Hstr].
  destruct (del_run (log_reg s) key Hg Hv) as (r' & Hrun & Hev). rewrite decide_False in Hev by done.
  destruct Hev as [Hg' _ Hv' Hcalls].
  eapply with_callbacks_level; [done|done| |done| |done|].
  - split; [done|]. intros n bs. rewrite Hv'. case_match; [done|]. apply Hstr.
  - intros c s0 Hc Hl _.
    destruct (event_call_of (log_reg s) i j key NR_REG_CB_ACTION_DELETE key c Halone) as (Harg & _ & _ & [[_ [?|?]]|[Hcb _]]);
      [done..|]. by apply delete_cb_level.
  - right. eexists. split; [by apply (event_call_delete (log_reg s) i j key), Halone|by right].
Qed.

(** ** Which messages go where *)

Abbreviation _r_log_init := (_r_log_init facility_change_addr facility_delete_addr destination_change_addr default_level_change_addr level_addr).
Abbreviation r_logging_dest := (r_logging_dest facility_change_addr facility_delete_addr destination_change_addr default_level_change_addr level_addr).
Abbreviation r_logging := (r_logging facility_change_addr facility_delete_addr destination_change_addr default_level_change_addr level_addr).
Abbreviation r_vlog := (r_vlog facility_change_addr facility_delete_addr destination_change_addr default_level_change_addr level_addr).
Abbreviation vlog_suffix := (vlog_suffix facility_change_addr facility_delete_addr destination_change_addr default_level_change_addr level_addr).

(** The logger after [r_log_init], with [R_LOG_VERBOSE] not in the environment. *)
Definition log_ready s : Prop := r_log_initted s = 2%nat ∧ env_verbose (log_env s) = None ∧ r_log_env_verbose s = 0.

(** The least severe level of a facility that goes to a destination: the environment's, the
    facility's own, the destination's or the logger's, in this order. *)
Definition threshold s (facility : Z) (j : nat) (d : log_destination) : Z :=
  let env := r_log_level_environment s in
  let default := if default_level d =? LOG_LEVEL_UNDEFINED then r_log_level s else default_level d in
  if (facility <? 0) || (Z.of_nat (length (log_types s)) <? facility) then Z.max env (r_log_level s)
  else
    match facility_level (log_types s) facility j with
    | Some l => if l =? LOG_LEVEL_NONE then env else Z.max env (if 0 <=? l then l else default)
    | None => env
    end.

Definition goes_to s (facility level : Z) (j : nat) (d : log_destination) : bool :=
  negb (enabled d =? 0) && (level <=? threshold s facility j d).

Lemma init_quiet s : log_ready s → _r_log_init false s = Ok () s.
Proof.
  intros (Hi & Hv & _). unfold RLog._r_log_init. mstep. rewrite Hi. cbn [Nat.ltb Nat.leb]. mstep. mstep. by rewrite Hv.
Qed.

Lemma logging_dest_run s facility level j d :
  log_ready s → log_destinations s !! j = Some d → is_Some (facility_level (log_types s) facility j) →
  r_logging_dest j facility level s = Ok (goes_to s facility level j d) s.
Proof.
  intros Hready Hd [l Hl]. unfold RLog.r_logging_dest. erewrite bind_ok by by apply init_quiet. mstep. rewrite Hd. mstep.
  unfold goes_to, threshold. rewrite Hl, (proj1 Hready). cbn [Nat.ltb Nat.leb].
  destruct (enabled d =? 0); [done|]. cbn [negb andb].
  destruct (Z.leb_spec level (r_log_level_environment s)) as [He|He].
  { unfold mret, M_ret. f_equal. symmetry. apply Z.leb_le. repeat case_match; lia. }
  assert (Hmax : ∀ x, (level <=? Z.max (r_log_level_environment s) x) = (level <=? x)) by (intros x; lia).
  destruct ((facility <? 0) || (Z.of_nat (length (log_types s)) <? facility)); [by rewrite Hmax|].
  cbn [from_option_ub]. mstep. destruct (l =? LOG_LEVEL_NONE).
  { by rewrite (proj2 (Z.leb_gt _ _)). }
  rewrite Hmax. destruct (0 <=? l); [done|]. by destruct (default_level d =? LOG_LEVEL_UNDEFINED).
Qed.

(** The destinations a message goes to. *)
Definition delivered_to s (facility level : Z) (fmt : cstring) (k : nat) (ds : list log_destination) : list log_line :=
  concat (imap (λ j d, if goes_to s facility level (k + j) d then [LogLine (dest_vlog d) facility level fmt] else []) ds).

Lemma goes_to_emit l s : goes_to (emit l s) = goes_to s.
Proof. done. Qed.

Lemma vlog_loop_run facility level fmt k ds s :
  log_ready s → (∀ j d, ds !! j = Some d → log_destinations s !! (k + j)%nat = Some d) →
  (∀ j, (j < k + length ds)%nat → is_Some (facility_level (log_types s) facility j)) →
  ∃ s', vlog_loop facility_change_addr facility_delete_addr destination_change_addr default_level_change_addr level_addr
          (seq k (length ds)) facility level fmt s = Ok () s' ∧
    s' = foldl (λ s l, emit l s) s (delivered_to s facility level fmt k ds).
Proof.
  intros Hready. revert k s Hready. induction ds as [|d ds IH]; intros k s Hready Hds Hfl; [by exists s|].
  assert (Hd : log_destinations s !! k = Some d) by (rewrite <- (Nat.add_0_r k); by apply Hds).
  cbn [length seq vlog_loop]. erewrite bind_ok by (apply logging_dest_run; [done|done|apply Hfl; cbn; lia]).
  set (s1 := if goes_to s facility level k d then emit (LogLine (dest_vlog d) facility level fmt) s else s).
  rewrite (bind_ok _ _ s () s1).
  2: { unfold s1. destruct (goes_to s facility level k d); [|done]. mstep. rewrite Hd. by mstep. }
  assert (Hs1 : log_ready s1 ∧ log_destinations s1 = log_destinations s ∧ log_types s1 = log_types s ∧
    goes_to s1 = goes_to s) by (unfold s1; by destruct (goes_to s facility level k d)).
  destruct Hs1 as (Hready1 & Hd1 & Ht1 & Hg1).
  destruct (IH (S k) s1 Hready1) as (s' & Hrun & ->).
  { intros j d' Hj. rewrite Hd1. rewrite <- (Hds (S j) d' Hj). f_equal. lia. }
  { intros j Hj. rewrite Ht1. apply Hfl. cbn. lia. }
  exists (foldl (λ s l, emit l s) s1 (delivered_to s1 facility level fmt (S k) ds)). split; [done|].
  unfold delivered_to. rewrite Hg1. cbn [imap concat]. rewrite foldl_app, Nat.add_0_r.
  replace (foldl (λ s l, emit l s) s (if goes_to s facility level k d then _ else _)) with s1
    by (unfold s1; by destruct (goes_to s facility level k d)).
  f_equal. f_equal. apply imap_ext. intros j d' _. cbn. by rewrite Nat.add_succ_r.
Qed.

Lemma emits_out s ls : log_out (foldl (λ s l, emit l s) s ls) = log_out s ++ ls.
Proof. revert s. induction ls as [|l ls IH]; intros s; cbn; [by rewrite app_nil_r|]. rewrite IH. cbn. by rewrite <- app_assoc. Qed.

(** A facility that is registered, and one that is not. *)
Lemma facility_level_some s ns facility j :
  log_wf s ns → facility ≠ Z.of_nat MAX_LOG_TYPES → facility <= Z.of_nat (length ns) ∨ facility < Z.of_nat MAX_LOG_TYPES →
  (j < LOG_NUM_DESTINATIONS)%nat → is_Some (facility_level (log_types s) facility j).
Proof.
  intros [Hns _ Hsz Hroom _ _] Hmax Hf Hj. unfold facility_level.
  assert (Hlen : length (log_types s) = length ns) by (by rewrite <- (length_fmap facility_name), Hns, length_fmap).
  destruct (log_types s !! Z.to_nat facility) as [t|] eqn:Ht.
  - apply lookup_lt_is_Some_2. destruct (Hsz t) as [-> _]; [by eapply list_elem_of_lookup_2|done].
  - rewrite (proj2 (Z.ltb_lt _ _)); [done|]. lia.
Qed.

Lemma vlog_run s ns facility level fmt :
  log_ready s → log_wf s ns → facility < Z.of_nat MAX_LOG_TYPES →
  ∃ s', r_vlog facility level fmt s = Ok () s' ∧
    log_out s' = log_out s ++ delivered_to s facility level fmt 0 (log_destinations s).
Proof.
  intros Hready Hwf Hf. assert (Hd3 : length (log_destinations s) = LOG_NUM_DESTINATIONS).
  { by rewrite <- (length_fmap dest_name), (lw_dests _ _ Hwf). }
  destruct (vlog_loop_run facility level fmt 0 (log_destinations s) s Hready) as (s' & Hrun & Hs'); [done| |].
  { intros j Hj. eapply facility_level_some; [done|lia|by right|by rewrite Hd3 in Hj]. }
  exists s'. split; [|by rewrite Hs', emits_out]. unfold RLog.r_vlog. mstep. destruct Hready as (_ & _ & ->).
  by rewrite Hd3 in Hrun.
Qed.

Lemma logging_run s ns facility level :
  log_ready s → log_wf s ns → facility < Z.of_nat MAX_LOG_TYPES →
  r_logging facility level s =
    Ok (existsb (λ jd, goes_to s facility level jd.1 jd.2) (zip (seq 0 LOG_NUM_DESTINATIONS) (log_destinations s))) s.
Proof.
  intros Hready Hwf Hf. unfold RLog.r_logging. erewrite bind_ok by by apply init_quiet.
  assert (Hd3 : length (log_destinations s) = 3%nat) by (by rewrite <- (length_fmap dest_name), (lw_dests _ _ Hwf)).
  assert (Hrun : ∀ j d, log_destinations s !! j = Some d → r_logging_dest j facility level s = Ok (goes_to s facility level j d) s).
  { intros j d Hj. apply logging_dest_run; [done|done|]. eapply facility_level_some; [done|lia|by right|].
    apply lookup_lt_Some in Hj. unfold LOG_NUM_DESTINATIONS. lia. }
  destruct (log_destinations s) as [|d0 [|d1 [|d2 [|]]]]; try done.
  cbn [LOG_NUM_DESTINATIONS seq logging_loop zip zip_with existsb fst snd].
  erewrite bind_ok by by apply Hrun. destruct (goes_to s facility level 0 d0); [done|].
  erewrite bind_ok by by apply Hrun. destruct (goes_to s facility level 1 d1); [done|].
  erewrite bind_ok by by apply Hrun. by destruct (goes_to s facility level 2 d2).
Qed.

(** ** The contracts *)

(** Registering a new facility gives it the next index, reads its level for each
    destination from the registry ([LOG_LEVEL_UNDEFINED] where there is none), leaves the other
    facilities and the registry's values alone and attaches the callbacks; registering it again
    gives the same index and does nothing more. *)
Theorem register_facility s ns name keys :
  log_wf s ns → name ∉ ns → (length ns < MAX_LOG_TYPES)%nat → keys_free (log_reg s) name dest_names keys →
  cb_free 9 (log_reg s) →
  ∃ s', r_log_register name set_logging s = Ok () s' ∧ log_wf s' (ns ++ [name]) ∧
    NR_LOG_LOGGING s' = Z.of_nat (length ns) ∧
    r_log_register name set_logging s' = Ok () s' ∧ r_log_facility (Z.of_nat (length ns)) s' = Ok (Some name) s' ∧
    (∀ m, reg_view (log_reg s') m = reg_view (log_reg s) m) ∧
    (∀ i j, (i < length ns)%nat → level_at s' i j = level_at s i j) ∧
    ∀ j key, keys !! j = Some key →
      level_at s' (length ns) j = Some (level_or (reg_view (log_reg s)) key) ∧ following (log_reg s') (length ns) j key.
Proof.
  intros Hwf Hname Hmax Hkeys Hfree.
  destruct (register_new_run s ns name keys Hwf Hname Hmax Hkeys Hfree) as (s' & Hrun & Hwf' & Hidx & Hv & _ & _ & Hold & Hnew).
  destruct (register_again_run s' (ns ++ [name]) name (length ns) Hwf') as [Hagain Hfac]; [by apply list_lookup_middle|].
  exists s'. split_and!; [done..| |done|done|done|done]. rewrite Hagain, <- Hidx. by destruct s'.
Qed.

(** A facility's level follows its key: once the callbacks a write of the key, or its
    deletion, makes have run, the level is the one the text names, or undefined, and every
    other level is what it was. *)
Theorem level_follows s ns i j key d :
  log_wf s ns → alone (log_reg s) i j key → level_at s i j = Some (level_or (reg_view (log_reg s)) key) →
  valid key → key ≠ [] → no_nul d → (length d < 32)%nat → writable (reg_view (log_reg s)) key NR_REG_TYPE_STRING →
  (∃ s', with_callbacks (nr_reg_local_set_string key d) s = Ok () s' ∧ level_becomes s s' ns i j (level_of_text d)) ∧
  (∃ s', with_callbacks (nr_reg_local_del key) s = Ok () s' ∧ level_becomes s s' ns i j LOG_LEVEL_UNDEFINED).
Proof. intros. split; [by apply follows_set_run|]. eapply follows_del_run; [done|done|by eexists|done|done]. Qed.


(** The index after the last facility is taken for a facility: it has the level 0 of an
    array element not yet used, and is undefined when the array is full, while the next index
    has the logger's level. *)
Theorem facility_off_by_one s ns j d level :
  log_ready s → log_wf s ns → log_destinations s !! j = Some d → enabled d ≠ 0 →
  let ct := Z.of_nat (length ns) in
  r_logging_dest j (ct + 1) level s = Ok (level <=? Z.max (r_log_level_environment s) (r_log_level s)) s ∧
  (ct < Z.of_nat MAX_LOG_TYPES → r_logging_dest j ct level s = Ok (level <=? Z.max (r_log_level_environment s) 0) s) ∧
  (ct = Z.of_nat MAX_LOG_TYPES → r_log_level_environment s < level → r_logging_dest j ct level s = UB).
Proof.
  intros Hready Hwf Hd Hen ct. assert (Hct0 : ct = Z.of_nat (length ns)) by done. clearbody ct.
  assert (Hlen : length (log_types s) = length ns) by (by rewrite <- (length_fmap facility_name), (lw_names _ _ Hwf), length_fmap).
  assert (Hnone : log_types s !! Z.to_nat ct = None) by (apply lookup_ge_None; lia).
  split_and!.
  - unfold RLog.r_logging_dest. erewrite bind_ok by by apply init_quiet. mstep. rewrite Hd. mstep.
    rewrite (proj2 (Z.eqb_neq _ _)), (proj1 Hready) by done. cbn [Nat.ltb Nat.leb].
    destruct (Z.leb_spec level (r_log_level_environment s)) as [He|He].
    { unfold mret, M_ret. f_equal. symmetry. apply Z.leb_le. lia. }
    rewrite (proj2 (orb_true_iff _ _)) by (right; lia). unfold mret, M_ret. f_equal. lia.
  - intros Hlt. rewrite (logging_dest_run s ct level j d); [|done|done|].
    + unfold goes_to, threshold. rewrite (proj2 (Z.eqb_neq _ _)) by done. unfold facility_level.
      rewrite Hnone, (proj2 (Z.ltb_lt ct (Z.of_nat MAX_LOG_TYPES))) by done. rewrite (proj2 (orb_false_iff _ _)) by lia. done.
    + unfold facility_level. by rewrite Hnone, (proj2 (Z.ltb_lt _ _)).
  - intros Hct He. unfold RLog.r_logging_dest. erewrite bind_ok by by apply init_quiet. mstep. rewrite Hd. mstep.
    rewrite (proj2 (Z.eqb_neq _ _)), (proj1 Hready), (proj2 (Z.leb_gt _ _)) by done. cbn [Nat.ltb Nat.leb].
    rewrite (proj2 (orb_false_iff _ _)) by lia. unfold facility_level. rewrite Hnone, (proj2 (Z.ltb_ge _ _)) by lia. done.
Qed.

(** [r_log_e] and [r_log_nr] append a text to the format: a format of up to 509 characters is
    logged with as much of it as 511 characters hold, one of 510 writes past the buffer, and a
    longer one is refused. *)
Theorem error_format_room s ns facility level suffix format :
  log_ready s → log_wf s ns → facility < Z.of_nat MAX_LOG_TYPES → r_logging facility level s = Ok true s →
  if (length format <? 510)%nat then
    ∃ s' text, vlog_suffix facility level suffix format s = Ok () s' ∧ (length text < MAX_ERROR_STRING_SIZE)%nat ∧
      (∃ rest, format ++ $": " ++ suffix = text ++ rest) ∧
      log_out s' = log_out s ++ delivered_to s facility level text 0 (log_destinations s)
  else if (length format =? 510)%nat then vlog_suffix facility level suffix format s = UB
  else vlog_suffix facility level suffix format s = Err 1 s.
Proof.
  intros Hready Hwf Hf Hon. unfold RLog.vlog_suffix. erewrite bind_ok by exact Hon. unfold strlen, MAX_ERROR_STRING_SIZE.
  destruct (Nat.ltb_spec (length format) 510); [|destruct (Nat.eqb_spec (length format) 510)].
  - destruct (Nat.ltb_spec 512 (length format + 2)); [lia|]. destruct (Nat.ltb_spec 512 (length format + 3)); [lia|].
    set (text := format ++ $": " ++ take (512 - length format - 3) suffix).
    destruct (vlog_run s ns facility level text Hready Hwf Hf) as (s' & Hrun & Hout). exists s', text.
    split_and!; [done| | |done].
    + unfold text. rewrite !length_app, length_take. cbn. lia.
    + exists (drop (512 - length format - 3) suffix). unfold text. by rewrite <- !app_assoc, take_drop.
  - destruct (Nat.ltb_spec 512 (length format + 2)); [lia|]. by destruct (Nat.ltb_spec 512 (length format + 3)); [|lia].
  - by destruct (Nat.ltb_spec 512 (length format + 2)); [|lia].
Qed.
End logger.
