(* ===== verification/RLogDemo.v ===== *)
(** * A logger with one facility

    The contracts of [RLogSpec] on a logger over the registry of [RegDemo]. *)

From Stdlib Require Import Ascii.
From S2P Require Import Prelude CString RegNames RegState RegCb RegLocal RegInv RegSpec RegTree RegCbSpec RegDemo RegFacade RegFacadeSpec RLog RLogSpec.
Local Open Scope Z_scope.

(** Addresses for the callbacks and the levels. *)
Definition demo_level_addr (i j : nat) : Z := Zpos (encode (i, j)).
Definition demo_where (z : Z) : option (nat * nat) := match z with Zpos p => decode p | _ => None end.

Lemma demo_where_level i j : demo_where (demo_level_addr i j) = Some (i, j).
Proof. unfold demo_where, demo_level_addr. apply decode_encode. Qed.

Lemma in_range z : ((0 <? z) && (z <? 2 ^ 64)) = true → 0 < z < 2 ^ 64.
Proof. lia. Qed.

#[local] Opaque demo_init.

(** Initialised, with no facility yet. *)
Definition log0 : log_state := set_initted 2 (log_initial (Environment None None None) demo_init).

Lemma log0_wf : log_wf log0 [].
Proof.
  destruct demo_init_ok as (_ & Hg & _ & Hv). split; [done|constructor|by intros t ?%not_elem_of_nil|cbn; lia|done|].
  split; [done|]. intros n bs. cbn. rewrite Hv. by case_decide.
Qed.

Lemma log0_ready : log_ready log0.
Proof. done. Qed.

Definition engine_keys : list cstring :=
  [$"logging.stderr.facility.engine.level"; $"logging.syslog.facility.engine.level"; $"logging.extra.facility.engine.level"].

Lemma engine_free : keys_free 1001 1002 demo_init $"engine" dest_names engine_keys.
Proof.
  destruct demo_init_ok as (_ & _ & Hr & _). split.
  - repeat constructor; vm_compute; reflexivity.
  - intros key _ c. rewrite Hr. by intros ?%not_elem_of_nil.
Qed.

Definition register_engine : M log_state unit := r_log_register 1001 1002 demo_level_addr $"engine" set_logging.
Definition log1 : log_state := match register_engine log0 with Ok _ s => s | _ => log0 end.

Lemma log1_ok :
  log_wf log1 [$"engine"] ∧ log_ready log1 ∧ (∀ m, reg_view (log_reg log1) m = reg_view demo_init m).
Proof.
  destruct (register_new_run 1001 1002 demo_level_addr (in_range 1001 eq_refl) (in_range 1002 eq_refl) ltac:(done)
    log0 [] $"engine" engine_keys log0_wf ltac:(apply not_elem_of_nil) ltac:(vm_compute; lia) engine_free demo_init_free)
    as (s & Hrun & Hwf & _ & Hv & _).
  assert (Hlog1 : log1 = s) by (unfold log1, register_engine; by rewrite Hrun).
  split; [by rewrite Hlog1|]. split; [|by rewrite Hlog1]. split_and!; vm_compute; reflexivity.
Qed.

Lemma log1_registered p :
  p ∈ lineage $"logging.stderr.facility.engine.level" → p ≠ $"logging.stderr.facility.engine.level" → registered (log_reg log1) p = [].
Proof.
  change (lineage _) with [$"logging.stderr.facility.engine.level"; $"logging.stderr.facility.engine"; $"logging.stderr.facility";
    $"logging.stderr"; $"logging"; []].
  rewrite !elem_of_cons. intros [->|[->|[->|[->|[->|[->|[]%not_elem_of_nil]]]]]] Hne; [done|..]; vm_compute; reflexivity.
Qed.

Lemma log1_alone : alone 1001 1002 1003 1004 demo_level_addr (log_reg log1) 0 0 $"logging.stderr.facility.engine.level".
Proof.
  assert (Hreg : ∀ c, c ∈ registered (log_reg log1) $"logging.stderr.facility.engine.level" ↔
    c ∈ followers 1001 1002 demo_level_addr 0 0 $"logging.stderr.facility.engine.level").
  { intros c. replace (registered (log_reg log1) $"logging.stderr.facility.engine.level")
      with (let f := followers 1001 1002 demo_level_addr 0 0 $"logging.stderr.facility.engine.level" in drop 2 f ++ take 2 f)
      by (vm_compute; reflexivity).
    cbv zeta. by rewrite (Permutation_app_comm (drop 2 _)), take_drop. }
  assert (Hof : ∀ c, c ∈ followers 1001 1002 demo_level_addr 0 0 $"logging.stderr.facility.engine.level" → of_logger 1001 1002 c).
  { intros c. unfold followers, of_logger. rewrite !elem_of_cons. intros [->|[->|[->|[]%not_elem_of_nil]]]; auto. }
  split.
  - intros c. rewrite Hreg. split; [auto|by intros []].
  - intros p c Hp Hc _. destruct (decide (p = $"logging.stderr.facility.engine.level")) as [->|Hne].
    + split; [done|]. by apply Hof, Hreg.
    + rewrite log1_registered in Hc by done. by apply not_elem_of_nil in Hc.
Qed.

Lemma log1_writable : writable (reg_view (log_reg log1)) $"logging.stderr.facility.engine.level" NR_REG_TYPE_STRING.
Proof.
  destruct demo_init_ok as (_ & _ & _ & Hv). destruct log1_ok as (_ & _ & Hview).
  unfold writable. rewrite Hview, Hv, decide_False by done.
  change (ancestors _) with [$"logging.stderr.facility.engine"; $"logging.stderr.facility"; $"logging.stderr"; $"logging"].
  cbn [creatable]. rewrite !Hview, !Hv, !decide_False by done. by repeat split; valid_name.
Qed.
#[local] Opaque log1.

Lemma register_facility_witness :
  ∃ s', register_engine log0 = Ok () s' ∧ log_wf s' ([] ++ [$"engine"]) ∧ NR_LOG_LOGGING s' = 0 ∧
    register_engine s' = Ok () s' ∧ r_log_facility 0 s' = Ok (Some $"engine") s' ∧
    (∀ m, reg_view (log_reg s') m = reg_view demo_init m) ∧
    (∀ i j, (i < 0)%nat → level_at s' i j = level_at log0 i j) ∧
    ∀ j key, engine_keys !! j = Some key →
      level_at s' 0 j = Some (level_or (reg_view demo_init) key) ∧ following 1001 1002 demo_level_addr (log_reg s') 0 j key.
Proof.
  apply (register_facility 1001 1002 demo_level_addr (in_range 1001 eq_refl) (in_range 1002 eq_refl) ltac:(done)
    log0 [] $"engine" engine_keys log0_wf ltac:(apply not_elem_of_nil) ltac:(vm_compute; lia) engine_free demo_init_free).
Defined.

Lemma log1_level : level_at log1 0 0 = Some (level_or (reg_view (log_reg log1)) $"logging.stderr.facility.engine.level").
Proof.
  destruct demo_init_ok as (_ & _ & _ & Hv). destruct log1_ok as (_ & _ & Hview).
  rewrite (level_or_ext (reg_view demo_init)) by exact Hview. unfold level_or, key_level. rewrite Hv, decide_False by done.
  vm_compute. reflexivity.
Qed.

Lemma level_follows_witness :
  (∃ s', with_callbacks 1001 1002 1003 1004 demo_where
      (nr_reg_local_set_string $"logging.stderr.facility.engine.level" $"debug") log1 = Ok () s' ∧
    level_becomes log1 s' [$"engine"] 0 0 LOG_DEBUG) ∧
  (∃ s', with_callbacks 1001 1002 1003 1004 demo_where
      (nr_reg_local_del $"logging.stderr.facility.engine.level") log1 = Ok () s' ∧
    level_becomes log1 s' [$"engine"] 0 0 LOG_LEVEL_UNDEFINED).
Proof.
  destruct log1_ok as (Hwf & _ & Hview).
  apply (level_follows 1001 1002 1003 1004 demo_level_addr demo_where
    (in_range 1001 eq_refl) (in_range 1002 eq_refl) ltac:(done) demo_where_level
    log1 [$"engine"] 0 0 $"logging.stderr.facility.engine.level" $"debug" Hwf log1_alone log1_level ltac:(valid_name));
    [discriminate|by repeat constructor|vm_compute; lia|exact log1_writable].
Defined.


Lemma facility_off_by_one_witness :
  r_logging_dest 1001 1002 1003 1004 demo_level_addr 1 1 4 log0 = Ok true log0 ∧
  r_logging_dest 1001 1002 1003 1004 demo_level_addr 1 0 4 log0 = Ok false log0.
Proof.
  destruct (facility_off_by_one 1001 1002 1003 1004 demo_level_addr log0 [] 1 (LogDestination $"syslog" 1 5 SyslogVlog) 4
    log0_ready log0_wf eq_refl ltac:(discriminate)) as (Hnext & Hlast & _).
  split; [exact Hnext|exact (Hlast eq_refl)].
Defined.

Lemma log0_logging : r_logging 1001 1002 1003 1004 demo_level_addr (-1) 4 log0 = Ok true log0.
Proof. exact (logging_run 1001 1002 1003 1004 demo_level_addr log0 [] (-1) 4 log0_ready log0_wf eq_refl). Qed.

Lemma error_format_room_witness :
  ∃ s' text, vlog_suffix 1001 1002 1003 1004 demo_level_addr (-1) 4 $"Not found" $"open" log0 = Ok () s' ∧
    (length text < MAX_ERROR_STRING_SIZE)%nat ∧ (∃ rest, $"open" ++ $": " ++ $"Not found" = text ++ rest) ∧
    log_out s' = log_out log0 ++ delivered_to log0 (-1) 4 text 0 (log_destinations log0).
Proof.
  apply (error_format_room 1001 1002 1003 1004 demo_level_addr log0 [] (-1) 4 $"Not found" $"open"
    log0_ready log0_wf eq_refl log0_logging).
Defined.
