(* ===== verification/Stats.v ===== *)
(** * Statistics in shared memory (src/stats/nrstats.c)

    Programs keep counters in one shared memory segment: a count, then wrappers one after
    the other, each with a name, the path of a library, a size and a buffer.  The wrappers are
    a list here and their addresses are computed from it, as the code's macros do.  Creating
    and attaching the segment, the lock and the functions of a type are parameters. *)

From Stdlib Require Import Ascii.
From S2P Require Import Prelude CString.
Local Open Scope Z_scope.

Definition NR_MAX_STATS_TYPE_NAME : nat := 26.
Definition NR_MAX_STATS_NAME : nat := 78.
Definition NR_MAX_STATS_SHMS : nat := 64.
Definition NR_MAX_STATS_TYPES : nat := 256.
Definition PATH_MAX : nat := 4096.
Definition MAX_NR_STATS_SIZE : Z := 0x4ffff.
Definition NR_STATS_CREATE : Z := 1.

(** The layout of a wrapper: [offsetof(size)+sizeof(int)], [offsetof(buffer)], [sizeof]. *)
Definition WRAPPER_HEAD : Z := 4180.
Definition WRAPPER_BUFFER : Z := 4184.
Definition WRAPPER_SIZE : Z := 4192.
(** The segment is a whole number of pages. *)
Definition SEGMENT_SIZE : Z := 327680.

Record wrapper := Wrapper { w_name : cstring; w_libname : cstring; w_size : Z; w_buffer : list Z }.

(** [NR_stats_type]: what [reset] makes of a buffer, and what [get_lib_name] gives
    ([None]: the member is null). *)
Record NR_stats_type := StatsType {
  ty_name : cstring;
  ty_reset : list Z → list Z;
  ty_get_lib_name : option (Z + option cstring);
  ty_size : Z;
}.

Record stats_state := StatsState {
  app : option cstring;
  segment : option (list wrapper);   (* the segment of the system, if there is one *)
  shm : bool;                        (* it is attached *)
  mutex : bool;                      (* the lock file is open *)
  types : list NR_stats_type;
}.

Abbreviation ST := (M stats_state).
Definition set_segment (ws : list wrapper) (s : stats_state) : stats_state :=
  StatsState (app s) (Some ws) (shm s) (mutex s) (types s).
Definition set_types (l : list NR_stats_type) (s : stats_state) : stats_state :=
  StatsState (app s) (segment s) (shm s) (mutex s) l.

(** ** Wrappers *)

(** [NEXTWRAPPER]: the distance to the next wrapper; the [int] is converted to [size_t]. *)
Definition wrapper_step (size : Z) : Z := (2 + wrap 64 size / WRAPPER_SIZE) * WRAPPER_SIZE.

(** The address of the wrapper after [ws], from the start of the segment; [FIRSTWRAPPER] is
    after the count. *)
Definition wrapper_addr (ws : list wrapper) : Z := foldl (λ a w, a + wrapper_step (w_size w)) 4 ws.

(** The wrappers, through the attached segment. *)
Definition wrappers : ST (list wrapper) :=
  s ← get;
  if shm s then from_option_ub (segment s) else undef.

(** [snprintf] into [out], whose last byte is kept back. *)
Definition compute_name (app : cstring) (module_name : option cstring) (type_name : cstring) : Z + cstring :=
  let text := match module_name with
              | Some m => app ++ "."%char :: m ++ "."%char :: type_name
              | None => app ++ "."%char :: type_name
              end in
  if (NR_MAX_STATS_NAME <=? length text)%nat then inl R_BAD_ARGS else inr (take (NR_MAX_STATS_NAME - 2) text).

Definition find_type_index (type_name : cstring) (types : list NR_stats_type) : option nat :=
  index_where (λ t, streq type_name (ty_name t)) types.

Definition get_type_from_name (name : cstring) : ST NR_stats_type :=
  s ← get;
  match strrchr name "." with
  | None => abort R_BAD_ARGS
  | Some t =>
      match find_type_index (drop (t + 1) name) (types s) with
      | None => abort R_BAD_ARGS
      | Some i => from_option_ub (types s !! i)
      end
  end.

(** The index of a wrapper, [None] for the null pointer. *)
Definition find_stats (name : cstring) : ST (option nat) :=
  ws ← wrappers; mret (index_where (λ w, streq name (w_name w)) ws).

(** [alloc_stats]: the strings are copied with [strncpy]; only the start of the wrapper is compared with the end of the segment. *)
Definition alloc_stats (name : cstring) (libname : option cstring) (size : Z) : ST nat :=
  ws ← wrappers;
  if (NR_MAX_STATS_SHMS <=? length ws)%nat then abort R_NO_MEMORY
  else
    let header := wrapper_addr ws in
    if MAX_NR_STATS_SIZE <? header then abort R_NO_MEMORY
    else if SEGMENT_SIZE <? header + WRAPPER_HEAD then undef
    else
      modify (set_segment (ws ++ [Wrapper name (take PATH_MAX (default [] libname)) (swrap 32 size) (replicate (Z.to_nat size) 0)]));;
      mret (length ws).

(** [sanity_check] of the buffer of the wrapper [i]. *)
Definition sanity_check (i : nat) : ST unit :=
  ws ← wrappers;
  w ← from_option_ub (ws !! i);
  sanity ← find_stats (w_name w);
  if bool_decide (sanity = Some i) then mret () else abort R_BAD_ARGS.

Definition register_type (type : NR_stats_type) : ST unit :=
  s ← get;
  match find_type_index (ty_name type) (types s) with
  | None =>
      if (NR_MAX_STATS_TYPES <=? length (types s))%nat then abort R_NO_MEMORY
      else modify (set_types (types s ++ [type]))
  | Some i => modify (set_types (<[i:=type]> (types s)))
  end.

(** ** The interface *)

(** [create_ok], [attach_ok]: do [shmget] with [IPC_CREAT] and [shmat] succeed?  [mutex_status] is
    what [nr_util_create_mutex] returns.  The types are those of the library. *)
Definition NR_stats_startup (app_name : cstring) (create_ok attach_ok : bool) (mutex_status : Z)
    (type_app type_memory : NR_stats_type) : ST unit :=
  modify (λ s, StatsState (Some app_name) (segment s) (shm s) (mutex s) (types s));;
  r ← catch (
    s ← get;
    (if shm s then mret ()
     else
       (match segment s with
        | Some _ => mret ()
        | None => if create_ok then modify (set_segment []) else abort R_FAILED
        end);;
       if attach_ok then modify (λ s, StatsState (app s) (segment s) true (mutex s) (types s)) else abort R_FAILED);;
    s ← get;
    (if mutex s then mret ()
     else if mutex_status =? 0 then modify (λ s, StatsState (app s) (segment s) (shm s) true (types s))
     else abort mutex_status);;
    ignore (register_type type_app);;
    ignore (register_type type_memory));
  match r with
  | inr _ => mret ()
  | inl r => modify (λ s, StatsState None (segment s) false false (types s));; abort r
  end.

Definition NR_stats_shutdown (detach_ok : bool) : ST unit :=
  s ← get;
  match app s with
  | None => abort R_ALREADY
  | Some _ =>
      if shm s && negb detach_ok then abort R_FAILED
      else modify (λ s, StatsState None (segment s) false false (types s))
  end.

(** The result is the index of the wrapper whose buffer [*stats] points to. *)
Definition NR_stats_get (module_name : option cstring) (type : NR_stats_type) (flag : Z) : ST nat :=
  s ← get;
  match app s with
  | None => abort R_FAILED
  | Some app =>
      register_type type;;
      match compute_name app module_name (ty_name type) with
      | inl r => abort r
      | inr name =>
          header ← find_stats name;
          i ← (match header with
               | Some i => mret i
               | None =>
                   if Z.land flag NR_STATS_CREATE =? 0 then abort R_NOT_FOUND
                   else
                     match ty_get_lib_name type with
                     | None => alloc_stats name (Some []) (ty_size type)
                     | Some (inl r) => abort r
                     | Some (inr libname) => alloc_stats name libname (ty_size type)
                     end
               end);
          sane ← catch (sanity_check i);
          match sane with inr _ => mret i | inl _ => undef end      (* assert *)
      end
  end.

(** Writing the buffer of the wrapper [i], all of which has to be in the segment. *)
Definition put_buffer (i : nat) (f : list Z → list Z) : ST unit :=
  ws ← wrappers;
  w ← from_option_ub (ws !! i);
  if SEGMENT_SIZE <? wrapper_addr (take i ws) + WRAPPER_BUFFER + wrap 64 (w_size w) then undef
  else modify (set_segment (<[i:=Wrapper (w_name w) (w_libname w) (w_size w) (f (w_buffer w))]> ws)).

Definition NR_stats_reset (i : nat) : ST unit :=
  sanity_check i;;
  ws ← wrappers;
  w ← from_option_ub (ws !! i);
  type ← get_type_from_name (w_name w);
  put_buffer i (ty_reset type).

Definition NR_stats_clear (i : nat) : ST unit :=
  sanity_check i;;
  put_buffer i (λ b, replicate (length b) 0);;
  ignore (NR_stats_reset i).

Definition NR_stats_register (type : NR_stats_type) : ST unit :=
  s ← get;
  match app s with None => abort R_FAILED | Some _ => register_type type end.

Definition NR_stats_get_names : ST (list cstring) :=
  s ← get;
  match app s with None => abort R_FAILED | Some _ => ws ← wrappers; mret (w_name <$> ws) end.

(** The type, [None] for the null pointer, and the wrapper. *)
Definition NR_stats_get_by_name (name : cstring) : ST (option NR_stats_type * nat) :=
  s ← get;
  match app s with
  | None => abort R_FAILED
  | Some _ =>
      header ← find_stats name;
      match header with
      | None => abort R_NOT_FOUND
      | Some i =>
          type ← catch (get_type_from_name name);
          mret (match type with inr t => Some t | inl _ => None end, i)
      end
  end.

(** A path that fills its array has no terminator. *)
Definition NR_stats_get_lib_name (i : nat) : ST cstring :=
  sanity_check i;;
  ws ← wrappers;
  w ← from_option_ub (ws !! i);
  if (PATH_MAX <=? length (w_libname w))%nat then undef else mret (w_libname w).

Definition NR_prefix_to_stats_module (prefix : cstring) : cstring :=
  match strchr prefix "." with
  | None => prefix
  | Some p => if (strlen (drop p prefix) <? 2)%nat then prefix else drop (p + 1) prefix
  end.
