(* ===== verification/StatsSpec.v ===== *)
(** * Statistics are found again and kept apart *)

From Stdlib Require Import Ascii.
From S2P Require Import Prelude CString Stats.
Local Open Scope Z_scope.

(** The wrappers of a segment: one per name, inside the segment, each with its buffer. *)
Record segment_wf (ws : list wrapper) : Prop := {
  sg_names : NoDup (w_name <$> ws);
  sg_sizes w : w ∈ ws → 0 <= w_size w < 2 ^ 31 ∧ Z.of_nat (length (w_buffer w)) = w_size w;
  sg_inside i : (i < length ws)%nat → wrapper_addr (take i ws) + WRAPPER_HEAD <= SEGMENT_SIZE;
}.

(** Started: the segment is attached and holds [ws]. *)
Definition running (s : stats_state) (a : cstring) (ws : list wrapper) : Prop :=
  app s = Some a ∧ segment s = Some ws ∧ shm s = true.

Definition type_ok (s : stats_state) (type : NR_stats_type) : Prop :=
  0 <= ty_size type < 2 ^ 31 ∧
  (is_Some (find_type_index (ty_name type) (types s)) ∨ (length (types s) < NR_MAX_STATS_TYPES)%nat).

(** The path [get_lib_name] gives, if it succeeds. *)
Definition libname_of (type : NR_stats_type) : option (option cstring) :=
  match ty_get_lib_name type with
  | None => Some (Some [])
  | Some (inr l) => Some l
  | Some (inl _) => None
  end.

Section stats.
Implicit Types (s : stats_state) (ws : list wrapper) (w : wrapper) (a name : cstring) (type : NR_stats_type).

(** ** Addresses *)

Lemma addr_from (b : Z) ws : foldl (λ x w, x + wrapper_step (w_size w)) b ws = b - 4 + wrapper_addr ws.
Proof.
  unfold wrapper_addr. revert b. induction ws as [|w ws IH]; intros b; cbn [foldl]; [lia|].
  rewrite IH, (IH (4 + _)). lia.
Qed.

Lemma addr_app ws ws' : wrapper_addr (ws ++ ws') = wrapper_addr ws + wrapper_addr ws' - 4.
Proof.
  unfold wrapper_addr at 1. rewrite foldl_app. change (foldl _ 4 ws) with (wrapper_addr ws).
  rewrite (addr_from (wrapper_addr ws) ws'). lia.
Qed.

Lemma addr_one w : wrapper_addr [w] = 4 + wrapper_step (w_size w).
Proof. done. Qed.

Lemma addr_snoc ws w : wrapper_addr (ws ++ [w]) = wrapper_addr ws + wrapper_step (w_size w).
Proof. rewrite addr_app, addr_one. lia. Qed.

(** A step leaves room for the buffer. *)
Lemma step_room size : 0 <= size < 2 ^ 31 → WRAPPER_BUFFER + size <= wrapper_step size.
Proof.
  intros Hs. unfold wrapper_step, WRAPPER_BUFFER, WRAPPER_SIZE. rewrite wrap_small by lia.
  pose proof (Z.div_mod size 4192). pose proof (Z.mod_pos_bound size 4192). lia.
Qed.

Lemma addr_mono ws ws' : Forall (λ w, 0 <= w_size w < 2 ^ 31) ws' → wrapper_addr ws <= wrapper_addr (ws ++ ws').
Proof.
  intros Hws'. rewrite addr_app. induction Hws' as [|w ws' Hw _ IH]; [unfold wrapper_addr; cbn; lia|].
  change (w :: ws') with ([w] ++ ws'). rewrite addr_app, addr_one. pose proof (step_room _ Hw).
  unfold WRAPPER_BUFFER in *. lia.
Qed.

(** The buffer of a wrapper ends before any later wrapper starts. *)
Lemma buffer_before ws i j w :
  (∀ w, w ∈ ws → 0 <= w_size w < 2 ^ 31) → ws !! i = Some w → (i < j)%nat →
  wrapper_addr (take i ws) + WRAPPER_BUFFER + w_size w <= wrapper_addr (take j ws).
Proof.
  intros Hsz Hi Hij. pose proof (step_room (w_size w) (Hsz w ltac:(by eapply list_elem_of_lookup_2))) as Hroom.
  assert (Hsplit : take j ws = take i ws ++ [w] ++ take (j - i - 1) (drop (S i) ws)).
  { rewrite <- (take_drop_middle ws i w Hi) at 1. rewrite take_app, take_take, length_take.
    rewrite Nat.min_r by lia. f_equal. pose proof (lookup_lt_Some _ _ _ Hi).
    rewrite Nat.min_l by lia. destruct (j - i)%nat as [|d] eqn:Hd; [lia|]. cbn. by rewrite Nat.sub_0_r. }
  rewrite Hsplit, app_assoc. etrans; [|apply addr_mono].
  - rewrite addr_snoc. lia.
  - apply Forall_forall. intros w' Hw'. apply Hsz.
    rewrite <- (take_drop (S i) ws). apply elem_of_app. right. rewrite <- (take_drop (j - i - 1) (drop (S i) ws)).
    apply elem_of_app. by left.
Qed.

(** ** Runs *)

Lemma wrappers_run s a ws : running s a ws → wrappers s = Ok ws s.
Proof. intros (_ & Hws & Hshm). unfold wrappers. mstep. by rewrite Hshm, Hws. Qed.

Lemma find_stats_run s a ws name : running s a ws → find_stats name s = Ok (index_where (λ w, streq name (w_name w)) ws) s.
Proof. intros Hr. unfold find_stats. by erewrite bind_ok by by eapply wrappers_run. Qed.

Lemma index_of_name ws i w :
  NoDup (w_name <$> ws) → ws !! i = Some w → index_where (λ w', streq (w_name w) (w_name w')) ws = Some i.
Proof.
  intros Hnd Hi. destruct (index_where _ ws) as [k|] eqn:Hk.
  - apply index_where_Some in Hk as [(w' & Hk & Heq%streq_spec) _]. f_equal.
    apply (NoDup_lookup (w_name <$> ws) k i (w_name w)); [done| |]; rewrite list_lookup_fmap.
    + by rewrite Hk, Heq.
    + by rewrite Hi.
  - rewrite index_where_None in Hk. specialize (Hk w ltac:(by eapply list_elem_of_lookup_2)).
    by rewrite (proj2 (streq_spec _ _)) in Hk.
Qed.

Lemma sane_run s a ws i : running s a ws → segment_wf ws → (i < length ws)%nat → sanity_check i s = Ok () s.
Proof.
  intros Hr Hwf [w Hw]%lookup_lt_is_Some_2. unfold sanity_check. erewrite bind_ok by by eapply wrappers_run.
  rewrite Hw. mstep. erewrite bind_ok by by eapply find_stats_run. rewrite (index_of_name ws i w) by (done || apply Hwf).
  by rewrite bool_decide_eq_true_2.
Qed.

(** Registering a type only changes the types. *)
Lemma register_type_run s type :
  type_ok s type → ∃ l, register_type type s = Ok () (set_types l s) ∧ is_Some (find_type_index (ty_name type) l).
Proof.
  intros [_ Hroom]. unfold register_type. mstep.
  assert (Hself : ∀ l, type ∈ l → is_Some (find_type_index (ty_name type) l)).
  { intros l Hin. unfold find_type_index. destruct (index_where _ l) eqn:Hi; [done|].
    rewrite index_where_None in Hi. specialize (Hi type Hin). cbn in Hi. by rewrite (proj2 (streq_spec _ _)) in Hi. }
  destruct (find_type_index (ty_name type) (types s)) as [i|] eqn:Hi.
  - eexists. split; [done|]. apply Hself. unfold find_type_index in Hi.
    apply index_where_Some in Hi as [(t & Ht & _) _]. eapply list_elem_of_lookup_2, list_lookup_insert_eq.
    by eapply lookup_lt_Some.
  - destruct Hroom as [[? ?]|Hroom]; [done|]. rewrite (proj2 (Nat.leb_gt _ _)) by done.
    eexists. split; [done|]. apply Hself, elem_of_app. right. by left.
Qed.

Lemma running_types s a ws l : running s a ws → running (set_types l s) a ws.
Proof. done. Qed.

(** A name that is there. *)
Lemma get_found s a ws m type flag name i w :
  running s a ws → segment_wf ws → type_ok s type → compute_name a m (ty_name type) = inr name →
  ws !! i = Some w → w_name w = name →
  ∃ l, NR_stats_get m type flag s = Ok i (set_types l s).
Proof.
  intros Hr Hwf Hty Hname Hi Hw. destruct (register_type_run s type Hty) as (l & Hreg & _). exists l.
  unfold NR_stats_get. mstep. rewrite (proj1 Hr). erewrite bind_ok by exact Hreg. rewrite Hname.
  erewrite bind_ok by by eapply find_stats_run, running_types. subst name.
  rewrite (index_of_name ws i w) by (done || apply Hwf). mstep.
  erewrite bind_ok by by (eapply catch_ok, sane_run; [by apply running_types|done|by eapply lookup_lt_Some]). done.
Qed.

(** The wrapper a new name gets. *)
Definition new_wrapper name (lib : option cstring) (size : Z) : wrapper :=
  Wrapper name (take PATH_MAX (default [] lib)) size (replicate (Z.to_nat size) 0).

Lemma segment_wf_new ws name lib size :
  segment_wf ws → name ∉ w_name <$> ws → 0 <= size < 2 ^ 31 → wrapper_addr ws + WRAPPER_HEAD <= SEGMENT_SIZE →
  segment_wf (ws ++ [new_wrapper name lib size]).
Proof.
  intros [Hnd Hsz Hin] Hname Hsize Hroom. split.
  - rewrite fmap_app. apply NoDup_app. split_and!; [done| |by apply NoDup_singleton].
    intros n Hn ->%list_elem_of_singleton. done.
  - intros w [Hw| ->%list_elem_of_singleton]%elem_of_app; [by apply Hsz|]. cbn. rewrite length_replicate. lia.
  - intros i Hi. rewrite length_app in Hi. cbn in Hi. destruct (decide (i < length ws)%nat).
    + rewrite take_app_le by lia. by apply Hin.
    + by rewrite take_app_length' by lia.
Qed.

Lemma name_absent ws name : name ∉ w_name <$> ws → index_where (λ w, streq name (w_name w)) ws = None.
Proof.
  intros Hn. apply index_where_None. intros w Hw. apply not_true_iff_false. rewrite streq_spec. intros ->.
  by apply Hn, list_elem_of_fmap_2.
Qed.

Lemma get_created s a ws m type flag name lib :
  running s a ws → segment_wf ws → type_ok s type → compute_name a m (ty_name type) = inr name →
  name ∉ w_name <$> ws → Z.land flag NR_STATS_CREATE ≠ 0 → libname_of type = Some lib →
  (length ws < NR_MAX_STATS_SHMS)%nat → wrapper_addr ws + WRAPPER_HEAD <= SEGMENT_SIZE →
  ∃ l, NR_stats_get m type flag s =
    Ok (length ws) (set_segment (ws ++ [new_wrapper name lib (ty_size type)]) (set_types l s)).
Proof.
  intros Hr Hwf Hty Hname Habs Hflag Hlib Hlen Hroom. destruct (register_type_run s type Hty) as (l & Hreg & _). exists l.
  pose proof (segment_wf_new ws name lib (ty_size type) Hwf Habs (proj1 Hty) Hroom) as Hwf'.
  unfold NR_stats_get. mstep. rewrite (proj1 Hr). erewrite bind_ok by exact Hreg. rewrite Hname.
  erewrite bind_ok by by eapply find_stats_run, running_types. rewrite name_absent by done.
  rewrite (proj2 (Z.eqb_neq _ _)) by done. set (s1 := set_types l s).
  assert (Halloc : alloc_stats name lib (ty_size type) s1 =
    Ok (length ws) (set_segment (ws ++ [new_wrapper name lib (ty_size type)]) s1)).
  { unfold alloc_stats. erewrite bind_ok by by eapply wrappers_run, running_types.
    rewrite (proj2 (Nat.leb_gt _ _)), !(proj2 (Z.ltb_ge _ _)) by (done || unfold MAX_NR_STATS_SIZE, WRAPPER_HEAD, SEGMENT_SIZE in *; lia).
    mstep. rewrite swrap_small by (destruct Hty; lia). done. }
  assert (Hrun : running (set_segment (ws ++ [new_wrapper name lib (ty_size type)]) s1) a (ws ++ [new_wrapper name lib (ty_size type)]))
    by (destruct Hr as (? & ? & ?); done).
  erewrite bind_ok.
  2: { unfold libname_of in Hlib. destruct (ty_get_lib_name type) as [[r|lb]|]; [done| |]; by injection Hlib as <-. }
  erewrite bind_ok by by (eapply catch_ok, sane_run; [done|done|rewrite length_app; cbn; lia]). done.
Qed.

(** Writing one buffer. *)
Lemma put_buffer_run s a ws i w f :
  running s a ws → ws !! i = Some w → 0 <= w_size w < 2 ^ 31 →
  wrapper_addr (take i ws) + WRAPPER_BUFFER + w_size w <= SEGMENT_SIZE →
  put_buffer i f s = Ok () (set_segment (<[i:=Wrapper (w_name w) (w_libname w) (w_size w) (f (w_buffer w))]> ws) s).
Proof.
  intros Hr Hi Hsz Hroom. unfold put_buffer. erewrite bind_ok by by eapply wrappers_run. rewrite Hi. mstep.
  by rewrite wrap_small, (proj2 (Z.ltb_ge _ _)) by lia.
Qed.

(** ** The contracts *)


(** [NR_stats_clear] zeroes the buffer, lets its type reset it, and touches no other. *)
Theorem stats_clear_one s a ws i w t k type :
  running s a ws → segment_wf ws → ws !! i = Some w →
  wrapper_addr (take i ws) + WRAPPER_BUFFER + w_size w <= SEGMENT_SIZE →
  strrchr (w_name w) "." = Some t → find_type_index (drop (t + 1) (w_name w)) (types s) = Some k → types s !! k = Some type →
  NR_stats_clear i s = Ok () (set_segment
    (<[i:=Wrapper (w_name w) (w_libname w) (w_size w) (ty_reset type (replicate (length (w_buffer w)) 0))]> ws) s).
Proof.
  intros Hr Hwf Hi Hroom Ht Hk Hty. pose proof (proj1 (sg_sizes _ Hwf w ltac:(by eapply list_elem_of_lookup_2))) as Hsz.
  pose proof (lookup_lt_Some _ _ _ Hi) as Hlt.
  set (w1 := Wrapper (w_name w) (w_libname w) (w_size w) (replicate (length (w_buffer w)) 0)).
  set (ws1 := <[i:=w1]> ws). set (s1 := set_segment ws1 s).
  assert (Hr1 : running s1 a ws1) by (destruct Hr as (? & ? & ?); done).
  assert (Hi1 : ws1 !! i = Some w1) by by apply list_lookup_insert_eq.
  assert (Hnames : w_name <$> ws1 = w_name <$> ws).
  { unfold ws1. rewrite list_fmap_insert. apply list_insert_id. by rewrite list_lookup_fmap, Hi. }
  assert (Hsane : sanity_check i s1 = Ok () s1).
  { unfold sanity_check. erewrite bind_ok by by eapply wrappers_run. rewrite Hi1. mstep.
    erewrite bind_ok by by eapply find_stats_run. rewrite (index_of_name ws1 i w1); [by rewrite bool_decide_eq_true_2| |done].
    rewrite Hnames. apply Hwf. }
  unfold NR_stats_clear. erewrite bind_ok by by eapply sane_run.
  rewrite (bind_ok _ _ s () s1) by by eapply put_buffer_run.
  assert (Hreset : NR_stats_reset i s1 =
    Ok () (set_segment (<[i:=Wrapper (w_name w) (w_libname w) (w_size w) (ty_reset type (w_buffer w1))]> ws1) s1)).
  { unfold NR_stats_reset. erewrite bind_ok by exact Hsane. erewrite bind_ok by by eapply wrappers_run. rewrite Hi1. mstep.
    erewrite bind_ok.
    2: { unfold get_type_from_name. mstep. cbn [w1 w_name]. rewrite Ht. cbn [s1 types set_segment]. by rewrite Hk, Hty. }
    change (w_name w) with (w_name w1). change (w_libname w) with (w_libname w1). change (w_size w) with (w_size w1).
    eapply put_buffer_run; [done|done|done|]. unfold ws1. rewrite take_insert_ge by lia. exact Hroom. }
  unfold ignore. rewrite Hreset. unfold ws1. by rewrite list_insert_insert_eq.
Qed.

(** Thirty-nine statistics of the usual small size leave less than a wrapper: creating one
    more is not refused, although the table would take sixty-four, and writes past the segment. *)
Theorem fortieth_overflows s a ws m type flag name lib :
  running s a ws → type_ok s type → compute_name a m (ty_name type) = inr name → name ∉ w_name <$> ws →
  Z.land flag NR_STATS_CREATE ≠ 0 → libname_of type = Some lib →
  length ws = 39%nat → Forall (λ w, 0 <= w_size w < WRAPPER_SIZE) ws →
  NR_stats_get m type flag s = UB.
Proof.
  intros Hr Hty Hname Habs Hflag Hlib Hlen Hsmall. destruct (register_type_run s type Hty) as (l & Hreg & _).
  assert (Haddr : wrapper_addr ws = 4 + Z.of_nat (length ws) * 8384).
  { clear -Hsmall. induction Hsmall as [|w ws Hw _ IH]; [done|]. change (w :: ws) with ([w] ++ ws).
    rewrite addr_app, IH, addr_one. unfold wrapper_step, WRAPPER_SIZE in *.
    rewrite wrap_small, Z.div_small by lia. rewrite length_app. cbn. lia. }
  rewrite Hlen in Haddr. unfold NR_stats_get. mstep. rewrite (proj1 Hr). erewrite bind_ok by exact Hreg. rewrite Hname.
  erewrite bind_ok by by eapply find_stats_run, running_types. rewrite name_absent by done.
  rewrite (proj2 (Z.eqb_neq _ _)) by done.
  assert (Halloc : alloc_stats name lib (ty_size type) (set_types l s) = UB).
  { unfold alloc_stats. erewrite bind_ok by by eapply wrappers_run, running_types. rewrite Hlen, Haddr. done. }
  apply bind_ub. unfold libname_of in Hlib.
  destruct (ty_get_lib_name type) as [[r|lb]|]; [done| |]; by injection Hlib as <-.
Qed.
End stats.

(** ** Instances *)

Definition memory_type : NR_stats_type := StatsType $"memory" (λ b, b) None 32.
Definition stats_of (ws : list wrapper) : stats_state := StatsState (Some $"httpd") (Some ws) true true [memory_type].
Definition cache_name : cstring := $"httpd.cache.memory".

Lemma memory_type_ok ws : type_ok (stats_of ws) memory_type.
Proof. split; [cbn; lia|]. left. by eexists. Qed.

Lemma empty_wf : segment_wf [].
Proof. split; [constructor|by intros w ?%not_elem_of_nil|cbn; lia]. Qed.


Definition used : wrapper := Wrapper cache_name [] 4 [7; 0; 0; 1].

Lemma used_wf : segment_wf [used].
Proof.
  split; [by apply NoDup_singleton|intros w ->%list_elem_of_singleton; by cbn|].
  intros i Hi. cbn in Hi. assert (i = 0%nat) as -> by lia. by vm_compute.
Qed.

Lemma stats_clear_one_witness :
  NR_stats_clear 0 (stats_of [used]) = Ok () (stats_of [Wrapper cache_name [] 4 [0; 0; 0; 0]]).
Proof.
  apply (stats_clear_one (stats_of [used]) $"httpd" [used] 0 used 11 0 memory_type);
    [by split_and!|exact used_wf|reflexivity|by vm_compute|reflexivity..].
Defined.

Definition many : list wrapper := (λ i, Wrapper (replicate (S i) "x"%char) [] 32 (replicate 32 0)) <$> seq 0 39.

Lemma fortieth_overflows_witness : NR_stats_get (Some $"cache") memory_type NR_STATS_CREATE (stats_of many) = UB.
Proof.
  apply (fortieth_overflows (stats_of many) $"httpd" many (Some $"cache") memory_type NR_STATS_CREATE cache_name (Some []));
    [by split_and!|apply memory_type_ok|reflexivity| |discriminate|reflexivity|reflexivity|].
  - apply (bool_decide_unpack _). vm_compute. exact I.
  - apply Forall_fmap, Forall_forall. intros i _. cbn. unfold WRAPPER_SIZE. lia.
Defined.
