(* ===== verification/RListSpec.v ===== *)
(** * Lists hold the items put in, and copies of them *)

From S2P Require Import Prelude RList.
Local Open Scope Z_scope.

Section lists.
Context {D F : Type}.
Context (call_copy : F → D → Z + D).
Implicit Types (s : list_state D F) (m : gmap loc (r_list_el D F)) (x : item D F) (A : alist D F) (c d : list (loc * item D F)).

(** ** Segments *)

Definition el_of x (pp n : option loc) : r_list_el D F := ListEl (it_data x) n pp (it_copy x) (it_destroy x).

(** The elements [c], linked from [p] to [q] between [pp] and [qn]. *)
Fixpoint dseg m (pp p q qn : option loc) c : Prop :=
  match c with
  | [] => p = qn ∧ q = pp
  | (l, x) :: c' => p = Some l ∧ ∃ n, m !! l = Some (el_of x pp n) ∧ dseg m (Some l) n q qn c'
  end.

Lemma dseg_frame m m' c pp p q qn :
  dseg m pp p q qn c → (∀ l, l ∈ c.*1 → m' !! l = m !! l) → dseg m' pp p q qn c.
Proof.
  revert pp p. induction c as [|[l x] c IH]; intros pp p; [done|].
  intros (-> & n & Hl & Hc) Hsame. split; [done|]. exists n. split.
  - by rewrite Hsame by (cbn; left).
  - apply IH; [done|]. intros k Hk. apply Hsame. cbn. by right.
Qed.

Lemma dseg_app m c d pp p q qn :
  dseg m pp p q qn (c ++ d) ↔ ∃ j jn, dseg m pp p j jn c ∧ dseg m j jn q qn d.
Proof.
  revert pp p. induction c as [|[l x] c IH]; intros pp p; cbn.
  - split; [by exists pp, p|]. by intros (j & jn & (-> & ->) & H).
  - split.
    + intros (-> & n & Hl & (j & jn & Hc & Hd)%IH). exists j, jn. split; [|done]. split; [done|]. by exists n.
    + intros (j & jn & (-> & n & Hl & Hc) & Hd). split; [done|]. exists n. split; [done|]. apply IH. by exists j, jn.
Qed.

Lemma dseg_elem m c pp p q qn l : dseg m pp p q qn c → l ∈ c.*1 → is_Some (m !! l).
Proof.
  revert pp p. induction c as [|[k x] c IH]; intros pp p; cbn; [by intros _ ?%not_elem_of_nil|].
  intros (-> & n & Hl & Hc) [->|Hin]%elem_of_cons; [by eexists|]. by eapply IH.
Qed.

Lemma dseg_length m c pp p q qn : dseg m pp p q qn c → NoDup c.*1 → (length c ≤ size m)%nat.
Proof.
  intros Hc Hnd. rewrite <- (length_fmap fst c), <- (size_list_to_set (C := gset loc)) by done.
  rewrite <- size_dom. apply subseteq_size. intros l Hl%elem_of_list_to_set. apply elem_of_dom. by eapply dseg_elem.
Qed.

(** Rewriting the links at both ends. *)
Lemma dseg_first m c pp pp' l x n q qn e :
  dseg m pp (Some l) q qn ((l, x) :: c) → l ∉ c.*1 → m !! l = Some e → n = el_next e →
  dseg (<[l := put_prev pp' e]> m) pp' (Some l) q qn ((l, x) :: c).
Proof.
  intros (_ & n' & Hl & Hc) Hnin He ->. rewrite He in Hl. injection Hl as ->. split; [done|]. exists n'.
  split; [by rewrite lookup_insert_eq|]. eapply dseg_frame; [done|]. intros k Hk. rewrite lookup_insert_ne; [done|congruence].
Qed.

Lemma dseg_last m c pp p l x qn qn' :
  dseg m pp p (Some l) qn (c ++ [(l, x)]) → l ∉ c.*1 →
  ∃ e, m !! l = Some e ∧ dseg (<[l := put_next qn' e]> m) pp p (Some l) qn' (c ++ [(l, x)]).
Proof.
  intros (j & jn & Hc & (-> & n & Hl & -> & _))%dseg_app Hnin. eexists. split; [done|].
  apply dseg_app. exists j, (Some l). split.
  - eapply dseg_frame; [done|]. intros k Hk. rewrite lookup_insert_ne; [done|congruence].
  - split; [done|]. exists qn'. by rewrite lookup_insert_eq.
Qed.

Lemma dseg_end m c pp p q qn : dseg m pp p q qn c → q = match list.last c with Some lx => Some lx.1 | None => pp end.
Proof.
  destruct c as [|lx c _] using rev_ind; [by intros [_ ->]|].
  intros (j & jn & _ & H)%dseg_app. destruct lx as [l x]. rewrite last_snoc. by destruct H as (_ & n & _ & _ & ->).
Qed.

(** ** Running the accesses *)

Lemma load_run ls m b an g l e :
  m !! l = Some e → load_list_el l (LState ls m b an g) = Ok e (LState ls m b an g).
Proof. intros Hl. unfold load_list_el. mstep. cbn. by rewrite Hl. Qed.

Lemma upd_run ls m b an g f l e :
  m !! l = Some e → upd_list_el f l (LState ls m b an g) = Ok () (LState ls (<[l := f e]> m) b an g).
Proof.
  intros Hl. unfold upd_list_el. erewrite bind_ok by by eapply load_run. unfold modify, set_list_els. cbn. do 2 f_equal.
  apply map_eq. intros k. destruct (decide (k = l)) as [->|Hne].
  - by rewrite lookup_alter_eq, Hl, lookup_insert_eq.
  - by rewrite lookup_alter_ne, lookup_insert_ne.
Qed.

Lemma load_list_run ls m b an g a h :
  ls !! a = Some h → load_list a (LState ls m b an g) = Ok h (LState ls m b an g).
Proof. intros Hl. unfold load_list. mstep. cbn. by rewrite Hl. Qed.

Lemma store_list_run ls m b an g a h h' :
  ls !! a = Some h → store_list a h' (LState ls m b an g) = Ok () (LState (<[a := h']> ls) m b an g).
Proof. intros Hl. unfold store_list. erewrite bind_ok by by eapply load_list_run. done. Qed.

Lemma insert_run ls m b g a f q v cp ds :
  ls !! a = Some (RListHead f q) → m !! b = None → (∀ l, f = Some l → is_Some (m !! l)) →
  r_list_insert a v cp ds (LState ls m b [] g) =
    Ok () (LState (<[a := RListHead (Some b) q]> ls)
             (match f with
              | Some l => match m !! l with Some e => <[l := put_prev (Some b) e]> (<[b := ListEl v f None cp ds]> m) | None => m end
              | None => <[b := ListEl v None None cp ds]> m
              end) (Pos.succ b) [] g).
Proof.
  intros Ha Hb Hf. unfold r_list_insert. mstep.
  do 3 (erewrite bind_ok by (by apply upd_run; rewrite lookup_insert_eq); rewrite insert_insert_eq).
  erewrite bind_ok by by eapply load_list_run. cbn [l_first].
  erewrite bind_ok by (by apply upd_run; rewrite lookup_insert_eq). rewrite insert_insert_eq. cbn [put_next put_prev put_fns put_data el_data el_next el_prev el_copy el_destroy].
  destruct f as [l|].
  - destruct (Hf l eq_refl) as [e He]. assert (l ≠ b) by congruence. rewrite He.
    erewrite bind_ok by (apply upd_run; by rewrite lookup_insert_ne).
    erewrite bind_ok by by eapply load_list_run. by eapply store_list_run.
  - mstep. erewrite bind_ok by by eapply load_list_run. by eapply store_list_run.
Qed.

Lemma append_run ls m b g a f q v cp ds :
  ls !! a = Some (RListHead f q) → m !! b = None → (∀ l, q = Some l → is_Some (m !! l)) →
  r_list_append a v cp ds (LState ls m b [] g) =
    Ok () (LState (<[a := RListHead (match q with Some _ => f | None => Some b end) (Some b)]> ls)
             (match q with
              | Some l => match m !! l with Some e => <[l := put_next (Some b) e]> (<[b := ListEl v None q cp ds]> m) | None => m end
              | None => <[b := ListEl v None None cp ds]> m
              end) (Pos.succ b) [] g).
Proof.
  intros Ha Hb Hq. unfold r_list_append. mstep.
  do 2 (erewrite bind_ok by (by apply upd_run; rewrite lookup_insert_eq); rewrite insert_insert_eq).
  erewrite bind_ok by by eapply load_list_run. cbn [l_last].
  do 2 (erewrite bind_ok by (by apply upd_run; rewrite lookup_insert_eq); rewrite insert_insert_eq).
  cbn [put_next put_prev put_fns put_data el_data el_next el_prev el_copy el_destroy].
  destruct q as [l|].
  - destruct (Hq l eq_refl) as [e He]. assert (l ≠ b) by congruence. rewrite He.
    erewrite bind_ok by (apply upd_run; by rewrite lookup_insert_ne).
    erewrite bind_ok by by eapply load_list_run. by eapply store_list_run.
  - erewrite bind_ok by by eapply store_list_run.
    erewrite bind_ok by (eapply load_list_run; by rewrite lookup_insert_eq).
    erewrite store_list_run by by rewrite lookup_insert_eq. by rewrite insert_insert_eq.
Qed.

(** ** What holds of a list in use *)

Definition head_of c : option loc := match c with [] => None | (l, _) :: _ => Some l end.
Definition tail_of c : option loc := match list.last c with Some lx => Some lx.1 | None => None end.

(** The list [a] stands for [A]; [c] is where its items are. *)
Record list_at s (a : loc) A c : Prop := {
  la_head : lists s !! a = Some (RListHead (head_of c) (if ended A then tail_of c else None));
  la_seg : dseg (list_els s) None (head_of c) (tail_of c) None c;
  la_nodup : NoDup c.*1;
  la_items : c.*2 = items A;
  la_ended : ended A = true → c ≠ [];
}.

(** Addresses not handed out are unused. *)
Definition list_heap_ok s : Prop :=
  ∀ l, (list_brk s ≤ l)%positive → list_els s !! l = None ∧ lists s !! l = None.

(** Since [s0] only the list [a] has been made and used. *)
Record only_list s0 s (a : loc) A c : Prop := {
  ol_at : list_at s a A c;
  ol_ok : list_heap_ok s;
  ol_plenty : mem_plenty s;
  ol_new : lists s0 !! a = None;
  ol_lists : delete a (lists s) = lists s0;
  ol_els : list_els s0 ⊆ list_els s;
  ol_sep l : l ∈ c.*1 → list_els s0 !! l = None;
  ol_size : size (list_els s) = (size (list_els s0) + length c + lost A)%nat;
  ol_log : list_destroyed s = list_destroyed s0;
}.

Lemma dseg_head m c pp p q : dseg m pp p q None c → p = head_of c.
Proof. destruct c as [|[l x] c]; [by intros [-> _]|by intros [-> _]]. Qed.

Lemma list_at_dseg s a A c : list_at s a A c →
  ∀ l, l ∈ c.*1 → is_Some (list_els s !! l).
Proof. intros Ha l Hl. eapply dseg_elem; [by eapply la_seg|done]. Qed.

Lemma fresh_els s l : list_heap_ok s → is_Some (list_els s !! l) → (l < list_brk s)%positive.
Proof.
  intros Hok [e He]. destruct (decide (l < list_brk s)%positive) as [|Hge]; [done|].
  destruct (Hok l ltac:(lia)) as [Hn _]. congruence.
Qed.

Lemma head_in c l : head_of c = Some l → l ∈ c.*1.
Proof. destruct c as [|[k x] c]; [done|]. intros [= ->]. cbn. by left. Qed.
Lemma tail_in c l : tail_of c = Some l → l ∈ c.*1.
Proof.
  destruct c as [|[k x] c _] using rev_ind; [done|]. unfold tail_of. rewrite last_snoc. intros [= ->].
  rewrite fmap_app, elem_of_app. right. cbn. by left.
Qed.
Lemma tail_snoc c l x : tail_of (c ++ [(l, x)]) = Some l.
Proof. unfold tail_of. by rewrite last_snoc. Qed.
Lemma tail_cons c l x : tail_of ((l, x) :: c) = match tail_of c with Some k => Some k | None => Some l end.
Proof. unfold tail_of. rewrite last_cons. by destruct (list.last c). Qed.

(** Putting an element in front. *)
Lemma dseg_cons m c b x e :
  dseg m None (head_of c) (tail_of c) None c → NoDup c.*1 → m !! b = None →
  e = ListEl (it_data x) (head_of c) None (it_copy x) (it_destroy x) →
  dseg (match head_of c with
        | Some l => match m !! l with Some e' => <[l := put_prev (Some b) e']> (<[b := e]> m) | None => m end
        | None => <[b := e]> m
        end) None (Some b) (tail_of ((b, x) :: c)) None ((b, x) :: c).
Proof.
  intros Hc Hnd Hb ->. destruct c as [|[l y] c].
  { cbn. split; [done|]. exists None. by rewrite lookup_insert_eq. }
  cbn [head_of]. destruct Hc as (_ & n & Hl & Hc). rewrite Hl.
  assert (l ≠ b) by congruence. split; [done|]. exists (Some l). split.
  { rewrite lookup_insert_ne by done. by rewrite lookup_insert_eq. }
  apply NoDup_cons in Hnd as [Hnin Hnd]. rewrite tail_cons.
  assert (tail_of ((l, y) :: c) ≠ None) by (rewrite tail_cons; by destruct (tail_of c)).
  destruct (tail_of ((l, y) :: c)) as [q|] eqn:Hq; [|done].
  split; [done|]. exists n. split; [by rewrite lookup_insert_eq|].
  eapply dseg_frame; [done|]. intros k Hk.
  rewrite !lookup_insert_ne; [done| |by intros ->].
  intros ->. destruct (dseg_elem _ _ _ _ _ _ _ Hc Hk). congruence.
Qed.

(** Putting an element behind. *)
Lemma dseg_snoc m c b x q :
  dseg m None (head_of c) (tail_of c) None c → NoDup c.*1 → m !! b = None → tail_of c = Some q →
  ∃ e, m !! q = Some e ∧
    dseg (<[q := put_next (Some b) e]> (<[b := ListEl (it_data x) None (Some q) (it_copy x) (it_destroy x)]> m))
      None (head_of (c ++ [(b, x)])) (tail_of (c ++ [(b, x)])) None (c ++ [(b, x)]).
Proof.
  destruct c as [|[l y] c _] using rev_ind; [done|]. rewrite !tail_snoc. intros Hc Hnd Hb [= <-].
  rewrite fmap_app in Hnd. apply NoDup_app in Hnd as (Hnd & Hdis & _).
  assert (Hl : l ∉ c.*1) by (intros Hl; apply (Hdis l Hl); cbn; by left).
  set (m' := <[b := ListEl (it_data x) None (Some l) (it_copy x) (it_destroy x)]> m).
  assert (Hc' : dseg m' None (head_of (c ++ [(l, y)])) (Some l) None (c ++ [(l, y)])).
  { eapply dseg_frame; [done|]. intros k Hk. unfold m'. rewrite lookup_insert_ne; [done|].
    intros <-. destruct (dseg_elem _ _ _ _ _ _ _ Hc Hk). congruence. }
  destruct (dseg_last _ _ _ _ _ _ _ (Some b) Hc' Hl) as (e & He & Hseg).
  assert (l ≠ b).
  { intros ->. destruct (dseg_elem _ _ _ _ _ _ b Hc) as [? ?]; [|congruence]. rewrite fmap_app, elem_of_app. right. cbn. by left. }
  unfold m' in He. rewrite lookup_insert_ne in He by done. exists e. split; [done|].
  assert (head_of ((c ++ [(l, y)]) ++ [(b, x)]) = head_of (c ++ [(l, y)])) as -> by (destruct c as [|[??]]; done).
  apply dseg_app. exists (Some l), (Some b). split; [done|]. cbn. split; [done|]. exists None. split; [|done].
  rewrite lookup_insert_ne by done. unfold m'. by rewrite lookup_insert_eq.
Qed.

(** ** One operation *)

Record op_done s s' (a : loc) A' c c' : Prop := {
  od_at : list_at s' a A' c';
  od_ok : list_heap_ok s';
  od_plenty : mem_plenty s';
  od_lists : ∃ h, lists s' = <[a := h]> (lists s);
  od_log : list_destroyed s' = list_destroyed s;
  od_frame l : l ∉ c.*1 → l ≠ list_brk s → list_els s' !! l = list_els s !! l;
  od_size : size (list_els s') = S (size (list_els s));
  od_locs l : l ∈ c'.*1 → l = list_brk s ∨ l ∈ c.*1;
}.

Lemma fresh_insert s a A c : list_at s a A c → list_heap_ok s → list_brk s ∉ c.*1 ∧ a ≠ list_brk s.
Proof.
  intros Ha Hok. destruct (Hok (list_brk s) ltac:(lia)) as [Hb1 Hb2]. split.
  - intros Hin. destruct (list_at_dseg _ _ _ _ Ha _ Hin). congruence.
  - intros ->. pose proof (la_head _ _ _ _ Ha). congruence.
Qed.

Lemma size_linked m b e l e' : m !! b = None → is_Some (m !! l) → size (<[l := e']> (<[b := e]> m)) = S (size m).
Proof.
  intros Hb [e0 Hl]. assert (l ≠ b) by congruence.
  rewrite map_size_insert_Some; [by rewrite map_size_insert_None|]. rewrite lookup_insert_ne; [by eexists|done].
Qed.

Lemma insert_done s a A c x :
  list_at s a A c → list_heap_ok s → mem_plenty s →
  ∃ s', run_op a (Insert x) s = Ok () s' ∧ op_done s s' a (abs_op A (Insert x)) c ((list_brk s, x) :: c).
Proof.
  intros Ha Hok Hp. destruct (fresh_insert _ _ _ _ Ha Hok) as [Hbc Hab].
  pose proof (list_at_dseg _ _ _ _ Ha) as Hin. pose proof (fresh_els s) as Hfresh.
  destruct Ha as [Hhead Hseg Hnd Hit Hend]. destruct (Hok (list_brk s) ltac:(lia)) as [Hb _].
  destruct s as [ls m b an g]. unfold mem_plenty in Hp. cbn in *. subst an.
  assert (Hf : ∀ l, head_of c = Some l → is_Some (m !! l)) by (intros l Hl; by apply Hin, head_in).
  eexists. split; [by eapply insert_run|]. set (e := ListEl (it_data x) (head_of c) None (it_copy x) (it_destroy x)).
  assert (Heq : (match head_of c with
      | Some l => match m !! l with Some e0 => <[l := put_prev (Some b) e0]> (<[b := e]> m) | None => m end
      | None => <[b := ListEl (it_data x) None None (it_copy x) (it_destroy x)]> m end) =
      (match head_of c with
      | Some l => match m !! l with Some e0 => <[l := put_prev (Some b) e0]> (<[b := e]> m) | None => m end
      | None => <[b := e]> m end)) by (unfold e; by destruct (head_of c)).
  cbn. rewrite Heq. split; cbn.
  - split; cbn.
    + rewrite lookup_insert_eq. do 2 f_equal. rewrite tail_cons. destruct (ended A); [|done].
      destruct c as [|[k y] c]; [by destruct (Hend eq_refl)|]. rewrite tail_cons. by destruct (tail_of c).
    + by apply dseg_cons.
    + by apply NoDup_cons.
    + by rewrite Hit.
    + done.
  - intros l Hl. destruct (Hok l ltac:(cbn in *; lia)) as [Hl1 Hl2]. cbn in Hl, Hl1, Hl2 |- *. split.
    + destruct (head_of c) as [k|] eqn:Hk; [|rewrite lookup_insert_ne; [done|lia]].
      destruct (Hf k eq_refl) as [e0 He0]. rewrite He0.
      rewrite !lookup_insert_ne; [done|lia|congruence].
    + rewrite lookup_insert_ne; [done|congruence].
  - done.
  - by eexists.
  - done.
  - intros l Hl Hlb. destruct (head_of c) as [k|] eqn:Hk; [|by rewrite lookup_insert_ne].
    destruct (Hf k eq_refl) as [e0 He0]. rewrite He0. rewrite !lookup_insert_ne; [done|congruence|].
    intros ->. by apply Hl, head_in.
  - destruct (head_of c) as [k|] eqn:Hk; [|by apply map_size_insert_None].
    destruct (Hf k eq_refl) as [e0 He0]. rewrite He0. apply size_linked; [done|by eexists].
  - intros l [->|Hl]%elem_of_cons; [by left|by right].
Qed.

Lemma append_done s a A c x :
  list_at s a A c → list_heap_ok s → mem_plenty s →
  ∃ s', run_op a (Append x) s = Ok () s' ∧
    op_done s s' a (abs_op A (Append x)) c ((if ended A then c else []) ++ [(list_brk s, x)]).
Proof.
  intros Ha Hok Hp. destruct (fresh_insert _ _ _ _ Ha Hok) as [Hbc Hab].
  pose proof (list_at_dseg _ _ _ _ Ha) as Hin.
  destruct Ha as [Hhead Hseg Hnd Hit Hend]. destruct (Hok (list_brk s) ltac:(lia)) as [Hb _].
  destruct s as [ls m b an g]. unfold mem_plenty in Hp. cbn in *. subst an.
  set (q := if ended A then tail_of c else None) in *.
  assert (Hf : ∀ l, q = Some l → is_Some (m !! l)).
  { unfold q. intros l Hl. destruct (ended A); [|done]. by apply Hin, tail_in. }
  eexists. split; [by eapply append_run|]. unfold q in *. clear q. cbn. destruct (ended A) eqn:He.
  - destruct (tail_of c) as [q|] eqn:Hq.
    2: { exfalso. specialize (Hend eq_refl). destruct c as [|[k y] c]; [done|]. rewrite tail_cons in Hq. by destruct (tail_of c). }
    destruct (dseg_snoc m c b x q) as (e & Hm & Hseg'); [by rewrite Hq|done..|]. rewrite Hm.
    split; cbn.
    + split; cbn.
      * rewrite lookup_insert_eq, tail_snoc. do 2 f_equal. destruct c as [|[??]]; done.
      * by rewrite tail_snoc in *.
      * rewrite fmap_app. apply NoDup_app. split_and!; [done| |by apply NoDup_singleton].
        intros l Hl Hl'. cbn in Hl'. apply list_elem_of_singleton in Hl' as ->. done.
      * by rewrite fmap_app, Hit.
      * intros _. by destruct c.
    + intros l Hl. destruct (Hok l ltac:(cbn in *; lia)) as [Hl1 Hl2]. cbn in Hl, Hl1, Hl2 |- *. split.
      * rewrite !lookup_insert_ne; [done|lia|congruence].
      * rewrite lookup_insert_ne; [done|congruence].
    + done.
    + by eexists.
    + done.
    + intros l Hl Hlb. rewrite !lookup_insert_ne; [done|congruence|]. intros ->. by apply Hl, tail_in.
    + apply size_linked; [done|by eexists].
    + intros l. rewrite fmap_app, elem_of_app. intros [?|?%list_elem_of_singleton]; [by right|by left].
  - split; cbn.
    + split; cbn.
      * by rewrite lookup_insert_eq.
      * split; [done|]. exists None. by rewrite lookup_insert_eq.
      * by apply NoDup_singleton.
      * done.
      * done.
    + intros l Hl. destruct (Hok l ltac:(cbn in *; lia)) as [Hl1 Hl2]. cbn in Hl, Hl1, Hl2 |- *.
      split; (rewrite lookup_insert_ne; [done|congruence || lia]).
    + done.
    + by eexists.
    + done.
    + intros l Hl Hlb. by rewrite lookup_insert_ne.
    + by apply map_size_insert_None.
    + intros l ->%list_elem_of_singleton. by left.
Qed.

Lemma op_tracks s0 s a A c o :
  only_list s0 s a A c → ∃ s' c', run_op a o s = Ok () s' ∧ only_list s0 s' a (abs_op A o) c'.
Proof.
  intros [Hat Hok Hp Hnew Hls Hels Hsep Hsize Hlog].
  assert (∃ s' c', run_op a o s = Ok () s' ∧ op_done s s' a (abs_op A o) c c' ∧
    S (length c + lost A) = (length c' + lost (abs_op A o))%nat) as (s' & c' & Hrun & Hd & Hlen).
  { destruct o as [x|x].
    - destruct (insert_done s a A c x Hat Hok Hp) as (s' & Hrun & Hd). exists s', ((list_brk s, x) :: c). done.
    - destruct (append_done s a A c x Hat Hok Hp) as (s' & Hrun & Hd). eexists s', _. split_and!; [done..|].
      rewrite length_app. cbn [length abs_op]. destruct (ended A); cbn; [lia|].
      rewrite <- (la_items _ _ _ _ Hat), length_fmap. lia. }
  exists s', c'. split; [done|]. destruct Hd as [Hat' Hok' Hp' (h & Hls') Hlog' Hfr Hsz Hlocs].
  split; [done|done|done|done| | | | |congruence].
  - rewrite Hls', delete_insert_eq. done.
  - apply map_subseteq_spec. intros l e Hl. rewrite Hfr.
    + by eapply lookup_weaken.
    + intros Hin. specialize (Hsep l Hin). congruence.
    + intros ->. destruct (Hok (list_brk s) ltac:(lia)) as [Hb _]. pose proof (lookup_weaken _ _ _ _ Hl Hels). congruence.
  - intros l [->|Hl]%Hlocs; [|by apply Hsep].
    destruct (Hok (list_brk s) ltac:(lia)) as [Hb _]. eapply lookup_weaken_None; [exact Hb|done].
  - lia.
Qed.

Lemma ops_track s0 os s a A c :
  only_list s0 s a A c → ∃ s' c', run_ops a os s = Ok () s' ∧ only_list s0 s' a (foldl abs_op A os) c'.
Proof.
  revert s A c. induction os as [|o os IH]; intros s A c Hs; [by exists s, c|].
  destruct (op_tracks s0 s a A c o Hs) as (s1 & c1 & Hrun & Hs1). destruct (IH s1 _ c1 Hs1) as (s' & c' & Hrun' & Hs').
  exists s', c'. split; [|done]. cbn [run_ops]. by erewrite bind_ok.
Qed.

(** Creation. *)
Lemma create_tracks s :
  list_heap_ok s → mem_plenty s →
  ∃ a s1, r_list_create s = Ok a s1 ∧ only_list s s1 a (AList [] false 0) [].
Proof.
  intros Hok Hp. destruct (Hok (list_brk s) ltac:(lia)) as [Hb1 Hb2].
  exists (list_brk s). destruct s as [ls m b an g]. unfold mem_plenty in Hp. cbn in *. subst an.
  eexists. split; [done|]. split; cbn.
  - split; cbn; [by rewrite lookup_insert_eq|done|constructor|done|done].
  - intros l Hl. destruct (Hok l ltac:(cbn in *; lia)) as [Hl1 Hl2]. cbn in Hl, Hl1, Hl2 |- *. split; [done|]. rewrite lookup_insert_ne; [done|lia].
  - done.
  - done.
  - by rewrite delete_insert_id.
  - done.
  - by intros l ?%not_elem_of_nil.
  - lia.
  - done.
Qed.

(** ** Iteration and destruction *)

Lemma collect_list_run c s fuel pp p q :
  dseg (list_els s) pp p q None c → (length c < fuel)%nat → collect_list fuel p s = Ok (it_data <$> c.*2) s.
Proof.
  revert fuel pp p. induction c as [|[l x] c IH]; intros fuel pp p Hc Hlt.
  - destruct Hc as [-> _]. destruct fuel as [|fuel]; [lia|]. done.
  - destruct Hc as (-> & n & Hl & Hc). destruct fuel as [|fuel]; [cbn in Hlt; lia|].
    destruct s as [ls m b an g]. cbn [collect_list].
    assert (Hit : r_list_iter (Some l) (LState ls m b an g) = Ok (it_data x, n) (LState ls m b an g)).
    { cbn [r_list_iter]. by erewrite bind_ok by by eapply load_run. }
    erewrite bind_ok by by apply catch_ok. cbv beta iota. erewrite bind_ok by (eapply IH; [done|cbn in Hlt; lia]). done.
Qed.

Lemma contents_run s a A c :
  list_at s a A c → list_contents a s = Ok (it_data <$> items A) s.
Proof.
  intros [Hhead Hseg Hnd Hit _]. unfold list_contents, r_list_init_iter.
  rewrite (bind_ok _ _ s (head_of c) s).
  2: { destruct s. by erewrite bind_ok by by eapply load_list_run. }
  mstep. rewrite <- Hit. eapply collect_list_run; [done|]. pose proof (dseg_length _ _ _ _ _ _ Hseg Hnd). lia.
Qed.

Definition without c m : gmap loc (r_list_el D F) := foldl (λ m lx, delete lx.1 m) m c.

Lemma without_frame c m l : l ∉ c.*1 → without c m !! l = m !! l.
Proof.
  revert m. induction c as [|[k x] c IH]; intros m Hl; [done|]. apply not_elem_of_cons in Hl as [Hk Hl].
  change (without c (delete k m) !! l = m !! l). rewrite IH by done. by rewrite lookup_delete_ne.
Qed.

Lemma without_gone c m l : l ∈ c.*1 → without c m !! l = None.
Proof.
  revert m. induction c as [|[k x] c IH]; intros m Hl; [by apply not_elem_of_nil in Hl|].
  change (without c (delete k m) !! l = None).
  destruct (decide (l ∈ c.*1)) as [Hin|Hnin]; [by apply IH|]. apply elem_of_cons in Hl as [->|?]; [|done].
  rewrite without_frame by done. apply lookup_delete_eq.
Qed.

Lemma without_size c m :
  NoDup c.*1 → (∀ l, l ∈ c.*1 → is_Some (m !! l)) → size (without c m) = (size m - length c)%nat.
Proof.
  revert m. induction c as [|[k x] c IH]; intros m Hnd Hin; [cbn; lia|]. apply NoDup_cons in Hnd as [Hk Hnd].
  change (size (without c (delete k m)) = (size m - S (length c))%nat). rewrite IH; [|done|].
  - rewrite map_size_delete_Some; [lia|]. apply Hin. cbn. by left.
  - intros l Hl. rewrite lookup_delete_ne; [|intros ->; done]. apply Hin. cbn. by right.
Qed.

Lemma destroy_run c ls m b an g fuel pp p q :
  dseg m pp p q None c → NoDup c.*1 → (length c < fuel)%nat →
  destroy_els fuel p (LState ls m b an g) = Ok () (LState ls (without c m) b an (g ++ concat (item_log <$> c.*2))).
Proof.
  revert fuel pp p m g. induction c as [|[l x] c IH]; intros fuel pp p m g Hc Hnd Hlt.
  - destruct Hc as [-> _]. destruct fuel; [lia|]. cbn. by rewrite app_nil_r.
  - destruct Hc as (-> & n & Hl & Hc). destruct fuel as [|fuel]; [cbn in Hlt; lia|].
    apply NoDup_cons in Hnd as [Hnin Hnd]. cbn [destroy_els]. erewrite bind_ok by by eapply load_run.
    assert (Hlog : (match el_destroy (el_of x pp n), el_data (el_of x pp n) with
       | Some f, Some d => modify (log_destroyed f d) | _, _ => mret () end) (LState ls m b an g) =
       Ok () (LState ls m b an (g ++ item_log x))).
    { unfold item_log. cbn. destruct (it_destroy x), (it_data x); cbn; [done|by rewrite app_nil_r..]. }
    erewrite bind_ok by exact Hlog.
    assert (Hfree : free_list_el l (LState ls m b an (g ++ item_log x)) = Ok () (LState ls (delete l m) b an (g ++ item_log x))).
    { unfold free_list_el. by erewrite bind_ok by by eapply load_run. }
    erewrite bind_ok by exact Hfree. cbn [el_of el_next].
    erewrite IH; [|eapply dseg_frame; [done|]|done|cbn in Hlt; lia].
    + cbn. by rewrite <- app_assoc.
    + intros k Hk. rewrite lookup_delete_ne; [done|intros ->; done].
Qed.

Lemma destroy_list_run s a A c :
  list_at s a A c →
  r_list_destroy (Some a) s =
    Ok () (LState (delete a (lists s)) (without c (list_els s)) (list_brk s) (list_answers s)
             (list_destroyed s ++ concat (item_log <$> items A))).
Proof.
  intros [Hhead Hseg Hnd Hit _]. pose proof (dseg_length _ _ _ _ _ _ Hseg Hnd). destruct s as [ls m b an g].
  unfold r_list_destroy. erewrite bind_ok by by eapply load_list_run. mstep. cbn [l_first list_els] in *.
  erewrite bind_ok by (eapply destroy_run; [done|done|lia]). cbn. by rewrite Hit.
Qed.

(** The life of a list: whatever is inserted and appended, iteration delivers what [abs_op]
    says, in order; destroying the list runs the destructors of its items in that order and
    frees them, and all memory is as before but for the elements an append lost. *)
Theorem list_life s os :
  list_heap_ok s → mem_plenty s →
  let A := foldl abs_op (AList [] false 0) os in
  ∃ a s1 s2 s3, r_list_create s = Ok a s1 ∧ run_ops a os s1 = Ok () s2 ∧
    list_contents a s2 = Ok (it_data <$> items A) s2 ∧
    r_list_destroy (Some a) s2 = Ok () s3 ∧
    list_destroyed s3 = list_destroyed s ++ concat (item_log <$> items A) ∧
    lists s3 = lists s ∧ list_els s ⊆ list_els s3 ∧ size (list_els s3) = (size (list_els s) + lost A)%nat ∧
    (lost A = 0%nat → list_els s3 = list_els s).
Proof.
  intros Hok Hp A. destruct (create_tracks s Hok Hp) as (a & s1 & Hcreate & Hol).
  destruct (ops_track s os s1 a _ [] Hol) as (s2 & c & Hrun & Hol2). fold A in Hol2.
  destruct Hol2 as [Hat _ _ _ Hls Hels Hsep Hsize Hlog].
  eexists a, s1, s2, _. split; [done|]. split; [done|]. split; [by eapply contents_run|]. split; [by eapply destroy_list_run|].
  cbn. assert (Hsub : list_els s ⊆ without c (list_els s2)).
  { apply map_subseteq_spec. intros l e Hl. rewrite without_frame; [by eapply lookup_weaken|].
    intros Hin. specialize (Hsep l Hin). congruence. }
  assert (Hsz : size (without c (list_els s2)) = (size (list_els s) + lost A)%nat).
  { rewrite without_size; [lia|by eapply la_nodup|]. intros l Hl. by eapply list_at_dseg. }
  split_and!; [by rewrite Hlog|done|done|done|].
  intros H0. symmetry. apply map_subseteq_size_eq; [done|lia].
Qed.

(** Appending only, or inserting only, loses nothing; the first append to a list made of
    insertions drops all of them. *)
Theorem append_after_insert (xs ys : list (item D F)) (y : item D F) :
  foldl abs_op (AList [] false 0) (Append <$> xs) = AList xs (negb (bool_decide (xs = []))) 0 ∧
  foldl abs_op (AList [] false 0) (Insert <$> xs) = AList (reverse xs) false 0 ∧
  foldl abs_op (AList [] false 0) ((Insert <$> xs) ++ (Append <$> y :: ys)) = AList (y :: ys) true (length xs).
Proof.
  assert (Happ : ∀ (zs zs' : list (item D F)) k, foldl abs_op (AList zs' true k) (Append <$> zs) = AList (zs' ++ zs) true k).
  { induction zs as [|z zs IH]; intros zs' k; cbn; [by rewrite app_nil_r|]. rewrite IH. by rewrite <- app_assoc. }
  assert (Hins : ∀ (zs zs' : list (item D F)), foldl abs_op (AList zs' false 0) (Insert <$> zs) = AList (reverse zs ++ zs') false 0).
  { induction zs as [|z zs IH]; intros zs'; [done|]. rewrite reverse_cons, <- app_assoc. apply IH. }
  split_and!.
  - destruct xs as [|x xs]; [done|]. cbn. by rewrite Happ.
  - by rewrite Hins, app_nil_r.
  - rewrite foldl_app, Hins, app_nil_r. cbn. rewrite Happ.
    by rewrite length_reverse.
Qed.

(** ** Copying *)

(** The copy of an item: a datum without copy function is not copied. *)
Definition copy_item x : Z + item D F :=
  match it_copy x, it_data x with
  | Some f, Some d => match call_copy f d with inl r => inl r | inr d' => inr (Item (Some d') (it_copy x) (it_destroy x)) end
  | _, _ => inr (Item None (it_copy x) (it_destroy x))
  end.
(** The items copied before the first failure, and the failure. *)
Fixpoint copy_items (xs : list (item D F)) : list (item D F) * option Z :=
  match xs with
  | [] => ([], None)
  | x :: xs' =>
      match copy_item x with
      | inl r => ([], Some r)
      | inr y => let '(ys, r) := copy_items xs' in (y :: ys, r)
      end
  end.

(** What the copying loop leaves: the copy [d] so far, the source's elements, fresh memory. *)
Record copying (m0 : gmap loc (r_list_el D F)) ls0 (out : loc) g s d : Prop := {
  cp_lists : lists s = <[out := RListHead (head_of d) None]> ls0;
  cp_seg : dseg (list_els s) None (head_of d) (tail_of d) None d;
  cp_nodup : NoDup d.*1;
  cp_ok : list_heap_ok s;
  cp_plenty : mem_plenty s;
  cp_old : m0 ⊆ list_els s;
  cp_sep l : l ∈ d.*1 → m0 !! l = None;
  cp_log : list_destroyed s = g;
}.

Lemma copying_in m0 ls0 out g s d l : copying m0 ls0 out g s d → l ∈ d.*1 → is_Some (list_els s !! l).
Proof. intros H Hl. eapply dseg_elem; [by eapply cp_seg|done]. Qed.

(** The source is out of the way of the fresh element. *)
Lemma copying_fresh m0 ls0 out g s d :
  copying m0 ls0 out g s d → list_els s !! list_brk s = None ∧ m0 !! list_brk s = None ∧ list_brk s ∉ d.*1 ∧ out ≠ list_brk s.
Proof.
  intros H. destruct (cp_ok _ _ _ _ _ _ H (list_brk s) ltac:(lia)) as [Hb Hl]. split_and!; [done| | |].
  - eapply lookup_weaken_None; [done|]. by eapply cp_old.
  - intros Hin. destruct (copying_in _ _ _ _ _ _ _ H Hin). congruence.
  - intros ->. rewrite (cp_lists _ _ _ _ _ _ H), lookup_insert_eq in Hl. done.
Qed.

(** The end of one turn: the new element [b] is linked behind [d]. *)
Lemma link_run m0 ls0 out g s d y :
  copying m0 ls0 out g s d → 
  let b := list_brk s in
  let s1 := LState (lists s) (<[b := ListEl (it_data y) None None (it_copy y) (it_destroy y)]> (list_els s)) (Pos.succ b) [] (list_destroyed s) in
  ∃ s', link_copy out (tail_of d) b s1 = Ok () s' ∧
    copying m0 ls0 out g s' (d ++ [(b, y)]) ∧ size (list_els s') = S (size (list_els s)).
Proof.
  intros H b s1. destruct (copying_fresh _ _ _ _ _ _ H) as (Hb & Hmb & Hbd & Hob).
  pose proof (cp_ok _ _ _ _ _ _ H) as Hok. pose proof (copying_in m0 ls0 out g s d) as Hin.
  destruct H as [Hls Hseg Hnd _ Hp Hold Hsep Hlog]. destruct s as [ls m b' an g']. cbn in *. subst b. unfold s1. clear s1.
  assert (Hol : ls !! out = Some (RListHead (head_of d) None)) by (by rewrite Hls, lookup_insert_eq).
  unfold link_copy. erewrite bind_ok by by eapply load_list_run. cbn [l_first l_last].
  destruct (tail_of d) as [q|] eqn:Hq.
  - destruct (head_of d) as [hd|] eqn:Hhd.
    2: { destruct d as [|[??]]; done. }
    mstep. erewrite bind_ok by (apply upd_run; by rewrite lookup_insert_eq). rewrite insert_insert_eq.
    destruct (dseg_snoc m d b' y q) as (e & Hm & Hseg'); [by rewrite Hhd, Hq|done..|].
    assert (q ≠ b') by congruence.
    eexists. split; [apply upd_run; by rewrite lookup_insert_ne|]. cbn. split; [|by apply size_linked].
    split; cbn.
    + rewrite Hls. do 2 f_equal. destruct d as [|[??]]; done.
    + done.
    + rewrite fmap_app. apply NoDup_app. split_and!; [done| |by apply NoDup_singleton].
      intros l Hl Hl'. cbn in Hl'. apply list_elem_of_singleton in Hl' as ->. done.
    + intros l Hl. destruct (Hok l ltac:(cbn in *; lia)) as [Hl1 Hl2]. cbn in Hl, Hl1, Hl2 |- *. split; [|done].
      rewrite !lookup_insert_ne; [done|lia|congruence].
    + done.
    + apply map_subseteq_spec. intros l e' Hl. rewrite !lookup_insert_ne; [by eapply lookup_weaken|congruence|].
      intros ->. rewrite Hsep in Hl; [done|]. by apply tail_in.
    + intros l. rewrite fmap_app, elem_of_app. intros [? | ->%list_elem_of_singleton]; [by apply Hsep|done].
    + done.
  - assert (d = []) as ->.
    { destruct d as [|[k x] d]; [done|]. rewrite tail_cons in Hq. by destruct (tail_of d). }
    cbn [head_of]. erewrite bind_ok by by eapply store_list_run.
    erewrite bind_ok by (apply upd_run; by rewrite lookup_insert_eq). rewrite insert_insert_eq.
    eexists. split; [done|]. cbn. split; [|by apply map_size_insert_None].
    split; cbn.
    + by rewrite Hls, insert_insert_eq.
    + split; [done|]. exists None. by rewrite lookup_insert_eq.
    + by apply NoDup_singleton.
    + intros l Hl. destruct (Hok l ltac:(cbn in *; lia)) as [Hl1 Hl2]. cbn in Hl, Hl1, Hl2 |- *.
      split; (rewrite lookup_insert_ne; [done|]); [lia|]. intros <-. congruence.
    + done.
    + apply map_subseteq_spec. intros l e' Hl. rewrite lookup_insert_ne; [by eapply lookup_weaken|congruence].
    + by intros l ->%list_elem_of_singleton.
    + done.
Qed.

(** The copying functions on the fresh element. *)
Lemma fill_run ls m b g x pp n :
  fill_copy call_copy (el_of x pp n) b (LState ls (<[b := ListEl None None None None None]> m) (Pos.succ b) [] g) =
  match copy_item x with
  | inl r => Err (abort_code r) (LState ls (<[b := ListEl None None None None None]> m) (Pos.succ b) [] g)
  | inr y => Ok () (LState ls (<[b := ListEl (it_data y) None None (it_copy y) (it_destroy y)]> m) (Pos.succ b) [] g)
  end.
Proof.
  unfold copy_item, fill_copy. cbn [el_of el_copy el_data el_destroy].
  destruct (it_copy x) as [f|] eqn:Hf, (it_data x) as [d|] eqn:Hd.
  1: destruct (call_copy f d) as [r|d'] eqn:Hc; [done|].
  1: erewrite bind_ok by (by apply upd_run; rewrite lookup_insert_eq); rewrite insert_insert_eq.
  2-4: mstep.
  all: erewrite upd_run by (by rewrite lookup_insert_eq); by rewrite insert_insert_eq.
Qed.

(** A fresh element nobody points to changes nothing. *)
Lemma copying_leak m0 ls0 out g ls m b d e :
  copying m0 ls0 out g (LState ls m b [] g) d → copying m0 ls0 out g (LState ls (<[b := e]> m) (Pos.succ b) [] g) d.
Proof.
  intros H. destruct (copying_fresh _ _ _ _ _ _ H) as (Hb & Hmb & Hbd & Hob). cbn in *.
  destruct H as [Hls Hseg Hnd Hok Hp Hold Hsep Hlog]. cbn in *. split; cbn; try done.
  - eapply dseg_frame; [done|]. intros l Hl. rewrite lookup_insert_ne; [done|]. by intros <-.
  - intros l Hl. destruct (Hok l ltac:(cbn in *; lia)) as [Hl1 Hl2]. cbn in Hl, Hl1, Hl2 |- *. split; [|done].
    rewrite lookup_insert_ne; [done|lia].
  - apply map_subseteq_spec. intros l e' Hl. rewrite lookup_insert_ne; [by eapply lookup_weaken|congruence].
Qed.

Lemma copy_els_run m0 ls0 out g c s d fuel pp p q :
  copying m0 ls0 out g s d → dseg m0 pp p q None c → (length c < fuel)%nat →
  ∃ s' e, copying m0 ls0 out g s' (d ++ e) ∧ e.*2 = (copy_items c.*2).1 ∧
    match (copy_items c.*2).2 with
    | None => copy_els call_copy fuel out (tail_of d) p s = Ok (tail_of (d ++ e)) s' ∧
        size (list_els s') = (size (list_els s) + length e)%nat
    | Some r => copy_els call_copy fuel out (tail_of d) p s = Err (abort_code r) s' ∧
        size (list_els s') = (size (list_els s) + S (length e))%nat
    end.
Proof.
  revert s d fuel pp p. induction c as [|[l x] c IH]; intros s d fuel pp p Hcp Hc Hlt.
  { exists s, []. rewrite app_nil_r. destruct Hc as [-> _]. destruct fuel; [cbn in Hlt; lia|]. split; [done|]. split; [done|]. cbn. split; [done|lia]. }
  destruct Hc as (-> & n & Hl & Hc). destruct fuel as [|fuel]; [cbn in Hlt; lia|].
  destruct (copying_fresh _ _ _ _ _ _ Hcp) as (Hb & _).
  assert (Hle : list_els s !! l = Some (el_of x pp n)) by (eapply lookup_weaken; [done|by eapply cp_old]).
  pose proof (cp_plenty _ _ _ _ _ _ Hcp) as Hp. pose proof (cp_log _ _ _ _ _ _ Hcp) as Hlog.
  destruct s as [ls m b an g']. unfold mem_plenty in Hp. cbn in Hp, Hlog, Hb, Hle. subst an g'.
  cbn [copy_els]. erewrite bind_ok by by eapply load_run. mstep. cbn [list_brk].
  pose proof (fill_run ls m b g x pp n) as Hfill. cbn [fmap list_fmap copy_items snd]. destruct (copy_item x) as [r|y] eqn:Hx.
  { eexists _, []. rewrite app_nil_r. split; [by apply copying_leak|]. split; [done|]. cbn.
    split; [by erewrite bind_err|]. rewrite map_size_insert_None by done. lia. }
  erewrite bind_ok by exact Hfill.
  destruct (link_run _ _ _ _ _ _ y Hcp) as (s1 & Hlink & Hcp1 & Hsize1). cbn [list_brk lists list_els list_destroyed] in Hlink, Hsize1.
  erewrite bind_ok by exact Hlink.
  destruct (IH s1 (d ++ [(b, y)]) fuel (Some l) n Hcp1 Hc ltac:(cbn in Hlt; lia)) as (s' & e & Hcp' & He & Hres).
  exists s', ((b, y) :: e). rewrite <- app_assoc in Hcp', Hres. rewrite tail_snoc in Hres. cbn in Hcp', Hres.
  destruct (copy_items c.*2) as [ys r]. cbn in *. split; [done|]. split; [by rewrite He|].
  destruct r; (destruct Hres as [Hrun Hsz]; split; [done|lia]).
Qed.

(** The copy starts with an empty list. *)
Lemma copy_begin s a A c :
  list_at s a A c → list_heap_ok s → mem_plenty s →
  ∃ b s1, r_list_create s = Ok b s1 ∧ copying (list_els s) (lists s) b (list_destroyed s) s1 [] ∧
    list_els s1 = list_els s ∧ lists s !! b = None ∧ b ≠ a ∧
    load_list a s1 = Ok (RListHead (head_of c) (if ended A then tail_of c else None)) s1.
Proof.
  intros Hat Hok Hp.
  destruct (create_tracks s Hok Hp) as (b & s1 & Hcreate & Hol). destruct Hol as [_ Hok1 Hp1 Hnew Hls1 Hels1 _ Hsize1 Hlog1].
  assert (Hs1 : lists s1 = <[b := RListHead None None]> (lists s) ∧ list_els s1 = list_els s).
  { unfold r_list_create, calloc_list in Hcreate. destruct s as [ls m b0 an g]. unfold mem_plenty in Hp. cbn in Hp. subst an.
    injection Hcreate as <- <-. done. }
  destruct Hs1 as [Hl1 He1].
  assert (Hab : a ≠ b) by (intros ->; pose proof (la_head _ _ _ _ Hat); congruence).
  exists b, s1. split_and!; [done| |done|done|done|].
  - split; [done|done|constructor|done|done|by rewrite He1|by intros l ?%not_elem_of_nil|done].
  - destruct s1 as [ls1 m1 b1 an1 g1]. cbn in Hl1. subst ls1. apply load_list_run. cbn.
    rewrite lookup_insert_ne by done. apply (la_head _ _ _ _ Hat).
Qed.

(** The list copied from is in place whatever was added to the elements. *)
Lemma source_kept s a A c m ls br an g :
  list_at s a A c → list_els s ⊆ m → ls !! a = lists s !! a → list_at (LState ls m br an g) a A c.
Proof.
  intros [Hh Hs Hn Hi He] Hm Hls. split; cbn; [by rewrite Hls| |done..].
  eapply dseg_frame; [exact Hs|]. intros l Hl. destruct (dseg_elem _ _ _ _ _ _ _ Hs Hl) as [e Hel].
  rewrite Hel. by eapply lookup_weaken.
Qed.

(** The clean-up of a copy that failed, and the end of one that did not. *)
Lemma copy_undone s a A c b s2 d ys :
  list_at s a A c → copying (list_els s) (lists s) b (list_destroyed s) s2 d → d.*2 = ys → lists s !! b = None →
  size (list_els s2) = (size (list_els s) + S (length d))%nat →
  ∃ s', r_list_destroy (Some b) s2 = Ok () s' ∧ list_at s' a A c ∧ lists s' = lists s ∧ list_els s ⊆ list_els s' ∧
    size (list_els s') = S (size (list_els s)) ∧ list_destroyed s' = list_destroyed s ++ concat (item_log <$> ys).
Proof.
  intros Hat Hcp Hd Hbn Hsize. pose proof (cp_lists _ _ _ _ _ _ Hcp) as Hl2. pose proof (cp_log _ _ _ _ _ _ Hcp) as Hg2.
  assert (Hatb : list_at s2 b (AList ys false 0) d).
  { destruct Hcp as [Hh Hs Hn _ _ _ _ _]. split; [by rewrite Hh, lookup_insert_eq|done|done|done|done]. }
  assert (Hsub : list_els s ⊆ without d (list_els s2)).
  { apply map_subseteq_spec. intros l e Hl. rewrite without_frame; [by eapply lookup_weaken, cp_old|].
    intros Hin. rewrite (cp_sep _ _ _ _ _ _ Hcp) in Hl; done. }
  eexists. split; [by eapply destroy_list_run|]. cbn.
  assert (Hls : delete b (lists s2) = lists s) by (by rewrite Hl2, delete_insert_id).
  split_and!; [by eapply source_kept; [..|rewrite Hls]|done|done| |by rewrite Hg2].
  rewrite without_size; [lia|by eapply cp_nodup|]. intros l Hl. by eapply copying_in.
Qed.

Lemma copy_finished s a A c b s2 d ys :
  list_at s a A c → copying (list_els s) (lists s) b (list_destroyed s) s2 d → d.*2 = ys → b ≠ a →
  ∃ s', store_list b (RListHead (head_of d) (tail_of d)) s2 = Ok () s' ∧
    list_heap_ok s' ∧ list_at s' a A c ∧ list_at s' b (AList ys (negb (bool_decide (ys = []))) 0) d ∧
    (∀ l, l ∈ d.*1 → l ∉ c.*1) ∧ lists s' = <[b := RListHead (head_of d) (tail_of d)]> (lists s) ∧
    list_els s ⊆ list_els s' ∧ list_els s' = list_els s2 ∧ list_destroyed s' = list_destroyed s.
Proof.
  intros Hat Hcp Hd Hba. pose proof (cp_lists _ _ _ _ _ _ Hcp) as Hl2. pose proof (cp_log _ _ _ _ _ _ Hcp) as Hg2.
  exists (LState (<[b := RListHead (head_of d) (tail_of d)]> (lists s2)) (list_els s2) (list_brk s2) (list_answers s2) (list_destroyed s2)).
  cbn. split_and!; [| | | | | |by apply (cp_old _ _ _ _ _ _ Hcp)|done|done].
  - destruct s2 as [ls2 m2 b2 an2 g2]. cbn in *. eapply store_list_run. by rewrite Hl2, lookup_insert_eq.
  - intros l Hl. destruct (cp_ok _ _ _ _ _ _ Hcp l Hl) as [Hle Hll]. cbn. split; [done|].
    rewrite lookup_insert_ne; [done|]. intros <-. by rewrite Hl2, lookup_insert_eq in Hll.
  - eapply source_kept; [done|by eapply cp_old|]. by rewrite lookup_insert_ne, Hl2, lookup_insert_ne.
  - destruct Hcp as [Hh Hs Hn _ _ _ _ _]. split; cbn; [|done|done|done|].
    + rewrite lookup_insert_eq. subst ys. by destruct d as [|[??]].
    + subst ys. by destruct d.
  - intros l Hl Hlc. destruct (list_at_dseg _ _ _ _ Hat _ Hlc). rewrite (cp_sep _ _ _ _ _ _ Hcp) in *; done.
  - by rewrite Hl2, insert_insert_eq.
Qed.

(** [r_list_copy]: a new list of the copies, with nothing else changed; when a copy fails, the
    copies made are destroyed again, but for the element meant for the failed one. *)
Theorem list_copy_correct s a A c :
  list_at s a A c → list_heap_ok s → mem_plenty s →
  match copy_items (items A) with
  | (ys, None) => ∃ b s' d, r_list_copy call_copy (Some a) s = Ok (Some b) s' ∧ b ≠ a ∧
      list_heap_ok s' ∧ list_at s' a A c ∧ list_at s' b (AList ys (negb (bool_decide (ys = []))) 0) d ∧
      (∀ l, l ∈ d.*1 → l ∉ c.*1) ∧ lists s' = <[b := RListHead (head_of d) (tail_of d)]> (lists s) ∧
      list_els s ⊆ list_els s' ∧ size (list_els s') = (size (list_els s) + length ys)%nat ∧
      list_destroyed s' = list_destroyed s
  | (ys, Some r) => ∃ s', r_list_copy call_copy (Some a) s = Err (abort_code r) s' ∧
      list_at s' a A c ∧ lists s' = lists s ∧ list_els s ⊆ list_els s' ∧
      size (list_els s') = S (size (list_els s)) ∧
      list_destroyed s' = list_destroyed s ++ concat (item_log <$> ys)
  end.
Proof.
  intros Hat Hok Hp. pose proof (la_items _ _ _ _ Hat) as Hit. rewrite <- Hit.
  destruct (copy_begin s a A c Hat Hok Hp) as (b & s1 & Hcreate & Hcp & He1 & Hbn & Hba & Hload).
  pose proof (la_seg _ _ _ _ Hat) as Hseg. pose proof (dseg_length _ _ _ _ _ _ Hseg (la_nodup _ _ _ _ Hat)) as Hlen.
  destruct (copy_els_run _ _ _ _ c s1 [] (S (size (list_els s1))) _ _ _ Hcp Hseg ltac:(rewrite He1; lia)) as (s2 & d & Hcp2 & Hd & Hres).
  unfold r_list_copy. erewrite bind_ok by exact Hcreate.
  destruct (copy_items c.*2) as [ys [r|]]; cbn in Hd, Hres; destruct Hres as [Hrun Hsize]; rewrite He1 in Hsize.
  - assert (Hcatch : (l ← load_list a; s ← get; last ← copy_els call_copy (S (size (list_els s))) b None (l_first l);
        o ← load_list b; store_list b (RListHead (l_first o) last)) s1 = Err (abort_code r) s2).
    { erewrite bind_ok by exact Hload. mstep. cbn [l_first]. by apply bind_err. }
    erewrite bind_ok by by eapply catch_err. cbv beta iota.
    destruct (copy_undone s a A c b s2 d ys) as (s' & Hdes & Hrest); [done..|].
    erewrite bind_ok by exact Hdes. exists s'. split; [|exact Hrest].
    unfold abort. by rewrite (abort_code_id (abort_code r)) by apply abort_code_nonzero.
  - destruct (copy_finished s a A c b s2 d ys) as (s' & Hst & Hheap & Hsrc & Hnew & Hsep & Hls & Hsub & Hels & Hlog); [done..|].
    assert (Hlb : load_list b s2 = Ok (RListHead (head_of d) None) s2).
    { destruct s2 as [ls2 m2 b2 an2 g2]. apply load_list_run. pose proof (cp_lists _ _ _ _ _ _ Hcp2) as Hx. cbn in Hx. by rewrite Hx, lookup_insert_eq. }
    assert (Hcatch : (l ← load_list a; s ← get; last ← copy_els call_copy (S (size (list_els s))) b None (l_first l);
        o ← load_list b; store_list b (RListHead (l_first o) last)) s1 = Ok () s').
    { erewrite bind_ok by exact Hload. mstep. cbn [l_first]. erewrite bind_ok by exact Hrun. by erewrite bind_ok by exact Hlb. }
    erewrite bind_ok by by apply catch_ok. cbv beta iota. exists b, s', d. split_and!; try done.
    rewrite Hels, Hsize. subst ys. by rewrite length_fmap.
Qed.
End lists.

(** ** Instances *)

Definition duplicate (f d : nat) : Z + nat := if (d =? 0)%nat then inl R_FAILED else inr (f + d)%nat.
Definition no_lists : list_state nat nat := LState ∅ ∅ 1 [] [].
Definition three_items : list (list_op nat nat) :=
  [Append (Item (Some 1%nat) (Some 0%nat) (Some 7%nat)); Append (Item (Some 2%nat) None None); Insert (Item (Some 3%nat) None (Some 8%nat))].

Lemma no_lists_ok : list_heap_ok no_lists.
Proof. by intros l _. Qed.

Lemma list_life_witness :
  ∃ a s1 s2 s3, r_list_create no_lists = Ok a s1 ∧ run_ops a three_items s1 = Ok () s2 ∧
    list_contents a s2 = Ok [Some 3%nat; Some 1%nat; Some 2%nat] s2 ∧
    r_list_destroy (Some a) s2 = Ok () s3 ∧
    list_destroyed s3 = [(8%nat, 3%nat); (7%nat, 1%nat)] ∧
    lists s3 = ∅ ∧ (∅ : gmap loc (r_list_el nat nat)) ⊆ list_els s3 ∧ size (list_els s3) = 0%nat ∧
    (0%nat = 0%nat → list_els s3 = ∅).
Proof. exact (list_life no_lists three_items no_lists_ok eq_refl). Defined.

Definition copied_item : item nat nat := Item (Some 5%nat) (Some 4%nat) None.
Definition one_list : list_state nat nat :=
  LState {[1%positive := RListHead (Some 2%positive) (Some 2%positive)]}
    {[2%positive := el_of copied_item None None]} 3 [] [].

Lemma one_list_at : list_at one_list 1 (AList [copied_item] true 0) [(2%positive, copied_item)].
Proof.
  split; [done| |by apply NoDup_singleton|done|done]. split; [done|]. by exists None.
Qed.

Lemma one_list_ok : list_heap_ok one_list.
Proof.
  intros l Hl. cbn in *. by rewrite !lookup_singleton_ne by lia.
Qed.

Lemma list_copy_correct_witness :
  ∃ b s' d, r_list_copy duplicate (Some 1%positive) one_list = Ok (Some b) s' ∧ b ≠ 1%positive ∧
    list_heap_ok s' ∧ list_at s' 1 (AList [copied_item] true 0) [(2%positive, copied_item)] ∧
    list_at s' b (AList [Item (Some 9%nat) (Some 4%nat) None] true 0) d ∧
    (∀ l, l ∈ d.*1 → l ∉ [2%positive]) ∧ lists s' = <[b := RListHead (head_of d) (tail_of d)]> (lists one_list) ∧
    list_els one_list ⊆ list_els s' ∧ size (list_els s') = 2%nat ∧ list_destroyed s' = [].
Proof. exact (list_copy_correct duplicate one_list 1 _ _ one_list_at one_list_ok eq_refl). Defined.
