(* ===== verification/RBitfield.v ===== *)
(** * Bit fields (src/util/libekr/r_bitfield.c)

    A set of small integers as an array of 32-bit words.  The theorems show that it is a set
    within the size it was created with, and that the code meant to enlarge it always writes
    outside its memory. *)

From S2P Require Import Prelude.
Local Open Scope Z_scope.

(** [data] has [len] words; the base is that of [r_bitfield_create]. *)
Record r_bitfield := Bitfield { bf_data : list Z; bf_len : Z; bf_base : Z }.

(** The bit field a caller's pointer points to ([None]: null), and the allocator's answers. *)
Record bitfield_state := BState { bf_set : option r_bitfield; bf_answers : list bool }.

#[export] Instance bitfield_alloc : HasAlloc bitfield_state := {
  alloc_answers := bf_answers;
  set_alloc_answers l s := BState (bf_set s) l;
}.
#[export] Instance bitfield_alloc_laws : AllocLaws bitfield_state.
Proof. split; [done|done|by intros []]. Qed.

Abbreviation BM := (M bitfield_state).
Definition put_set (b : option r_bitfield) (s : bitfield_state) : bitfield_state := BState b (bf_answers s).
Definition load_set : BM r_bitfield := s ← get; from_option_ub (bf_set s).

Definition r_bitfield_destroy : BM unit := modify (put_set None).

Definition r_bitfield_create (size : Z) : BM unit :=
  let num_words := size / 32 + (if size mod 32 =? 0 then 0 else 1) in
  alloc_or_abort;;
  alloc_or_abort;;
  modify (put_set (Some (Bitfield (replicate (Z.to_nat num_words) 0) num_words 0))).

(** The indices are computed with the type of [base], [UINT4]. *)
Definition word_of (base bit : Z) : Z := wrap 32 (bit - base) / 32.
Definition bit_of (base bit : Z) : Z := wrap 32 (bit - base) mod 32.

(** [while(newlen<word) newlen*=2;], which does not end for a length of zero. *)
Fixpoint double_until (fuel : nat) (newlen word : Z) : option Z :=
  if newlen <? word then
    match fuel with O => None | S fuel' => double_until fuel' (wrap 32 (newlen * 2)) word end
  else Some newlen.

(** The enlarged array: [newlen] bytes, into which [len] words are copied, and from byte
    [16*len] on, [4*(newlen-len)] bytes are cleared. *)
Definition enlarge (b : r_bitfield) (newlen : Z) : option (list Z) :=
  if newlen <? bf_len b * 4 then None
  else if newlen <? 16 * bf_len b + (newlen - bf_len b) * 4 then None
  else Some (take (Z.to_nat (newlen / 4)) (bf_data b ++ replicate (Z.to_nat newlen) 0)).

(** [data[word]|=1<<bbit]; a shift into the sign bit is taken as the compilers do. *)
Definition r_bitfield_set (bit : Z) : BM unit :=
  b ← load_set;
  let word := word_of (bf_base b) bit in
  let bbit := bit_of (bf_base b) bit in
  (if bf_len b <? word then
     newlen ← from_option_ub (double_until 32 (bf_len b) word);
     alloc_or_abort;;
     tmp ← from_option_ub (enlarge b newlen);
     modify (put_set (Some (Bitfield tmp (bf_len b) (bf_base b))))
   else mret ());;
  b ← load_set;
  w ← from_option_ub (bf_data b !! Z.to_nat word);
  modify (put_set (Some (Bitfield (<[Z.to_nat word := Z.lor w (Z.shiftl 1 bbit)]> (bf_data b)) (bf_len b) (bf_base b)))).

Definition r_bitfield_isset (bit : Z) : BM Z :=
  b ← load_set;
  let word := word_of (bf_base b) bit in
  let bbit := bit_of (bf_base b) bit in
  if wrap 32 bit <? bf_base b then mret 0
  else if bf_len b <? word then mret 0
  else
    w ← from_option_ub (bf_data b !! Z.to_nat word);
    mret (swrap 32 (Z.land w (Z.shiftl 1 bbit))).

(** A client that sets several bits. *)
Fixpoint set_bits (bits : list Z) : BM unit :=
  match bits with [] => mret () | b :: bits' => r_bitfield_set b;; set_bits bits' end.

(** ** Within the size *)

(** The field has [n] words and holds exactly the bits of [P]. *)
Record holds (s : bitfield_state) (n : nat) (P : Z → Prop) : Prop := {
  ho_set : ∃ ws, bf_set s = Some (Bitfield ws (Z.of_nat n) 0) ∧ length ws = n ∧ (Z.of_nat n <= 2 ^ 27) ∧
    Forall (λ w, 0 <= w < 2 ^ 32) ws ∧
    ∀ j w, 0 <= j < 32 * Z.of_nat n → ws !! Z.to_nat (j / 32) = Some w → (Z.testbit w (j mod 32) = true ↔ P j);
}.

Lemma index_in_range n j : Z.of_nat n <= 2 ^ 27 → 0 <= j < 32 * Z.of_nat n →
  word_of 0 j = j / 32 ∧ bit_of 0 j = j mod 32 ∧ 0 <= j / 32 < Z.of_nat n ∧ 0 <= j mod 32 < 32.
Proof.
  intros Hn Hj. unfold word_of, bit_of. rewrite Z.sub_0_r, wrap_small by lia.
  pose proof (Z.div_mod j 32). pose proof (Z.mod_pos_bound j 32). lia.
Qed.

Lemma bit_test w k : 0 <= w < 2 ^ 32 → 0 <= k < 32 → swrap 32 (Z.land w (Z.shiftl 1 k)) ≠ 0 ↔ Z.testbit w k = true.
Proof.
  intros Hw Hk.
  assert (Hland : Z.land w (Z.shiftl 1 k) = if Z.testbit w k then 2 ^ k else 0).
  { rewrite Z.shiftl_1_l. apply Z.bits_inj'. intros i Hi. rewrite Z.land_spec, Z.pow2_bits_eqb by lia.
    destruct (Z.eqb_spec k i) as [->|Hne].
    - destruct (Z.testbit w i); cbn; [by rewrite Z.pow2_bits_true|by rewrite Z.bits_0].
    - rewrite andb_false_r. destruct (Z.testbit w k); [by rewrite Z.pow2_bits_false|by rewrite Z.bits_0]. }
  rewrite Hland. destruct (Z.testbit w k); [|by cbn]. split; [done|]. intros _.
  assert (Hpow : 1 <= 2 ^ k <= 2 ^ 31) by (split; [apply (Z.pow_le_mono_r 2 0 k)|apply Z.pow_le_mono_r]; lia).
  unfold swrap. change (2 ^ (32 - 1)) with 2147483648. change (2 ^ 31) with 2147483648 in Hpow. change (2 ^ 32) with 4294967296.
  destruct (decide (2 ^ k = 2147483648)) as [->|Hne]; [done|]. rewrite Z.mod_small; lia.
Qed.

Lemma set_holds s n P j :
  holds s n P → 0 <= j < 32 * Z.of_nat n →
  ∃ s', r_bitfield_set j s = Ok () s' ∧ holds s' n (λ i, i = j ∨ P i).
Proof.
  intros [(ws & Hs & Hlen & Hn & Hrange & Hbits)] Hj. destruct (index_in_range n j Hn Hj) as (Hw & Hb & Hdiv & Hmod).
  unfold r_bitfield_set, load_set. rewrite (bind_ok _ _ s (Bitfield ws (Z.of_nat n) 0) s).
  2: { mstep. by rewrite Hs. }
  cbn [bf_len bf_base bf_data]. rewrite Hw, Hb, (proj2 (Z.ltb_ge _ _)) by lia. mstep.
  rewrite (bind_ok _ _ s (Bitfield ws (Z.of_nat n) 0) s).
  2: { mstep. by rewrite Hs. }
  cbn [bf_len bf_base bf_data]. destruct (lookup_lt_is_Some_2 ws (Z.to_nat (j / 32))) as [w Hlw]; [lia|]. rewrite Hlw. mstep.
  pose proof (proj1 (Forall_lookup _ _) Hrange _ _ Hlw) as Hwr. cbn in Hwr.
  eexists. split; [done|]. split. eexists. split; [done|]. split_and!; [by rewrite length_insert|done| |].
  - apply Forall_insert; [done|]. split; [apply Z.lor_nonneg; split; [lia|apply Z.shiftl_nonneg; lia]|].
    assert (Hlt : ∀ i, 32 <= i → Z.testbit (Z.lor w (Z.shiftl 1 (j mod 32))) i = false).
    { intros i Hi. rewrite Z.lor_spec, Z.shiftl_1_l, Z.pow2_bits_false, orb_false_r by lia.
      destruct (decide (w = 0)) as [->|Hw0]; [by rewrite Z.bits_0|]. apply Z.bits_above_log2; [lia|].
      enough (Z.log2 w < 32) by lia. apply Z.log2_lt_pow2; lia. }
    assert (H0 : 0 <= Z.lor w (Z.shiftl 1 (j mod 32))) by (apply Z.lor_nonneg; split; [lia|apply Z.shiftl_nonneg; lia]).
    destruct (Z.lt_ge_cases (Z.lor w (Z.shiftl 1 (j mod 32))) (2 ^ 32)) as [|Hge]; [done|].
    assert (Hpos : 0 < Z.lor w (Z.shiftl 1 (j mod 32))) by lia.
    pose proof (Z.bit_log2 _ Hpos) as Hbit. rewrite Hlt in Hbit; [done|]. by apply Z.log2_le_pow2.
  - intros i v Hi Hv. destruct (index_in_range n i Hn Hi) as (_ & _ & Hidiv & Himod).
    destruct (decide (i / 32 = j / 32)) as [Heq|Hne].
    + rewrite Heq in Hv. rewrite list_lookup_insert_eq in Hv by lia. injection Hv as <-.
      rewrite Z.lor_spec, Z.shiftl_1_l, orb_true_iff, Z.pow2_bits_eqb by lia. rewrite Z.eqb_eq.
      rewrite <- Heq in Hlw. rewrite (Hbits i w Hi Hlw).
      assert (j mod 32 = i mod 32 ↔ i = j).
      { pose proof (Z.div_mod i 32). pose proof (Z.div_mod j 32). split; intros; [lia|by subst]. }
      tauto.
    + rewrite list_lookup_insert_ne in Hv by lia. rewrite (Hbits i v Hi Hv). split; [by right|].
      intros [->|?]; [done|done].
Qed.

Lemma isset_holds s n P j :
  holds s n P → 0 <= j < 32 * Z.of_nat n → ∃ v, r_bitfield_isset j s = Ok v s ∧ (v ≠ 0 ↔ P j).
Proof.
  intros [(ws & Hs & Hlen & Hn & Hrange & Hbits)] Hj. destruct (index_in_range n j Hn Hj) as (Hw & Hb & Hdiv & Hmod).
  unfold r_bitfield_isset, load_set. rewrite (bind_ok _ _ s (Bitfield ws (Z.of_nat n) 0) s).
  2: { mstep. by rewrite Hs. }
  cbn [bf_len bf_base bf_data]. rewrite Hw, Hb.
  rewrite (proj2 (Z.ltb_ge _ _)) by (apply wrap_range; lia). rewrite (proj2 (Z.ltb_ge _ _)) by lia.
  destruct (lookup_lt_is_Some_2 ws (Z.to_nat (j / 32))) as [w Hlw]; [lia|]. rewrite Hlw. mstep.
  eexists. split; [done|]. pose proof (proj1 (Forall_lookup _ _) Hrange _ _ Hlw) as Hwr. cbn in Hwr.
  by rewrite bit_test, (Hbits j w Hj Hlw).
Qed.

Lemma set_bits_holds s n P bits :
  holds s n P → Forall (λ j, 0 <= j < 32 * Z.of_nat n) bits →
  ∃ s', set_bits bits s = Ok () s' ∧ holds s' n (λ i, i ∈ bits ∨ P i).
Proof.
  intros Hh Hbits. revert s P Hh. induction Hbits as [|j bits Hj _ IH]; intros s P Hh.
  - exists s. split; [done|]. destruct Hh as [(ws & Hs & Hlen & Hn & Hr & Hb)]. split. exists ws.
    split_and!; [done..|]. intros i w Hi Hw. rewrite (Hb i w Hi Hw). split; [by right|].
    by intros [?%not_elem_of_nil|?].
  - destruct (set_holds s n P j Hh Hj) as (s1 & Hrun & Hh1). destruct (IH s1 _ Hh1) as (s' & Hrun' & Hh').
    exists s'. split; [cbn [set_bits]; by erewrite bind_ok|].
    destruct Hh' as [(ws & Hs & Hlen & Hn & Hr & Hb)]. split. exists ws. split_and!; [done..|].
    intros i w Hi Hw. rewrite (Hb i w Hi Hw), elem_of_cons. tauto.
Qed.

(** The number of words for a size. *)
Definition words_for (size : Z) : nat := Z.to_nat ((size + 31) / 32).

Lemma words_for_eq size : 0 <= size → size / 32 + (if size mod 32 =? 0 then 0 else 1) = Z.of_nat (words_for size).
Proof.
  intros Hs. unfold words_for. rewrite Z2Nat.id by (apply Z.div_pos; lia).
  pose proof (Z.div_mod size 32). pose proof (Z.mod_pos_bound size 32). pose proof (Z.div_mod (size + 31) 32).
  pose proof (Z.mod_pos_bound (size + 31) 32). destruct (Z.eqb_spec (size mod 32) 0); lia.
Qed.

Lemma create_holds s size :
  mem_plenty s → 0 <= size < 2 ^ 32 →
  ∃ s', r_bitfield_create size s = Ok () s' ∧ holds s' (words_for size) (λ _, False).
Proof.
  intros Hp Hsize. unfold r_bitfield_create. rewrite words_for_eq by lia.
  erewrite bind_ok by by apply alloc_or_abort_plenty. erewrite bind_ok by by apply alloc_or_abort_plenty.
  eexists. split; [done|]. split. eexists. split; [done|]. rewrite Nat2Z.id.
  assert (Z.of_nat (words_for size) <= 2 ^ 27).
  { unfold words_for. rewrite Z2Nat.id by (apply Z.div_pos; lia). change (2 ^ 27) with 134217728. change (2 ^ 32) with 4294967296 in Hsize.
    pose proof (Z.div_mod (size + 31) 32). pose proof (Z.mod_pos_bound (size + 31) 32). lia. }
  split_and!; [by rewrite length_replicate|done|by apply Forall_replicate|].
  intros j w Hj [-> _]%lookup_replicate. by rewrite Z.bits_0.
Qed.

(** A field created for [size] bits is the set of the bits set in it, as long as they are
    below [size]: exactly they are reported, whatever their order and number. *)
Theorem bits_are_a_set s size bits :
  mem_plenty s → 0 <= size < 2 ^ 32 → Forall (λ j, 0 <= j < size) bits →
  ∃ s1 s2, r_bitfield_create size s = Ok () s1 ∧ set_bits bits s1 = Ok () s2 ∧
    ∀ j, 0 <= j < size → ∃ v, r_bitfield_isset j s2 = Ok v s2 ∧ (v ≠ 0 ↔ j ∈ bits).
Proof.
  intros Hp Hsize Hbits. destruct (create_holds s size Hp Hsize) as (s1 & Hc & Hh1).
  assert (Hle : size <= 32 * Z.of_nat (words_for size)).
  { rewrite <- words_for_eq by lia. pose proof (Z.div_mod size 32). pose proof (Z.mod_pos_bound size 32).
    destruct (Z.eqb_spec (size mod 32) 0); lia. }
  destruct (set_bits_holds s1 _ _ bits Hh1) as (s2 & Hs & Hh2).
  { eapply Forall_impl; [done|]. cbn. lia. }
  exists s1, s2. split_and!; [done..|]. intros j Hj.
  destruct (isset_holds s2 _ _ j Hh2) as (v & Hv & Hiff); [lia|]. exists v. split; [done|]. rewrite Hiff. tauto.
Qed.

(** ** Beyond the size *)

Lemma double_until_ge fuel n w m : double_until fuel n w = Some m → w <= m.
Proof.
  revert n. induction fuel as [|fuel IH]; intros n; cbn; destruct (Z.ltb_spec n w) as [|Hge]; try done.
  - by intros [= <-].
  - apply IH.
  - by intros [= <-].
Qed.

(** The memory of the enlarged array never holds what is copied and cleared there. *)
Lemma enlarge_none b newlen : 0 <= bf_len b < newlen → enlarge b newlen = None.
Proof.
  intros Hl. unfold enlarge. destruct (newlen <? bf_len b * 4); [done|]. by rewrite (proj2 (Z.ltb_lt _ _)) by lia.
Qed.

(** No bit outside the words of the field can be set: the code reads past the array or, when
    there is memory to enlarge it, loops forever or writes past the new one; such a bit is
    reported unset except in the first word too many, which is read past the array. *)
Theorem growing_overflows s n P j :
  holds s n P → mem_plenty s → - 2 ^ 31 <= j < 2 ^ 31 → (j < 0 ∨ 32 * Z.of_nat n <= j) → Z.of_nat n < 2 ^ 26 →
  r_bitfield_set j s = UB ∧
  r_bitfield_isset j s = (if word_of 0 j =? Z.of_nat n then UB else Ok 0 s).
Proof.
  intros [(ws & Hs & Hlen & _ & _ & _)] Hp Hj Hout Hn.
  assert (Hword : Z.of_nat n <= word_of 0 j < 2 ^ 27).
  { unfold word_of, wrap. rewrite Z.sub_0_r. change (2 ^ 32) with 4294967296 in *. change (2 ^ 31) with 2147483648 in *.
    change (2 ^ 26) with 67108864 in *. change (2 ^ 27) with 134217728.
    pose proof (Z.mod_pos_bound j 4294967296). pose proof (Z.div_mod (j mod 4294967296) 32).
    pose proof (Z.mod_pos_bound (j mod 4294967296) 32). pose proof (Z.div_mod j 4294967296). lia. }
  assert (Hload : load_set s = Ok (Bitfield ws (Z.of_nat n) 0) s) by (unfold load_set; mstep; by rewrite Hs).
  split.
  - unfold r_bitfield_set. erewrite bind_ok by exact Hload. cbn [bf_len bf_base bf_data].
    destruct (Z.ltb_spec (Z.of_nat n) (word_of 0 j)) as [Hlt|Hge].
    + apply bind_ub. destruct (double_until 32 (Z.of_nat n) (word_of 0 j)) as [m|] eqn:Hd; [|done].
      mstep. erewrite bind_ok by by apply alloc_or_abort_plenty.
      pose proof (double_until_ge _ _ _ _ Hd). rewrite enlarge_none; [done|cbn; lia].
    + mstep. erewrite bind_ok by exact Hload. cbn [bf_data]. rewrite lookup_ge_None_2; [done|lia].
  - unfold r_bitfield_isset. erewrite bind_ok by exact Hload. cbn [bf_len bf_base bf_data].
    rewrite (proj2 (Z.ltb_ge _ _)) by (apply wrap_range; lia).
    destruct (Z.eqb_spec (word_of 0 j) (Z.of_nat n)) as [Heq|Hne].
    + rewrite Heq, Z.ltb_irrefl, Nat2Z.id, lookup_ge_None_2; [done|lia].
    + by rewrite (proj2 (Z.ltb_lt _ _)) by lia.
Qed.

(** ** Instances *)

Lemma bits_are_a_set_witness :
  ∃ s1 s2, r_bitfield_create 40 (BState None []) = Ok () s1 ∧ set_bits [3; 35; 3] s1 = Ok () s2 ∧
    ∀ j, 0 <= j < 40 → ∃ v, r_bitfield_isset j s2 = Ok v s2 ∧ (v ≠ 0 ↔ j ∈ [3; 35; 3]).
Proof. apply (bits_are_a_set (BState None []) 40 [3; 35; 3]); [reflexivity|lia|repeat constructor; lia]. Defined.

Definition two_words : bitfield_state := BState (Some (Bitfield [0; 0] 2 0)) [].

Lemma two_words_hold : holds two_words 2 (λ _, False).
Proof.
  split. exists [0; 0]. split_and!; [done..|repeat constructor; lia|].
  intros j w Hj Hw. assert (w = 0) as -> by (destruct (Z.to_nat (j / 32)) as [|[|?]]; cbn in Hw; simplify_eq/=; done).
  by rewrite Z.bits_0.
Qed.

Lemma growing_overflows_witness :
  r_bitfield_set 96 two_words = UB ∧ r_bitfield_isset 96 two_words = Ok 0 two_words.
Proof. apply (growing_overflows two_words 2 (λ _, False) 96); [exact two_words_hold|reflexivity|lia|right; cbn; lia|cbn; lia]. Defined.
