(* ===== verification/Plugins.v ===== *)
(** * The plugin loader (src/plugin/internal/nr_plugin_int.c)

    Plugins, compiled in or loaded from the shared objects that the registry names, and
    their hooks.  The dynamic linker and the hook functions are parameters; the registry is
    any module of RegFacade. *)

From Stdlib Require Import Ascii.
From S2P Require Import Prelude CString RegNames RegInv RegSpec RegFacade RegFacadeSpec.
Local Open Scope Z_scope.

Definition MAX_PLUGINS : nat := 512.

Section plugins.
(** Hook functions, and what a call returns. *)
Context {H : Type} (hook_status : H → Z).

Record NR_plugin_hook_def := HookDef { type : cstring; func : H }.
Record NR_plugin_def := PluginDef { api_version : Z; pl_name : cstring; version : cstring; hooks : list NR_plugin_hook_def }.
(** [path] is null when [r_strdup] had no memory. *)
Record nr_plugin_handle := PluginHandle { path : option cstring; info : NR_plugin_def }.

(** [dlopen] and [dlsym] of ["plugin_def"]: [None] when the object cannot be loaded, [Some None]
    when it has no such symbol. *)
Context (dso : cstring → option (option NR_plugin_def)).
Context {S : Type} `{HasAlloc S} `{RegVtbl S}.

(** The first [nr_loaded_plugin_ct] entries of [nr_loaded_plugins], the hooks called so far,
    and the registry. *)
Record plugin_state := PluginState {
  nr_loaded_plugins : list nr_plugin_handle;
  hook_calls : list H;
  plugin_reg : S;
}.

Abbreviation PM := (M plugin_state).

Definition on_plugin_reg {A} (m : M S A) : PM A := λ s,
  match m (plugin_reg s) with
  | Ok a r => Ok a (PluginState (nr_loaded_plugins s) (hook_calls s) r)
  | Err e r => Err e (PluginState (nr_loaded_plugins s) (hook_calls s) r)
  | UB => UB
  end.

(** [hook()]: the call is recorded, and its status returned. *)
Definition call_hook (hook : H) : PM Z := λ s,
  Ok (hook_status hook) (PluginState (nr_loaded_plugins s) (hook_calls s ++ [hook]) (plugin_reg s)).

Definition nr_plugin_get_hook (p : NR_plugin_def) (ty : cstring) : Z + H :=
  match index_where (λ h, streq ty (type h)) (hooks p) ≫= λ i, hooks p !! i with
  | Some h => inr (func h)
  | None => inl R_NOT_FOUND
  end.

(** The count is checked with [>], and the entry after the last one is written before it is
    counted. *)
Definition nr_plugin_add (pth : cstring) (inf : NR_plugin_def) : PM nat :=
  s ← get;
  let ct := length (nr_loaded_plugins s) in
  if (MAX_PLUGINS <? ct)%nat then abort R_INTERNAL
  else if (MAX_PLUGINS <=? ct)%nat then undef
  else
    ok ← on_plugin_reg alloc_ok;
    match nr_plugin_get_hook inf $"init" with
    | inl _ => mret ()
    | inr hook => ignore (call_hook hook)
    end;;
    modify (λ s, PluginState (nr_loaded_plugins s ++ [PluginHandle (if ok : bool then Some pth else None) inf])
                   (hook_calls s) (plugin_reg s));;
    mret ct.

Fixpoint nr_plugin_add_plugins (infos : list NR_plugin_def) : PM unit :=
  match infos with
  | [] => mret ()
  | i :: infos' => nr_plugin_add $"STATIC" i;; nr_plugin_add_plugins infos'
  end.

Definition nr_plugin_load_dso (pth : cstring) : PM nat :=
  match dso pth with
  | Some (Some plugin_def) => nr_plugin_add pth plugin_def
  | _ => abort R_NOT_FOUND
  end.

(** The loop of [nr_plugin_load_dsos] from [i] on, [n] turns; [number] has ten bytes. *)
Fixpoint load_dsos_loop (plugins_reg : cstring) (n i : nat) : PM unit :=
  match n with
  | O => mret ()
  | Datatypes.S n' =>
      if (10 <=? strlen (decimal i))%nat then undef
      else
        pth ← on_plugin_reg (NR_reg_alloc2_string plugins_reg (decimal i));
        r ← catch (nr_plugin_load_dso pth);
        match r with
        | inl r => if r =? R_NOT_FOUND then mret () else abort r
        | inr _ => mret ()
        end;;
        load_dsos_loop plugins_reg n' (Datatypes.S i)
  end.

Definition nr_plugin_load_dsos (prefix : cstring) : PM unit :=
  match NR_reg_make_registry prefix $"plugins" with
  | inl r => abort r
  | inr plugins_reg =>
      count ← on_plugin_reg (NR_reg_get_child_count plugins_reg);
      load_dsos_loop plugins_reg (Z.to_nat count) 0
  end.

(** The two loops of [nr_plugin_execute_hooks]; the status of a hook is logged only. *)
Fixpoint execute_types (p : NR_plugin_def) (types : list cstring) : PM unit :=
  match types with
  | [] => mret ()
  | ty :: types' =>
      match nr_plugin_get_hook p ty with
      | inl r => if negb (r =? R_NOT_FOUND) then abort r else mret ()
      | inr hook => ignore (call_hook hook)
      end;;
      execute_types p types'
  end.
Fixpoint execute_plugins (ps : list nr_plugin_handle) (types : list cstring) : PM unit :=
  match ps with
  | [] => mret ()
  | p :: ps' => execute_types (info p) types;; execute_plugins ps' types
  end.
Definition nr_plugin_execute_hooks (types : list cstring) : PM unit :=
  s ← get; execute_plugins (nr_loaded_plugins s) types.

Definition nr_plugin_get_plugin_ct : PM nat := gets (λ s, length (nr_loaded_plugins s)).

(** Only an index that is too large is refused. *)
Definition nr_plugin_get_plugin (index : Z) : PM nr_plugin_handle :=
  s ← get;
  if Z.of_nat (length (nr_loaded_plugins s)) <=? index then abort R_BAD_ARGS
  else if index <? 0 then undef
  else from_option_ub (nr_loaded_plugins s !! Z.to_nat index).
End plugins.
Arguments NR_plugin_hook_def : clear implicits.
Arguments NR_plugin_def : clear implicits.
Arguments nr_plugin_handle : clear implicits.
Arguments plugin_state : clear implicits.

(** ** Loading and hooks *)

Section facts.
Context {H : Type} (hook_status : H → Z) (dso : cstring → option (option (NR_plugin_def H))).
Context {S : Type} `{AllocLaws S} `{RegVtbl S} `{!RegAbs S} `{!RegLaws S}.
Implicit Types (s : plugin_state H S) (d : NR_plugin_def H) (p : nr_plugin_handle H).

(** The hook of a type a plugin has. *)
Definition hook_of d (ty : cstring) : list H :=
  match nr_plugin_get_hook d ty with inr h => [h] | inl _ => [] end.

Definition with_loaded s (ps : list (nr_plugin_handle H)) (hs : list H) (r : S) : plugin_state H S :=
  PluginState (nr_loaded_plugins s ++ ps) (hook_calls s ++ hs) r.

(** The plugins among the objects at the paths [ps], and their init hooks. *)
Definition loadable (ps : list cstring) : list (nr_plugin_handle H) :=
  pth ← ps; match dso pth with Some (Some d) => [PluginHandle (Some pth) d] | _ => [] end.
Definition init_hooks (ps : list (nr_plugin_handle H)) : list H := p ← ps; hook_of (info p) $"init".

Lemma add_run s pth d :
  mem_plenty (plugin_reg s) → (length (nr_loaded_plugins s) < MAX_PLUGINS)%nat →
  nr_plugin_add hook_status pth d s =
    Ok (length (nr_loaded_plugins s)) (with_loaded s [PluginHandle (Some pth) d] (hook_of d $"init") (plugin_reg s)).
Proof.
  intros Hp Hlt. unfold nr_plugin_add. mstep. rewrite (proj2 (Nat.ltb_ge _ _)), (proj2 (Nat.leb_gt _ _)) by lia.
  assert (Halloc : on_plugin_reg alloc_ok s = Ok true s).
  { unfold on_plugin_reg. rewrite alloc_ok_plenty by done. by destruct s. }
  erewrite bind_ok by exact Halloc. unfold with_loaded, hook_of.
  destruct (nr_plugin_get_hook d $"init"); [by rewrite app_nil_r|done].
Qed.

Lemma get_hook_status d ty r : nr_plugin_get_hook d ty = inl r → r = R_NOT_FOUND.
Proof. unfold nr_plugin_get_hook. by destruct (_ ≫= _); intros [= <-]. Qed.

Lemma loadable_one pth : loadable [pth] = match dso pth with Some (Some d) => [PluginHandle (Some pth) d] | _ => [] end.
Proof. unfold loadable. cbn [mbind list_bind]. by rewrite app_nil_r. Qed.

Lemma load_dso_run s pth :
  mem_plenty (plugin_reg s) → (length (nr_loaded_plugins s) + length (loadable [pth]) <= MAX_PLUGINS)%nat →
  ∃ o, catch (nr_plugin_load_dso hook_status dso pth) s =
    Ok o (with_loaded s (loadable [pth]) (init_hooks (loadable [pth])) (plugin_reg s)) ∧
    (∀ r, o = inl r → r = R_NOT_FOUND).
Proof.
  intros Hp Hlt. rewrite loadable_one in *. unfold nr_plugin_load_dso.
  assert (Hskip : catch (abort (A := nat) R_NOT_FOUND) s = Ok (inl R_NOT_FOUND) (with_loaded s [] (init_hooks []) (plugin_reg s))).
  { unfold catch, with_loaded. cbn. rewrite !app_nil_r. by destruct s. }
  destruct (dso pth) as [[d|]|].
  - exists (inr (length (nr_loaded_plugins s))). split; [|done]. apply catch_ok. rewrite add_run by (done || (cbn in Hlt; lia)).
    unfold init_hooks. cbn [mbind list_bind info]. by rewrite app_nil_r.
  - eexists. split; [exact Hskip|]. by intros r [= <-].
  - eexists. split; [exact Hskip|]. by intros r [= <-].
Qed.

Lemma with_loaded_app s ps hs r ps' hs' r' :
  with_loaded (with_loaded s ps hs r) ps' hs' r' = with_loaded s (ps ++ ps') (hs ++ hs') r'.
Proof. unfold with_loaded. cbn. by rewrite !app_assoc. Qed.

Lemma loadable_cons pth ps : loadable (pth :: ps) = loadable [pth] ++ loadable ps.
Proof. unfold loadable. cbn. by rewrite app_nil_r. Qed.

(** The paths are the strings numbered from [i] on below the registry. *)
Definition listed (reg : cstring) (i : nat) (ps : list cstring) (s : S) : Prop :=
  ∀ k pth, ps !! k = Some pth → (strlen (decimal (i + k)) < 10)%nat ∧ no_nul pth ∧
    ∃ n, NR_reg_make_registry reg (decimal (i + k)) = inr n ∧
      vt_view s n = Some (VArray NR_REG_TYPE_STRING (cbytes pth)).

Lemma load_loop_run reg ps i s :
  vt_inv (plugin_reg s) → listed reg i ps (plugin_reg s) →
  (length (nr_loaded_plugins s) + length (loadable ps) <= MAX_PLUGINS)%nat →
  ∃ r, quiet (plugin_reg s) r ∧
    load_dsos_loop hook_status dso reg (length ps) i s = Ok () (with_loaded s (loadable ps) (init_hooks (loadable ps)) r).
Proof.
  revert i s. induction ps as [|pth ps IH]; intros i s Hs Hl Hlen.
  { exists (plugin_reg s). split; [by apply quiet_refl|]. unfold with_loaded. cbn. rewrite !app_nil_r. by destruct s. }
  destruct (Hl 0%nat pth eq_refl) as (Hdec & Hnul & n & Hn & Hv). rewrite Nat.add_0_r in Hdec, Hn.
  destruct (alloc_string_run (plugin_reg s) n pth Hs Hnul Hv) as (r1 & Hq1 & Hrun1).
  set (s1 := PluginState (nr_loaded_plugins s) (hook_calls s) r1).
  assert (Hread : on_plugin_reg (NR_reg_alloc2_string reg (decimal i)) s = Ok pth s1).
  { unfold on_plugin_reg, NR_reg_alloc2_string, with_registry. by rewrite Hn, Hrun1. }
  cbn [length load_dsos_loop]. rewrite (proj2 (Nat.leb_gt _ _)) by done. erewrite bind_ok by exact Hread.
  rewrite loadable_cons, length_app in Hlen.
  destruct (load_dso_run s1 pth) as (o & Hload & Ho); [by apply (law_ready r1), Hq1|change (nr_loaded_plugins s1) with (nr_loaded_plugins s); lia|].
  erewrite bind_ok by exact Hload. set (s2 := with_loaded s1 _ _ _).
  rewrite (bind_ok _ _ s2 () s2) by (destruct o as [r|]; [by rewrite (Ho r eq_refl)|done]).
  destruct (IH (Datatypes.S i) s2) as (r & Hq & Hrun).
  - apply Hq1.
  - intros k q Hk. destruct (Hl (Datatypes.S k) q Hk) as (? & ? & m & ? & Hm). rewrite Nat.add_succ_r in *.
    split_and!; [done..|]. exists m. split; [done|]. cbn. rewrite (proj2 Hq1). done.
  - change (length (nr_loaded_plugins s ++ loadable [pth]) + length (loadable ps) <= MAX_PLUGINS)%nat. rewrite length_app. lia.
  - exists r. split; [by eapply quiet_trans|]. rewrite Hrun. unfold s2. rewrite with_loaded_app, (loadable_cons pth ps).
    unfold init_hooks. by rewrite bind_app.
Qed.

(** The registry lists paths of shared objects, numbered from 0: those that are plugins are
    loaded in that order, each running its [init] hook once, and the others are passed over;
    the registry is not changed. *)
Theorem dsos_loaded prefix reg ps s :
  NR_reg_make_registry prefix $"plugins" = inr reg → vt_inv (plugin_reg s) → valid reg → reg ≠ [] →
  vt_view (plugin_reg s) reg = Some VRegistry → (∀ cs, only_children (vt_view (plugin_reg s)) reg cs → length cs = length ps) →
  listed reg 0 ps (plugin_reg s) → Z.of_nat (length ps) < 2 ^ 32 →
  (length (nr_loaded_plugins s) + length (loadable ps) <= MAX_PLUGINS)%nat →
  ∃ r, quiet (plugin_reg s) r ∧
    nr_plugin_load_dsos hook_status dso prefix s = Ok () (with_loaded s (loadable ps) (init_hooks (loadable ps)) r).
Proof.
  intros Hreg Hs Hv Hne Hview Hcs Hl Hlt Hlen. unfold nr_plugin_load_dsos. rewrite Hreg.
  destruct (children_run (plugin_reg s) reg Hs Hv Hne Hview) as (cs & Hc & _ & Hcount).
  rewrite (Hcs cs Hc) in Hcount. destruct (Hcount Hlt) as [(r1 & Hq1 & Hrun1) _].
  set (s1 := PluginState (nr_loaded_plugins s) (hook_calls s) r1).
  assert (Hc1 : on_plugin_reg (NR_reg_get_child_count reg) s = Ok (Z.of_nat (length ps)) s1).
  { unfold on_plugin_reg. by rewrite Hrun1. }
  erewrite bind_ok by exact Hc1. rewrite Nat2Z.id.
  destruct (load_loop_run reg ps 0 s1) as (r & Hq & Hrun).
  - apply Hq1.
  - intros k q Hk. destruct (Hl k q Hk) as (? & ? & m & ? & Hm). split_and!; [done..|]. exists m. split; [done|].
    cbn. rewrite (proj2 Hq1). done.
  - done.
  - exists r. split; [by eapply quiet_trans|]. by rewrite Hrun.
Qed.

Lemma execute_types_run d types s :
  execute_types hook_status d types s = Ok () (PluginState (nr_loaded_plugins s) (hook_calls s ++ (ty ← types; hook_of d ty)) (plugin_reg s)).
Proof.
  revert s. induction types as [|ty types IH]; intros s; [cbn; rewrite app_nil_r; by destruct s|].
  assert (Hone : match nr_plugin_get_hook d ty with
      | inl r => if negb (r =? R_NOT_FOUND) then abort r else mret ()
      | inr hook => ignore (call_hook hook_status hook)
      end s = Ok () (PluginState (nr_loaded_plugins s) (hook_calls s ++ hook_of d ty) (plugin_reg s))).
  { unfold hook_of. destruct (nr_plugin_get_hook d ty) as [r|h] eqn:Hh; [|done].
    rewrite (get_hook_status _ _ _ Hh), app_nil_r. by destruct s. }
  cbn [execute_types]. erewrite bind_ok by exact Hone. rewrite IH. cbn. by rewrite <- app_assoc.
Qed.

(** Executing hooks calls, plugin after plugin in the order of loading and type after type,
    the hook of that type if the plugin has one, whatever the hooks return. *)
Theorem hooks_executed types s :
  nr_plugin_execute_hooks hook_status types s =
    Ok () (PluginState (nr_loaded_plugins s)
             (hook_calls s ++ (p ← nr_loaded_plugins s; ty ← types; hook_of (info p) ty)) (plugin_reg s)).
Proof.
  unfold nr_plugin_execute_hooks. mstep.
  assert (Hgen : ∀ ps s, execute_plugins hook_status ps types s =
    Ok () (PluginState (nr_loaded_plugins s) (hook_calls s ++ (p ← ps; ty ← types; hook_of (info p) ty)) (plugin_reg s))).
  { induction ps as [|p ps IH]; intros s'; [cbn; rewrite app_nil_r; by destruct s'|]. cbn [execute_plugins].
    erewrite bind_ok by by apply execute_types_run. rewrite IH. cbn. by rewrite <- app_assoc. }
  apply Hgen.
Qed.

(** The 513th plugin is not refused: it is written past the array. *)
Theorem plugins_off_by_one s pth d :
  length (nr_loaded_plugins s) = MAX_PLUGINS → nr_plugin_add hook_status pth d s = UB.
Proof. intros Hlen. unfold nr_plugin_add. mstep. rewrite Hlen. done. Qed.
End facts.
