(* ===== verification/PluginsDemo.v ===== *)
(** * A plugin named in the registry

    The contracts of [Plugins] over the local store. *)

From Stdlib Require Import Ascii.
From S2P Require Import Prelude CString RegNames RegState RegCb RegLocal RegInv RegSpec RegDemo RegFacade RegFacadeSpec RegModule Plugins.
Local Open Scope Z_scope.

#[local] Opaque demo_init.

(** One shared object, with an init hook 10 and a hook 11 for statistics. *)
Definition dso_name : cstring := $"nr_plugins.plugins.0".
Definition dso_path : cstring := $"/lib/cache.so".
Definition cache_plugin : NR_plugin_def Z := PluginDef 1 $"cache" $"1.0" [HookDef $"register_stats" 11; HookDef $"init" 10].
Definition demo_dso (p : cstring) : option (option (NR_plugin_def Z)) := if streq p dso_path then Some (Some cache_plugin) else None.

Definition plugins_registry : reg_state := after (nr_reg_local_set_string dso_name dso_path) demo_init.

Lemma plugins_registry_ok :
  evolves demo_init plugins_registry
    (λ m, if decide (m = dso_name) then Some (VArray NR_REG_TYPE_STRING (cbytes dso_path))
          else if decide (m ∈ [$"nr_plugins"; $"nr_plugins.plugins"; []]) then Some VRegistry else None) [].
Proof.
  destruct demo_init_ok as (_ & Hg & Hr & Hv).
  pose proof (set_array_run demo_init dso_name NR_REG_TYPE_STRING (cbytes dso_path) Hg ltac:(valid_name) eq_refl
    ltac:(vm_compute; reflexivity)) as Hspec.
  rewrite Hv, decide_False in Hspec by done. unfold dso_name in Hspec.
  assert (Hpath : creatable (reg_view demo_init) (ancestors $"nr_plugins.plugins.0")).
  { change (ancestors $"nr_plugins.plugins.0") with [$"nr_plugins.plugins"; $"nr_plugins"]. cbn [creatable]. rewrite !Hv.
    split; [valid_name|]. split; [valid_name|done]. }
  destruct (Hspec Hpath) as (s & Hs & Hev). unfold plugins_registry.
  rewrite (after_ok (nr_reg_local_set_string dso_name dso_path) demo_init () s Hs).
  assert (Hmiss : new_parents (reg_view demo_init) $"nr_plugins.plugins.0" = [$"nr_plugins.plugins"; $"nr_plugins"]).
  { unfold new_parents. change (ancestors $"nr_plugins.plugins.0") with [$"nr_plugins.plugins"; $"nr_plugins"]. cbn [missing]. by rewrite !Hv. }
  rewrite Hmiss in Hev. replace (add_events _ _) with (@nil cb_call) in Hev.
  2: { unfold add_events. change (reverse _) with [$"nr_plugins"; $"nr_plugins.plugins"; $"nr_plugins.plugins.0"]. cbn.
       unfold event_calls. change (lineage $"nr_plugins") with [$"nr_plugins"; []]. change (lineage $"nr_plugins.plugins") with [$"nr_plugins.plugins"; $"nr_plugins"; []].
       change (lineage $"nr_plugins.plugins.0") with [$"nr_plugins.plugins.0"; $"nr_plugins.plugins"; $"nr_plugins"; []]. cbn. by rewrite !Hr. }
  eapply evolves_ext; [done|]. intros m. unfold upd, fill, dso_name. rewrite Hv. clear.
  destruct (decide (m = $"nr_plugins.plugins.0")); [done|].
  destruct (decide (m ∈ [$"nr_plugins.plugins"; $"nr_plugins"])) as [Hin|Hnin].
  - rewrite decide_True; [done|]. rewrite !elem_of_cons in *. tauto.
  - destruct (decide (m = [])) as [->|Hne]; [by rewrite decide_True by (rewrite !elem_of_cons; tauto)|].
    rewrite decide_False; [done|]. rewrite !elem_of_cons in *. intros [?|[?|[?|[]%not_elem_of_nil]]]; tauto.
Qed.

Lemma plugins_registry_view m :
  reg_view plugins_registry m =
    if decide (m = dso_name) then Some (VArray NR_REG_TYPE_STRING (cbytes dso_path))
    else if decide (m ∈ [$"nr_plugins"; $"nr_plugins.plugins"; []]) then Some VRegistry else None.
Proof. apply plugins_registry_ok. Qed.

Lemma plugins_registry_good : good plugins_registry.
Proof. apply plugins_registry_ok. Qed.

#[local] Opaque plugins_registry.

Definition no_plugins : plugin_state Z reg_state := PluginState [] [] plugins_registry.

Lemma dso_children cs : only_children (reg_view plugins_registry) $"nr_plugins.plugins" cs → length cs = 1%nat.
Proof.
  intros [Hnd Hcs].
  assert (Hiff : ∀ n, n ∈ cs ↔ n ∈ [dso_name]).
  { intros n. rewrite Hcs, list_elem_of_singleton, plugins_registry_view. split.
    - intros ((x & Hx) & _ & Hup). destruct (decide (n = dso_name)); [done|].
      destruct (decide (n ∈ _)) as [Hin|]; [|done]. rewrite !elem_of_cons in Hin.
      destruct Hin as [->|[->|[->|[]%not_elem_of_nil]]]; discriminate Hup.
    - intros ->. rewrite decide_True by done. split; [by eexists|]. split; [done|]. vm_compute. reflexivity. }
  apply (Permutation_length (l' := [dso_name])). apply NoDup_Permutation; [done|by apply NoDup_singleton|done].
Qed.

Lemma dso_listed : listed $"nr_plugins.plugins" 0 [dso_path] plugins_registry.
Proof.
  intros [|k] p Hk; [|done]. injection Hk as <-. split; [vm_compute; lia|]. split; [by repeat constructor|].
  exists dso_name. split; [vm_compute; reflexivity|]. change (reg_view plugins_registry dso_name = Some (VArray NR_REG_TYPE_STRING (cbytes dso_path))).
  by rewrite plugins_registry_view, decide_True.
Qed.

Lemma dsos_loaded_witness :
  ∃ r, quiet plugins_registry r ∧
    nr_plugin_load_dsos (λ _, 0) demo_dso $"nr_plugins" no_plugins =
      Ok () (PluginState [PluginHandle (Some dso_path) cache_plugin] [10] r).
Proof.
  apply (dsos_loaded (λ _, 0) demo_dso $"nr_plugins" $"nr_plugins.plugins" [dso_path] no_plugins);
    [vm_compute; reflexivity|exact plugins_registry_good|valid_name|discriminate| |exact dso_children|exact dso_listed
    |vm_compute; reflexivity|vm_compute; lia].
  change (reg_view plugins_registry $"nr_plugins.plugins" = Some VRegistry). rewrite plugins_registry_view. reflexivity.
Defined.

Definition full_table : plugin_state Z reg_state :=
  PluginState (replicate MAX_PLUGINS (PluginHandle None cache_plugin)) [] plugins_registry.

Lemma plugins_off_by_one_witness : nr_plugin_add (λ _, 0) dso_path cache_plugin full_table = UB.
Proof. apply (plugins_off_by_one (λ _, 0) full_table dso_path cache_plugin). apply length_replicate. Defined.
