(* ===== verification/RegHttp.v ===== *)
(** * The registry over HTTP (src/registry/mod_registry/mod_registry.c)

    The Apache module that answers GET, PUT and DELETE of registry values.  A request carries
    what the server's functions say about it; the registry is any module of RegFacade.
    Formatting and reading doubles are parameters. *)

From Stdlib Require Import Ascii.
From S2P Require Import Prelude CString Numbers RegNames RegFacade.
Local Open Scope Z_scope.

Definition HTTP_CREATED : Z := 201.
Definition HTTP_BAD_REQUEST : Z := 400.
Definition HTTP_NOT_FOUND : Z := 404.
Definition HTTP_INTERNAL_SERVER_ERROR : Z := 500.

Inductive method := M_GET | M_PUT | M_DELETE | M_OTHER.

(** [request_rec]: the status of [ap_setup_client_block], the answer of
    [ap_should_client_block], [remaining], and what [ap_get_client_block] delivers. *)
Record request_rec := Request {
  uri : cstring;
  args : option cstring;
  method_number : method;
  header_only : bool;
  setup_client_block : Z;
  should_client_block : bool;
  remaining : nat;
  client_block : cstring;
}.

(** The types in the order of their numbers, and the integers of each. *)
Definition reg_types : list reg_type :=
  [NR_REG_TYPE_CHAR; NR_REG_TYPE_UCHAR; NR_REG_TYPE_INT2; NR_REG_TYPE_UINT2; NR_REG_TYPE_INT4; NR_REG_TYPE_UINT4;
   NR_REG_TYPE_INT8; NR_REG_TYPE_UINT8; NR_REG_TYPE_DOUBLE; NR_REG_TYPE_BYTES; NR_REG_TYPE_STRING; NR_REG_TYPE_REGISTRY].
Definition type_range (ty : reg_type) : option (Z * Z) :=
  match ty with
  | NR_REG_TYPE_CHAR => Some (- 2 ^ 7, 2 ^ 7)
  | NR_REG_TYPE_UCHAR => Some (0, 2 ^ 8)
  | NR_REG_TYPE_INT2 => Some (- 2 ^ 15, 2 ^ 15)
  | NR_REG_TYPE_UINT2 => Some (0, 2 ^ 16)
  | NR_REG_TYPE_INT4 => Some (- 2 ^ 31, 2 ^ 31)
  | NR_REG_TYPE_UINT4 => Some (0, 2 ^ 32)
  | NR_REG_TYPE_INT8 => Some (- 2 ^ 63, 2 ^ 63)
  | NR_REG_TYPE_UINT8 => Some (0, 2 ^ 64)
  | _ => None
  end.

Section http.
(** [snprintf] with [%#f], and [sscanf] with [%lf] ([None]: no match), on the bits of a double. *)
Context (format_double : Z → cstring) (scan_double : cstring → option Z).
Context {S : Type} `{HasAlloc S} `{RegVtbl S}.

(** The module, and the response so far: [r->status], whether the header was sent, the body. *)
Record http_state := HttpState {
  initialized : bool;
  http_reg : S;
  r_status : option Z;
  header_sent : bool;
  body : cstring;
}.

Abbreviation HM := (M http_state).
Definition on_http {A} (m : M S A) : HM A := λ s,
  match m (http_reg s) with
  | Ok a r => Ok a (HttpState (initialized s) r (r_status s) (header_sent s) (body s))
  | Err e r => Err e (HttpState (initialized s) r (r_status s) (header_sent s) (body s))
  | UB => UB
  end.
Definition ap_send_http_header : HM unit := modify (λ s, HttpState (initialized s) (http_reg s) (r_status s) true (body s)).
Definition ap_rputs (text : cstring) : HM unit :=
  modify (λ s, HttpState (initialized s) (http_reg s) (r_status s) (header_sent s) (body s ++ text)).
Definition put_status (code : Z) : HM unit :=
  modify (λ s, HttpState (initialized s) (http_reg s) (Some code) (header_sent s) (body s)).

(** [if(...) RETURN_ERROR(code,...);] for a call that fails. *)
Definition or_error {A} (code : Z) (m : HM A) : HM A :=
  r ← catch m; match r with inl _ => abort code | inr a => mret a end.

(** The copy of the path up to a question mark, with dots for slashes.  When there is no
    memory for it the path itself, which belongs to the server, is freed. *)
Fixpoint dotted (file : cstring) : cstring :=
  match file with
  | [] => []
  | c :: file' => if bool_decide (c = "?"%char) then [] else (if bool_decide (c = "/"%char) then "."%char else c) :: dotted file'
  end.
Definition skip_slash (file : cstring) : cstring :=
  match file with c :: f => if bool_decide (c = "/"%char) then f else file | [] => [] end.
Definition transform_name (file : cstring) : HM cstring :=
  let file := skip_slash file in
  ok ← on_http alloc_ok;
  if ok : bool then mret (dotted file) else undef.

(** The parameter, and the value after the equals sign. *)
Definition parse_query_string (q : cstring) : cstring * option cstring :=
  match strchr q "=" with
  | Some e => (take e q, Some (drop (e + 1) q))
  | None => (q, None)
  end.

Definition process_getlength_request (rq : request_rec) (name : cstring) : HM unit :=
  l ← or_error HTTP_NOT_FOUND (on_http (NR_reg_get_length name));
  ap_send_http_header;;
  if header_only rq then mret () else ap_rputs (print_int (wrap 32 l)).

(** The two loops over the children: the first checks that they can be read, the second
    prints them; [child] is the buffer they share. *)
Fixpoint check_children (parent : cstring) (n i : nat) (child : cstring) : HM cstring :=
  match n with
  | O => mret child
  | Datatypes.S n' =>
      child ← or_error HTTP_NOT_FOUND (on_http (NR_reg_get_child_registry parent i));
      check_children parent n' (Datatypes.S i) child
  end.
Fixpoint print_children (parent : cstring) (n i : nat) (child : cstring) : HM unit :=
  match n with
  | O => mret ()
  | Datatypes.S n' =>
      r ← catch (on_http (NR_reg_get_child_registry parent i));
      let child := match r with inr c => c | inl _ => child end in
      ap_rputs (child ++ [ascii_of_nat 13; ascii_of_nat 10]);;
      print_children parent n' (Datatypes.S i) child
  end.
Definition process_getkeys_request (rq : request_rec) (parent : cstring) : HM unit :=
  n ← or_error HTTP_NOT_FOUND (on_http (NR_reg_get_child_count parent));
  child ← check_children parent (Z.to_nat n) 0 [];
  ap_send_http_header;;
  if header_only rq then mret () else print_children parent (Z.to_nat n) 0 child.

(** The text of a value; [snprintf] into 100 bytes. *)
Definition value_text (name : cstring) (ty : reg_type) : HM cstring :=
  match ty with
  | NR_REG_TYPE_REGISTRY => on_http alloc_or_abort;; mret name
  | NR_REG_TYPE_STRING => on_http (NR_reg_alloc_string name)
  | NR_REG_TYPE_BYTES => on_http alloc_or_abort;; abort R_INTERNAL
  | NR_REG_TYPE_DOUBLE =>
      on_http alloc_or_abort;; v ← on_http (NR_reg_get ty name); mret (take 99 (format_double v))
  | _ => on_http alloc_or_abort;; v ← on_http (NR_reg_get ty name); mret (take 99 (print_int v))
  end.

(** [qs_value_type] is not set ([None]) for the other queries. *)
Definition process_get_request (rq : request_rec) (name : cstring) (qs_value_type : option reg_type) : HM unit :=
  match qs_value_type with
  | None => undef
  | Some ty =>
      r ← catch (s ← value_text name ty;
                 ap_send_http_header;;
                 if header_only rq then mret () else ap_rputs s);
      match r with
      | inr _ => mret ()
      | inl r => abort (if r =? R_NOT_FOUND then HTTP_NOT_FOUND else HTTP_INTERNAL_SERVER_ERROR)
      end
  end.

(** [sscanf] into an object of the type; a number that does not fit is undefined. *)
Definition scan_value (ty : reg_type) (content : cstring) : HM Z :=
  match type_range ty with
  | Some (lo, hi) =>
      match scan_int content with
      | None => abort R_FAILED
      | Some v => if (lo <=? v) && (v <? hi) then mret v else undef
      end
  | None => match scan_double content with None => abort R_FAILED | Some v => mret v end
  end.

(** The [switch]: [content] is the string at the start of the [len] bytes read.  The bytes of a
    value of type [Data] are passed to [scanf] as a format. *)
Definition put_value (name : cstring) (ty : reg_type) (block : cstring) : HM unit :=
  let content := match index_where (λ c, uchar c =? 0) block with Some i => take i block | None => block end in
  match ty with
  | NR_REG_TYPE_REGISTRY => on_http (NR_reg_set_registry name)
  | NR_REG_TYPE_BYTES => if (length block =? 0)%nat then on_http (NR_reg_set_bytes name []) else undef
  | NR_REG_TYPE_STRING =>
      if negb (strlen content =? length block)%nat then abort R_FAILED else on_http (NR_reg_set_string name content)
  | _ => v ← scan_value ty content; on_http (NR_reg_set ty name v)
  end.

(** The end of [process_put_request]: an error after [req_ok] is replaced by
    [HTTP_BAD_REQUEST] and jumps to the same label again.  [None]: it has not returned after
    [fuel] turns. *)
Fixpoint put_exit (fuel : nat) (req_ok : bool) (status : Z) : option Z :=
  if negb (status =? 0) && negb (status =? HTTP_CREATED) && req_ok then
    match fuel with O => None | Datatypes.S fuel' => put_exit fuel' req_ok HTTP_BAD_REQUEST end
  else Some status.

(** [false]: not returned after [fuel] turns. *)
Definition process_put_request (fuel : nat) (rq : request_rec) (name : cstring) (qs_value_type : option reg_type) : HM bool :=
  if negb (setup_client_block rq =? 0) then abort HTTP_BAD_REQUEST
  else if negb (should_client_block rq) then abort HTTP_BAD_REQUEST
  else
    ok ← on_http alloc_ok;
    if negb ok then abort HTTP_INTERNAL_SERVER_ERROR
    else if negb (length (client_block rq) =? remaining rq)%nat then abort HTTP_BAD_REQUEST
    else
      match qs_value_type with
      | None => undef
      | Some ty =>
          r ← catch (put_value name ty (client_block rq);; put_status HTTP_CREATED;; ap_send_http_header);
          match put_exit fuel true (match r with inl r => r | inr _ => 0 end) with
          | None => mret false
          | Some st => if st =? 0 then mret true else abort st
          end
      end.

Definition process_delete_request (name : cstring) : HM unit :=
  or_error HTTP_BAD_REQUEST (on_http (NR_reg_del name));;
  ap_send_http_header.

(** The query of a GET or PUT: the parameter, and the type it names.  The value of a query
    without an equals sign is a null pointer, which is compared all the same. *)
Definition check_query (qs_param : cstring) (qs_value : option cstring) : HM (option reg_type) :=
  if streq $"type" qs_param then
    match qs_value with
    | None => undef
    | Some v =>
        match nr_reg_compute_type v with
        | inl _ => abort HTTP_BAD_REQUEST
        | inr t => mret (reg_types !! Z.to_nat t)
        end
    end
  else if streq $"getkeys" qs_param || streq $"getlength" qs_param || streq $"getnotifications" qs_param then mret None
  else abort HTTP_BAD_REQUEST.

Definition registry_handler (fuel : nat) (rq : request_rec) : HM bool :=
  s ← get;
  if negb (initialized s) then abort HTTP_INTERNAL_SERVER_ERROR
  else
    reg_key ← transform_name (uri rq);
    if (strlen reg_key =? 0)%nat then abort HTTP_BAD_REQUEST
    else
      query ← (match args rq with
               | None => mret None
               | Some a =>
                   ok ← on_http alloc_ok;
                   if ok : bool then mret (Some (parse_query_string a)) else abort HTTP_INTERNAL_SERVER_ERROR
               end);
      match method_number rq, query with
      | M_DELETE, Some _ => abort HTTP_NOT_FOUND
      | M_DELETE, None => process_delete_request reg_key;; mret true
      | _, None => abort HTTP_BAD_REQUEST
      | M_GET, Some (qs_param, qs_value) =>
          ty ← check_query qs_param qs_value;
          (if streq $"getlength" qs_param then process_getlength_request rq reg_key
           else if streq $"getkeys" qs_param then process_getkeys_request rq reg_key
           else process_get_request rq reg_key ty);;
          mret true
      | M_PUT, Some (qs_param, qs_value) =>
          ty ← check_query qs_param qs_value;
          process_put_request fuel rq reg_key ty
      | M_OTHER, Some _ => abort HTTP_BAD_REQUEST
      end.

Definition registry_init (init_ok : bool) : HM unit :=
  modify (λ s, if init_ok then HttpState true (http_reg s) (r_status s) (header_sent s) (body s) else s).
End http.
Arguments http_state : clear implicits.
