(* ===== verification/RegHttpSpec.v ===== *)
(** * What is put over HTTP is got back

    The contracts over any module, then requests to the local store. *)

From Stdlib Require Import Ascii.
From S2P Require Import Prelude CString Numbers RegNames RegInv RegSpec RegFacade RegFacadeSpec RegHttp.
Local Open Scope Z_scope.

Section http.
Context (format_double : Z → cstring) (scan_double : cstring → option Z).
Context {S : Type} `{AllocLaws S} `{RegVtbl S} `{!RegAbs S} `{!RegLaws S}.
Implicit Types (s : http_state S) (n t text : cstring) (ty : reg_type).

Local Notation handler := (registry_handler format_double scan_double).

(** The server accepts a request with nothing sent yet. *)
Definition serving s : Prop := initialized s = true ∧ vt_inv (http_reg s).
Definition next_request s : http_state S := HttpState (initialized s) (http_reg s) None false [].

(** The state after an answer over the registry [r]. *)
Definition replied s (r : S) (st : option Z) (text : cstring) : http_state S :=
  HttpState (initialized s) r st true (body s ++ text).

Lemma on_http_run {A} (m : M S A) s a r :
  m (http_reg s) = Ok a r → on_http m s = Ok a (HttpState (initialized s) r (r_status s) (header_sent s) (body s)).
Proof. unfold on_http. by intros ->. Qed.

Lemma on_http_err {A} (m : M S A) s e r :
  m (http_reg s) = Err e r → on_http m s = Err e (HttpState (initialized s) r (r_status s) (header_sent s) (body s)).
Proof. unfold on_http. by intros ->. Qed.

Lemma on_alloc s : serving s → on_http alloc_ok s = Ok true s ∧ on_http alloc_or_abort s = Ok () s.
Proof.
  intros [_ Hi]. destruct (law_ready _ Hi) as [_ Hp]. unfold on_http. rewrite alloc_ok_plenty, alloc_or_abort_plenty by done.
  by destruct s.
Qed.

(** ** Requests for values *)

Definition method_of (put : bool) : method := if put then M_PUT else M_GET.

(** A request whose path names [n] with the query [type=t]. *)
Definition asks_for (rq : request_rec) n t : Prop :=
  dotted (skip_slash (uri rq)) = n ∧ args rq = Some ($"type=" ++ t) ∧ header_only rq = false.
Definition carries (rq : request_rec) text : Prop :=
  setup_client_block rq = 0 ∧ should_client_block rq = true ∧ client_block rq = text ∧ remaining rq = length text.

Lemma query_type t : parse_query_string ($"type=" ++ t) = ($"type", Some t).
Proof. reflexivity. Qed.

Lemma check_type t ty s :
  nr_reg_compute_type t = inr (type_code ty) → check_query $"type" (Some t) s = Ok (Some ty) s.
Proof. intros Ht. unfold check_query. change (streq $"type" $"type") with true. cbv iota. rewrite Ht. by destruct ty. Qed.

(** Up to the switch on the method. *)
Lemma handler_run fuel rq n t s :
  serving s → asks_for rq n t → n ≠ [] →
  handler fuel rq s =
    match method_number rq with
    | M_DELETE => Err HTTP_NOT_FOUND s
    | M_GET => (ty ← check_query $"type" (Some t);
                process_get_request format_double rq n ty;; mret true) s
    | M_PUT => (ty ← check_query $"type" (Some t); process_put_request scan_double fuel rq n ty) s
    | M_OTHER => Err HTTP_BAD_REQUEST s
    end.
Proof.
  intros Hs (Hn & Ha & _) Hne. unfold registry_handler. mstep. rewrite (proj1 Hs). cbn [negb].
  assert (Htr : transform_name (uri rq) s = Ok n s).
  { unfold transform_name. erewrite bind_ok by by apply on_alloc. cbn [from_option_ub]. unfold mret, M_ret. f_equal. exact Hn. }
  erewrite bind_ok by exact Htr. destruct n as [|c n]; [done|]. cbn [strlen length Nat.eqb]. rewrite Ha.
  assert (Hq : (ok ← on_http alloc_ok;
      if ok : bool then mret (Some (parse_query_string ($"type=" ++ t))) else abort HTTP_INTERNAL_SERVER_ERROR) s =
      Ok (Some ($"type", Some t)) s).
  { erewrite bind_ok by by apply on_alloc. by rewrite query_type. }
  erewrite bind_ok by exact Hq.
  by destruct (method_number rq).
Qed.

(** ** Putting *)

Lemma no_nul_index text : no_nul text → index_where (λ c, uchar c =? 0) text = None.
Proof.
  intros Ht. apply index_where_None. intros c Hc. apply Z.eqb_neq. by eapply (proj1 (Forall_forall _ _) Ht).
Qed.

Lemma put_exit_ok fuel : put_exit fuel true 0 = Some 0.
Proof. by destruct fuel. Qed.

Lemma put_exit_loops fuel r : r ≠ 0 → r ≠ HTTP_CREATED → put_exit fuel true r = None.
Proof.
  revert r. induction fuel as [|fuel IH]; intros r Hr Hc; cbn; rewrite !(proj2 (Z.eqb_neq _ _)) by done; [done|]. by apply IH.
Qed.

(** The request up to the switch on the type. *)
Lemma put_run fuel rq n t ty text s :
  serving s → asks_for rq n t → n ≠ [] → nr_reg_compute_type t = inr (type_code ty) →
  method_number rq = M_PUT → carries rq text →
  handler fuel rq s =
    (r ← catch (put_value scan_double n ty text;; put_status HTTP_CREATED;; ap_send_http_header);
     match put_exit fuel true (match r with inl r => r | inr _ => 0 end) with
     | None => mret false
     | Some st => if st =? 0 then mret true else abort st
     end) s.
Proof.
  intros Hs Hrq Hne Ht Hm (Hset & Hshould & Hblock & Hrem). rewrite (handler_run fuel rq n t s Hs Hrq Hne), Hm.
  erewrite bind_ok by by apply check_type. unfold process_put_request. rewrite Hset, Hshould, Hblock, Hrem.
  change (negb (0 =? 0)) with false. cbn [negb]. cbv iota. erewrite bind_ok by by apply on_alloc. cbn [negb].
  by rewrite Nat.eqb_refl.
Qed.

(** A value that can be put under a name: a number in the range of its type under a new name,
    or a string where one may be written. *)
Definition puttable (v : view) n ty text : Prop :=
  (∃ lo hi z, type_range ty = Some (lo, hi) ∧ lo <= z < hi ∧ text = print_int z ∧ v n = None ∧ creatable v (ancestors n)) ∨
  (ty = NR_REG_TYPE_STRING ∧ no_nul text ∧ writable v n NR_REG_TYPE_STRING ∧ Z.of_nat (length text) + 1 < 2 ^ 32).

(** The name then has the value the text stands for. *)
Definition has_text (v : view) n ty text : Prop :=
  (∃ lo hi z, type_range ty = Some (lo, hi) ∧ lo <= z < hi ∧ text = print_int z ∧ v n = Some (VScalar ty z)) ∨
  (ty = NR_REG_TYPE_STRING ∧ no_nul text ∧ v n = Some (VArray NR_REG_TYPE_STRING (cbytes text))).

Lemma range_scalar ty lo hi : type_range ty = Some (lo, hi) → is_scalar ty = true ∧ ty ≠ NR_REG_TYPE_DOUBLE ∧ - 2 ^ 64 < lo ∧ hi <= 2 ^ 64.
Proof. by destruct ty; intros [= <- <-]. Qed.

Lemma put_value_run n ty text s :
  serving s → valid n → puttable (vt_view (http_reg s)) n ty text →
  ∃ r, put_value scan_double n ty text s = Ok () (HttpState (initialized s) r (r_status s) (header_sent s) (body s)) ∧
    vt_inv r ∧ has_text (vt_view r) n ty text.
Proof.
  intros [Hi Hinv] Hn [(lo & hi & z & Hr & Hz & -> & Hv & Hc)|(-> & Hnul & Hw & Hlen)].
  - destruct (range_scalar _ _ _ Hr) as (Hsc & Hnd & _).
    destruct (law_set (http_reg s) n ty z Hinv Hn Hsc Hv Hc) as (r & Hrun & Hinv' & Hview).
    assert (Hset : on_http (NR_reg_set ty n z) s = Ok () (HttpState (initialized s) r (r_status s) (header_sent s) (body s))).
    { apply on_http_run. unfold NR_reg_set. by rewrite through_run. }
    exists r. split_and!; [|done|].
    + unfold put_value. rewrite no_nul_index by apply print_int_no_nul.
      assert (Hscan : scan_value scan_double ty (print_int z) s = Ok z s).
      { unfold scan_value. rewrite Hr, scan_print. by rewrite (proj2 (Z.leb_le _ _)), (proj2 (Z.ltb_lt _ _)) by lia. }
      destruct ty; try discriminate Hr; (erewrite bind_ok by exact Hscan; exact Hset).
    + left. exists lo, hi, z. split_and!; [done|lia|lia|done|]. rewrite Hview. unfold upd. rewrite decide_True by done.
      by rewrite (proj1 (stored_spec ty 0 z)).
  - destruct (law_set_string (http_reg s) n text Hinv Hn Hnul Hw Hlen) as (r & Hrun & Hinv' & Hview & _).
    exists r. split_and!; [|done|by right].
    unfold put_value. rewrite no_nul_index by done. unfold strlen. rewrite Nat.eqb_refl. cbn [negb].
    apply on_http_run. unfold NR_reg_set_string. by rewrite through_run.
Qed.

(** ** Getting *)

Lemma value_text_run n ty text s :
  serving s → has_text (vt_view (http_reg s)) n ty text →
  ∃ r, value_text format_double n ty s = Ok text (HttpState (initialized s) r (r_status s) (header_sent s) (body s)) ∧
    quiet (http_reg s) r.
Proof.
  intros Hs [(lo & hi & z & Hr & Hz & -> & Hv)|(-> & Hnul & Hv)].
  - destruct (range_scalar _ _ _ Hr) as (Hsc & Hnd & Hlo & Hhi). pose proof (proj2 Hs) as Hinv.
    pose proof (law_get (http_reg s) n ty Hinv Hsc (law_valid _ _ _ Hinv Hv)) as Hget.
    rewrite Hv, decide_True in Hget by done. destruct Hget as (r & Hq & Hrun). exists r. split; [|done].
    assert (Hall : (on_http alloc_or_abort;; v ← on_http (NR_reg_get ty n); mret (take 99 (print_int v))) s =
      Ok (print_int z) (HttpState (initialized s) r (r_status s) (header_sent s) (body s))).
    { erewrite bind_ok by by apply on_alloc. rewrite (bind_ok _ _ s z (HttpState (initialized s) r (r_status s) (header_sent s) (body s))).
      2: { apply on_http_run. unfold NR_reg_get. by rewrite through_run. }
      unfold mret, M_ret. f_equal. apply take_ge. pose proof (print_int_length z). lia. }
    by destruct ty.
  - destruct (alloc_string_run (http_reg s) n text (proj2 Hs) Hnul Hv) as (r & Hq & Hrun).
    exists r. split; [|done]. by apply on_http_run.
Qed.

Lemma get_run fuel rq n t ty text s :
  serving s → asks_for rq n t → n ≠ [] → nr_reg_compute_type t = inr (type_code ty) → method_number rq = M_GET →
  has_text (vt_view (http_reg s)) n ty text →
  ∃ r, handler fuel rq s = Ok true (replied s r (r_status s) text) ∧ quiet (http_reg s) r.
Proof.
  intros Hs Hrq Hne Ht Hm Htext. rewrite (handler_run fuel rq n t s Hs Hrq Hne), Hm.
  erewrite bind_ok by by apply check_type. destruct (value_text_run n ty text s Hs Htext) as (r & Hval & Hq).
  exists r. split; [|done]. unfold process_get_request. destruct Hrq as (_ & _ & Hh). rewrite Hh.
  erewrite bind_ok.
  2: { erewrite bind_ok by (apply catch_ok; erewrite bind_ok by exact Hval; done). done. }
  done.
Qed.

(** The name is not there, or holds a scalar or an array of another type. *)
Definition misses (v : view) n ty (code : Z) : Prop :=
  match v n with
  | None => code = HTTP_NOT_FOUND
  | Some (VScalar ty' _) => ty' ≠ ty ∧ code = HTTP_INTERNAL_SERVER_ERROR
  | Some (VArray _ _) => code = HTTP_INTERNAL_SERVER_ERROR
  end.

Lemma get_missing_run fuel rq n t ty lo hi s code :
  serving s → asks_for rq n t → n ≠ [] → nr_reg_compute_type t = inr (type_code ty) → method_number rq = M_GET →
  type_range ty = Some (lo, hi) → valid n → misses (vt_view (http_reg s)) n ty code →
  ∃ r, handler fuel rq s = Err code (HttpState (initialized s) r (r_status s) (header_sent s) (body s)) ∧ quiet (http_reg s) r.
Proof.
  intros Hs Hrq Hne Ht Hm Hr Hn Hmiss. rewrite (handler_run fuel rq n t s Hs Hrq Hne), Hm.
  erewrite bind_ok by by apply check_type. destruct (range_scalar _ _ _ Hr) as (Hsc & Hnd & _). pose proof (proj2 Hs) as Hinv.
  pose proof (law_get (http_reg s) n ty Hinv Hsc Hn) as Hget. unfold misses in Hmiss.
  assert (∃ e, gives (vt_get n ty) (http_reg s) (inl e) ∧ (if e =? R_NOT_FOUND then HTTP_NOT_FOUND else HTTP_INTERNAL_SERVER_ERROR) = code
    ∧ code ≠ 0) as (e & (r & Hq & Hrun) & Hcode & Hc0).
  { destruct (vt_view (http_reg s) n) as [[ty' w|ty' w]|].
    - destruct Hmiss as [Hty ->]. rewrite decide_False in Hget by done. by exists R_FAILED.
    - subst code. by exists R_FAILED.
    - subst code. by exists R_NOT_FOUND. }
  exists r. split; [|done]. unfold process_get_request.
  assert (Hval : value_text format_double n ty s = Err e (HttpState (initialized s) r (r_status s) (header_sent s) (body s))).
  { assert (Hall : (on_http alloc_or_abort;; v ← on_http (NR_reg_get ty n); mret (take 99 (print_int v))) s =
      Err e (HttpState (initialized s) r (r_status s) (header_sent s) (body s))).
    { erewrite bind_ok by by apply on_alloc. apply bind_err. apply on_http_err. unfold NR_reg_get. by rewrite through_run. }
    by destruct ty. }
  apply bind_err. erewrite bind_ok by (eapply catch_err; by apply bind_err). cbv beta iota. rewrite Hcode.
  unfold abort. by rewrite abort_code_id.
Qed.

Lemma get_absent_run fuel rq n t ty s :
  serving s → asks_for rq n t → n ≠ [] → nr_reg_compute_type t = inr (type_code ty) → method_number rq = M_GET →
  is_Some (type_range ty) ∨ ty = NR_REG_TYPE_STRING → valid n → vt_view (http_reg s) n = None →
  ∃ r, handler fuel rq s = Err HTTP_NOT_FOUND (HttpState (initialized s) r (r_status s) (header_sent s) (body s)).
Proof.
  intros Hs Hrq Hne Ht Hm [[[lo hi] Hr]| ->] Hn Hv.
  { destruct (get_missing_run fuel rq n t ty lo hi s HTTP_NOT_FOUND) as (r & Hrun & _); [done..| |by exists r].
    unfold misses. by rewrite Hv. }
  destruct (law_no_length (http_reg s) n (proj2 Hs) Hn Hv) as (r & Hq & Hrun). exists r.
  rewrite (handler_run fuel rq n t s Hs Hrq Hne), Hm. erewrite bind_ok by by apply check_type.
  assert (Hval : value_text format_double n NR_REG_TYPE_STRING s =
    Err R_NOT_FOUND (HttpState (initialized s) r (r_status s) (header_sent s) (body s))).
  { apply on_http_err. unfold NR_reg_alloc_string, NR_reg_get_length. apply bind_err. rewrite through_run; [done|apply Hs]. }
  unfold process_get_request. apply bind_err. by erewrite bind_ok by (eapply catch_err; by apply bind_err).
Qed.

(** A request to delete the name its path stands for. *)
Definition deletes (rq : request_rec) n : Prop :=
  dotted (skip_slash (uri rq)) = n ∧ args rq = None ∧ method_number rq = M_DELETE.

Lemma delete_run fuel rq n s :
  serving s → deletes rq n → n ≠ [] → valid n →
  ∃ r, handler fuel rq s = Ok true (replied s r (r_status s) []) ∧ vt_inv r ∧
    ∀ m, vt_view r m = if iter_match n m then None else vt_view (http_reg s) m.
Proof.
  intros Hs (Hn & Ha & Hm) Hne Hv. destruct (law_del (http_reg s) n (proj2 Hs) Hv Hne) as (r & Hrun & Hinv & Hview).
  exists r. split; [|done]. unfold registry_handler. mstep. rewrite (proj1 Hs). cbn [negb].
  assert (Htr : transform_name (uri rq) s = Ok n s).
  { unfold transform_name. erewrite bind_ok by by apply on_alloc. unfold mret, M_ret. f_equal. exact Hn. }
  erewrite bind_ok by exact Htr. destruct n as [|c n]; [done|]. cbn [strlen length Nat.eqb]. rewrite Ha, Hm. mstep.
  assert (Hdel : process_delete_request (c :: n) s = Ok () (replied s r (r_status s) [])).
  { unfold process_delete_request, or_error. erewrite bind_ok.
    2: { erewrite bind_ok; [|apply catch_ok, on_http_run; unfold NR_reg_del; rewrite through_run; [exact Hrun|apply Hs]]. done. }
    unfold replied. cbn. by rewrite app_nil_r. }
  cbv iota. by erewrite bind_ok by exact Hdel.
Qed.

Lemma put_done fuel rq n t ty text s :
  serving s → asks_for rq n t → n ≠ [] → valid n → nr_reg_compute_type t = inr (type_code ty) → method_number rq = M_PUT →
  carries rq text → puttable (vt_view (http_reg s)) n ty text →
  ∃ r, handler fuel rq s = Ok true (replied s r (Some HTTP_CREATED) []) ∧ vt_inv r ∧ has_text (vt_view r) n ty text.
Proof.
  intros Hs Hrq Hne Hn Ht Hm Hc Hp. destruct (put_value_run n ty text s Hs Hn Hp) as (r & Hrun & Hinv & Htext).
  exists r. split; [|done]. erewrite put_run by done.
  erewrite bind_ok by (apply catch_ok; erewrite bind_ok by exact Hrun; done). rewrite put_exit_ok.
  unfold replied. cbn. by rewrite app_nil_r.
Qed.


End http.

(** ** Requests to the local store of [RegDemo] *)

From S2P Require Import RegState RegDemo RegModule.

#[local] Opaque demo_init demo_mtu demo_host.

(** Doubles are not read or written here. *)
Definition no_double (z : Z) : cstring := [].
Definition no_scan (s : cstring) : option Z := None.

Definition demo_server : http_state reg_state := HttpState true demo_mtu None false [].
Definition put_mask (text : cstring) : request_rec := Request $"/net/mask" (Some $"type=uint2") M_PUT false 0 true (length text) text.
Definition get_mask : request_rec := Request $"/net/mask?now" (Some $"type=uint2") M_GET false 0 false 0 [].
Definition delete_mask : request_rec := Request $"net/mask" None M_DELETE false 0 false 0 [].

Lemma demo_serving : serving demo_server.
Proof. split; [done|exact demo_mtu_good]. Qed.

Lemma mask_puttable : puttable (reg_view demo_mtu) $"net.mask" NR_REG_TYPE_UINT2 $"65280".
Proof.
  left. exists 0, (2 ^ 16), 65280. split_and!; [reflexivity|lia|lia|vm_compute; reflexivity| |].
  - rewrite demo_mtu_view. reflexivity.
  - change (ancestors $"net.mask") with [$"net"]. cbn [creatable]. rewrite demo_mtu_view. split; [valid_name|done].
Qed.


