(* ===== verification/RegCtl.v ===== *)
(** * The command line tool (src/registry/nrregctl.c)

    Reading, writing, listing and exporting values as text.  The program ends with [exit(1)]
    on an error, which is [Err 1] here; what it prints on its standard output is kept, its
    messages on standard error are not.  The registry is any module of RegFacade. *)

From Stdlib Require Import Ascii.
From stdpp Require Import sorting.
From S2P Require Import Prelude CString Numbers Escape RegNames RegFacade RegHttp.
Local Open Scope Z_scope.

(** ** Text of values *)

Definition LF : ascii := ascii_of_nat 10.
Definition hex_digit (d : Z) : ascii := default "0"%char ($"0123456789abcdef" !! Z.to_nat d).
Definition is_xdigit (c : ascii) : bool := isdigit c || between "a" "f" c || between "A" "F" c.
Definition xdigit_value (c : ascii) : Z :=
  if isdigit c then uchar c - 48 else if between "a" "f" c then uchar c - 87 else uchar c - 55.

(** [%02x] of a byte, and [%03o] of an [int], as the unsigned number it is taken for. *)
Definition print_hex2 (v : Z) : cstring := [hex_digit (v / 16); hex_digit (v mod 16)].
Fixpoint octal_digits (fuel : nat) (z : Z) : cstring :=
  match fuel with
  | O => []
  | S fuel' => if z <? 8 then [hex_digit z] else octal_digits fuel' (z / 8) ++ [hex_digit (z mod 8)]
  end.
Definition print_octal3 (v : Z) : cstring :=
  let d := octal_digits 11 (wrap 32 v) in replicate (3 - length d) "0"%char ++ d.

(** [sscanf] with [%x] and [%o], on text that starts with such a digit. *)
Fixpoint value_base (base : Z) (ok : ascii → bool) (acc : Z) (s : cstring) : Z :=
  match s with
  | c :: s' => if ok c then value_base base ok (base * acc + xdigit_value c) s' else acc
  | [] => acc
  end.
Definition scan_base (base : Z) (ok : ascii → bool) (s : cstring) : option Z :=
  match s with c :: _ => if ok c then Some (value_base base ok 0 s) else None | [] => None end.
Definition scan_hex (s : cstring) : option Z :=
  scan_base 16 is_xdigit (if bool_decide (take 2 s = $"0x") || bool_decide (take 2 s = $"0X") then drop 2 s else s).
Definition scan_octal : cstring → option Z := scan_base 8 (between "0" "7").

(** The bytes of a value of type [Data], 35 to a line. *)
Fixpoint print_bytes (i : nat) (bs : list Z) : cstring :=
  match bs with
  | [] => if (i =? 0)%nat then [LF] else if (i mod 35 =? 0)%nat then [] else [LF]
  | b :: bs' => print_hex2 b ++ (if (i mod 35 =? 34)%nat then [LF] else []) ++ print_bytes (S i) bs'
  end.

(** [strcmp] as an order. *)
Fixpoint strle (a b : cstring) : bool :=
  match a, b with
  | [], _ => true
  | _ :: _, [] => false
  | x :: a', y :: b' => if uchar x <? uchar y then true else if uchar x =? uchar y then strle a' b' else false
  end.

Section ctl.
(** [printf] with [%f] and [sscanf] with [%lf] on the bits of a double; whether a file can be
    opened; the name the program was called by. *)
Context (format_double : Z → cstring) (scan_double : cstring → option Z) (file_opens : cstring → bool) (PROGNAME : cstring).
Context {S : Type} `{HasAlloc S} `{RegVtbl S}.

Record ctl_state := CtlState { ctl_reg : S; ctl_out : cstring }.
Abbreviation CM := (M ctl_state).

Definition on_ctl {A} (m : M S A) : CM A := λ s,
  match m (ctl_reg s) with
  | Ok a r => Ok a (CtlState r (ctl_out s))
  | Err e r => Err e (CtlState r (ctl_out s))
  | UB => UB
  end.
Definition printf (text : cstring) : CM unit := modify (λ s, CtlState (ctl_reg s) (ctl_out s ++ text)).

(** [fail] and [usage] *)
Definition exit1 {A} : CM A := abort 1.
Definition or_fail {A} (m : M S A) : CM A :=
  r ← catch (on_ctl m); match r with inl _ => exit1 | inr a => mret a end.
Definition or_fail_sum {A} (r : Z + A) : CM A := match r with inl _ => exit1 | inr a => mret a end.
(** A conversion that leaves the variable as it is: it has never been set. *)
Definition set_by {A} (o : option A) : CM A := from_option_ub o.

(** [nr_shell_quote_string(s,&s)] with the status ignored. *)
Definition quoted (s : cstring) : CM cstring :=
  if (needs_quoting s =? 0)%nat then mret s
  else
    ok ← on_ctl alloc_ok;
    r ← set_by (nr_shell_quote_string ok s);
    mret (match r with inl _ => s | inr q => q end).

Definition type_at (t : Z) : option reg_type := reg_types !! Z.to_nat t.

Definition nrregctl_read (name : cstring) (shell_mode : bool) : CM unit :=
  str ← or_fail (NR_reg_get_type name);
  t ← or_fail_sum (nr_reg_compute_type str);
  match type_at t with
  | Some NR_REG_TYPE_CHAR =>
      c ← or_fail (NR_reg_get NR_REG_TYPE_CHAR name);
      let escape := if shell_mode then negb (nr_isshok (char_of c)) else isspace (char_of c) || negb (isprint (char_of c)) in
      printf ((if escape then (if shell_mode then $"\" else []) ++ $"\" ++ print_octal3 c else [char_of c]) ++ [LF])
  | Some NR_REG_TYPE_UCHAR =>
      v ← or_fail (NR_reg_get NR_REG_TYPE_UCHAR name); printf ($"0x" ++ print_hex2 v ++ [LF])
  | Some NR_REG_TYPE_DOUBLE =>
      v ← or_fail (NR_reg_get NR_REG_TYPE_DOUBLE name); printf (format_double v ++ [LF])
  | Some NR_REG_TYPE_BYTES =>
      bs ← or_fail (NR_reg_alloc_data name); printf (print_bytes 0 bs)
  | Some NR_REG_TYPE_STRING =>
      s ← or_fail (NR_reg_alloc_string name);
      s ← (if shell_mode then quoted s else mret s); printf (s ++ [LF])
  | Some NR_REG_TYPE_REGISTRY =>
      s ← or_fail (NR_reg_get_registry name);
      s ← (if shell_mode then quoted s else mret s); printf (s ++ [LF])
  | Some ty => v ← or_fail (NR_reg_get ty name); printf (print_int v ++ [LF])
  | None => exit1
  end.

(** A child of a registry in [nrregctl_dump]. *)
Definition dump_child (dump : cstring → CM unit) (shell_mode : bool) (child : cstring) : CM unit :=
  str ← or_fail (NR_reg_get_type child);
  t ← or_fail_sum (nr_reg_compute_type str);
  match type_at t with
  | Some NR_REG_TYPE_REGISTRY => dump child
  | _ =>
      (if shell_mode then
         q ← quoted child;
         printf (PROGNAME ++ $" write " ++ str ++ $" " ++ q ++ $" ")
       else printf (child ++ $": "));;
      nrregctl_read child shell_mode
  end.
Fixpoint dump_children (dump : cstring → CM unit) (shell_mode : bool) (children : list cstring) : CM unit :=
  match children with
  | [] => mret ()
  | c :: cs => dump_child dump shell_mode c;; dump_children dump shell_mode cs
  end.

(** The number of children; a name that is not there has none. *)
Definition count_or_none (name : cstring) : CM Z :=
  r ← catch (on_ctl (NR_reg_get_child_count name));
  match r with inl r => if negb (r =? R_NOT_FOUND) then exit1 else mret 0 | inr n => mret n end.

(** [nrregctl_dump]; a name has at most as many levels as characters, so [fuel] beyond its
    longest length never runs out. *)
Fixpoint nrregctl_dump (fuel : nat) (shell_mode : bool) (from : cstring) : CM unit :=
  match fuel with
  | O => undef
  | Datatypes.S fuel' =>
      size ← count_or_none from;
      if 0 <? size then
        children ← or_fail (NR_reg_get_children from (Z.to_nat size));
        dump_children (nrregctl_dump fuel' shell_mode) shell_mode children
      else mret ()
  end.

(** Numbers of a type, from [lo] to [hi] or of [w] bits without sign; a number outside the C
    type that is scanned is undefined.  An unsigned number may be written with a minus sign. *)
Definition scan_within (lo hi : Z) (value : cstring) : CM Z :=
  v ← set_by (scan_int value); if (lo <=? v) && (v <? hi) then mret v else undef.
Definition scan_unsigned (w : Z) (value : cstring) : CM Z :=
  v ← set_by (scan_int value); if (- 2 ^ w <? v) && (v <? 2 ^ w) then mret (wrap w v) else undef.

(** A character as [\ooo] or as [0xhh], into an [int]; [None]: in neither form. *)
Definition scan_coded (value : cstring) : option (CM Z) :=
  let int_of o := v ← set_by o; if v <? 2 ^ 32 then mret v else undef in
  let at_is (ok : ascii → bool) i := from_option ok false (value !! i) in
  if bool_decide (take 1 value = $"\") && at_is isdigit 1%nat then Some (int_of (scan_octal (drop 1 value)))
  else if bool_decide (take 2 value = $"0x") && at_is is_xdigit 2%nat then Some (int_of (scan_hex (drop 2 value)))
  else None.

(** Does the loop over the [left] pairs of a value of type [Data] store a byte? *)
Fixpoint stores_pair (value : cstring) (left : nat) : bool :=
  match left, value with
  | Datatypes.S left', a :: _ :: value' => if isspace a then stores_pair value' (pred left') else true
  | _, _ => false
  end.

(** [Data] is read into memory and not set: its case ends without a call. *)
Definition write_bytes (value : cstring) : CM unit :=
  ok ← on_ctl alloc_ok;
  let digits := if (2 <? length value)%nat && bool_decide (take 2 value = $"0x") then drop 2 value else value in
  if negb (length digits mod 2 =? 0)%nat then exit1
  else if negb ok && stores_pair digits (length digits / 2) then undef
  else mret ().

(** The second [switch]: the text [value] is read as a value of the type and set. *)
Definition write_value (ty : reg_type) (name value : cstring) : CM unit :=
  match ty with
  | NR_REG_TYPE_CHAR =>
      c ← (match scan_coded value with
           | Some m => v ← m; mret (swrap 8 v)
           | None => set_by (schar <$> head value)
           end);
      or_fail (NR_reg_set NR_REG_TYPE_CHAR name c)
  | NR_REG_TYPE_UCHAR =>
      v ← (match scan_coded value with Some m => m | None => exit1 end);
      or_fail (NR_reg_set NR_REG_TYPE_UCHAR name (wrap 8 v))
  | NR_REG_TYPE_INT2 => v ← scan_within (- 2 ^ 31) (2 ^ 31) value; or_fail (NR_reg_set ty name (swrap 16 v))
  | NR_REG_TYPE_UINT2 => v ← scan_unsigned 32 value; or_fail (NR_reg_set ty name (wrap 16 v))
  | NR_REG_TYPE_INT4 => v ← scan_within (- 2 ^ 31) (2 ^ 31) value; or_fail (NR_reg_set ty name v)
  | NR_REG_TYPE_UINT4 => v ← scan_unsigned 32 value; or_fail (NR_reg_set ty name v)
  | NR_REG_TYPE_INT8 => v ← scan_within (- 2 ^ 63) (2 ^ 63) value; or_fail (NR_reg_set ty name v)
  | NR_REG_TYPE_UINT8 => v ← scan_unsigned 64 value; or_fail (NR_reg_set ty name v)
  | NR_REG_TYPE_DOUBLE => v ← set_by (scan_double value); or_fail (NR_reg_set ty name v)
  | NR_REG_TYPE_BYTES => write_bytes value
  | NR_REG_TYPE_STRING => or_fail (NR_reg_set_string name value)
  | NR_REG_TYPE_REGISTRY => exit1
  end.

Definition nrregctl_write (str : option cstring) (name : cstring) (value : option cstring) : CM unit :=
  str ← (match str with
         | Some s => mret s
         | None => or_fail (NR_reg_get_type name)
         end);
  t ← or_fail_sum (nr_reg_compute_type str);
  ty ← (match type_at t with Some ty => mret ty | None => exit1 end);
  match ty, value with
  | NR_REG_TYPE_REGISTRY, Some _ => exit1
  | NR_REG_TYPE_REGISTRY, None => or_fail (NR_reg_set_registry name)
  | _, None => exit1
  | _, Some value =>
      if (strlen value =? 0)%nat && negb (bool_decide (ty = NR_REG_TYPE_STRING) || bool_decide (ty = NR_REG_TYPE_BYTES)) then exit1
      else if bool_decide (take 1 value = $"@") then
        if file_opens (drop 1 value) then undef else exit1     (* read into memory that is not cleared *)
      else write_value ty name value
  end.

Definition nrregctl_delete (name : cstring) : CM unit := or_fail (NR_reg_del name).
Definition nrregctl_final (name : cstring) : CM unit := or_fail (NR_reg_fin name).

Definition nrregctl_list (name : cstring) : CM unit :=
  size ← count_or_none name;
  if 0 <? size then
    children ← or_fail (NR_reg_get_children name (Z.to_nat size));
    printf (merge_sort (λ a b, Is_true (strle a b)) children ≫= λ c, c ++ [LF])
  else mret ().

(** [main], on the arguments after the program's name, with the registry open.  [watch]
    registers a callback that prints the events and runs the event loop for ever. *)
Definition main (nrregctl_watch : cstring → CM unit) (argv : list cstring) : CM unit :=
  match argv with
  | [cmd] =>
      if streq cmd $"dump" then nrregctl_dump NR_REG_MAX_NR_REGISTRY_LEN false []
      else if streq cmd $"export" then nrregctl_dump NR_REG_MAX_NR_REGISTRY_LEN true []
      else if streq cmd $"watch" then nrregctl_watch []
      else exit1
  | [cmd; name] =>
      if streq cmd $"read" then nrregctl_read name false
      else if streq cmd $"delete" then nrregctl_delete name
      else if streq cmd $"dump" then nrregctl_dump NR_REG_MAX_NR_REGISTRY_LEN false name
      else if streq cmd $"export" then nrregctl_dump NR_REG_MAX_NR_REGISTRY_LEN true name
      else if streq cmd $"list" then nrregctl_list name
      else if streq cmd $"final" then nrregctl_final name
      else if streq cmd $"watch" then nrregctl_watch name
      else exit1
  | [cmd; a; b] =>
      if streq cmd $"write" then
        if streq a $"registry" then nrregctl_write (Some a) b None else nrregctl_write None a (Some b)
      else exit1
  | [cmd; a; b; c] => if streq cmd $"write" then nrregctl_write (Some a) b (Some c) else exit1
  | _ => exit1
  end.
End ctl.
Arguments ctl_state : clear implicits.
