(* ===== verification/ShellScript.v ===== *)
(** * Scripts for the shell

    The part of the shell's language that [nrregctl export] writes: words of safe characters,
    in quotes or after a backslash, separated by spaces, and one command to a line.  A quoted
    text may run over several lines. *)

From Stdlib Require Import Ascii.
From S2P Require Import Prelude CString Numbers Escape RegCtl.
Local Open Scope char_scope.

(** The commands of a script.  [cur]: the word that is being read; [words]: those before it
    on the line.  [None]: the text ends within a line, or it uses more of the shell. *)
Fixpoint sh_parse (mode : sh_mode) (cur : option cstring) (words : list cstring) (text : cstring) : option (list (list cstring)) :=
  match text with
  | [] => match mode, cur, words with Plain, None, [] => Some [] | _, _, _ => None end
  | c :: text' =>
      let push m d := sh_parse m (Some (default [] cur ++ d)) words in
      match mode with
      | Plain =>
          if bool_decide (c = squote) then push Single [] text'
          else if bool_decide (c = dquote) then push Double [] text'
          else if bool_decide (c = " ") then sh_parse Plain None (words ++ option_list cur) text'
          else if bool_decide (c = LF) then cons (words ++ option_list cur) <$> sh_parse Plain None [] text'
          else if bool_decide (c = "\") then
            match text' with
            | d :: text'' => if bool_decide (d = LF) then None else push Plain [d] text''
            | [] => None
            end
          else if nr_isshok c then push Plain [c] text' else None
      | Single => if bool_decide (c = squote) then push Plain [] text' else push Single [c] text'
      | Double =>
          if bool_decide (c = dquote) then push Plain [] text'
          else if dquote_special c then None else push Double [c] text'
      end
  end.
Definition sh_script : cstring → option (list (list cstring)) := sh_parse Plain None [].

(** [w] is the text of the word [t]. *)
Definition reads_as (w t : cstring) : Prop :=
  ∀ words rest, sh_parse Plain None words (w ++ rest) = sh_parse Plain (Some t) words rest.

Definition spelled (w t : cstring) : Prop := ∀ words acc rest,
  sh_parse Plain (Some acc) words (w ++ rest) = sh_parse Plain (Some (acc ++ t)) words rest.

Lemma shok_plain c : nr_isshok c = true → c ≠ squote ∧ c ≠ dquote ∧ c ≠ " " ∧ c ≠ LF ∧ c ≠ "\".
Proof. intros Hc. split_and!; intros ->; by vm_compute in Hc. Qed.

Ltac bd_false := repeat (rewrite bool_decide_eq_false_2 by done).

(** A word as Escape reads it. *)
Lemma parse_word m w t : sh_word m w = Some t → ∀ words acc rest,
  sh_parse m (Some acc) words (w ++ rest) = sh_parse Plain (Some (acc ++ t)) words rest.
Proof.
  revert m t. induction w as [|c w IH]; intros m t Hw words acc rest.
  { destruct m; try discriminate Hw. injection Hw as <-. by rewrite app_nil_r. }
  assert (Hcons : ∀ m', cons c <$> sh_word m' w = Some t →
    sh_parse m' (Some (acc ++ [c])) words (w ++ rest) = sh_parse Plain (Some (acc ++ t)) words rest).
  { intros m' (t' & Ht' & ->)%fmap_Some. rewrite (IH m' t' Ht'). by rewrite <- app_assoc. }
  cbn [app sh_parse default]. cbn [sh_word] in Hw. destruct m.
  - case_bool_decide; [rewrite app_nil_r; by apply IH|]. case_bool_decide; [rewrite app_nil_r; by apply IH|].
    destruct (nr_isshok c) eqn:Hok; [|discriminate Hw]. destruct (shok_plain c Hok) as (_ & _ & ? & ? & ?).
    bd_false. by apply Hcons.
  - case_bool_decide; [rewrite app_nil_r; by apply IH|by apply Hcons].
  - case_bool_decide; [rewrite app_nil_r; by apply IH|]. destruct (dquote_special c); [discriminate Hw|by apply Hcons].
Qed.

(** The first character of a word starts it. *)
Lemma reads_word w t : w ≠ [] → sh_word Plain w = Some t → reads_as w t.
Proof.
  intros Hne Hw words rest. rewrite <- (app_nil_l t), <- (parse_word Plain w t Hw words [] rest).
  destruct w as [|c w]; [done|]. cbn [app sh_parse default]. cbn [sh_word] in Hw.
  case_bool_decide; [done|]. case_bool_decide; [done|].
  destruct (nr_isshok c) eqn:Hok; [|discriminate Hw]. destruct (shok_plain c Hok) as (_ & _ & ? & ? & ?). by bd_false.
Qed.

Lemma reads_plain w : w ≠ [] → needs_quoting w = 0%nat → reads_as w w.
Proof. intros Hne Hw. apply reads_word; [done|by apply plain_read]. Qed.

(** A word that starts with an escaped backslash. *)
Lemma reads_backslash w : needs_quoting w = 0%nat → reads_as ("\" :: "\" :: w) ("\" :: w).
Proof.
  intros Hw words rest. cbn [app sh_parse].
  change (bool_decide ("\" = squote)) with false. change (bool_decide ("\" = dquote)) with false.
  change (bool_decide ("\" = " ")) with false. change (bool_decide ("\" = LF)) with false.
  change (bool_decide ("\" = "\")) with true. cbv iota. cbn [default].
  by rewrite (parse_word Plain w w (plain_read w Hw)).
Qed.

Lemma parse_space cur words rest : sh_parse Plain (Some cur) words (" " :: rest) = sh_parse Plain None (words ++ [cur]) rest.
Proof. reflexivity. Qed.

Lemma parse_end cur words rest : sh_parse Plain (Some cur) words (LF :: rest) = cons (words ++ [cur]) <$> sh_script rest.
Proof. reflexivity. Qed.

(** The line of a command with its arguments: every text and the word it stands for. *)
Definition sh_line (ws : list cstring) : cstring := match ws with [] => [] | w :: ws => w ++ (ws ≫= cons " ") ++ [LF] end.

Lemma parse_line ws ts rest :
  ws ≠ [] → Forall2 reads_as ws ts → sh_script (sh_line ws ++ rest) = cons ts <$> sh_script rest.
Proof.
  assert (Htail : ∀ ws ts, Forall2 reads_as ws ts → ∀ words t,
    sh_parse Plain (Some t) words ((ws ≫= cons " ") ++ LF :: rest) = cons (words ++ t :: ts) <$> sh_script rest).
  { induction 1 as [|w t' ws' ts' Hw _ IH]; intros words t; [by apply parse_end|].
    cbn [mbind list_bind app]. rewrite <- app_assoc. change ((" " :: w ++ ?x)) with (" " :: (w ++ x)).
    rewrite parse_space, Hw, IH. by rewrite <- app_assoc. }
  intros Hne Hf. revert Hne. destruct Hf as [|w t ws' ts' Hw Hws]; [done|]. intros _. unfold sh_line, sh_script. rewrite <- !app_assoc, Hw. exact (Htail ws' ts' Hws [] t).
Qed.

(** ** Texts without quotes *)

Lemma digit_shok c : isdigit c = true → nr_isshok c = true.
Proof. intros Hc. unfold nr_isshok, isalnum. by rewrite Hc. Qed.

Lemma needs_quoting_app a b : needs_quoting (a ++ b) = (needs_quoting a + needs_quoting b)%nat.
Proof. induction a as [|c a IH]; [done|]. cbn. rewrite IH. lia. Qed.
