(* ===== verification/RegCtlSpec.v ===== *)
(** * What is exported can be restored

    The script that [nrregctl export] prints, read by the shell and run as commands of
    [nrregctl], sets every exported name to the value it had. *)

From Stdlib Require Import Ascii.
From stdpp Require Import sorting.
From S2P Require Import Prelude CString Numbers Escape RegNames RegInv RegSpec RegTree RegFacade RegFacadeSpec RegModule RegRemote RegRemoteSpec RegTypes RegHttp RegCtl ShellScript.
Local Open Scope Z_scope.

(** ** Texts of values *)

Definition sh_quote (s : cstring) : cstring := if decide (needs_quoting s = 0%nat) then s else squote :: quote_loop s ++ [squote].

(** A value that is exported in a form that can be read back: an integer of its type, or a
    string that is not empty and does not start like the name of a file. *)
Definition exportable (x : value) : Prop :=
  match x with
  | VScalar ty z => ∃ lo hi, type_range ty = Some (lo, hi) ∧ lo <= z < hi
  | VArray ty bs => ty = NR_REG_TYPE_STRING ∧ ∃ d, bs = cbytes d ∧ no_nul d ∧ d ≠ [] ∧ take 1 d ≠ $"@"
  end.

(** The argument for a value, and the text of it in the script. *)
Definition value_arg (x : value) : cstring :=
  match x with
  | VScalar NR_REG_TYPE_CHAR c => if nr_isshok (char_of c) then [char_of c] else "\"%char :: print_octal3 c
  | VScalar NR_REG_TYPE_UCHAR v => $"0x" ++ print_hex2 v
  | VScalar _ v => print_int v
  | VArray _ bs => default [] (c_string_in bs)
  end.
Definition value_word (x : value) : cstring :=
  match x with
  | VScalar NR_REG_TYPE_CHAR c => if nr_isshok (char_of c) then [char_of c] else "\"%char :: "\"%char :: print_octal3 c
  | VArray _ _ => sh_quote (value_arg x)
  | _ => value_arg x
  end.

Lemma reads_quoted s : s ≠ [] → reads_as (sh_quote s) s.
Proof.
  intros Hne. unfold sh_quote. case_decide as Hq; [by apply reads_plain|].
  apply reads_word; [done|]. by destruct (quoted_run s Hq) as (_ & ? & _).
Qed.

Lemma print_int_plain z : needs_quoting (print_int z) = 0%nat.
Proof.
  assert (Hgo : ∀ x s, needs_quoting (cstr s) = 0%nat → needs_quoting (cstr (pretty.pretty_N_go x s)) = 0%nat).
  { intros x. induction (N.lt_wf_0 x) as [x _ IH]; intros s Hs.
    destruct (decide (x = 0)%N) as [->|Hx]; [by rewrite pretty.pretty_N_go_0|].
    rewrite pretty.pretty_N_go_step by lia. apply IH; [apply N.div_lt; lia|].
    change (cstr (String ?c s)) with (c :: cstr s). cbn [needs_quoting].
    destruct (pretty_char_digit (x mod 10)) as (Hd & _); [apply N.mod_lt; lia|]. by rewrite (digit_shok _ Hd). }
  assert (Hn : ∀ n : N, needs_quoting (cstr (pretty.pretty n)) = 0%nat).
  { intros n. unfold pretty.pretty, pretty.pretty_N. case_decide; [done|]. by apply Hgo. }
  unfold print_int. destruct z as [|p|p]; [done|apply (Hn (Npos p))|].
  change (cstr (pretty.pretty (Zneg p))) with ("-"%char :: cstr (pretty.pretty (Npos p))). apply (Hn (Npos p)).
Qed.

Lemma print_int_head z : print_int z ≠ [] ∧ take 1 (print_int z) ≠ $"@".
Proof.
  assert (Hq : needs_quoting (print_int z) = 0%nat) by apply print_int_plain.
  pose proof (scan_print z) as Hs. destruct (print_int z) as [|c t]; [by vm_compute in Hs|]. split; [done|].
  intros [= ->]. by vm_compute in Hq.
Qed.

(** The texts of all characters and of all unsigned characters. *)
Definition char_ok (c : Z) : bool :=
  let t := "\"%char :: print_octal3 c in
  (needs_quoting (print_octal3 c) =? 0)%nat && bool_decide (scan_octal (drop 1 t) = Some (wrap 32 c)) && from_option isdigit false (t !! 1%nat)
  && (swrap 8 (wrap 32 c) =? c) && (schar (char_of c) =? c) && (wrap 32 c <? 2 ^ 32).
Definition uchar_ok (v : Z) : bool :=
  let t := $"0x" ++ print_hex2 v in
  (needs_quoting t =? 0)%nat && bool_decide (scan_hex (drop 2 t) = Some v) && from_option is_xdigit false (t !! 2%nat).

Lemma char_ok_all c : - 2 ^ 7 <= c < 2 ^ 7 → char_ok c = true.
Proof.
  intros Hc. assert (Hall : forallb char_ok (seqZ (- 2 ^ 7) 256) = true) by (vm_compute; reflexivity).
  apply (proj1 (forallb_forall _ _) Hall), list_elem_of_In, elem_of_seqZ. lia.
Qed.

Lemma uchar_ok_all v : 0 <= v < 2 ^ 8 → uchar_ok v = true.
Proof.
  intros Hv. assert (Hall : forallb uchar_ok (seqZ 0 256) = true) by (vm_compute; reflexivity).
  apply (proj1 (forallb_forall _ _) Hall), list_elem_of_In, elem_of_seqZ. lia.
Qed.

Lemma value_reads x : exportable x → reads_as (value_word x) (value_arg x).
Proof.
  destruct x as [ty z|ty bs]; cbn [exportable].
  - intros (lo & hi & Hr & Hz).
    assert (Hint : reads_as (print_int z) (print_int z)) by (apply reads_plain; [apply print_int_head|apply print_int_plain]).
    destruct ty; try discriminate Hr; injection Hr as <- <-; try exact Hint; cbn [value_word value_arg].
    + pose proof (char_ok_all z Hz) as Hok. unfold char_ok in Hok. rewrite !andb_true_iff in Hok.
      destruct (nr_isshok (char_of z)) eqn:Hsh.
      * apply reads_plain; [done|]. cbn. by rewrite Hsh.
      * apply reads_backslash. by apply Nat.eqb_eq, Hok.
    + pose proof (uchar_ok_all z Hz) as Hok. unfold uchar_ok in Hok. rewrite !andb_true_iff in Hok.
      apply reads_plain; [done|]. by apply Nat.eqb_eq, Hok.
  - intros (-> & d & -> & Hnul & Hne & _). cbn [value_word value_arg]. rewrite c_string_in_cbytes by done. by apply reads_quoted.
Qed.

(** ** What is below a name *)

Section below.
Implicit Types (v : view) (n p c : cstring).

Lemma iter_match_shorter p n : iter_match p n = true → (length p <= length n)%nat.
Proof. intros [->|[->|[r ->]]]%iter_match_spec; [cbn; lia|lia|]. rewrite length_app. lia. Qed.

Lemma below_child c p n : c ≠ [] → up c = p → iter_match c n = true → iter_match p n = true.
Proof.
  intros Hc Hp. induction n as [|n Hn IH] using name_ind.
  - intros [?|[?|[r Hr]]]%iter_match_spec; [congruence|congruence|by destruct c].
  - rewrite !(iter_match_up _ n) by done. intros [->|Hm]; [|by right; apply IH]. right. rewrite Hp. apply iter_match_refl.
Qed.

(** Two names with one parent have nothing below them in common. *)
Lemma siblings_disjoint c c' n :
  c ≠ [] → c' ≠ [] → up c = up c' → iter_match c n = true → iter_match c' n = true → c = c'.
Proof.
  intros Hc Hc' Hup. assert (Hno : ∀ a b, b ≠ [] → up a = up b → iter_match b (up a) = true → False).
  { intros a b Hb Hab Hm. rewrite Hab in Hm. apply iter_match_shorter in Hm. pose proof (up_shorter b Hb). lia. }
  induction n as [|n Hn IH] using name_ind.
  - intros [?|[?|[r Hr]]]%iter_match_spec _; [congruence|congruence|by destruct c].
  - rewrite !(iter_match_up _ n) by done. intros [->|Hm] [->|Hm']; [done|by destruct (Hno c c')|by destruct (Hno c' c)|by apply IH].
Qed.

(** A name below another is a child of it or below one. *)
Lemma below_descend v p n :
  tree_ok v → is_Some (v n) → iter_match p n = true → n ≠ p →
  ∃ c, is_Some (v c) ∧ c ≠ [] ∧ up c = p ∧ iter_match c n = true.
Proof.
  intros Ht. induction n as [|n Hn IH] using name_ind; intros Hx Hm Hne.
  - apply iter_match_spec in Hm as [?|[?|[r Hr]]]; [congruence|congruence|by destruct p].
  - apply (iter_match_up p n Hn) in Hm as [?|Hm]; [done|]. destruct (decide (up n = p)) as [Hp|Hp].
    { exists n. split_and!; [done..|apply iter_match_refl]. }
    destruct Hx as [x Hx]. destruct (tree_parent v Ht n x Hx Hn) as (y & Hy & _).
    destruct IH as (c & ? & ? & ? & Hcm); [by eauto|done|done|]. exists c. split_and!; [done..|].
    apply iter_match_up; [done|]. by right.
Qed.

(** The names below [p], or [p] itself, that hold a value and are no registries. *)
Definition leaf v n x : Prop := v n = Some x ∧ value_type x ≠ NR_REG_TYPE_REGISTRY.
Definition leaves v p (ns : list cstring) : Prop :=
  NoDup ns ∧ ∀ n, n ∈ ns ↔ (∃ x, leaf v n x) ∧ iter_match p n = true.

Lemma leaves_leaf v c x : tree_ok v → leaf v c x → leaves v c [c].
Proof.
  intros Ht [Hx Hty]. split; [repeat constructor; set_solver|]. intros n. rewrite list_elem_of_singleton. split.
  - intros ->. split; [by exists x|apply iter_match_refl].
  - intros [(y & Hy & _) Hm]. destruct (decide (n = c)) as [|Hne]; [done|exfalso].
    destruct (below_descend v c n Ht) as (d & [z Hz] & Hd & Hup & _); [by eauto|done|done|].
    destruct (tree_parent v Ht d z Hz Hd) as (u & Hu & Hut). rewrite Hup, Hx in Hu. by injection Hu as <-.
Qed.

(** The leaves below the children of a registry. *)
Lemma leaves_children v p x cs ns :
  tree_ok v → v p = Some x → value_type x = NR_REG_TYPE_REGISTRY → only_children v p cs →
  NoDup ns ∧ (∀ n, n ∈ ns ↔ (∃ y, leaf v n y) ∧ ∃ c, c ∈ cs ∧ iter_match c n = true) → leaves v p ns.
Proof.
  intros Ht Hx Hty [_ Hcs] [Hnd Hns]. split; [done|]. intros n. rewrite Hns. split; intros [(y & Hy & Hyt) Hm].
  - split; [by exists y|]. destruct Hm as (c & (_ & Hc & Hup)%Hcs & Hm). by eapply below_child.
  - split; [by exists y|]. destruct (below_descend v p n Ht) as (c & ? & ? & ? & ?); [by eauto|done| |].
    { intros ->. congruence. }
    exists c. split; [by apply Hcs|done].
Qed.

Lemma leaves_app v p c cs ns1 ns2 :
  c ≠ [] → up c = p → c ∉ cs → (∀ d, d ∈ cs → d ≠ [] ∧ up d = p) → leaves v c ns1 →
  NoDup ns2 ∧ (∀ n, n ∈ ns2 ↔ (∃ y, leaf v n y) ∧ ∃ d, d ∈ cs ∧ iter_match d n = true) →
  NoDup (ns1 ++ ns2) ∧ (∀ n, n ∈ ns1 ++ ns2 ↔ (∃ y, leaf v n y) ∧ ∃ d, d ∈ c :: cs ∧ iter_match d n = true).
Proof.
  intros Hc Hup Hnin Hcs [Hnd1 Hns1] [Hnd2 Hns2]. split.
  - apply NoDup_app. split_and!; [done| |done]. intros n [_ Hm]%Hns1 [_ (d & Hd & Hm')]%Hns2.
    destruct (Hcs d Hd) as [Hd0 Hdup]. assert (c = d) as -> by (apply (siblings_disjoint c d n); congruence). done.
  - intros n. rewrite elem_of_app, Hns1, Hns2. split.
    + intros [[Hl Hm]|[Hl (d & Hd & Hm)]]; (split; [done|]); [exists c|exists d]; by split; [constructor|].
    + intros [Hl (d & [->|Hd]%elem_of_cons & Hm)]; [by left|right]. split; [done|by exists d].
Qed.
End below.

(** What [nrregctl] needs of a module to list the children of a registry: it asks for their
    number and then for as many names.  The number may be too large, for it is that of all
    names in the case of the root. *)
Class ListLaw (S : Type) `{RegVtbl S} `{RegAbs S} := {
  law_list s p x : vt_inv s → vt_view s p = Some x → value_type x = NR_REG_TYPE_REGISTRY →
    ∃ ns, NoDup ns ∧ (∀ n, n ∈ ns → is_Some (vt_view s n)) ∧ (∀ n, is_Some (vt_view s n) → n ≠ [] → up n = p → n ∈ ns) ∧
      gives (vt_get_child_count p) s (inr (wrap 32 (Z.of_nat (length ns)))) ∧
      ∀ s', quiet s s' → Z.of_nat (length ns) < 2 ^ 32 → ns ≠ [] →
        ∃ cs, only_children (vt_view s) p cs ∧ gives (vt_get_children p (length ns)) s' (inr cs);
}.

(** ** Reading and writing one value *)

Section ctl.
Context (format_double : Z → cstring) (scan_double : cstring → option Z) (file_opens : cstring → bool) (PROGNAME : cstring).
Context {S : Type} `{AllocLaws S} `{RegVtbl S} `{!RegAbs S} `{!RegLaws S} `{!TypeLaw S} `{!ListLaw S}.
Implicit Types (s : ctl_state S) (n p : cstring) (x : value) (v w : view).

Local Notation nrregctl_read := (nrregctl_read format_double).
Local Notation nrregctl_write := (nrregctl_write scan_double file_opens).
Local Notation dump_child := (dump_child format_double PROGNAME).
Local Notation dump_children := (dump_children format_double PROGNAME).
Local Notation nrregctl_dump := (nrregctl_dump format_double PROGNAME).

(** The computation succeeds, prints the text and changes nothing in the registry. *)
Definition prints (m : M (ctl_state S) unit) s (text : cstring) : Prop :=
  ∃ r, quiet (ctl_reg s) r ∧ m s = Ok () (CtlState r (ctl_out s ++ text)).

Lemma run_or_fail {A} (m : M S A) s a r : m (ctl_reg s) = Ok a r → or_fail m s = Ok a (CtlState r (ctl_out s)).
Proof. intros Hm. unfold or_fail. erewrite bind_ok by (apply catch_ok; unfold on_ctl; by rewrite Hm). done. Qed.

Lemma prints_read {A} (m : M S A) (k : A → M (ctl_state S) unit) s a text :
  vt_inv (ctl_reg s) → gives m (ctl_reg s) (inr a) →
  (∀ r, quiet (ctl_reg s) r → prints (k a) (CtlState r (ctl_out s)) text) → prints (or_fail (through m) ≫= k) s text.
Proof.
  intros Hs Hm Hk. apply gives_through in Hm as (r & Hq & Hm); [|done]. destruct (Hk r Hq) as (r' & Hq' & Hrun).
  exists r'. split; [by eapply quiet_trans|]. erewrite bind_ok by by apply run_or_fail. done.
Qed.

Lemma prints_pure {A} (m : M (ctl_state S) A) (k : A → M (ctl_state S) unit) s a text :
  m s = Ok a s → prints (k a) s text → prints (m ≫= k) s text.
Proof. intros Hm (r & Hq & Hk). exists r. split; [done|]. by erewrite bind_ok. Qed.

Lemma prints_text s text : vt_inv (ctl_reg s) → prints (printf text) s text.
Proof. intros Hs. exists (ctl_reg s). split; [by apply quiet_refl|done]. Qed.

Lemma prints_nothing s : vt_inv (ctl_reg s) → prints (mret ()) s [].
Proof. intros Hs. exists (ctl_reg s). split; [by apply quiet_refl|]. rewrite app_nil_r. by destruct s. Qed.

Lemma prints_app m k s r t1 t2 :
  quiet (ctl_reg s) r → m s = Ok () (CtlState r (ctl_out s ++ t1)) → prints k (CtlState r (ctl_out s ++ t1)) t2 →
  prints (m;; k) s (t1 ++ t2).
Proof.
  intros Hq Hm (r' & Hq' & Hrun). exists r'. split; [by eapply quiet_trans|].
  erewrite bind_ok by exact Hm. rewrite Hrun. by rewrite app_assoc.
Qed.

Lemma prints_then m k s t1 t2 :
  prints m s t1 → (∀ r, quiet (ctl_reg s) r → prints k (CtlState r (ctl_out s ++ t1)) t2) → prints (m;; k) s (t1 ++ t2).
Proof. intros (r & Hq & Hm) Hk. by eapply prints_app; [..|apply Hk]. Qed.

Lemma quoted_quote s t : vt_inv (ctl_reg s) → quoted t s = Ok (sh_quote t) s.
Proof.
  intros Hs. destruct (law_ready _ Hs) as [_ Hmem]. unfold quoted, sh_quote. case_decide as Hq; [by rewrite Hq|].
  rewrite (proj2 (Nat.eqb_neq _ _)) by done. rewrite (bind_ok _ _ s true s).
  2: { unfold on_ctl. rewrite alloc_ok_plenty by done. by destruct s. }
  destruct (quoted_run t Hq) as (-> & _). done.
Qed.

Lemma compute_type_run ty s : or_fail_sum (nr_reg_compute_type (type_word ty)) s = Ok (type_code ty) s.
Proof. by rewrite compute_type_word. Qed.

Lemma type_at_code ty : type_at (type_code ty) = Some ty.
Proof. by destruct ty. Qed.

Lemma gives_type r n x : vt_inv r → vt_view r n = Some x → gives (vt_get_type n) r (inr (type_word (value_type x))).
Proof.
  intros Hr Hx. pose proof (law_type r n Hr (law_valid _ _ _ Hr Hx)) as Hlaw. unfold type_answer in Hlaw. by rewrite Hx in Hlaw.
Qed.

Lemma gives_scalar r n ty z : vt_inv r → is_scalar ty = true → vt_view r n = Some (VScalar ty z) → gives (vt_get n ty) r (inr z).
Proof.
  intros Hr Hty Hx. pose proof (law_get r n ty Hr Hty (law_valid _ _ _ Hr Hx)) as Hlaw. by rewrite Hx, decide_True in Hlaw.
Qed.

(** [nrregctl_read] prints the text of the value. *)
Lemma read_prints s n x :
  vt_inv (ctl_reg s) → vt_view (ctl_reg s) n = Some x → exportable x → prints (nrregctl_read n true) s (value_word x ++ [LF]).
Proof.
  intros Hs Hx Hexp. unfold RegCtl.nrregctl_read.
  eapply prints_read; [done|by apply gives_type|]. intros r [Hr Hv].
  eapply prints_pure; [apply compute_type_run|]. cbv beta. rewrite type_at_code. rewrite <- Hv in Hx.
  destruct x as [ty z|ty bs]; cbn [value_type exportable] in *.
  - destruct Hexp as (lo & hi & Hrange & Hz).
    destruct ty; try discriminate Hrange; (eapply prints_read; [done|by apply gives_scalar|]; intros r' [Hr' _]; cbv beta; cbn [ctl_out]).
    1: { cbn [value_word]. destruct (nr_isshok (char_of z)); by apply prints_text. }
    all: by apply prints_text.
  - destruct Hexp as (-> & d & -> & Hnul & _). cbn [value_word value_arg]. rewrite c_string_in_cbytes by done.
    destruct (alloc_string_run r n d Hr Hnul Hx) as (r' & Hq & Hrun). exists r'. split; [split; [apply Hq|]|].
    { intros m. by rewrite (proj2 Hq), Hv. }
    erewrite bind_ok by by apply run_or_fail. cbn [ctl_out]. erewrite bind_ok by by apply quoted_quote, Hq. done.
Qed.

(** Numbers are read back. *)
Lemma scan_within_run lo hi z s : lo <= z < hi → scan_within lo hi (print_int z) s = Ok z s.
Proof.
  intros Hz. unfold scan_within, set_by. rewrite scan_print. cbn [from_option_ub].
  erewrite bind_ok by done. by rewrite (proj2 (Z.leb_le _ _)), (proj2 (Z.ltb_lt _ _)) by lia.
Qed.

Lemma scan_unsigned_run k z s : 0 <= z < 2 ^ k → scan_unsigned k (print_int z) s = Ok z s.
Proof.
  intros Hz. unfold scan_unsigned, set_by. rewrite scan_print. cbn [from_option_ub].
  erewrite bind_ok by done. rewrite !(proj2 (Z.ltb_lt _ _)) by lia. cbn [andb]. by rewrite wrap_small.
Qed.

Lemma scan_coded_octal c s :
  - 2 ^ 7 <= c < 2 ^ 7 → ∃ m, scan_coded (S := S) ("\"%char :: print_octal3 c) = Some m ∧ m s = Ok (wrap 32 c) s.
Proof.
  intros Hc. pose proof (char_ok_all c Hc) as Hok. unfold char_ok in Hok. rewrite !andb_true_iff in Hok.
  destruct Hok as [[[[[_ Hscan%bool_decide_eq_true] Hdig] _] _] Hlt]. eexists.
  assert (Htake : bool_decide (take 1 ("\"%char :: print_octal3 c) = $"\") = true) by done.
  split; [unfold scan_coded; rewrite Htake; cbn [andb]; by rewrite Hdig|]. rewrite Hscan. unfold set_by. cbn [from_option_ub].
  erewrite bind_ok by done. by rewrite Hlt.
Qed.

Lemma scan_coded_hex z s :
  0 <= z < 2 ^ 8 → ∃ m, scan_coded (S := S) ($"0x" ++ print_hex2 z) = Some m ∧ m s = Ok z s.
Proof.
  intros Hz. pose proof (uchar_ok_all z Hz) as Hok. unfold uchar_ok in Hok. rewrite !andb_true_iff in Hok.
  destruct Hok as [[_ Hscan%bool_decide_eq_true] Hdig]. eexists.
  assert (Htake : bool_decide (take 2 ($"0x" ++ print_hex2 z) = $"0x") = true) by done.
  assert (Htake1 : bool_decide (take 1 ($"0x" ++ print_hex2 z) = $"\") = false) by done.
  split; [unfold scan_coded; rewrite Htake, Htake1; cbn [andb]; by rewrite Hdig|]. rewrite Hscan. unfold set_by. cbn [from_option_ub].
  erewrite bind_ok by done. by rewrite (proj2 (Z.ltb_lt _ _)) by lia.
Qed.

Lemma scan_coded_plain c : nr_isshok c = true → scan_coded (S := S) [c] = None.
Proof.
  intros Hc. unfold scan_coded. destruct (shok_plain c Hc) as (_ & _ & _ & _ & Hb).
  rewrite (bool_decide_eq_false_2 (take 1 [c] = _)) by by intros [= ->]. by rewrite (bool_decide_eq_false_2 (take 2 [c] = _)) by done.
Qed.

(** A value can be entered under the name. *)
Definition enterable w n : Prop := valid n ∧ w n = None ∧ creatable w (ancestors n).

Definition entered w n x : view := upd (fill w (new_parents w n)) n (Some x).

Lemma write_value_run s n x :
  vt_inv (ctl_reg s) → enterable (vt_view (ctl_reg s)) n → exportable x →
  (∀ d, x = VArray NR_REG_TYPE_STRING (cbytes d) → Z.of_nat (length d) + 1 < 2 ^ 32) →
  ∃ r, write_value scan_double (value_type x) n (value_arg x) s = Ok () (CtlState r (ctl_out s)) ∧ vt_inv r ∧
    ∀ m, vt_view r m = entered (vt_view (ctl_reg s)) n x m.
Proof.
  intros Hs (Hn & Habs & Hc) Hexp Hlen. destruct x as [ty z|ty bs]; cbn [exportable value_type] in *.
  - destruct Hexp as (lo & hi & Hr & Hz).
    assert (Hty : is_scalar ty = true ∧ ty ≠ NR_REG_TYPE_DOUBLE) by by destruct ty. destruct Hty as [Hsc Hnd].
    destruct (law_set (ctl_reg s) n ty z Hs Hn Hsc Habs Hc) as (r & Hrun & Hinv & Hview). exists r.
    assert (Hset : or_fail (NR_reg_set ty n z) s = Ok () (CtlState r (ctl_out s))).
    { apply run_or_fail. unfold NR_reg_set. by rewrite through_run. }
    split_and!; [|done|intros m; rewrite Hview; unfold entered; by rewrite (proj1 (stored_spec ty 0 z))].
    assert (Hthen : ∀ (m : M (ctl_state S) Z) f, m s = Ok z s → f z = z →
      (v ← m; or_fail (NR_reg_set ty n (f v))) s = Ok () (CtlState r (ctl_out s))).
    { intros m f Hm Hf. erewrite bind_ok by exact Hm. by rewrite Hf. }
    destruct ty; try discriminate Hr; injection Hr as <- <-; cbn [write_value value_arg].
    + pose proof (char_ok_all z Hz) as Hok. unfold char_ok in Hok. rewrite !andb_true_iff in Hok.
      destruct Hok as [[[_ Hwrap%Z.eqb_eq] Hchar%Z.eqb_eq] _].
      apply (Hthen _ id); [|done]. destruct (nr_isshok (char_of z)) eqn:Hsh.
      * rewrite scan_coded_plain by done. cbn [head fmap option_fmap option_map set_by]. rewrite Hchar. done.
      * destruct (scan_coded_octal z s Hz) as (m & -> & Hm). erewrite bind_ok by exact Hm. by rewrite Hwrap.
    + destruct (scan_coded_hex z s Hz) as (m & -> & Hm). apply (Hthen m (wrap 8)); [done|]. by apply wrap_small.
    + apply (Hthen _ (swrap 16)); [apply scan_within_run; lia|]. by apply swrap_small; [|lia].
    + apply (Hthen _ (wrap 16)); [apply scan_unsigned_run; lia|]. apply wrap_small. lia.
    + apply (Hthen _ id); [by apply scan_within_run|done].
    + apply (Hthen _ id); [by apply scan_unsigned_run|done].
    + apply (Hthen _ id); [by apply scan_within_run|done].
    + apply (Hthen _ id); [by apply scan_unsigned_run|done].
  - destruct Hexp as (-> & d & -> & Hnul & _). cbn [value_arg write_value]. rewrite c_string_in_cbytes by done. cbn [default].
    destruct (law_set_string (ctl_reg s) n d Hs Hn Hnul) as (r & Hrun & Hinv & _ & Hview); [|by apply Hlen|].
    { unfold writable. by rewrite Habs. }
    exists r. split_and!; [|done|by apply Hview]. apply run_or_fail. unfold NR_reg_set_string. by rewrite through_run.
Qed.

Lemma value_arg_first x : exportable x → value_arg x ≠ [] ∧ take 1 (value_arg x) ≠ $"@".
Proof.
  destruct x as [ty z|ty bs]; cbn [exportable value_arg].
  - intros (lo & hi & Hr & Hz).
    destruct ty; try discriminate Hr; try apply print_int_head; [|by split].
    destruct (nr_isshok (char_of z)) eqn:Hsh; [|by split]. split; [done|]. intros [= Heq]. rewrite Heq in Hsh. by vm_compute in Hsh.
  - intros (-> & d & -> & Hnul & ? & ?). by rewrite c_string_in_cbytes.
Qed.

(** [nrregctl write TYPE NAME VALUE] *)
Lemma write_command_run s n x :
  vt_inv (ctl_reg s) → enterable (vt_view (ctl_reg s)) n → exportable x →
  (∀ d, x = VArray NR_REG_TYPE_STRING (cbytes d) → Z.of_nat (length d) + 1 < 2 ^ 32) →
  ∃ r, nrregctl_write (Some (type_word (value_type x))) n (Some (value_arg x)) s = Ok () (CtlState r (ctl_out s)) ∧ vt_inv r ∧
    ∀ m, vt_view r m = entered (vt_view (ctl_reg s)) n x m.
Proof.
  intros Hs Hn Hexp Hlen. destruct (write_value_run s n x Hs Hn Hexp Hlen) as (r & Hrun & Hr). exists r. split; [|done].
  destruct (value_arg_first x Hexp) as [Hne Hat]. unfold RegCtl.nrregctl_write.
  erewrite bind_ok by done. erewrite bind_ok by apply compute_type_run. rewrite type_at_code. erewrite bind_ok by done.
  assert (Hempty : (strlen (value_arg x) =? 0)%nat = false) by (by destruct (value_arg x)).
  rewrite Hempty. cbn [andb]. rewrite bool_decide_eq_false_2 by done.
  destruct x as [ty z|ty bs]; cbn [exportable value_type] in *.
  - destruct Hexp as (lo & hi & Hrange & _). by destruct ty.
  - by destruct Hexp as (-> & _).
Qed.

(** ** Exporting *)

(** The line for a name, and the command it is. *)
Definition export_line n x : cstring := sh_line [PROGNAME; $"write"; type_word (value_type x); sh_quote n; value_word x].
Definition export_command n x : list cstring := [PROGNAME; $"write"; type_word (value_type x); n; value_arg x].

Definition export_text v (ns : list cstring) : cstring := ns ≫= λ n, from_option (export_line n) [] (v n).

(** A registry that can be exported: its names form a tree of fewer than 2^32 names, and its
    values can be read back. *)
Record exports v : Prop := {
  ex_tree : tree_ok v;
  ex_few ns : NoDup ns → (∀ n, n ∈ ns → is_Some (v n)) → Z.of_nat (length ns) < 2 ^ 32;
  ex_leaf n x : leaf v n x → exportable x;
}.

Definition at_view v s : Prop := vt_inv (ctl_reg s) ∧ ∀ m, vt_view (ctl_reg s) m = v m.

Lemma at_quiet v s r out : at_view v s → quiet (ctl_reg s) r → at_view v (CtlState r out).
Proof. intros [_ Hv] [Hr Hq]. split; [done|]. intros m. cbn. by rewrite Hq. Qed.

Lemma dump_leaf_run v dump s n x :
  exports v → at_view v s → leaf v n x → prints (dump_child dump true n) s (export_line n x).
Proof.
  intros Hex [Hs Hv] [Hx Hty]. pose proof (ex_leaf v Hex n x (conj Hx Hty)) as Hexp. rewrite <- Hv in Hx.
  unfold RegCtl.dump_child. eapply prints_read; [done|by apply gives_type|]. intros r [Hr Hq].
  eapply prints_pure; [apply compute_type_run|]. cbv beta. rewrite type_at_code. rewrite <- Hq in Hx.
  assert (Hread : prints ((q ← quoted n; printf (PROGNAME ++ $" write " ++ type_word (value_type x) ++ $" " ++ q ++ $" "));;
      nrregctl_read n true) (CtlState r (ctl_out s)) (export_line n x)).
  { assert (Hline : export_line n x =
      (PROGNAME ++ $" write " ++ type_word (value_type x) ++ $" " ++ sh_quote n ++ $" ") ++ (value_word x ++ [LF])).
    { unfold export_line, sh_line. cbn [mbind list_bind]. change ($" write ") with ([" "%char] ++ $"write" ++ [" "%char]).
      change (cons ?a) with (app [a] : cstring → cstring). cbn beta. rewrite ?app_nil_r, <- !app_assoc. done. }
    rewrite Hline. apply prints_then.
    - eapply prints_pure; [by apply quoted_quote|]. by apply prints_text.
    - intros r' [Hr' Hq']. apply read_prints; [done| |done]. cbn. by rewrite Hq'. }
  destruct (value_type x) eqn:Ht; try exact Hread. done.
Qed.

(** The text printed is that of exactly the leaves below the name. *)
Definition exports_below v p (m : M (ctl_state S) unit) s : Prop := ∃ ns, leaves v p ns ∧ prints m s (export_text v ns).

Lemma dump_child_run v dump s n x :
  exports v → at_view v s → v n = Some x →
  (value_type x = NR_REG_TYPE_REGISTRY → ∀ s', at_view v s' → exports_below v n (dump n) s') →
  exports_below v n (dump_child dump true n) s.
Proof.
  intros Hex Hs Hx Hdump. destruct (decide (value_type x = NR_REG_TYPE_REGISTRY)) as [Hty|Hty].
  - destruct Hs as [Hs Hv]. pose proof Hx as Hx'. rewrite <- Hv in Hx'.
    destruct (gives_through _ _ _ Hs (gives_type _ n x Hs Hx')) as (r & Hq & Hrun).
    destruct (Hdump Hty (CtlState r (ctl_out s))) as (ns & Hns & r' & Hq' & Hprint); [by eapply at_quiet|].
    exists ns. split; [done|]. exists r'. split; [by eapply quiet_trans|]. unfold RegCtl.dump_child.
    erewrite bind_ok by by apply run_or_fail. erewrite bind_ok by apply compute_type_run. by rewrite type_at_code, Hty.
  - exists [n]. split; [by apply (leaves_leaf v n x); [apply Hex|]|].
    unfold export_text. cbn [mbind list_bind]. rewrite Hx, app_nil_r. by apply (dump_leaf_run v).
Qed.

Lemma dump_children_run v dump p cs s :
  exports v → at_view v s → NoDup cs → (∀ c, c ∈ cs → is_Some (v c) ∧ c ≠ [] ∧ up c = p) →
  (∀ c x s', c ∈ cs → v c = Some x → value_type x = NR_REG_TYPE_REGISTRY → at_view v s' → exports_below v c (dump c) s') →
  ∃ ns, (NoDup ns ∧ ∀ n, n ∈ ns ↔ (∃ y, leaf v n y) ∧ ∃ c, c ∈ cs ∧ iter_match c n = true) ∧
    prints (dump_children dump true cs) s (export_text v ns).
Proof.
  intros Hex. revert s. induction cs as [|c cs IH]; intros s Hs Hnd Hcs Hdump.
  - exists []. split; [split; [constructor|set_solver]|]. by apply prints_nothing, Hs.
  - apply NoDup_cons in Hnd as [Hnin Hnd]. destruct (Hcs c) as ([x Hx] & Hc & Hup); [by left|].
    destruct (dump_child_run v dump s c x) as (ns1 & Hns1 & r & Hq & Hrun); [done..| |].
    { intros Hty s' Hs'. by apply (Hdump c x); [left|..]. }
    destruct (IH (CtlState r (ctl_out s ++ export_text v ns1))) as (ns2 & Hns2 & Hrun2);
      [by eapply at_quiet|done|set_solver|set_solver|].
    exists (ns1 ++ ns2). split.
    + eapply leaves_app; [done|exact Hup|done| |done|done]. intros d Hd. by destruct (Hcs d) as (_ & ? & ?); [right|].
    + unfold export_text. rewrite bind_app. by eapply prints_app.
Qed.

(** [nrregctl_dump] prints one line for each leaf below the registry. *)
Lemma dump_run v fuel p x s :
  exports v → at_view v s → v p = Some x → value_type x = NR_REG_TYPE_REGISTRY →
  (NR_REG_MAX_NR_REGISTRY_LEN <= fuel + length p)%nat → exports_below v p (nrregctl_dump fuel true p) s.
Proof.
  intros Hex. revert p x s. induction fuel as [|fuel IH]; intros p x s Hs Hx Hty Hfuel.
  { destruct Hs as [Hs Hv]. rewrite <- Hv in Hx. apply law_valid in Hx as [Hlen _]; [|done]. cbn in Hfuel. unfold NR_REG_MAX_NR_REGISTRY_LEN in Hfuel. lia. }
  destruct (law_list (ctl_reg s) p x (proj1 Hs) (eq_trans (proj2 Hs p) Hx) Hty) as (ns & Hnd & Hns & Hall & Hcount & Hget).
  assert (Hfew : Z.of_nat (length ns) < 2 ^ 32).
  { apply (ex_few v Hex); [done|]. intros n Hn. rewrite <- (proj2 Hs). by apply Hns. }
  destruct Hcount as (r1 & Hq1 & Hcount). specialize (Hget r1 Hq1 Hfew). set (out := ctl_out s).
  assert (Hc : count_or_none p s = Ok (Z.of_nat (length ns)) (CtlState r1 out)).
  { unfold count_or_none. erewrite bind_ok.
    2: { apply catch_ok. unfold on_ctl, NR_reg_get_child_count. erewrite bind_ok by (rewrite through_run; [done|apply Hs]). done. }
    cbn beta iota. rewrite wrap_wrap, wrap_small by lia. done. }
  cbn [RegCtl.nrregctl_dump]. destruct (decide (ns = [])) as [->|Hne].
  - exists []. split; [|exists r1; split; [done|]; erewrite bind_ok by exact Hc; by rewrite app_nil_r].
    split; [constructor|]. intros n. split; [set_solver|]. intros [(y & Hy & Hyt) Hm].
    destruct (below_descend v p n (ex_tree v Hex)) as (c & Hc1 & Hc2 & Hc3 & _); [by eauto|done|intros ->; congruence|].
    rewrite <- (proj2 Hs) in Hc1. by apply (Hall c Hc1) in Hc3; [apply not_elem_of_nil in Hc3|].
  - destruct (Hget Hne) as (cs & Hcs & r2 & Hq2 & Hrun2). apply (only_children_ext v) in Hcs; [|apply Hs].
    assert (Hq : quiet (ctl_reg s) r2) by by eapply quiet_trans.
    destruct (dump_children_run v (nrregctl_dump fuel true) p cs (CtlState r2 out)) as (ms & Hms & r3 & Hq3 & Hrun3);
      [done|by eapply at_quiet|apply Hcs|intros c Hc'; by apply Hcs| |].
    { intros c y s' (_ & Hc0 & Hup)%Hcs Hy Hyt Hs'. apply (IH c y); [done..|]. pose proof (up_shorter c Hc0). rewrite Hup in *. lia. }
    exists ms. split; [by eapply (leaves_children v p x cs); [apply Hex|..]|]. exists r3. split; [by eapply quiet_trans|].
    erewrite bind_ok by exact Hc. rewrite (proj2 (Z.ltb_lt _ _)) by (destruct ns; [done|cbn; lia]).
    rewrite Nat2Z.id. erewrite bind_ok; [exact Hrun3|]. apply run_or_fail. unfold NR_reg_get_children. cbn [ctl_reg].
    rewrite through_run by apply Hq1. exact Hrun2.
Qed.

(** ** Running the script *)

(** The commands of a script, each a process of its own; [nrregctl_watch] is not used. *)
Context (nrregctl_watch : cstring → M (ctl_state S) unit).

Local Notation main := (RegCtl.main format_double scan_double file_opens PROGNAME nrregctl_watch).

Definition run_command (argv : list cstring) : M (ctl_state S) unit :=
  match argv with
  | prog :: args => if streq prog PROGNAME then main args else undef
  | [] => mret ()
  end.
Fixpoint run_script (cmds : list (list cstring)) : M (ctl_state S) unit :=
  match cmds with
  | [] => mret ()
  | c :: cs => run_command c;; run_script cs
  end.

(** The program's name is a word for the shell. *)
Definition safe_word (w : cstring) : Prop := w ≠ [] ∧ needs_quoting w = 0%nat.

Definition export_commands v (ns : list cstring) : list (list cstring) := ns ≫= λ n, from_option (λ x, [export_command n x]) [] (v n).

Lemma line_parses n x rest :
  safe_word PROGNAME → n ≠ [] → exportable x →
  sh_script (export_line n x ++ rest) = cons (export_command n x) <$> sh_script rest.
Proof.
  intros [Hp Hq] Hne Hexp. apply parse_line; [done|].
  repeat apply Forall2_cons_2; [by apply reads_plain|by apply reads_plain| |by apply reads_quoted|by apply value_reads|constructor].
  apply reads_plain; by destruct (value_type x).
Qed.

Lemma export_parses v ns :
  safe_word PROGNAME → (∀ n, n ∈ ns → n ≠ [] ∧ ∀ x, v n = Some x → exportable x) →
  sh_script (export_text v ns) = Some (export_commands v ns).
Proof.
  intros Hp Hns. induction ns as [|n ns IH]; [done|]. destruct (Hns n) as [Hne Hexp]; [by left|].
  unfold export_text, export_commands in *. cbn [mbind list_bind]. destruct (v n) as [x|] eqn:Hx; cbn [from_option app].
  - rewrite line_parses by auto. rewrite IH by set_solver. done.
  - apply IH. set_solver.
Qed.

Lemma run_command_run s n x :
  vt_inv (ctl_reg s) → enterable (vt_view (ctl_reg s)) n → exportable x →
  (∀ d, x = VArray NR_REG_TYPE_STRING (cbytes d) → Z.of_nat (length d) + 1 < 2 ^ 32) →
  ∃ r, run_command (export_command n x) s = Ok () (CtlState r (ctl_out s)) ∧ vt_inv r ∧
    ∀ m, vt_view r m = entered (vt_view (ctl_reg s)) n x m.
Proof.
  intros Hs Hn Hexp Hlen. destruct (write_command_run s n x Hs Hn Hexp Hlen) as (r & Hrun & Hr). exists r. split; [|done].
  unfold run_command, export_command. unfold streq at 1. rewrite bool_decide_eq_true_2 by done. exact Hrun.
Qed.

(** Every name of [w] has in [v] the type it has in [w]. *)
Definition agrees w v : Prop := ∀ m y, w m = Some y → ∃ y', v m = Some y' ∧ value_type y' = value_type y.

Lemma ancestor_registry v n x a :
  tree_ok v → v n = Some x → a ∈ ancestors n → ∃ y, v a = Some y ∧ value_type y = NR_REG_TYPE_REGISTRY.
Proof.
  intros Ht. revert x a. induction n as [|n Hn IH] using name_ind; intros x a Hx; rewrite ancestors_unfold.
  { cbn. set_solver. }
  destruct (parent_of n) as [q|] eqn:Hq; [|set_solver].
  assert (Hup : up n = q) by by rewrite up_parent, Hq.
  destruct (tree_parent v Ht n x Hx Hn) as (y & Hy & Hyt). rewrite Hup in *.
  intros [->|Ha]%elem_of_cons; [by exists y|]. by eapply IH.
Qed.

Lemma agrees_creatable w v n x :
  tree_ok v → (∀ m y, v m = Some y → valid m) → agrees w v → v n = Some x → creatable w (ancestors n).
Proof.
  intros Ht Hval Hag. revert x. induction n as [|n Hn IH] using name_ind; intros x Hx; rewrite ancestors_unfold; [done|].
  destruct (parent_of n) as [q|] eqn:Hq; [|done]. assert (Hup : up n = q) by by rewrite up_parent, Hq.
  destruct (tree_parent v Ht n x Hx Hn) as (y & Hy & Hyt). rewrite Hup in *. cbn [creatable]. split; [by eapply Hval|].
  destruct (w q) as [z|] eqn:Hz; [|by eapply IH]. destruct (Hag q z Hz) as (z' & Hz' & Hzt). congruence.
Qed.

(** What entering a leaf of [v] does to a registry that agrees with it. *)
Lemma entered_agrees w v n x :
  tree_ok v → agrees w v → leaf v n x → w n = None →
  agrees (entered w n x) v ∧ entered w n x n = Some x ∧
  (∀ m, is_Some (w m) → entered w n x m = w m) ∧
  (∀ m y, leaf v m y → m ≠ n → w m = None → entered w n x m = None).
Proof.
  intros Ht Hag [Hx Hty] Hw.
  assert (Hnew : ∀ a, a ∈ new_parents w n → w a = None ∧ ∃ y, v a = Some y ∧ value_type y = NR_REG_TYPE_REGISTRY).
  { intros a [Ha Hwa]%missing_sub. split; [done|]. by eapply ancestor_registry. }
  unfold entered, upd, fill. split_and!.
  - intros m y. case_decide as Hm; [intros [= <-]; subst; eauto|]. case_decide as Ha; [|apply Hag].
    intros [= <-]. by apply Hnew.
  - by rewrite decide_True.
  - intros m [y Hy]. rewrite !decide_False; [done| |congruence]. intros [Ha _]%Hnew. congruence.
  - intros m y [Hy Hyt] Hne Hm. rewrite !decide_False; [done| |done]. intros (_ & z & Hz & Hzt)%Hnew. congruence.
Qed.

Lemma restore_run v ns s :
  exports v → (∀ m y, v m = Some y → valid m) →
  (∀ n d, v n = Some (VArray NR_REG_TYPE_STRING (cbytes d)) → no_nul d → Z.of_nat (length d) + 1 < 2 ^ 32) →
  NoDup ns → (∀ n, n ∈ ns → ∃ x, leaf v n x) →
  vt_inv (ctl_reg s) → agrees (vt_view (ctl_reg s)) v → (∀ n, n ∈ ns → vt_view (ctl_reg s) n = None) →
  ∃ r, run_script (export_commands v ns) s = Ok () (CtlState r (ctl_out s)) ∧ vt_inv r ∧
    (∀ n, n ∈ ns → vt_view r n = v n) ∧ ∀ m, is_Some (vt_view (ctl_reg s) m) → vt_view r m = vt_view (ctl_reg s) m.
Proof.
  intros Hex Hval Hstr Hnd. revert s. induction Hnd as [|n ns Hnin Hnd IH]; intros s Hns Hs Hag Habs.
  { exists (ctl_reg s). split_and!; [by destruct s|done|set_solver|done]. }
  destruct (Hns n) as (x & Hx & Hty); [by left|]. pose proof (ex_leaf v Hex n x (conj Hx Hty)) as Hexp.
  pose proof (ex_tree v Hex) as Ht. assert (Hw : vt_view (ctl_reg s) n = None) by (apply Habs; by left).
  destruct (run_command_run s n x) as (r1 & Hrun1 & Hr1 & Hv1); [done| |done| |].
  { split_and!; [by eapply Hval|done|by eapply agrees_creatable]. }
  { intros d ->. destruct Hexp as (_ & d' & <-%cbytes_inj & Hnul & _). by eapply Hstr. }
  destruct (entered_agrees (vt_view (ctl_reg s)) v n x Ht Hag (conj Hx Hty) Hw) as (Hag1 & Hn1 & Hold1 & Hnone1).
  destruct (IH (CtlState r1 (ctl_out s))) as (r & Hrun & Hr & Hset & Hold).
  - set_solver.
  - done.
  - intros m y. cbn. rewrite Hv1. apply Hag1.
  - intros m Hm. cbn. rewrite Hv1. destruct (Hns m) as (y & Hy); [by right|].
    eapply Hnone1; [exact Hy|by intros ->|]. apply Habs. by right.
  - cbn in Hold. exists r. split_and!.
    + unfold export_commands in *. cbn [mbind list_bind]. rewrite Hx. cbn [from_option app run_script].
      erewrite bind_ok by exact Hrun1. exact Hrun.
    + done.
    + intros m [->|Hm]%elem_of_cons; [|by apply Hset]. rewrite Hold, Hv1; rewrite ?Hv1, Hn1; [by rewrite Hx|by eexists].
    + intros m Hm. rewrite Hold; rewrite Hv1, Hold1; done.
Qed.

Definition export_args p : list cstring := if decide (p = []) then [$"export"] else [$"export"; p].

End ctl.

(** ** Listing behind a connection *)

(** What a server's module counts: names of the registry, the children among them. *)
Class CountLaw (S : Type) `{RegVtbl S} `{RegAbs S} := {
  law_names s p x : vt_inv s → vt_view s p = Some x → value_type x = NR_REG_TYPE_REGISTRY →
    ∃ ns, NoDup ns ∧ (∀ n, n ∈ ns → is_Some (vt_view s n)) ∧ (∀ n, is_Some (vt_view s n) → n ≠ [] → up n = p → n ∈ ns) ∧
      gives (vt_get_child_count p) s (inr (wrap 32 (Z.of_nat (length ns))));
}.

#[export] Instance local_count : CountLaw RegState.reg_state.
Proof.
  split. intros s p x Hg Hx Hty. pose proof (view_valid s p x Hg Hx) as Hp.
  apply view_node in Hx as (l & nd & Hat & <-). destruct (node_at_objs s p l nd Hg Hat) as (_ & Hnd & _).
  destruct nd as [ty z|ty len buf]; cbn in Hnd, Hty; subst ty; [|by destruct Hnd].
  destruct Hnd as [_ Hz]. rewrite Hz in Hat by done.
  destruct (child_count_run s p l Hg Hp Hat) as (ns & Hnd & Hns & Hrun). exists ns. split_and!; [done| | |].
  - intros n Hn. by apply Hns.
  - intros n ? ? ?. apply Hns. split_and!; [done..|by right].
  - by apply gives_ok.
Qed.

Section remote.
Context {S : Type} `{AllocLaws S} `{RegVtbl S} `{!RegAbs S} `{!RegLaws S} `{!ServerLaws S} `{!CountLaw S}.

#[export] Instance remote_list : ListLaw (remote_state S).
Proof.
  split. intros s p x Hs Hx Hty. pose proof (ri_server _ Hs) as Hv.
  destruct (law_names (svc_reg (server s)) p x (si_reg _ Hv) Hx Hty) as (ns & Hnd & Hns & Hall & Hcount).
  exists ns. split_and!; [done..| |].
  - apply gives_call; [done..|]. apply gives_on_reg; [done|]. unfold NR_reg_get_child_count.
    giveq r Hq; [by apply gives_through; [apply Hv|]|]. rewrite wrap_wrap. apply gives_ret, Hq.
  - intros s' [Hs' Hq] Hlen Hne. pose proof (law_valid _ _ _ Hs Hx) as Hp.
    pose proof (ri_server _ Hs') as Hv'.
    destruct (server_children (svc_reg (server s')) p 1 (si_reg _ Hv') Hp ltac:(lia)) as (cs0 & Hcs0 & _).
    assert (Hle : (length cs0 <= length ns)%nat).
    { apply submseteq_length, NoDup_submseteq; [apply Hcs0|]. intros n (Hn & ? & ?)%(proj2 Hcs0). apply Hall; [|done..].
      pose proof (Hq n) as Hqn. cbn in Hqn. by rewrite <- Hqn. }
    assert (Hsame : ∀ cs, only_children (vt_view (svc_reg (server s'))) p cs → length cs = length cs0)
      by (intros cs Hcs; by apply Permutation_length, (only_children_perm (vt_view (svc_reg (server s'))) p)).
    destruct (get_children_svc (length cs0) p (server s')) as (cs & [Hcs _] & Hrun); [lia|done..|].
    exists cs. split; [by eapply only_children_ext; [|exact Hcs]|].
    apply remote_children_run; [done..|]. by rewrite (Hsame cs Hcs).
Qed.
End remote.
