(* ===== verification/RegCtlDemo.v ===== *)
(** * An exported registry

    The contract of [RegCtlSpec] over a connection to the local store of [RegDemo], and the
    text itself. *)

From Stdlib Require Import Ascii.
From S2P Require Import Prelude CString RegNames RegState RegLocal RegInv RegSpec RegTree RegDemo RegFacade RegFacadeSpec RegModule RegRemote RegRemoteSpec RegRetry RegTypes RegHttp RegHttpSpec RegCtl ShellScript RegCtlSpec.
Local Open Scope Z_scope.

Definition no_file (name : cstring) : bool := false.
Definition no_watch (name : cstring) : M (ctl_state (remote_state reg_state)) unit := undef.

Definition ctl_on (r : reg_state) : ctl_state (remote_state reg_state) := CtlState (connected (svc_start r)) [].

(** The script, run by evaluation: a character and a string that need quoting. *)
Definition some_values : R unit :=
  nr_reg_local_set_scalar $"net.mtu" NR_REG_TYPE_INT4 1500;;
  nr_reg_local_set_string $"net.name" $"it is";;
  nr_reg_local_set_scalar $"sep" NR_REG_TYPE_CHAR 9;;
  nr_reg_local_set_scalar $"a(b)" NR_REG_TYPE_UCHAR 254.
Definition exported : option (list (list cstring)) :=
  match main no_double no_scan no_file $"nrregctl" no_watch [$"export"] (ctl_on (after some_values demo_init)) with
  | Ok _ s => sh_script (ctl_out s)
  | _ => None
  end.
Example exported_ex :
  exported = Some [
    [$"nrregctl"; $"write"; $"UCHAR"; $"a(b)"; $"0xfe"];
    [$"nrregctl"; $"write"; $"INT4"; $"net.mtu"; $"1500"];
    [$"nrregctl"; $"write"; $"string"; $"net.name"; $"it is"];
    [$"nrregctl"; $"write"; $"char"; $"sep"; $"\011"]].
Proof. vm_compute. reflexivity. Qed.

(** The local store refuses to list a registry to a caller with room for exactly its
    children, so without the connection nothing can be exported. *)
Example local_export_refused :
  match main no_double no_scan no_file $"nrregctl" (λ _, undef) [$"export"; $"net"] (CtlState demo_mtu []) with
  | Err 1 s => ctl_out s = []
  | _ => False
  end.
Proof. vm_compute. reflexivity. Qed.

#[local] Opaque demo_init demo_mtu demo_host.

Lemma demo_host_good : good demo_host ∧ ∀ n,
  reg_view demo_host n = if decide (n = $"net.host") then Some (VArray NR_REG_TYPE_STRING (cbytes $"ekr")) else reg_view demo_mtu n.
Proof.
  pose proof (set_array_run demo_mtu $"net.host" NR_REG_TYPE_STRING (cbytes $"ekr") demo_mtu_good
    ltac:(valid_name) eq_refl ltac:(vm_compute; reflexivity)) as Hspec.
  assert (Hnone : reg_view demo_mtu $"net.host" = None) by by rewrite demo_mtu_view.
  rewrite Hnone in Hspec. destruct (Hspec (proj2 demo_host_path)) as (s' & Hrun & Hev).
  change (nr_reg_set_array RegLocal.NR_reg_set_registry $"net.host" NR_REG_TYPE_STRING (cbytes $"ekr") demo_mtu)
    with (nr_reg_local_set_string $"net.host" $"ekr" demo_mtu) in Hrun.
  assert (Hs : s' = demo_host) by (rewrite demo_host_run in Hrun; congruence). subst s'. split; [apply Hev|]. intros n. rewrite (ev_view _ _ _ _ Hev).
  unfold upd. case_decide; [done|]. unfold fill, new_parents. change (ancestors $"net.host") with [$"net"]. cbn [missing].
  rewrite demo_mtu_view. cbn [decide]. done.
Qed.

Lemma demo_exports : exports (reg_view demo_host).
Proof.
  destruct demo_host_good as [_ Hv]. split.
  - apply reachable_inv. eapply (reach_step demo_mtu (SetString $"net.host" $"ekr")); [exact demo_mtu_reachable| |exact demo_host_run].
    split; [valid_name|]. split; [vm_compute; reflexivity|]. intros _. apply demo_host_path.
  - intros ns Hnd Hns. assert (Hle : (length ns <= length [$"net.host"; $"net.mtu"; $"net"; []])%nat).
    { apply submseteq_length, NoDup_submseteq; [done|]. intros n Hn. destruct (Hns n Hn) as [x Hx].
      rewrite Hv, demo_mtu_view in Hx. rewrite !elem_of_cons. case_decide as Hd1; [by left|]. case_decide as Hd2; [by right; left|].
      case_decide as Hd3; [|discriminate Hx]. right. right. destruct Hd3; [by left|by right; left]. }
    cbn in Hle. lia.
  - intros n x [Hx Hty]. rewrite Hv, demo_mtu_view in Hx. repeat case_decide; simplify_eq/=.
    + split; [done|]. exists $"ekr". split_and!; [done|by repeat constructor|done|done].
    + exists (- 2 ^ 31), (2 ^ 31). split; [reflexivity|lia].
Qed.

Lemma ctl_on_inv r : good r → vt_inv (ctl_reg (ctl_on r)).
Proof. intros Hr. split; [|done..]. split; [exact Hr|by unfold buf_ok; cbn..]. Qed.

