(* ===== verification/RegDump.v ===== *)
(** * The text of the store (src/registry/registry_local.c)

    [nr_reg_alloc_node_data], which formats the value of a node for a message, and
    [nr_reg_local_dump], which writes a line for every value.  The text of a double is a
    parameter; that the logger is asked to print a line is recorded in order. *)

From Stdlib Require Import Ascii.
From S2P Require Import Prelude CString AssocSpec RegNames RegState RegCb RegLocal RegInv RegSpec RegTree RegDemo RegFacade RegModule Numbers RegCtl.
Local Open Scope Z_scope.

Section dump.
(** [printf] of a double, given by its bits, with [%#f]. *)
Context (print_double : Z → cstring).

(** [isprint(i)] takes an [int] that must be [EOF] or an [unsigned char]. *)
Definition char_text (c : Z) : option cstring :=
  if c <? -1 then None
  else if (0 <=? c) && isprint (char_of c) && negb (isspace (char_of c)) then Some [char_of c]
  else Some ("\"%char :: print_octal3 c).

(** The size of the block, an [int]; 0 for a string, which is printed where it is. *)
Definition node_alloc (name : cstring) (n : node) : Z :=
  match n with
  | ArrayNode NR_REG_TYPE_BYTES len _ => swrap 32 (2 * len + 1)
  | ArrayNode NR_REG_TYPE_STRING _ _ => 0
  | ScalarNode NR_REG_TYPE_REGISTRY _ => Z.of_nat (strlen name) + 1
  | _ => 100
  end.

(** What is written to the block, [None] where the code has no defined result: no byte is
    written to the block of an empty array, not even a terminator.  [snprintf] keeps a text
    within the 100 bytes of its block. *)
Definition node_text (name : cstring) (n : node) : option cstring :=
  match n with
  | ScalarNode NR_REG_TYPE_CHAR c => char_text c
  | ScalarNode NR_REG_TYPE_UCHAR v => Some ($"0x" ++ print_hex2 v)
  | ScalarNode NR_REG_TYPE_DOUBLE d => Some (take 99 (print_double d))
  | ScalarNode NR_REG_TYPE_REGISTRY _ => Some name
  | ScalarNode _ z => Some (take 99 (print_int z))
  | ArrayNode NR_REG_TYPE_BYTES len data =>
      if (len =? 0) || negb (2 * len + 1 <? 2 ^ 31) then None
      else Some (concat (print_hex2 <$> take (Z.to_nat len) data))
  | ArrayNode _ _ data => c_string_in data
  end.

(** The result, and whether the caller has to free it. *)
Definition nr_reg_alloc_node_data (name : cstring) (n : node) : R (cstring * bool) :=
  if 0 <? node_alloc name n then
    ok ← alloc_ok;
    if (ok : bool) then s ← from_option_ub (node_text name n); mret (s, true) else mret ([], false)
  else s ← from_option_ub (node_text name n); mret (s, false).

(** [ptr]: the messages logged so far. *)
Definition nr_reg_local_dump_print (ptr : list cstring) (e : entry loc dtor) (name : cstring) : R (list cstring) :=
  n ← load_node (e_data e);
  if bool_decide (node_type n = NR_REG_TYPE_REGISTRY) then mret ptr
  else data ← nr_reg_alloc_node_data name n; mret (ptr ++ [name ++ $": " ++ data.1]).

Definition nr_reg_local_dump (log : list cstring) : R (list cstring) :=
  nr_reg_local_iter NR_TOP_LEVEL_REGISTRY nr_reg_local_dump_print log.

(** ** What is written *)

Implicit Types (s : reg_state) (n : cstring) (t : atbl).

(** The text of a name's value, unless it is a registry. *)
Definition dump_text s n : option cstring :=
  '(_, nd) ← node_at s n;
  if bool_decide (node_type nd = NR_REG_TYPE_REGISTRY) then None else node_text n nd.
Definition value_line s n : option cstring := (λ text, n ++ $": " ++ text) <$> dump_text s n.

(** Every value has a text: no negative character and no empty array of bytes. *)
Definition printable s : Prop := ∀ n x,
  reg_view s n = Some x → value_type x ≠ NR_REG_TYPE_REGISTRY → is_Some (dump_text s n).

Lemma node_alloc_text s n nd text :
  good s → node_wf nd → node_text n nd = Some text →
  ∃ freeit, nr_reg_alloc_node_data n nd s = Ok (text, freeit) s.
Proof.
  intros Hg Hwf Ht. unfold nr_reg_alloc_node_data. rewrite Ht.
  destruct (0 <? node_alloc n nd); [|by exists false].
  exists true. unfold mbind, M_bind. rewrite alloc_ok_plenty by apply Hg. done.
Qed.

Lemma dump_print_run s log e n nd :
  good s → node_at s n = Some (e_data e, nd) → (node_type nd ≠ NR_REG_TYPE_REGISTRY → is_Some (node_text n nd)) →
  nr_reg_local_dump_print log e n s = Ok (log ++ option_list (value_line s n)) s.
Proof.
  intros Hg Hat Hp. destruct (node_at_objs s n _ nd Hg Hat) as (Ho & Hwf & _).
  unfold nr_reg_local_dump_print, value_line, dump_text. rewrite Hat. mstep using load_node_ok. cbn [mbind option_bind].
  case_bool_decide as Hty; [by rewrite app_nil_r|]. destruct (Hp Hty) as [text Ht].
  destruct (node_alloc_text s n nd text Hg Hwf Ht) as [freeit Hrun]. mstep. by rewrite Ht.
Qed.

Lemma dump_entries_run s t es log :
  good s → nr_registry s = Some t → printable s → (∀ e, e ∈ es → e ∈ tbl_elems t) →
  iter_entries NR_TOP_LEVEL_REGISTRY nr_reg_local_dump_print es log s =
    Ok (log ++ omap (value_line s) (tab_names es)) s.
Proof.
  intros Hg Ht Hp. revert log. induction es as [|e es IH]; intros log Hes; [by rewrite app_nil_r|].
  destruct (good_tab s Hg) as (t' & Ht' & Hwf). rewrite Ht in Ht'. injection Ht' as <-.
  assert (He : e ∈ tbl_elems t) by (apply Hes; by left).
  destruct (good_named s t e Hg Ht He) as [n Hn]. rewrite (tab_names_cons e es n Hn).
  destruct (tw_node _ _ Hwf e He) as (nd & Ho & _).
  assert (Hat : node_at s n = Some (e_data e, nd)).
  { unfold node_at. rewrite Ht. cbn. apply node_of_elem; [done|]. exists e. by destruct Hn. }
  cbn [iter_entries]. rewrite (key_name_named e n Hn).
  assert (iter_match NR_TOP_LEVEL_REGISTRY n = true) as -> by done.
  erewrite bind_ok; [|eapply dump_print_run; [done|done|]].
  - rewrite IH by (intros x Hx; apply Hes; by right). cbn. f_equal.
    destruct (value_line s n); cbn; by rewrite <- ?app_assoc, ?app_nil_r.
  - intros Hty. destruct (Hp n (node_value nd)) as [text Htext].
    + apply view_node. by exists (e_data e), nd.
    + by rewrite node_type_value.
    + unfold dump_text in Htext. rewrite Hat in Htext. cbn in Htext. rewrite bool_decide_false in Htext by done. eauto.
Qed.

(** The dump writes a line for every name that has a value, once, and for no other, and leaves
    the store as it was. *)
Theorem dump_lists s log :
  good s → printable s →
  ∃ ns, NoDup ns ∧
    (∀ n, n ∈ ns ↔ ∃ x, reg_view s n = Some x ∧ value_type x ≠ NR_REG_TYPE_REGISTRY) ∧
    nr_reg_local_dump log s = Ok (log ++ ((λ n, n ++ $": " ++ default [] (dump_text s n)) <$> ns)) s.
Proof.
  intros Hg Hp. destruct (good_tab s Hg) as (t & Ht & Hwf).
  exists (filter (λ n, is_Some (dump_text s n)) (reg_names s)). split_and!.
  - apply NoDup_filter, reg_names_NoDup, Hg.
  - intros n. rewrite list_elem_of_filter, (reg_names_view s n Hg). split.
    + intros [[text Htext] [x Hx]]. exists x. split; [done|].
      apply view_node in Hx as (l & nd & Hat & <-). rewrite node_type_value.
      unfold dump_text in Htext. rewrite Hat in Htext. cbn in Htext. by case_bool_decide.
    + intros (x & Hx & Hty). split; [by eapply Hp|by exists x].
  - unfold nr_reg_local_dump, nr_reg_local_iter. mstep using load_assoc_TReg.
    rewrite (dump_entries_run s t) by done. unfold reg_names. rewrite Ht. do 2 f_equal.
    induction (tab_names (tbl_elems t)) as [|n ns IH]; [done|]. rewrite filter_cons.
    cbn [omap list_omap]. rewrite IH. unfold value_line.
    destruct (dump_text s n) as [text|] eqn:Hn; cbn [option_fmap option_map fmap].
    + rewrite decide_True by by eexists. rewrite fmap_cons, Hn. done.
    + rewrite decide_False by by intros [? ?]. done.
Qed.

(** A negative character other than -1 and an empty array have no defined text. *)
Lemma negative_char_undefined n c : c < -1 → node_text n (ScalarNode NR_REG_TYPE_CHAR c) = None.
Proof. intros Hc. cbn. unfold char_text. by rewrite (proj2 (Z.ltb_lt c (-1)) Hc). Qed.

Lemma empty_bytes_undefined n data : node_text n (ArrayNode NR_REG_TYPE_BYTES 0 data) = None.
Proof. done. Qed.
End dump.

(** ** The dump of the module in use (registry.c, regrpc_server.c) *)

Section module.
Context {S : Type} `{RegVtbl S}.
(** The entry [dump] of the module's table. *)
Context (vt_dump : list cstring → M S (list cstring)).

Definition NR_reg_dump (log : list cstring) : M S (list cstring) := through (vt_dump log).

(** The result is the status; the messages are logged where the server runs. *)
Definition nr_reg_dump_1_svc (log : list cstring) : M S (Z * list cstring) :=
  r ← catch (NR_reg_dump log);
  mret (match r with inr log' => (0, log') | inl r => (r, log) end).
End module.

(** A server with one integer and one string. *)
Example dump_server_ex :
  (match nr_reg_dump_1_svc (nr_reg_local_dump (λ _, [])) [] demo_host with Ok r _ => Some r | _ => None end) =
  Some (0, [$"net.host: ekr"; $"net.mtu: 1500"]).
Proof. vm_compute. reflexivity. Qed.
