(* ===== verification/RData.v ===== *)
(** * Counted data (src/util/libekr/r_data.c, r_data.h)

    Byte strings with their length, on a heap of structures and of buffers.  The theorems show
    that a program that only goes through these functions has, at every moment, exactly one
    buffer for each structure with data, and that the structures are a map from pointers to
    byte strings. *)

From S2P Require Import Prelude.
Local Open Scope Z_scope.

Abbreviation loc := positive.

(** [Data]. *)
Record Data := MkData { d_data : option loc; d_len : nat }.

(** A byte is [None] before it is first written. *)
Abbreviation bytes := (list (option Z)).
Record data_state := DState {
  data_structs : gmap loc Data;
  data_bufs : gmap loc bytes;
  data_brk : loc;
  data_answers : list bool;
}.

#[export] Instance data_alloc : HasAlloc data_state := {
  alloc_answers := data_answers;
  set_alloc_answers l s := DState (data_structs s) (data_bufs s) (data_brk s) l;
}.
#[export] Instance data_alloc_laws : AllocLaws data_state.
Proof. split; [done|done|by intros []]. Qed.

Abbreviation DM := (M data_state).

(** ** Memory *)

Definition set_structs (f : gmap loc Data → gmap loc Data) (s : data_state) : data_state :=
  DState (f (data_structs s)) (data_bufs s) (data_brk s) (data_answers s).
Definition set_bufs (f : gmap loc bytes → gmap loc bytes) (s : data_state) : data_state :=
  DState (data_structs s) (f (data_bufs s)) (data_brk s) (data_answers s).
Definition next_brk (s : data_state) : data_state :=
  DState (data_structs s) (data_bufs s) (Pos.succ (data_brk s)) (data_answers s).

Definition load_data (l : loc) : DM Data := s ← get; from_option_ub (data_structs s !! l).
Definition store_data (l : loc) (d : Data) : DM unit := _ ← load_data l; modify (set_structs <[l := d]>).
Definition free_struct (l : loc) : DM unit := _ ← load_data l; modify (set_structs (delete l)).
Definition load_buf (p : loc) : DM bytes := s ← get; from_option_ub (data_bufs s !! p).
Definition store_buf (p : loc) (b : bytes) : DM unit := _ ← load_buf p; modify (set_bufs <[p := b]>).
Definition free_buf (p : loc) : DM unit := _ ← load_buf p; modify (set_bufs (delete p)).

(** A structure with no data: [RCALLOC(sizeof(Data))], and a variable of a client. *)
Definition new_struct : DM loc :=
  s ← get; modify (set_structs <[data_brk s := MkData None 0]>);; modify next_brk;; mret (data_brk s).
Definition calloc_data : DM loc := alloc_or_abort;; new_struct.

(** [RMALLOC(l)] and [RCALLOC(l)]: a null pointer is [None]. *)
Definition malloc_buf (b : bytes) : DM (option loc) :=
  ok ← alloc_ok;
  if (ok : bool) then s ← get; modify (set_bufs <[data_brk s := b]>);; modify next_brk;; mret (Some (data_brk s))
  else mret None.
Definition uninit (l : nat) : bytes := replicate l None.

(** [memcpy(p,d,l)] and [memset(p,0,l)]. *)
Definition copy_in (p : loc) (d : bytes) (l : nat) : DM unit :=
  b ← load_buf p;
  if ((length b <? l) || (length d <? l))%nat then undef else store_buf p (take l d ++ drop l b).

(** ** Operations *)

(** The result is the pointer [*dp] afterwards. *)
Definition r_data_destroy (dp : option loc) : DM (option loc) :=
  match dp with
  | None => mret None
  | Some l =>
      d ← load_data l;
      match d_data d with Some p => free_buf p | None => mret () end;;
      free_struct l;;
      mret None
  end.

(** [if(_status) r_data_destroy(&d_);] *)
Definition or_destroy {A} (d_ : loc) (m : DM A) : DM A :=
  r ← catch m;
  match r with inr a => mret a | inl r => r_data_destroy (Some d_);; abort r end.

Definition r_data_create (d : bytes) (l : nat) : DM loc :=
  d_ ← calloc_data;
  or_destroy d_ (
    p ← malloc_buf (uninit l);
    store_data d_ (MkData p 0);;
    match p with
    | None => abort R_NO_MEMORY
    | Some p => copy_in p d l;; store_data d_ (MkData (Some p) l);; mret d_
    end).

Definition r_data_alloc_mem (d : loc) (l : nat) : DM unit :=
  p ← malloc_buf (uninit l);
  old ← load_data d;
  store_data d (MkData p (d_len old));;
  match p with None => abort R_NO_MEMORY | Some p => store_data d (MkData (Some p) l) end.

Definition r_data_alloc (l : nat) : DM loc :=
  d_ ← calloc_data;
  or_destroy d_ (
    p ← malloc_buf (replicate l (Some 0));
    store_data d_ (MkData p 0);;
    match p with None => abort R_NO_MEMORY | Some p => store_data d_ (MkData (Some p) l);; mret d_ end).

Definition r_data_make (dp : loc) (d : bytes) (l : nat) : DM unit :=
  p ← malloc_buf (uninit l);
  old ← load_data dp;
  store_data dp (MkData p (d_len old));;
  match p with
  | None => abort R_NO_MEMORY
  | Some p => copy_in p d l;; store_data dp (MkData (Some p) l)
  end.

(** The pointer [d->data] is left behind. *)
Definition r_data_zfree (d : option loc) : DM unit :=
  match d with
  | None => mret ()
  | Some l =>
      d ← load_data l;
      match d_data d with
      | None => mret ()
      | Some p => copy_in p (replicate (d_len d) (Some 0)) (d_len d);; free_buf p
      end
  end.

Definition r_data_destroy_v (v : option loc) : DM unit :=
  match v with
  | None => mret ()
  | Some d => r_data_zfree (Some d);; free_struct d
  end.

Definition r_data_destroy_vp (v : option loc) : DM (option loc) :=
  match v with
  | None => mret None
  | Some d => r_data_zfree (Some d);; free_struct d;; mret None
  end.

Definition r_data_copy (dst src : loc) : DM unit :=
  from ← load_data src;
  p ← malloc_buf (uninit (d_len from));
  old ← load_data dst;
  store_data dst (MkData p (d_len old));;
  match p with
  | None => abort R_NO_MEMORY
  | Some p =>
      from ← load_data src;
      store_data dst (MkData (Some p) (d_len from));;
      from_p ← from_option_ub (d_data from);
      b ← load_buf from_p;
      copy_in p b (d_len from)
  end.

(** [memcmp], of whose result only the sign is specified. *)
Fixpoint memcmp (a b : list Z) : Z :=
  match a, b with
  | x :: a', y :: b' => if x =? y then memcmp a' b' else Z.sgn (x - y)
  | _, _ => 0
  end.

Definition written (d : Data) : DM (list Z) :=
  match d_data d with
  | None => undef
  | Some p =>
      b ← load_buf p;
      if (length b <? d_len d)%nat then undef else from_option_ub (mapM id (take (d_len d) b))
  end.

Definition r_data_compare (d1 d2 : loc) : DM Z :=
  x ← load_data d1;
  y ← load_data d2;
  if (d_len x <? d_len y)%nat then mret (-1)
  else if (d_len y <? d_len x)%nat then mret (-1)
  else a ← written x; b ← written y; mret (memcmp a b).

(** ** Running the memory accesses *)

Lemma load_data_run l d s : data_structs s !! l = Some d → load_data l s = Ok d s.
Proof. intros Hl. unfold load_data. mstep. by rewrite Hl. Qed.

Lemma store_data_run l d d0 s : data_structs s !! l = Some d0 → store_data l d s = Ok () (set_structs <[l := d]> s).
Proof. intros Hl. unfold store_data. mstep using load_data_run. done. Qed.

Lemma free_struct_run l d s : data_structs s !! l = Some d → free_struct l s = Ok () (set_structs (delete l) s).
Proof. intros Hl. unfold free_struct. mstep using load_data_run. done. Qed.

Lemma load_buf_run p b s : data_bufs s !! p = Some b → load_buf p s = Ok b s.
Proof. intros Hp. unfold load_buf. mstep. by rewrite Hp. Qed.

Lemma store_buf_run p b b0 s : data_bufs s !! p = Some b0 → store_buf p b s = Ok () (set_bufs <[p := b]> s).
Proof. intros Hp. unfold store_buf. mstep using load_buf_run. done. Qed.

Lemma free_buf_run p b s : data_bufs s !! p = Some b → free_buf p s = Ok () (set_bufs (delete p) s).
Proof. intros Hp. unfold free_buf. mstep using load_buf_run. done. Qed.

Lemma copy_in_run p d l b s :
  data_bufs s !! p = Some b → (l <= length b)%nat → (l <= length d)%nat →
  copy_in p d l s = Ok () (set_bufs <[p := take l d ++ drop l b]> s).
Proof.
  intros Hp Hb Hd. unfold copy_in. mstep using load_buf_run. rewrite !(proj2 (Nat.ltb_ge _ _)) by done. cbn [orb].
  by apply (store_buf_run _ _ b).
Qed.

(** The state after an allocation. *)
Definition popped (s : data_state) : data_state := set_alloc_answers (tail (data_answers s)) s.
Definition grown (b : bytes) (s : data_state) : data_state := next_brk (set_bufs <[data_brk s := b]> s).

Lemma malloc_buf_run b s :
  malloc_buf b s = if next_answer (data_answers s) then Ok (Some (data_brk s)) (grown b (popped s)) else Ok None (popped s).
Proof. unfold malloc_buf. mstep. cbn. by destruct (next_answer (data_answers s)). Qed.

(** ** The invariant, and what a state stands for *)

Record tidy (s : data_state) : Prop := {
  td_structs : ∀ l d, data_structs s !! l = Some d → (l < data_brk s)%positive;
  td_bufs : ∀ p b, data_bufs s !! p = Some b → (p < data_brk s)%positive;
  td_buf : ∀ l d p, data_structs s !! l = Some d → d_data d = Some p → ∃ b, data_bufs s !! p = Some b ∧ length b = d_len d;
  td_one : ∀ l l' d d' p, data_structs s !! l = Some d → data_structs s !! l' = Some d' →
    d_data d = Some p → d_data d' = Some p → l = l';
  td_owned : ∀ p b, data_bufs s !! p = Some b → ∃ l d, data_structs s !! l = Some d ∧ d_data d = Some p;
}.

(** The bytes of every structure; [None] for one without data. *)
Definition data_view (s : data_state) : gmap loc (option bytes) :=
  (λ d, p ← d_data d; data_bufs s !! p) <$> data_structs s.

Lemma view_lookup s l ob :
  data_view s !! l = Some ob → ∃ d, data_structs s !! l = Some d ∧ ob = (p ← d_data d; data_bufs s !! p).
Proof. unfold data_view. rewrite lookup_fmap. intros (d & -> & Hd)%fmap_Some. by exists d. Qed.

Lemma view_data s l b : data_view s !! l = Some (Some b) →
  ∃ d p, data_structs s !! l = Some d ∧ d_data d = Some p ∧ data_bufs s !! p = Some b.
Proof.
  intros (d & Hd & Hb)%view_lookup. destruct (d_data d) as [p|] eqn:Hp; [|done]. by exists d, p.
Qed.

Lemma view_null s l : tidy s → data_view s !! l = Some None → ∃ d, data_structs s !! l = Some d ∧ d_data d = None.
Proof.
  intros Ht (d & Hd & Hb)%view_lookup. exists d. split; [done|]. destruct (d_data d) as [p|] eqn:Hp; [|done].
  destruct (td_buf s Ht l d p Hd Hp) as (b & Hbuf & _). cbn in Hb. congruence.
Qed.

Lemma popped_tidy s : tidy s → tidy (popped s).
Proof. by intros [H1 H2 H3 H4 H5]. Qed.

(** What the operations do to a tidy state: a new structure, data for one without, another
    length for one without, and the end of a structure with its data. *)
Definition fresh_struct (s : data_state) : data_state := next_brk (set_structs <[data_brk s := MkData None 0]> s).
Definition attach (l : loc) (b : bytes) (s : data_state) : data_state :=
  grown b (set_structs <[l := MkData (Some (data_brk s)) (length b)]> s).
Definition detach (l : loc) (s : data_state) : data_state :=
  set_structs (delete l) (match data_structs s !! l ≫= d_data with Some p => set_bufs (delete p) s | None => s end).

Lemma fresh_not s l d : tidy s → data_structs s !! l = Some d → l ≠ data_brk s.
Proof. intros Ht Hl ->. apply (td_structs s Ht) in Hl. lia. Qed.
Lemma fresh_not_buf s p b : tidy s → data_bufs s !! p = Some b → p ≠ data_brk s.
Proof. intros Ht Hp ->. apply (td_bufs s Ht) in Hp. lia. Qed.

Lemma fresh_struct_tidy s : tidy s → tidy (fresh_struct s) ∧ data_view (fresh_struct s) = <[data_brk s := None]> (data_view s).
Proof.
  intros Ht. split; [|unfold data_view; cbn; by rewrite fmap_insert]. destruct Ht as [H1 H2 H3 H4 H5]. split; cbn.
  - intros l d [[<- _]|[_ Hl]]%lookup_insert_Some; [lia|]. apply H1 in Hl. lia.
  - intros p b Hp%H2. lia.
  - intros l d p [[_ <-]|[_ Hl]]%lookup_insert_Some Hp; [done|by eapply H3].
  - intros l l' d d' p [[_ <-]|[_ Hl]]%lookup_insert_Some [[_ <-]|[_ Hl']]%lookup_insert_Some Hd Hd'; [done..|by eapply H4].
  - intros p b Hp. destruct (H5 p b Hp) as (l & d & Hl & Hd). exists l, d. split; [|done].
    apply lookup_insert_Some. right. split; [|done]. apply H1 in Hl. lia.
Qed.

Lemma attach_tidy s l b :
  tidy s → data_view s !! l = Some None → tidy (attach l b s) ∧ data_view (attach l b s) = <[l := Some b]> (data_view s).
Proof.
  intros Ht Hl. destruct (view_null s l Ht Hl) as (d0 & Hd0 & Hnull). split.
  - destruct Ht as [H1 H2 H3 H4 H5]. split; cbn.
    + intros l' d [[<- _]|[_ Hl']]%lookup_insert_Some; [apply H1 in Hd0; lia|apply H1 in Hl'; lia].
    + intros p b' [[<- _]|[_ Hp]]%lookup_insert_Some; [lia|]. apply H2 in Hp. lia.
    + intros l' d p [[_ <-]|[_ Hl']]%lookup_insert_Some Hp.
      * injection Hp as <-. exists b. by rewrite lookup_insert_eq.
      * destruct (H3 l' d p Hl' Hp) as (b' & Hb' & Hlen). exists b'. split; [|done]. apply lookup_insert_Some.
        right. split; [|done]. apply H2 in Hb'. lia.
    + assert (Hnew : ∀ l' d, data_structs s !! l' = Some d → d_data d ≠ Some (data_brk s)).
      { intros l' d Hl' Hd. destruct (H3 l' d _ Hl' Hd) as (b' & Hb' & _). apply H2 in Hb'. lia. }
      intros l1 l2 d1 d2 p [[<- <-]|[Hn1 Hl1]]%lookup_insert_Some [[<- <-]|[Hn2 Hl2]]%lookup_insert_Some Hd1 Hd2.
      * done.
      * cbn in Hd1. injection Hd1 as <-. by destruct (Hnew _ _ Hl2).
      * cbn in Hd2. injection Hd2 as <-. by destruct (Hnew _ _ Hl1).
      * by eapply H4.
    + intros p b' [[<- _]|[_ Hp]]%lookup_insert_Some.
      * exists l. eexists. by rewrite lookup_insert_eq.
      * destruct (H5 p b' Hp) as (l' & d & Hl' & Hd). exists l', d. split; [|done]. rewrite lookup_insert_ne; [done|].
        intros ->. congruence.
  - apply map_eq. intros l'. unfold data_view. cbn. rewrite fmap_insert. destruct (decide (l' = l)) as [->|Hne].
    + rewrite !lookup_insert_eq. cbn. by rewrite lookup_insert_eq.
    + rewrite !lookup_insert_ne, !lookup_fmap by done. destruct (data_structs s !! l') as [d|] eqn:Hd; [|done].
      cbn. f_equal. destruct (d_data d) as [p|] eqn:Hp; [|done]. cbn. rewrite lookup_insert_ne; [done|].
      destruct (td_buf s Ht l' d p Hd Hp) as (b' & Hb' & _). by apply (td_bufs s Ht) in Hb'; lia.
Qed.

Lemma relabel_tidy s l n :
  tidy s → data_view s !! l = Some None →
  tidy (set_structs <[l := MkData None n]> s) ∧ data_view (set_structs <[l := MkData None n]> s) = data_view s.
Proof.
  intros Ht Hl. destruct (view_null s l Ht Hl) as (d0 & Hd0 & Hnull). split.
  - destruct Ht as [H1 H2 H3 H4 H5]. split; cbn.
    + intros l' d [[<- _]|[_ Hl']]%lookup_insert_Some; [by eapply H1|by eapply H1].
    + done.
    + intros l' d p [[_ <-]|[_ Hl']]%lookup_insert_Some Hp; [done|by eapply H3].
    + intros l1 l2 d1 d2 p [[_ <-]|[_ Hl1]]%lookup_insert_Some [[_ <-]|[_ Hl2]]%lookup_insert_Some Hd1 Hd2; [done..|by eapply H4].
    + intros p b Hp. destruct (H5 p b Hp) as (l' & d & Hl' & Hd). exists l', d. split; [|done]. rewrite lookup_insert_ne; [done|].
      intros ->. congruence.
  - unfold data_view in *. cbn. rewrite fmap_insert. cbn. by apply insert_id.
Qed.

Lemma detach_tidy s l ob :
  tidy s → data_view s !! l = Some ob → tidy (detach l s) ∧ data_view (detach l s) = delete l (data_view s).
Proof.
  intros Ht Hl. destruct (view_lookup s l ob Hl) as (d & Hd & _). unfold detach. rewrite Hd. cbn [mbind option_bind].
  assert (Hother : ∀ p l' d', d_data d = Some p → l' ≠ l → data_structs s !! l' = Some d' → d_data d' ≠ Some p).
  { intros p l' d' Hp Hne Hl' Hd'. by destruct Hne; apply (td_one s Ht l' l d' d p). }
  split.
  - destruct Ht as [H1 H2 H3 H4 H5]. split.
    + intros l' d' Hl'. destruct (d_data d); cbn in *; apply lookup_delete_Some in Hl' as [_ Hl']; by eapply H1.
    + intros p b Hp. destruct (d_data d); cbn in *; [apply lookup_delete_Some in Hp as [_ Hp]|]; by eapply H2.
    + intros l' d' p Hl' Hp. assert (Hl'' : l' ≠ l ∧ data_structs s !! l' = Some d').
      { destruct (d_data d); cbn in Hl'; apply lookup_delete_Some in Hl' as []; split; done. }
      destruct Hl'' as [Hne Hl'']. destruct (H3 l' d' p Hl'' Hp) as (b & Hb & Hlen). exists b. split; [|done].
      destruct (d_data d) as [q|] eqn:Hq; [|done]. cbn. rewrite lookup_delete_ne; [done|]. intros ->. by apply (Hother p l' d').
    + intros l1 l2 d1 d2 p Hl1 Hl2. destruct (d_data d); cbn in *; apply lookup_delete_Some in Hl1 as [_ Hl1], Hl2 as [_ Hl2];
        by eapply H4.
    + intros p b Hp. assert (Hp' : data_bufs s !! p = Some b ∧ d_data d ≠ Some p).
      { destruct (d_data d) as [q|] eqn:Hq; cbn in Hp; [|done]. apply lookup_delete_Some in Hp as [Hne Hp]. split; [done|congruence]. }
      destruct Hp' as [Hb Hnp]. destruct (H5 p b Hb) as (l' & d' & Hl' & Hd'). exists l', d'. split; [|done].
      assert (l ≠ l') by (intros ->; congruence). destruct (d_data d); cbn; by rewrite lookup_delete_ne.
  - apply map_eq. intros l'. destruct (decide (l' = l)) as [->|Hne].
    + rewrite lookup_delete_eq. unfold data_view. rewrite lookup_fmap. destruct (d_data d); cbn; by rewrite lookup_delete_eq.
    + rewrite lookup_delete_ne by done. unfold data_view. rewrite !lookup_fmap.
      destruct (d_data d) as [p|] eqn:Hp; cbn; rewrite lookup_delete_ne by done; [|done].
      destruct (data_structs s !! l') as [d'|] eqn:Hl'; [|done]. cbn. f_equal.
      destruct (d_data d') as [q|] eqn:Hq; [|done]. cbn. rewrite lookup_delete_ne; [done|]. intros ->. by apply (Hother q l' d').
Qed.

(** ** The operations on a tidy state *)

(** [m] ends with a tidy state, of which [Q] holds, or for lack of memory with nothing
    changed. *)
Definition serves {A} (m : DM A) (s : data_state) (Q : A → gmap loc (option bytes) → Prop) : Prop :=
  wp m s (λ a s', tidy s' ∧ Q a (data_view s')) (λ r s', r = R_NO_MEMORY ∧ tidy s' ∧ data_view s' = data_view s).

Lemma new_struct_serves s : tidy s → serves new_struct s (λ l v, data_view s !! l = None ∧ v = <[l := None]> (data_view s)).
Proof.
  intros Ht. unfold serves. apply (wp_eq_ok _ _ (data_brk s) (fresh_struct s)); [done|].
  destruct (fresh_struct_tidy s Ht) as [? ?]. split_and!; [done| |done].
  unfold data_view. rewrite lookup_fmap. destruct (data_structs s !! data_brk s) eqn:Hl; [|done]. by apply (fresh_not s) in Hl.
Qed.

Lemma calloc_data_run s : calloc_data s =
  if next_answer (data_answers s) then Ok (data_brk s) (fresh_struct (popped s)) else Err R_NO_MEMORY (popped s).
Proof.
  unfold calloc_data, alloc_or_abort, alloc_ok, mbind, M_bind. cbn. by destruct (next_answer (data_answers s)).
Qed.

(** The writes of an operation are those of [attach], [relabel] or [detach]. *)
Ltac same_memory :=
  unfold attach, grown, detach, fresh_struct, popped, set_structs, set_bufs, next_brk; cbn;
  rewrite ?lookup_insert_eq; cbn; f_equal; rewrite ?insert_insert_eq, ?delete_insert_eq; try done.

Lemma malloc_ok b s : next_answer (data_answers s) = true → malloc_buf b s = Ok (Some (data_brk s)) (grown b (popped s)).
Proof. intros Ha. by rewrite malloc_buf_run, Ha. Qed.
Lemma malloc_fails b s : next_answer (data_answers s) = false → malloc_buf b s = Ok None (popped s).
Proof. intros Ha. by rewrite malloc_buf_run, Ha. Qed.

Lemma copy_all_run p b' b s :
  data_bufs s !! p = Some b → length b = length b' → copy_in p b' (length b') s = Ok () (set_bufs <[p := b']> s).
Proof. intros Hp Hb. rewrite (copy_in_run p b' (length b') b s) by (done || lia). by rewrite take_ge, drop_ge, app_nil_r by lia. Qed.

Lemma copy_prefix_run p d l s :
  data_bufs s !! p = Some (uninit l) → (l <= length d)%nat → copy_in p d l s = Ok () (set_bufs <[p := take l d]> s).
Proof.
  intros Hp Hd. assert (Hl : length (uninit l) = l) by apply length_replicate.
  rewrite (copy_in_run p d l (uninit l)) by (done || lia). by rewrite (drop_ge (uninit l)), app_nil_r by lia.
Qed.

Ltac data_step :=
  first [erewrite bind_ok by (eapply load_data_run; cbn; done)
    |erewrite bind_ok by (eapply store_data_run; cbn; done)
    |erewrite bind_ok by (eapply load_buf_run; cbn; done)
    |mstep].

Lemma make_run dp d l d0 s :
  data_structs s !! dp = Some d0 → (l <= length d)%nat →
  r_data_make dp d l s =
  if next_answer (data_answers s) then Ok () (attach dp (take l d) (popped s))
  else Err R_NO_MEMORY (set_structs <[dp := MkData None (d_len d0)]> (popped s)).
Proof.
  intros Hdp Hl. unfold r_data_make. destruct (next_answer (data_answers s)) eqn:Ha.
  - mstep using malloc_ok. data_step. data_step. erewrite bind_ok by (apply copy_prefix_run; [cbn; by rewrite lookup_insert_eq|done]).
    erewrite store_data_run by (cbn; by rewrite lookup_insert_eq). f_equal. same_memory. by rewrite length_take_le.
  - mstep using malloc_fails. do 2 data_step. done.
Qed.

Lemma alloc_mem_run d l d0 s :
  data_structs s !! d = Some d0 →
  r_data_alloc_mem d l s =
  if next_answer (data_answers s) then Ok () (attach d (uninit l) (popped s))
  else Err R_NO_MEMORY (set_structs <[d := MkData None (d_len d0)]> (popped s)).
Proof.
  intros Hd. unfold r_data_alloc_mem. destruct (next_answer (data_answers s)) eqn:Ha.
  - mstep using malloc_ok. do 2 data_step. erewrite store_data_run by (cbn; by rewrite lookup_insert_eq). f_equal. same_memory.
    unfold uninit. by rewrite length_replicate.
  - mstep using malloc_fails. do 2 data_step. done.
Qed.

Lemma copy_run dst src d0 from p b s :
  dst ≠ src → data_structs s !! dst = Some d0 → data_structs s !! src = Some from → d_data from = Some p →
  data_bufs s !! p = Some b → length b = d_len from → p ≠ data_brk s →
  r_data_copy dst src s =
  if next_answer (data_answers s) then Ok () (attach dst b (popped s))
  else Err R_NO_MEMORY (set_structs <[dst := MkData None (d_len d0)]> (popped s)).
Proof.
  intros Hne Hdst Hsrc Hp Hb Hlen Hfresh. unfold r_data_copy. data_step. destruct (next_answer (data_answers s)) eqn:Ha.
  - mstep using malloc_ok. do 2 data_step. erewrite bind_ok by (apply load_data_run; cbn; by rewrite lookup_insert_ne).
    erewrite bind_ok by (eapply store_data_run; cbn; by rewrite lookup_insert_eq). rewrite Hp. mstep.
    erewrite bind_ok by (apply load_buf_run; cbn; by rewrite lookup_insert_ne).
    rewrite <- Hlen. erewrite copy_all_run by (cbn; (by rewrite lookup_insert_eq) || by apply length_replicate).
    f_equal. same_memory.
  - mstep using malloc_fails. do 2 data_step. done.
Qed.

Lemma or_destroy_ok {A} d_ (m : DM A) s a s' : m s = Ok a s' → or_destroy d_ m s = Ok a s'.
Proof. intros Hm. unfold or_destroy. by rewrite (bind_ok _ _ _ _ _ (catch_ok _ _ _ _ Hm)). Qed.

Lemma or_destroy_err {A} d_ (m : DM A) s r n s' :
  m s = Err r s' → r ≠ 0 → data_structs s' !! d_ = Some (MkData None n) → or_destroy d_ m s = Err r (set_structs (delete d_) s').
Proof.
  intros Hm Hr Hd. unfold or_destroy. rewrite (bind_ok _ _ _ _ _ (catch_err _ _ _ _ Hm)).
  rewrite (bind_ok _ _ _ None (set_structs (delete d_) s')).
  - unfold abort. by rewrite abort_code_id.
  - unfold r_data_destroy. data_step. cbn [d_data]. mstep. by erewrite bind_ok by by eapply free_struct_run.
Qed.

(** Creation, with the first answer for the structure and the second for the buffer. *)
Definition creates (m : DM loc) (b : bytes) (s : data_state) : Prop :=
  let s1 := popped (fresh_struct (popped s)) in
  m s = if next_answer (data_answers s) then
          if next_answer (tail (data_answers s)) then Ok (data_brk s) (attach (data_brk s) b s1)
          else Err R_NO_MEMORY (detach (data_brk s) s1)
        else Err R_NO_MEMORY (popped s).

Lemma create_run d l s : (l <= length d)%nat → creates (r_data_create d l) (take l d) s.
Proof.
  intros Hl. unfold creates, r_data_create. unfold mbind at 1, M_bind at 1. rewrite calloc_data_run.
  destruct (next_answer (data_answers s)); [|done]. destruct (next_answer (tail (data_answers s))) eqn:Ha.
  - apply or_destroy_ok. mstep using malloc_ok. erewrite bind_ok by (eapply store_data_run; cbn; by rewrite lookup_insert_eq).
    erewrite bind_ok by (apply copy_prefix_run; [cbn; by rewrite lookup_insert_eq|done]).
    erewrite bind_ok by (eapply store_data_run; cbn; by rewrite lookup_insert_eq). unfold mret, M_ret. f_equal. same_memory.
    by rewrite length_take_le.
  - rewrite (or_destroy_err _ _ _ R_NO_MEMORY 0 (popped (fresh_struct (popped s)))); [f_equal; same_memory| |done|cbn; by rewrite lookup_insert_eq].
    mstep using malloc_fails. erewrite bind_ok by (eapply store_data_run; cbn; by rewrite lookup_insert_eq). unfold abort. f_equal. same_memory.
Qed.

Lemma alloc_run l s : creates (r_data_alloc l) (replicate l (Some 0)) s.
Proof.
  unfold creates, r_data_alloc. unfold mbind at 1, M_bind at 1. rewrite calloc_data_run.
  destruct (next_answer (data_answers s)); [|done]. destruct (next_answer (tail (data_answers s))) eqn:Ha.
  - apply or_destroy_ok. mstep using malloc_ok. erewrite bind_ok by (eapply store_data_run; cbn; by rewrite lookup_insert_eq).
    erewrite bind_ok by (eapply store_data_run; cbn; by rewrite lookup_insert_eq). unfold mret, M_ret. f_equal. same_memory.
    by rewrite length_replicate.
  - rewrite (or_destroy_err _ _ _ R_NO_MEMORY 0 (popped (fresh_struct (popped s)))); [f_equal; same_memory| |done|cbn; by rewrite lookup_insert_eq].
    mstep using malloc_fails. erewrite bind_ok by (eapply store_data_run; cbn; by rewrite lookup_insert_eq). unfold abort. f_equal. same_memory.
Qed.

(** Destruction, with or without clearing. *)
Lemma data_destroy_run l d s :
  tidy s → data_structs s !! l = Some d → r_data_destroy (Some l) s = Ok None (detach l s).
Proof.
  intros Ht Hl. unfold r_data_destroy, detach. data_step. rewrite Hl. cbn [mbind option_bind]. destruct (d_data d) as [p|] eqn:Hp.
  - destruct (td_buf s Ht l d p Hl Hp) as (b & Hb & _). erewrite bind_ok by by eapply free_buf_run. by erewrite bind_ok by by eapply free_struct_run.
  - mstep. by erewrite bind_ok by by eapply free_struct_run.
Qed.

Lemma zfree_run l d s :
  tidy s → data_structs s !! l = Some d →
  r_data_zfree (Some l) s = Ok () (match d_data d with Some p => set_bufs (delete p) s | None => s end).
Proof.
  intros Ht Hl. unfold r_data_zfree. data_step. destruct (d_data d) as [p|] eqn:Hp; [|done].
  destruct (td_buf s Ht l d p Hl Hp) as (b & Hb & Hlen).
  erewrite bind_ok by (apply copy_in_run; [done|lia|by rewrite length_replicate]).
  erewrite free_buf_run by (cbn; by rewrite lookup_insert_eq). f_equal. unfold set_bufs. cbn. by rewrite delete_insert_eq.
Qed.

Lemma destroy_v_run l d s :
  tidy s → data_structs s !! l = Some d →
  r_data_destroy_v (Some l) s = Ok () (detach l s) ∧ r_data_destroy_vp (Some l) s = Ok None (detach l s).
Proof.
  intros Ht Hl. unfold r_data_destroy_v, r_data_destroy_vp, detach. rewrite Hl. cbn [mbind option_bind].
  rewrite !(bind_ok _ _ _ _ _ (zfree_run l d s Ht Hl)).
  erewrite free_struct_run by (destruct (d_data d); done). split; [done|].
  by erewrite bind_ok by (eapply free_struct_run; destruct (d_data d); done).
Qed.

(** ** Programs *)

(** The calls of a client; [Local] is a structure of its own, with a null pointer. *)
Inductive data_call :=
| Local
| Create (d : bytes)
| Alloc (l : nat)
| AllocMem (d : loc) (l : nat)
| Make (dp : loc) (d : bytes)
| Copy (dst src : loc)
| Compare (d1 d2 : loc)
| Destroy (d : loc)
| DestroyV (v : loc)
| DestroyVp (v : loc).

(** What a call gives its client: a new structure, or the result of a comparison. *)
Inductive data_result := NoResult | NewData (l : loc) | Compared (z : Z).
Definition run_call (c : data_call) : DM data_result :=
  match c with
  | Local => l ← new_struct; mret (NewData l)
  | Create d => l ← r_data_create d (length d); mret (NewData l)
  | Alloc l => p ← r_data_alloc l; mret (NewData p)
  | AllocMem d l => r_data_alloc_mem d l;; mret NoResult
  | Make dp d => r_data_make dp d (length d);; mret NoResult
  | Copy dst src => r_data_copy dst src;; mret NoResult
  | Compare d1 d2 => z ← r_data_compare d1 d2; mret (Compared z)
  | Destroy d => r_data_destroy (Some d);; mret NoResult
  | DestroyV v => r_data_destroy_v (Some v);; mret NoResult
  | DestroyVp v => r_data_destroy_vp (Some v);; mret NoResult
  end.

(** The calls that are within the rules: a structure is filled only when it has no data, its
    data are copied only when it has some, and they are compared only when all are written. *)
Definition call_ok (v : gmap loc (option bytes)) (c : data_call) : Prop :=
  match c with
  | Local | Create _ | Alloc _ => True
  | AllocMem d _ | Make d _ => v !! d = Some None
  | Copy dst src => v !! dst = Some None ∧ ∃ b, v !! src = Some (Some b)
  | Compare d1 d2 => ∃ b1 b2, v !! d1 = Some (Some (Some <$> b1)) ∧ v !! d2 = Some (Some (Some <$> b2))
  | Destroy d | DestroyV d | DestroyVp d => is_Some (v !! d)
  end.

(** What a call does to the map of byte strings. *)
Definition enters (v : gmap loc (option bytes)) (ob : option bytes) (r : data_result) (v' : gmap loc (option bytes)) : Prop :=
  ∃ l, r = NewData l ∧ v !! l = None ∧ v' = <[l := ob]> v.
Definition abs_call (v : gmap loc (option bytes)) (c : data_call) (r : data_result) (v' : gmap loc (option bytes)) : Prop :=
  match c with
  | Local => enters v None r v'
  | Create d => enters v (Some d) r v'
  | Alloc l => enters v (Some (replicate l (Some 0))) r v'
  | AllocMem d l => r = NoResult ∧ v' = <[d := Some (replicate l None)]> v
  | Make dp d => r = NoResult ∧ v' = <[dp := Some d]> v
  | Copy dst src => r = NoResult ∧ ∃ b, v !! src = Some b ∧ v' = <[dst := b]> v
  | Compare d1 d2 => v' = v ∧ ∃ z, r = Compared z ∧ (z = 0 ↔ v !! d1 = v !! d2)
  | Destroy d | DestroyV d | DestroyVp d => r = NoResult ∧ v' = delete d v
  end.

(** The states that such calls lead to, whatever the allocator answers. *)
Inductive data_reachable : data_state → Prop :=
| reach_start answers : data_reachable (DState ∅ ∅ 1 answers)
| reach_call s c r s' : data_reachable s → call_ok (data_view s) c → catch (run_call c) s = Ok r s' → data_reachable s'.

Lemma memcmp_eq a b : length a = length b → memcmp a b = 0 ↔ a = b.
Proof.
  revert b. induction a as [|x a IH]; intros [|y b] Hlen; try done. cbn. destruct (Z.eqb_spec x y) as [->|Hne].
  - rewrite IH by (cbn in Hlen; lia). split; [by intros ->|congruence].
  - split; [intros Hs; apply Z.sgn_null_iff in Hs; lia|congruence].
Qed.

Lemma written_run l d p b s :
  data_structs s !! l = Some d → d_data d = Some p → data_bufs s !! p = Some (Some <$> b) → d_len d = length b →
  written d s = Ok b s.
Proof.
  intros Hl Hd Hp Hlen. unfold written. rewrite Hd. data_step. rewrite length_fmap, Hlen, Nat.ltb_irrefl.
  rewrite take_ge by (by rewrite length_fmap). by rewrite mapM_fmap_Some.
Qed.

Lemma compare_run d1 d2 b1 b2 s :
  tidy s → data_view s !! d1 = Some (Some (Some <$> b1)) → data_view s !! d2 = Some (Some (Some <$> b2)) →
  r_data_compare d1 d2 s = Ok (if bool_decide (length b1 = length b2) then memcmp b1 b2 else -1) s.
Proof.
  intros Ht (x & p & Hx & Hp & Hb1)%view_data (y & q & Hy & Hq & Hb2)%view_data.
  destruct (td_buf s Ht d1 x p Hx Hp) as (b & Hb & Hl1). destruct (td_buf s Ht d2 y q Hy Hq) as (b' & Hb' & Hl2).
  assert (Hlx : d_len x = length b1) by (rewrite <- Hl1, <- (length_fmap Some b1); congruence).
  assert (Hly : d_len y = length b2) by (rewrite <- Hl2, <- (length_fmap Some b2); congruence).
  unfold r_data_compare. do 2 data_step. rewrite Hlx, Hly. case_bool_decide.
  - rewrite !(proj2 (Nat.ltb_ge _ _)) by lia. by rewrite (bind_ok _ _ _ _ _ (written_run d1 x p b1 s Hx Hp Hb1 Hlx)), (bind_ok _ _ _ _ _ (written_run d2 y q b2 s Hy Hq Hb2 Hly)).
  - destruct (Nat.ltb_spec (length b1) (length b2)); [done|]. by rewrite (proj2 (Nat.ltb_lt _ _)) by lia.
Qed.

Lemma creates_serves m b s :
  tidy s → creates m b s → serves m s (λ l v, data_view s !! l = None ∧ v = <[l := Some b]> (data_view s)).
Proof.
  intros Ht Hm. pose proof (popped_tidy s Ht) as Ht'. destruct (fresh_struct_tidy _ Ht') as [Hf Hv].
  pose proof (popped_tidy _ Hf) as Hf'. change (data_view (popped s)) with (data_view s) in Hv.
  assert (Hnone : data_view s !! data_brk s = None).
  { unfold data_view. rewrite lookup_fmap. destruct (data_structs s !! data_brk s) eqn:Hl; [|done]. by apply (fresh_not s) in Hl. }
  assert (Hin : data_view (popped (fresh_struct (popped s))) !! data_brk s = Some None).
  { change (data_view (fresh_struct (popped s)) !! data_brk s = Some None). rewrite Hv. apply lookup_insert_eq. }
  unfold serves, wp. rewrite Hm. destruct (next_answer (data_answers s)); [destruct (next_answer (tail (data_answers s)))|done].
  - destruct (attach_tidy _ _ b Hf' Hin) as [Hta ->]. split_and!; [done..|].
    change (data_view (popped (fresh_struct (popped s)))) with (data_view (fresh_struct (popped s))). rewrite Hv. apply insert_insert_eq.
  - destruct (detach_tidy _ _ _ Hf' Hin) as [Htd ->]. split_and!; [done..|].
    change (data_view (popped (fresh_struct (popped s)))) with (data_view (fresh_struct (popped s))). rewrite Hv. by apply delete_insert_id.
Qed.

Lemma fills_serves (m : DM unit) l d b s :
  tidy s → data_view s !! l = Some None → data_structs s !! l = Some d →
  m s = (if next_answer (data_answers s) then Ok () (attach l b (popped s))
         else Err R_NO_MEMORY (set_structs <[l := MkData None (d_len d)]> (popped s))) →
  serves m s (λ _ v, v = <[l := Some b]> (data_view s)).
Proof.
  intros Ht Hl Hd Hm. pose proof (popped_tidy s Ht) as Ht'. unfold serves, wp. rewrite Hm.
  destruct (next_answer (data_answers s)).
  - by destruct (attach_tidy (popped s) l b Ht' Hl).
  - by destruct (relabel_tidy (popped s) l (d_len d) Ht' Hl).
Qed.

Lemma serves_then {A} (m : DM A) s Q (f : A → data_result) :
  serves m s Q → serves (a ← m; mret (f a)) s (λ r v, ∃ a, r = f a ∧ Q a v).
Proof. unfold serves, wp, mbind, M_bind. destruct (m s); [|done..]. intros [? ?]. split; [done|]. by eexists. Qed.

Lemma serves_mono {A} (m : DM A) s Q Q' : serves m s Q → (∀ a v, Q a v → Q' a v) → serves m s Q'.
Proof. unfold serves. intros Hm HQ. eapply wp_mono; [done| |done]. intros a s' [? ?]. split; [done|by apply HQ]. Qed.

Lemma call_serves s c :
  tidy s → call_ok (data_view s) c → serves (run_call c) s (abs_call (data_view s) c).
Proof.
  intros Ht Hc.
  assert (Hgone : ∀ l, is_Some (data_view s !! l) → ∃ d, data_structs s !! l = Some d ∧ tidy (detach l s) ∧ data_view (detach l s) = delete l (data_view s)).
  { intros l [ob Hob]. destruct (view_lookup s l ob Hob) as (d & Hd & _). exists d. split; [done|by eapply detach_tidy]. }
  destruct c as [|d|l|d l|dp d|dst src|d1 d2|d|d|d]; cbn [run_call abs_call call_ok] in *.
  - apply (serves_then _ _ _ NewData), new_struct_serves, Ht.
  - pose proof (create_run d (length d) s (le_n _)) as Hm. rewrite firstn_all in Hm.
    by apply (serves_then _ _ _ NewData), creates_serves.
  - apply (serves_then _ _ _ NewData), creates_serves, alloc_run; done.
  - destruct (view_null s d Ht Hc) as (d0 & Hd0 & _). eapply serves_mono; [eapply (serves_then _ _ _ (λ _, NoResult)), fills_serves, alloc_mem_run; done|].
    by intros r v (_ & -> & ->).
  - destruct (view_null s dp Ht Hc) as (d0 & Hd0 & _).
    pose proof (make_run dp d (length d) d0 s Hd0 (le_n _)) as Hm. rewrite firstn_all in Hm.
    eapply serves_mono; [eapply (serves_then _ _ _ (λ _, NoResult)), fills_serves; done|]. by intros r v (_ & -> & ->).
  - destruct Hc as (Hdst & b & Hsrc). destruct (view_null s dst Ht Hdst) as (d0 & Hd0 & Hnull).
    destruct (view_data s src b Hsrc) as (from & p & Hfrom & Hp & Hb). destruct (td_buf s Ht src from p Hfrom Hp) as (b' & Hb' & Hlen).
    assert (b' = b) as -> by congruence. assert (dst ≠ src) by congruence. pose proof (fresh_not_buf s p b Ht Hb).
    eapply serves_mono; [by eapply (serves_then _ _ _ (λ _, NoResult)), fills_serves, copy_run|].
    intros r v (_ & -> & ->). split; [done|]. by exists (Some b).
  - destruct Hc as (b1 & b2 & H1 & H2). unfold serves. eapply wp_eq_ok.
    + rewrite (bind_ok _ _ _ _ _ (compare_run d1 d2 b1 b2 s Ht H1 H2)). done.
    + split; [done|]. split; [done|]. eexists. split; [done|]. rewrite H1, H2.
      assert (Heq : Some (Some (Some <$> b1)) = Some (Some (Some <$> b2)) ↔ b1 = b2).
      { split; [|by intros ->]. intros [= Heq]. by apply (inj (fmap Some)) in Heq. }
      rewrite Heq. case_bool_decide; [by apply memcmp_eq|]. split; [done|]. by intros ->.
  - destruct (Hgone d Hc) as (x & Hx & ? & ?). unfold serves. by eapply wp_eq_ok; [rewrite (bind_ok _ _ _ _ _ (data_destroy_run d x s Ht Hx))|].
  - destruct (Hgone d Hc) as (x & Hx & ? & ?). destruct (destroy_v_run d x s Ht Hx) as [Hv _]. unfold serves.
    by eapply wp_eq_ok; [rewrite (bind_ok _ _ _ _ _ Hv)|].
  - destruct (Hgone d Hc) as (x & Hx & ? & ?). destruct (destroy_v_run d x s Ht Hx) as [_ Hv]. unfold serves.
    by eapply wp_eq_ok; [rewrite (bind_ok _ _ _ _ _ Hv)|].
Qed.

Lemma reachable_tidy s : data_reachable s → tidy s.
Proof.
  induction 1 as [answers|s c r s' _ IH Hc Hr]; [split; cbn; intros *; by rewrite lookup_empty|].
  pose proof (call_serves s c IH Hc) as Hs. unfold serves, wp, catch in *.
  destruct (run_call c s); [|naive_solver|done]. injection Hr as _ <-. apply Hs.
Qed.

(** ** The structures are a map from pointers to byte strings *)

(** C35: Whatever a program within the rules has done, and whatever memory it was refused, its next
    call has no undefined behaviour and does to the structures what it does to a map from
    pointers to byte strings; without memory it fails with that status and changes no byte.
    The state stays tidy: each buffer belongs to exactly one structure, so nothing leaks. *)
Theorem data_refines s c :
  data_reachable s → call_ok (data_view s) c →
  wp (run_call c) s
    (λ r s', tidy s' ∧ abs_call (data_view s) c r (data_view s'))
    (λ r s', r = R_NO_MEMORY ∧ tidy s' ∧ data_view s' = data_view s).
Proof. intros Hr Hc. by apply call_serves; [apply reachable_tidy|]. Qed.

(** A program: two byte strings, a copy of the first, and the comparison of the copy. *)
Fixpoint run_calls (cs : list data_call) : DM (list (Z + data_result)) :=
  match cs with
  | [] => mret []
  | c :: cs' => r ← catch (run_call c); rs ← run_calls cs'; mret (r :: rs)
  end.

Example run_calls_ex :
  let start := DState ∅ ∅ 1 [] in
  let data := Some <$> [1; 2; 3] in
  (λ r, match r with Ok rs s => Some (rs, size (data_bufs s), size (data_structs s)) | _ => None end)
    (run_calls [Create data; Local; Copy 3 1; Compare 1 3; Destroy 1; DestroyV 3] start) =
  Some ([inr (NewData 1); inr (NewData 3); inr NoResult; inr (Compared 0); inr NoResult; inr NoResult], 0%nat, 0%nat).
Proof. vm_compute. reflexivity. Qed.

Definition two_data : data_state :=
  match run_calls [Create (Some <$> [1; 2; 3]); Local] (DState ∅ ∅ 1 []) with Ok _ s => s | _ => DState ∅ ∅ 1 [] end.

Lemma data_refines_witness :
  wp (run_call (Copy 3 1)) two_data
    (λ r s', tidy s' ∧ abs_call (data_view two_data) (Copy 3 1) r (data_view s'))
    (λ r s', r = R_NO_MEMORY ∧ tidy s' ∧ data_view s' = data_view two_data).
Proof.
  apply (data_refines two_data (Copy 3 1)).
  - eapply (reach_call _ Local); [eapply (reach_call _ (Create (Some <$> [1; 2; 3])) _); [apply (reach_start [])|exact I|vm_compute; reflexivity]|exact I|vm_compute; reflexivity].
  - split; [vm_compute; reflexivity|]. eexists. vm_compute. reflexivity.
Defined.

(** ** What the rules exclude *)

(** A structure that was cleared and freed keeps its pointer: destroying it frees its data a
    second time. *)
Lemma zfree_then_destroy l s b :
  tidy s → data_view s !! l = Some (Some b) → (r_data_zfree (Some l);; r_data_destroy (Some l)) s = UB.
Proof.
  intros Ht (d & p & Hd & Hp & Hb)%view_data. rewrite (bind_ok _ _ _ _ _ (zfree_run l d s Ht Hd)), Hp.
  unfold r_data_destroy. erewrite bind_ok by by apply load_data_run. rewrite Hp.
  rewrite bind_ub; [done|]. unfold free_buf. rewrite bind_ub; [done|]. unfold load_buf. mstep.
  unfold set_bufs. cbn. by rewrite lookup_delete_eq.
Qed.

(** Comparison orders no two byte strings of different lengths: each is less than the other. *)
Lemma compare_both_less d1 d2 b1 b2 s :
  tidy s → data_view s !! d1 = Some (Some (Some <$> b1)) → data_view s !! d2 = Some (Some (Some <$> b2)) →
  length b1 ≠ length b2 →
  r_data_compare d1 d2 s = Ok (-1) s ∧ r_data_compare d2 d1 s = Ok (-1) s.
Proof. intros Ht H1 H2 Hne. rewrite (compare_run d1 d2 b1 b2), (compare_run d2 d1 b2 b1) by done. by rewrite !bool_decide_eq_false_2. Qed.

(** ** Freeing what was read from the registry (src/registry/c2ru.c)

    The functions that free a number, counted data and a list of structures.  Freeing data
    leaves neither its structure nor its buffer, and freeing a list calls the client once for
    each structure, whatever the client answers. *)

(** [NRFREE]: a number is a block of its own. *)
Definition nr_c2ru_free (inp : option loc) : DM unit :=
  match inp with Some p => free_buf p | None => mret () end.

Definition nr_c2ru_free_data (inp : option loc) : DM unit :=
  match inp with Some _ => _ ← r_data_destroy inp; mret () | None => mret () end.

(** [TAILQ] of structures; [free] is the caller's. *)
Section children.
Context {S E : Type} (free : E → M S unit).

Fixpoint nr_c2ru_free_children (tailq : list E) : M S unit :=
  match tailq with
  | [] => mret ()
  | entry :: tailq' => ignore (free entry);; nr_c2ru_free_children tailq'
  end.
End children.

(** Data whose structure and buffer are allocated. *)
Definition owns (s : data_state) (l : loc) (bs : bytes) : Prop :=
  ∃ p, data_structs s !! l = Some (MkData (Some p) (length bs)) ∧ data_bufs s !! p = Some bs.

Lemma free_data_frees s l bs :
  owns s l bs →
  ∃ p s', data_structs s !! l = Some (MkData (Some p) (length bs)) ∧
    nr_c2ru_free_data (Some l) s = Ok () s' ∧
    data_structs s' = delete l (data_structs s) ∧ data_bufs s' = delete p (data_bufs s).
Proof.
  intros (p & Hl & Hp). exists p, (DState (delete l (data_structs s)) (delete p (data_bufs s)) (data_brk s) (data_answers s)).
  split_and!; [done| |done|done]. unfold nr_c2ru_free_data, r_data_destroy, load_data, free_buf, free_struct, load_buf, load_data.
  unfold mbind, M_bind, get, from_option_ub. rewrite Hl. cbn. rewrite Hp. cbn. by rewrite Hl.
Qed.

Section list.
Context {S E : Type} (free : E → M S unit).

(** The structures that [free] was given, when it always returns. *)
Lemma free_children_all (log : S → list E) (ls : list E) (s : S) :
  (∀ e s, ∃ s', ignore (free e) s = Ok () s' ∧ log s' = log s ++ [e]) →
  ∃ s', nr_c2ru_free_children free ls s = Ok () s' ∧ log s' = log s ++ ls.
Proof.
  intros Hfree. revert s. induction ls as [|e ls IH]; intros s; [exists s; by rewrite app_nil_r|].
  destruct (Hfree e s) as (s1 & Hrun & Hlog). destruct (IH s1) as (s' & Hrun' & Hlog').
  exists s'. cbn. rewrite (bind_ok _ _ _ _ _ Hrun). split; [done|]. by rewrite Hlog', Hlog, <- app_assoc.
Qed.
End list.

(** Two counted data are freed, the first of which holds nothing. *)
Example free_children_ex :
  (match nr_c2ru_free_children (λ l, nr_c2ru_free_data (Some l)) [1%positive; 2%positive]
     (DState {[1%positive := MkData None 0; 2%positive := MkData (Some 3%positive) 1]} {[3%positive := [Some 7]]} 4 []) with
   | Ok _ s => bool_decide (data_structs s = ∅ ∧ data_bufs s = ∅) | _ => false end) = true.
Proof. vm_compute. reflexivity. Qed.
