(* ===== verification/Threads.v ===== *)
(** * Threads (src/util/libekr/threads/pthreads/pthread.c)

    The count of running threads, with the interleavings of its updates as explicit sequences
    of steps, and the calls around the mutex of the condition variables.  The theorems show
    what [r_thread_wait_last] waits for when no two updates of the count overlap, that it can
    wait for ever or not at all when they do, and that the mutex is always given back. *)

From S2P Require Import Prelude.
Local Open Scope Z_scope.

(** ** Counting threads *)

(** Where a thread is in [r_thread_real_create]: before it counts itself; with [thread_count]
    read for [thread_count++]; in its function; with it read for [thread_count--], there or in
    [r_thread_exit]; before [free(h)]; ended. *)
Inductive pc := Start | Counting (v : Z) | Body | Leaving (v : Z) (exits : bool) | Freeing | Ended.
#[export] Instance pc_eq_dec : EqDecision pc.
Proof. solve_decision. Defined.

(** [helpers] counts the blocks [h] in use. *)
Record thread_state := TState { thread_count : Z; threads : list pc; helpers : Z }.
Definition threads_init : thread_state := TState 0 [] 0.

(** [created] is what [pthread_create] answers: the new thread is in [r_thread_real_create]. *)
Definition r_thread_fork (created : bool) (s : thread_state) : Z * thread_state :=
  let s := TState (thread_count s) (threads s) (helpers s + 1) in
  if created then (0, TState (thread_count s) (threads s ++ [Start]) (helpers s)) else (R_INTERNAL, s).

(** The first access of [thread_count--] in [r_thread_exit], from where the thread does not come
    back to [r_thread_real_create]. *)
Definition r_thread_exit (s : thread_state) : pc * Z * Z := (Leaving (thread_count s) true, thread_count s, helpers s).

(** One access to memory of a thread at [p]; a function that ends by calling [r_thread_exit]
    has [exits]. *)
Definition r_thread_real_create (exits : bool) (s : thread_state) (p : pc) : option (pc * Z * Z) :=
  match p with
  | Start => Some (Counting (thread_count s), thread_count s, helpers s)
  | Counting v => Some (Body, swrap 32 (v + 1), helpers s)
  | Body => Some (if exits then r_thread_exit s else (Leaving (thread_count s) false, thread_count s, helpers s))
  | Leaving v false => Some (Freeing, swrap 32 (v - 1), helpers s)
  | Leaving v true => Some (Ended, swrap 32 (v - 1), helpers s)
  | Freeing => Some (Ended, thread_count s, helpers s - 1)
  | Ended => None
  end.

(** A step of the program: some thread forks, or a thread goes on. *)
Inductive event := Fork (created : bool) | Step (t : nat) (exits : bool).
Definition thread_step (e : event) (s : thread_state) : option thread_state :=
  match e with
  | Fork created => Some (r_thread_fork created s).2
  | Step t exits =>
      p ← threads s !! t;
      '(p', count, hs) ← r_thread_real_create exits s p;
      Some (TState count (<[t := p']> (threads s)) hs)
  end.
Fixpoint thread_run (es : list event) (s : thread_state) : option thread_state :=
  match es with [] => Some s | e :: es' => s' ← thread_step e s; thread_run es' s' end.

(** [do ... while (thread_count)], where the other threads make the steps of an element of
    [turns] in each turn; whether it has returned. *)
Fixpoint r_thread_wait_last (turns : list (list event)) (s : thread_state) : option (thread_state * bool) :=
  match turns with
  | [] => Some (s, false)
  | es :: turns' =>
      s' ← thread_run es s;
      if thread_count s' =? 0 then Some (s', true) else r_thread_wait_last turns' s'
  end.

(** *** Updates that do not overlap *)

(** A thread counts itself in or out with no other step between the two accesses. *)
Inductive whole := WFork (created : bool) | WBegin (t : nat) | WFinish (t : nat) (exits : bool) | WFree (t : nat).
Definition steps_of (w : whole) : list event :=
  match w with
  | WFork created => [Fork created]
  | WBegin t => [Step t false; Step t false]
  | WFinish t exits => [Step t exits; Step t exits]
  | WFree t => [Step t false]
  end.

(** The thread is where the step expects it. *)
Definition whole_ok (w : whole) (s : thread_state) : Prop :=
  match w with
  | WFork _ => True
  | WBegin t => threads s !! t = Some Start
  | WFinish t _ => threads s !! t = Some Body
  | WFree t => threads s !! t = Some Freeing
  end.

(** The states that such steps lead to, from the start. *)
Inductive orderly : thread_state → Prop :=
| orderly_init : orderly threads_init
| orderly_step s w s' : orderly s → whole_ok w s → thread_run (steps_of w) s = Some s' → orderly s'.

Definition is_body (p : pc) : bool := match p with Body => true | _ => false end.
Definition in_body (s : thread_state) : Z := Z.of_nat (length (filter (λ p, is_body p) (threads s))).

(** How many elements of a list pass a test, after one was replaced. *)
Lemma count_replaced (P : pc → bool) l t p p' :
  l !! t = Some p →
  Z.of_nat (length (filter P (<[t := p']> l))) = Z.of_nat (length (filter P l)) + Z.b2z (P p') - Z.b2z (P p).
Proof.
  intros Hl. rewrite insert_take_drop by by eapply lookup_lt_Some. rewrite <- (take_drop_middle l t p Hl) at 3.
  rewrite !filter_app, !length_app, !filter_cons.
  destruct (P p), (P p'); repeat case_decide; try done; cbn [length Z.b2z]; lia.
Qed.

(** Nobody is between the two accesses of an update, and the count is exact. *)
Record counted (s : thread_state) : Prop := {
  cn_count : thread_count s = in_body s;
  cn_between : Forall (λ p, ∀ v exits, p ≠ Counting v ∧ p ≠ Leaving v exits) (threads s);
}.

Lemma between_replaced s t p l :
  Forall (λ p, ∀ v exits, p ≠ Counting v ∧ p ≠ Leaving v exits) l →
  (∀ v exits, p ≠ Counting v ∧ p ≠ Leaving v exits) →
  Forall (λ p, ∀ v exits, p ≠ Counting v ∧ p ≠ Leaving v exits) (<[t := p]> (<[t := s]> l)).
Proof. intros Hl Hp. rewrite list_insert_insert_eq. by apply Forall_insert. Qed.

(** The number of threads in their function, after two steps of one thread. *)
Lemma body_moves t p p1 p2 l :
  l !! t = Some p →
  Z.of_nat (length (filter is_body (<[t := p2]> (<[t := p1]> l)))) =
  Z.of_nat (length (filter is_body l)) + Z.b2z (is_body p2) - Z.b2z (is_body p).
Proof. intros Hl. rewrite list_insert_insert_eq. by apply count_replaced. Qed.

Lemma begin_run s t :
  threads s !! t = Some Start →
  thread_run (steps_of (WBegin t)) s =
  Some (TState (swrap 32 (thread_count s + 1)) (<[t := Body]> (<[t := Counting (thread_count s)]> (threads s))) (helpers s)).
Proof. intros Ht. cbn. rewrite Ht. cbn. rewrite list_lookup_insert_eq by by eapply lookup_lt_Some. done. Qed.

Definition after_body (exits : bool) : pc := if exits then Ended else Freeing.
Lemma finish_run s t exits :
  threads s !! t = Some Body →
  thread_run (steps_of (WFinish t exits)) s =
  Some (TState (swrap 32 (thread_count s - 1)) (<[t := after_body exits]> (<[t := Leaving (thread_count s) exits]> (threads s))) (helpers s)).
Proof. intros Ht. cbn. rewrite Ht. destruct exits; cbn; by rewrite list_lookup_insert_eq by by eapply lookup_lt_Some. Qed.

Lemma counted_step s w s' :
  counted s → Z.of_nat (length (threads s')) < 2 ^ 31 → whole_ok w s → thread_run (steps_of w) s = Some s' → counted s'.
Proof.
  intros [Hc Hb] Hlen Hok Hrun. unfold in_body in *.
  pose proof (length_filter is_body (threads s)) as Hle.
  destruct w as [created|t|t exits|t]; cbn [whole_ok] in Hok.
  - injection Hrun as <-. destruct created; [|done]. split; cbn.
    + unfold in_body. cbn. rewrite filter_app. cbn. by rewrite app_nil_r.
    + apply Forall_app. split; [done|]. by repeat constructor.
  - rewrite (begin_run s t Hok) in Hrun. injection Hrun as <-. cbn in Hlen. rewrite !length_insert in Hlen.
    pose proof (length_filter is_body (<[t := Body]> (threads s))) as Hle'. rewrite length_insert in Hle'.
    pose proof (count_replaced is_body _ t _ Body Hok) as Hr. cbn in Hr. split; cbn.
    + unfold in_body. cbn. rewrite (body_moves t Start) by done. cbn. rewrite Hc, swrap_small; lia.
    + by apply between_replaced.
  - rewrite (finish_run s t exits Hok) in Hrun. injection Hrun as <-. cbn in Hlen. rewrite !length_insert in Hlen.
    pose proof (count_replaced is_body _ t _ Ended Hok) as Hr. cbn in Hr. split; cbn.
    + unfold in_body. cbn. rewrite (body_moves t Body) by done. rewrite Hc. destruct exits; cbn; rewrite swrap_small; lia.
    + apply between_replaced; [done|]. by destruct exits.
  - cbn in Hrun. rewrite Hok in Hrun. injection Hrun as <-. split; cbn.
    + unfold in_body. cbn. rewrite (count_replaced is_body _ t Freeing) by done. cbn. lia.
    + by apply Forall_insert.
Qed.

Lemma steps_grow es s s' : thread_run es s = Some s' → (length (threads s) <= length (threads s'))%nat.
Proof.
  revert s. induction es as [|e es IH]; intros s Hrun; [injection Hrun as ->; done|].
  cbn in Hrun. apply bind_Some in Hrun as (s1 & H1 & Hrun). specialize (IH _ Hrun). destruct e as [created|t exits]; cbn in H1.
  - injection H1 as <-. destruct created; cbn in IH; [|done]. rewrite length_app in IH. lia.
  - apply bind_Some in H1 as (p & _ & [[[p' c] h] [_ [= <-]]]%bind_Some). cbn in IH. by rewrite length_insert in IH.
Qed.

Lemma orderly_counted s : orderly s → Z.of_nat (length (threads s)) < 2 ^ 31 → counted s.
Proof.
  induction 1 as [|s w s' Hs IH Hok Hrun]; intros Hlen; [by split|].
  pose proof (steps_grow _ _ _ Hrun). eapply counted_step; [apply IH; lia|done..].
Qed.

(** C36: When no two updates of the count overlap, and there have been fewer than [2^31] threads,
    the count is the number of threads that are in their function, and [r_thread_wait_last]
    returns from a turn of its loop exactly when there are none.  A thread that was created and
    has not yet counted itself is not waited for. *)
Theorem wait_last_exact s turns :
  orderly s → Z.of_nat (length (threads s)) < 2 ^ 31 →
  thread_count s = in_body s ∧
  r_thread_wait_last ([] :: turns) s =
    if bool_decide (Body ∈ threads s) then r_thread_wait_last turns s else Some (s, true).
Proof.
  intros Hs Hlen. destruct (orderly_counted s Hs Hlen) as [Hc _]. split; [done|]. cbn. rewrite Hc. unfold in_body.
  case_bool_decide as Hb.
  - assert (Hin : Body ∈ filter is_body (threads s)) by (by apply list_elem_of_filter).
    destruct (filter is_body (threads s)); [by apply not_elem_of_nil in Hin|done].
  - assert (Hnil : filter is_body (threads s) = []).
    { apply elem_of_nil_inv. intros p [Hp Hin]%list_elem_of_filter. by destruct p. }
    unfold is_true in *. by rewrite Hnil.
Qed.

(** A state of two threads, one of which is in its function. *)
Definition two_threads : thread_state := TState 1 [Body; Start] 2.
Lemma two_threads_orderly : orderly two_threads.
Proof.
  apply (orderly_step (TState 0 [Start; Start] 2) (WBegin 0)); [|done|done].
  apply (orderly_step (TState 0 [Start] 1) (WFork true)); [|done|done].
  by apply (orderly_step threads_init (WFork true)); [apply orderly_init| |].
Qed.

Lemma wait_last_exact_witness :
  thread_count two_threads = in_body two_threads ∧
  r_thread_wait_last [[]; [Step 0 false; Step 0 false]] two_threads =
    if bool_decide (Body ∈ threads two_threads) then r_thread_wait_last [[Step 0 false; Step 0 false]] two_threads else Some (two_threads, true).
Proof. apply (wait_last_exact two_threads [[Step 0 false; Step 0 false]]); [exact two_threads_orderly|reflexivity]. Defined.

(** *** Updates that overlap *)

(** Two threads read the count before either writes it: it counts one of them only, and when
    both have ended it is -1.  From then on [r_thread_wait_last] never returns, although no
    thread is left. *)
Lemma lost_update_hangs :
  ∃ es s, thread_run es threads_init = Some s ∧ Forall (λ p, p = Ended) (threads s) ∧
    ∀ turns s' returned, r_thread_wait_last turns s = Some (s', returned) →
      Forall (λ es, ∀ e, e ∈ es → ∀ created, e ≠ Fork created) turns → returned = false.
Proof.
  exists [Fork true; Fork true; Step 0 false; Step 1 false; Step 0 false; Step 1 false;
     Step 0 false; Step 0 false; Step 0 false; Step 1 false; Step 1 false; Step 1 false].
  eexists. split; [vm_compute; reflexivity|]. split; [by repeat constructor|].
  induction turns as [|es turns IH]; intros s' returned Hrun Hno; [by injection Hrun|].
  apply Forall_cons in Hno as [Hes Hno]. destruct es as [|[created|t exits] es].
  - by apply (IH s').
  - by destruct (Hes (Fork created) ltac:(left) created).
  - cbn in Hrun. by destruct t as [|[|t]].
Qed.

(** A thread that was created and has not counted itself is not waited for: the wait returns,
    and the thread runs its function afterwards. *)
Lemma wait_returns_early :
  ∃ s s', thread_run [Fork true] threads_init = Some s ∧ r_thread_wait_last [[]] s = Some (s, true) ∧
    thread_run [Step 0 false; Step 0 false] s = Some s' ∧ Body ∈ threads s'.
Proof. do 2 eexists. split; [reflexivity|]. split; [reflexivity|]. split; [reflexivity|]. by left. Qed.

(** A thread that ends by [r_thread_exit], and one that could not be created, keep their
    block. *)
Lemma helpers_left :
  helpers <$> thread_run [Fork true; Step 0 true; Step 0 true; Step 0 true; Step 0 true] threads_init = Some 1 ∧
  helpers <$> thread_run [Fork false] threads_init = Some 1 ∧
  helpers <$> thread_run [Fork true; Step 0 false; Step 0 false; Step 0 false; Step 0 false; Step 0 false] threads_init = Some 0.
Proof. done. Qed.

(** ** Read-write locks and condition variables *)

(** The calls into the thread library, each of which answers zero or an error, and
    [cond_mutex_inited].  A lock or condition variable is named by its block of memory. *)
Inductive pthread_call :=
| RwlockInit (b : Z) | RwlockDestroy (b : Z) | RwlockUnlock (b : Z) | RwlockRdlock (b : Z) | RwlockWrlock (b : Z)
| MutexInit | MutexLock | MutexUnlock
| CondInit (b : Z) | CondWait (b : Z) | CondSignal (b : Z).

Record sync_state := SState {
  cond_mutex_inited : bool;
  sync_blocks : Z;
  pthread_answers : list Z;
  pthread_calls : list (pthread_call * Z);
  sync_mem : list bool;
}.

#[export] Instance sync_alloc : HasAlloc sync_state := {
  alloc_answers := sync_mem;
  set_alloc_answers l s := SState (cond_mutex_inited s) (sync_blocks s) (pthread_answers s) (pthread_calls s) l;
}.
#[export] Instance sync_alloc_laws : AllocLaws sync_state.
Proof. split; [done|done|by intros []]. Qed.

Abbreviation SM := (M sync_state).

(** The answer, zero when they are used up; the call is logged with it. *)
Definition pthread (c : pthread_call) : SM Z := λ s,
  let r := default 0 (head (pthread_answers s)) in
  Ok r (SState (cond_mutex_inited s) (sync_blocks s) (tail (pthread_answers s)) (pthread_calls s ++ [(c, r)]) (sync_mem s)).

Definition new_block : SM Z := λ s,
  Ok (sync_blocks s) (SState (cond_mutex_inited s) (sync_blocks s + 1) (pthread_answers s) (pthread_calls s) (sync_mem s)).

Definition r_rwlock_create : SM Z :=
  alloc_or_abort;;
  b ← new_block;
  r ← pthread (RwlockInit b);
  if negb (r =? 0) then abort R_INTERNAL else mret b.

(** The block is not freed, and [*lock] not cleared. *)
Definition r_rwlock_destroy (lock : option Z) : SM unit :=
  match lock with None => mret () | Some b => _ ← pthread (RwlockDestroy b); mret () end.

Definition R_RWLOCK_UNLOCK : Z := 0.
Definition R_RWLOCK_RLOCK : Z := 1.
Definition R_RWLOCK_WLOCK : Z := 2.
Definition or_internal (m : SM Z) : SM unit := r ← m; if negb (r =? 0) then abort R_INTERNAL else mret ().
Definition r_rwlock_lock (lock : Z) (action : Z) : SM unit :=
  if action =? R_RWLOCK_UNLOCK then or_internal (pthread (RwlockUnlock lock))
  else if action =? R_RWLOCK_RLOCK then or_internal (pthread (RwlockRdlock lock))
  else if action =? R_RWLOCK_WLOCK then or_internal (pthread (RwlockWrlock lock))
  else abort R_BAD_ARGS.

Definition _init_cond_mutex : SM unit :=
  s ← get;
  if cond_mutex_inited s then mret ()
  else
    or_internal (pthread MutexInit);;
    modify (λ s, SState true (sync_blocks s) (pthread_answers s) (pthread_calls s) (sync_mem s)).

(** [malloc] is not checked: the library is given a null pointer when it fails. *)
Definition r_cond_init : SM Z :=
  ok ← alloc_ok;
  if (ok : bool) then b ← new_block; or_internal (pthread (CondInit b));; mret b else undef.

(** [if(!cond_mutex_inited) if(_init_cond_mutex()) ABORT(R_INTERNAL);] *)
Definition have_cond_mutex : SM unit :=
  s ← get;
  if cond_mutex_inited s then mret ()
  else r ← catch _init_cond_mutex; match r with inl _ => abort R_INTERNAL | inr _ => mret () end.

(** [if(pthread_...(...)) { pthread_mutex_unlock(&cond_mutex); ABORT(R_INTERNAL); }] *)
Definition or_unlock (m : SM Z) : SM unit :=
  r ← m; if negb (r =? 0) then _ ← pthread MutexUnlock; abort R_INTERNAL else mret ().

Definition r_cond_wait (cond : Z) : SM unit :=
  have_cond_mutex;;
  or_internal (pthread MutexLock);;
  or_unlock (pthread (CondWait cond));;
  or_internal (pthread MutexUnlock).
Definition r_cond_signal (cond : Z) : SM unit :=
  have_cond_mutex;;
  or_internal (pthread MutexLock);;
  or_unlock (pthread (CondSignal cond));;
  or_internal (pthread MutexUnlock).

(** Of the calls in a log that succeeded, locking takes the mutex and unlocking gives it back;
    waiting gives it back and takes it again. *)
Fixpoint mutex_held (held : bool) (calls : list (pthread_call * Z)) : bool :=
  match calls with
  | [] => held
  | (MutexLock, r) :: calls' => mutex_held (if r =? 0 then true else held) calls'
  | (MutexUnlock, r) :: calls' => mutex_held (if r =? 0 then false else held) calls'
  | _ :: calls' => mutex_held held calls'
  end.
Lemma mutex_held_app held a b : mutex_held held (a ++ b) = mutex_held (mutex_held held a) b.
Proof. revert held. induction a as [|[c r] a IH]; intros held; [done|]. by destruct c; cbn. Qed.

(** Both operations, around the call they are for. *)
Definition locked (op : pthread_call) : SM unit :=
  have_cond_mutex;;
  or_internal (pthread MutexLock);;
  or_unlock (pthread op);;
  or_internal (pthread MutexUnlock).

Definition waits_or_signals (op : pthread_call) : bool := match op with CondWait _ | CondSignal _ => true | _ => false end.
Definition unlocks_work (calls : list (pthread_call * Z)) : Prop := ∀ r, (MutexUnlock, r) ∈ calls → r = 0.

(** The calls made by the run of an operation that ends with a status, or with success. *)
Definition makes (m : SM unit) (s : sync_state) (Q : option Z → list (pthread_call * Z) → Prop) : Prop :=
  wp m s (λ _ s', ∃ new, pthread_calls s' = pthread_calls s ++ new ∧ Q None new)
    (λ r s', ∃ new, pthread_calls s' = pthread_calls s ++ new ∧ Q (Some r) new).

Lemma makes_bind m k s (Q Q' : option Z → list (pthread_call * Z) → Prop) :
  makes m s Q → (∀ r new, Q (Some r) new → Q' (Some r) new) →
  (∀ s1 new, Q None new → makes k s1 (λ r more, Q' r (new ++ more))) →
  makes (m;; k) s Q'.
Proof.
  unfold makes. intros Hm Herr Hok. apply wp_bind. eapply wp_mono; [exact Hm| |].
  - intros [] s1 (new & Hs1 & HQ). eapply wp_mono; [by apply (Hok s1 new)|cbn..].
    + intros _ s2 (more & Hs2 & HQ'). exists (new ++ more). by rewrite Hs2, Hs1, app_assoc.
    + intros r s2 (more & Hs2 & HQ'). exists (new ++ more). by rewrite Hs2, Hs1, app_assoc.
  - intros r s1 (new & Hs1 & HQ). exists new. split; [done|by apply Herr].
Qed.

Lemma or_internal_makes c s :
  makes (or_internal (pthread c)) s (λ st new, ∃ a, new = [(c, a)] ∧ st = if a =? 0 then None else Some R_INTERNAL).
Proof.
  unfold makes, or_internal. apply wp_bind. unfold wp, pthread. destruct (Z.eqb_spec (default 0 (head (pthread_answers s))) 0) as [Ha|Ha]; cbn.
  - exists [(c, default 0 (head (pthread_answers s)))]. split; [done|]. eexists. split; [done|]. by rewrite Ha.
  - exists [(c, default 0 (head (pthread_answers s)))]. split; [done|]. eexists. split; [done|]. by rewrite (proj2 (Z.eqb_neq _ _)).
Qed.

Lemma or_unlock_makes c s :
  makes (or_unlock (pthread c)) s (λ st new, ∃ a, if a =? 0 then new = [(c, a)] ∧ st = None
    else ∃ b, new = [(c, a); (MutexUnlock, b)] ∧ st = Some R_INTERNAL).
Proof.
  unfold makes, or_unlock. apply wp_bind. unfold wp at 1. unfold pthread at 1.
  destruct (default 0 (head (pthread_answers s)) =? 0) eqn:Ha; cbn [negb].
  - eexists. split; [reflexivity|]. eexists. by rewrite Ha.
  - apply wp_bind. unfold wp, pthread. cbn. eexists. split; [rewrite <- app_assoc; reflexivity|]. eexists. rewrite Ha. by eexists.
Qed.

Lemma have_cond_mutex_makes s :
  makes have_cond_mutex s (λ st new,
    if cond_mutex_inited s then new = [] ∧ st = None
    else ∃ a, new = [(MutexInit, a)] ∧ st = if a =? 0 then None else Some R_INTERNAL).
Proof.
  unfold makes, have_cond_mutex. apply wp_bind, wp_get. destruct (cond_mutex_inited s) eqn:Hi; [by exists []; rewrite app_nil_r|].
  apply wp_bind, wp_catch. unfold _init_cond_mutex. apply wp_bind, wp_get. rewrite Hi. apply wp_bind.
  eapply wp_mono; [apply or_internal_makes|cbv beta..].
  - intros _ s' (new & Hs & a & -> & Ha). apply wp_modify. cbv beta iota. exists [(MutexInit, a)]. split; [done|]. by eexists.
  - intros r s' (new & Hs & a & -> & Ha). apply wp_abort. exists [(MutexInit, a)]. split; [done|]. eexists. split; [done|].
    by destruct (a =? 0).
Qed.

(** What an operation makes of the mutex: with all answers zero the three calls in their order,
    after setting the mutex up when that has not been done; else [R_INTERNAL]. *)
Definition keeps_mutex (inited : bool) (op : pthread_call) (st : option Z) (new : list (pthread_call * Z)) : Prop :=
  (Forall (λ '(_, r), r = 0) new ↔ st = None) ∧
  (st = None → new.*1 = (if inited then [] else [MutexInit]) ++ [MutexLock; op; MutexUnlock]) ∧
  (∀ r, st = Some r → r = R_INTERNAL) ∧
  (unlocks_work new → mutex_held false new = false).

(** Where an operation can end: at the set-up, at the lock, at the call itself, or at the end. *)
Inductive ends (op : pthread_call) : option Z → list (pthread_call * Z) → Prop :=
| ends_lock a : a ≠ 0 → ends op (Some R_INTERNAL) [(MutexLock, a)]
| ends_call a b : a ≠ 0 → ends op (Some R_INTERNAL) [(MutexLock, 0); (op, a); (MutexUnlock, b)]
| ends_unlock a : ends op (if a =? 0 then None else Some R_INTERNAL) [(MutexLock, 0); (op, 0); (MutexUnlock, a)].

Lemma body_makes op s :
  makes (or_internal (pthread MutexLock);; or_unlock (pthread op);; or_internal (pthread MutexUnlock)) s (ends op).
Proof.
  eapply makes_bind; [apply or_internal_makes|cbv beta..].
  { intros r new (a & -> & Ha). destruct (Z.eqb_spec a 0); [done|]. injection Ha as ->. by apply ends_lock. }
  intros s1 new (a & -> & Ha). destruct (Z.eqb_spec a 0) as [Ha0|Ha0]; [subst a|done].
  eapply makes_bind; [apply or_unlock_makes|cbv beta..].
  { intros r new (a & Hr). destruct (Z.eqb_spec a 0); [by destruct Hr|]. destruct Hr as (b & -> & [= ->]). by apply ends_call. }
  intros s2 new (a & Hr). destruct (Z.eqb_spec a 0) as [Ha0|Ha0]; [subst a|by destruct Hr as (b & _ & ?)]. destruct Hr as [-> _].
  unfold makes. eapply wp_mono; [apply or_internal_makes|cbv beta..].
  - intros _ s3 (new3 & Hs & z & -> & Hz). exists [(MutexUnlock, z)]. split; [done|]. rewrite Hz. apply (ends_unlock op z).
  - intros r s3 (new3 & Hs & z & -> & Hz). exists [(MutexUnlock, z)]. split; [done|]. rewrite Hz. apply (ends_unlock op z).
Qed.

Lemma ends_keeps op st new pre (inited : bool) :
  waits_or_signals op = true → ends op st new → (if inited then pre = [] else pre = [(MutexInit, 0)]) →
  keeps_mutex inited op st (pre ++ new).
Proof.
  intros Hop Hends Hpre.
  assert (Hheld : ∀ calls, mutex_held false (pre ++ calls) = mutex_held false calls) by (destruct inited; by subst).
  assert (Hall : Forall (λ '(_, r), r = 0) (pre ++ new) ↔ Forall (λ '(_, r), r = 0) new).
  { rewrite Forall_app. destruct inited; subst; [naive_solver|]. rewrite Forall_cons. naive_solver. }
  assert (Hfst : pre.*1 = if inited then [] else [MutexInit]) by (destruct inited; by subst).
  unfold keeps_mutex. rewrite Hall, Hheld, fmap_app, Hfst. destruct Hends as [a Ha|a b Ha|a].
  - rewrite Forall_cons. split_and!; [naive_solver|done|by intros ? [= <-]|].
    intros _. cbn. by rewrite (proj2 (Z.eqb_neq _ _)).
  - rewrite !Forall_cons. split_and!; [naive_solver|done|by intros ? [= <-]|].
    intros Hw. rewrite (Hw b); [by destruct op|]. apply elem_of_app. right. do 2 right. left.
  - rewrite !Forall_cons. destruct (Z.eqb_spec a 0) as [->|Ha]; split_and!; try done; [by destruct op|naive_solver|by intros ? [= <-]|].
    intros Hw. destruct Ha. apply Hw, elem_of_app. right. do 2 right. left.
Qed.

Lemma locked_makes op s : waits_or_signals op = true → makes (locked op) s (keeps_mutex (cond_mutex_inited s) op).
Proof.
  intros Hop. unfold locked. eapply makes_bind; [apply have_cond_mutex_makes|cbv beta..].
  - intros r new. destruct (cond_mutex_inited s); [by intros []|]. intros (a & -> & Ha). destruct (Z.eqb_spec a 0) as [|Ha0]; [done|].
    injection Ha as ->. unfold keeps_mutex. rewrite Forall_cons. split_and!; [naive_solver|done|by intros ? [= <-]|done].
  - intros s1 new Hnew. assert (Hpre : if cond_mutex_inited s then new = [] else new = [(MutexInit, 0)]).
    { destruct (cond_mutex_inited s); [by destruct Hnew|]. destruct Hnew as (a & -> & Ha). destruct (Z.eqb_spec a 0); [by subst|done]. }
    unfold makes. eapply wp_mono; [apply body_makes|cbv beta..].
    + intros _ s2 (more & Hs2 & He). exists more. split; [done|]. by apply ends_keeps.
    + intros r s2 (more & Hs2 & He). exists more. split; [done|]. by apply ends_keeps.
Qed.

(** Waiting on a condition variable and signalling it set the common mutex up when that has not
    been done, lock it, make their call and unlock it; they succeed exactly when every call
    does, fail with [R_INTERNAL] otherwise, and on every path, unless unlocking itself fails,
    the mutex is given back. *)
Theorem cond_calls cond s :
  makes (r_cond_wait cond) s (keeps_mutex (cond_mutex_inited s) (CondWait cond)) ∧
  makes (r_cond_signal cond) s (keeps_mutex (cond_mutex_inited s) (CondSignal cond)).
Proof. split; by apply (locked_makes (_ cond)). Qed.
