(* ===== verification/FileUtil.v ===== *)
(** * File utilities (src/util/util.c, filename.c)

    Names of files, appending with a bound, writing and reading everything, removing a tree of
    files and writing a process number.  What the operating system accepts or delivers at a
    time is a class; files and directories are a set of paths. *)

From Stdlib Require Import Ascii.
From S2P Require Import Prelude CString Numbers.
Local Open Scope Z_scope.

(** ** Names and strings *)

(** [mem] is what [RMALLOC] answers, a buffer of [len] bytes.  An empty [base] is read one
    character before its start. *)
Definition nr_get_filename (mem : bool) (base name : cstring) : option (Z + cstring) :=
  let len := (strlen base + strlen name + 2)%nat in
  if negb mem then Some (inl (abort_code R_NO_MEMORY))
  else
    match last base with
    | None => None
    | Some c =>
        let ret := if negb (bool_decide (c = "/"%char)) then base ++ "/"%char :: name else base ++ name in
        if (len <? strlen ret + 1)%nat then None else Some (inr ret)
    end.

(** The first loop of [strlcat]: how far the string in [dst] goes, up to [n]. *)
Fixpoint find_end (dst : list Z) (n : nat) : option nat :=
  match n with
  | O => Some O
  | S n' => match dst with [] => None | c :: dst' => if c =? 0 then Some O else S <$> find_end dst' n' end
  end.

(** The second loop, with [d] at [pos]. *)
Definition put_at (dst : list Z) (pos : nat) (c : Z) : option (list Z) :=
  if (pos <? length dst)%nat then Some (<[pos := c]> dst) else None.
Fixpoint cat_loop (s : cstring) (dst : list Z) (pos n : nat) : option (list Z) :=
  match s with
  | [] => put_at dst pos 0
  | c :: s' =>
      if negb (n =? 1)%nat then dst' ← put_at dst pos (uchar c); cat_loop s' dst' (S pos) (n - 1)
      else cat_loop s' dst pos n
  end.

(** The bytes of [dst] afterwards and the length returned. *)
Definition strlcat (dst : list Z) (src : cstring) (siz : nat) : option (list Z * nat) :=
  dlen ← find_end dst siz;
  if (siz - dlen =? 0)%nat then Some (dst, (dlen + strlen src)%nat)
  else dst' ← cat_loop src dst dlen (siz - dlen); Some (dst', (dlen + strlen src)%nat).

(** ** Writing and reading everything *)

(** A stream or socket: [fwrite] accepts a part of the data, and [read] delivers at most as
    many bytes as asked for, or answers zero or less. *)
Class Channel (C : Type) := {
  chan_bytes : C → list Z;
  fwrite : C → list Z → nat * C;
  sock_read : C → nat → (Z + list Z) * C;
}.
Class ChannelLaws (C : Type) `{Channel C} := {
  fwrite_accepts c buf r c' : fwrite c buf = (r, c') → (r <= length buf)%nat ∧ chan_bytes c' = chan_bytes c ++ take r buf;
  sock_read_delivers c n bs c' : sock_read c n = (inr bs, c') → (1 <= length bs <= n)%nat ∧ chan_bytes c = bs ++ chan_bytes c';
  sock_read_fails c n r c' : sock_read c n = (inl r, c') → r <= 0 ∧ chan_bytes c' = chan_bytes c;
}.

Section io.
Context {C : Type} `{Channel C}.

(** [while(len)]; the data and a length beyond them, or a negative one, are undefined. *)
Fixpoint fwrite_loop (fuel : nat) (c : C) (buf : list Z) (len : Z) : option (Z * C) :=
  if len =? 0 then Some (0, c)
  else
    match fuel with
    | O => None
    | S fuel' =>
        if (len <? 0) || (Z.of_nat (length buf) <? len) then None
        else
          let '(r, c') := fwrite c (take (Z.to_nat len) buf) in
          if (r =? 0)%nat then Some (abort_code R_IO_ERROR, c')
          else fwrite_loop fuel' c' (drop r buf) (len - Z.of_nat r)
    end.
Definition nr_fwrite_all (c : C) (buf : list Z) (len : Z) : option (Z * C) := fwrite_loop (S (Z.to_nat len)) c buf len.

(** The status, the bytes written to [buf], and the socket. *)
Fixpoint read_loop (fuel : nat) (c : C) (len : Z) (got : list Z) : option (Z * list Z * C) :=
  if len =? 0 then Some (0, got, c)
  else
    match fuel with
    | O => None
    | S fuel' =>
        if len <? 0 then None
        else
          match sock_read c (Z.to_nat len) with
          | (inl _, c') => Some (abort_code R_EOD, got, c')
          | (inr bs, c') => read_loop fuel' c' (len - Z.of_nat (length bs)) (got ++ bs)
          end
    end.
Definition nr_read_data (c : C) (len : Z) : option (Z * list Z * C) := read_loop (S (Z.to_nat len)) c len [].
End io.

(** ** Files *)

Abbreviation path := (list cstring).

(** A path has its last name first.  [remove] refuses what is not there and a directory that is
    not empty. *)
Definition in_dir (p q : path) : bool := match q with _ :: p' => bool_decide (p' = p) | [] => false end.
Definition empty_dir (fs : gset path) (p : path) : bool := forallb (λ q, negb (in_dir p q)) (elements fs).
Definition remove (fs : gset path) (p : path) : bool * gset path :=
  if bool_decide (p ∈ fs) && empty_dir fs p then (true, fs ∖ {[p]}) else (false, fs).

(** What [fts_read] reports: a directory before and after what is in it, a file, an entry for
    the directory itself or its parent, an entry that could not be read. *)
Inductive fts_info := FTS_D | FTS_DP | FTS_F | FTS_DOT | FTS_ERR.

(** The loop of [nr_rm_tree]: whether a removal failed. *)
Fixpoint rm_loop (entries : list (fts_info * path)) (fs : gset path) : bool * gset path :=
  match entries with
  | [] => (false, fs)
  | (info, p) :: entries' =>
      match info with
      | FTS_D | FTS_DOT | FTS_ERR => rm_loop entries' fs
      | _ =>
          let '(removed, fs') := remove fs p in
          let '(failed, fs'') := rm_loop entries' fs' in
          (negb removed || failed, fs'')
      end
  end.

(** [opened] are the entries of [fts_open] and [fts_read], if the tree could be opened. *)
Definition nr_rm_tree (opened : option (list (fts_info * path))) (fs : gset path) : Z * gset path :=
  match opened with
  | None => (abort_code R_FAILED, fs)
  | Some entries => let '(failed, fs') := rm_loop entries fs in if failed then (abort_code R_FAILED, fs') else (0, fs')
  end.

(** Contents and mode of a file. *)
Definition MODE_0444 : Z := 0x124.
Definition nr_write_pid_file (pid_filename : option cstring) (opens : bool) (pid : Z) (files : gmap cstring (cstring * Z)) :
    Z * gmap cstring (cstring * Z) :=
  match pid_filename with
  | None => (abort_code R_BAD_ARGS, files)
  | Some f =>
      let files := delete f files in
      if negb opens then (abort_code R_NOT_FOUND, files)
      else (0, <[f := (print_int pid ++ ["010"%char], MODE_0444)]> files)
  end.

(** ** Names and strings: what they give *)

(** The directory and the name with exactly one separator added when there is none, in a buffer
    that is large enough. *)
Lemma get_filename_run base c name :
  nr_get_filename true (base ++ [c]) name =
  Some (inr (base ++ [c] ++ (if bool_decide (c = "/"%char) then [] else ["/"%char]) ++ name)).
Proof.
  unfold nr_get_filename. cbn [negb]. rewrite last_snoc. unfold strlen.
  case_bool_decide; cbn [negb]; rewrite (proj2 (Nat.ltb_ge _ _)) by (rewrite ?length_app; cbn; lia); by rewrite <- app_assoc.
Qed.

(** An empty directory name is read before its start. *)
Lemma get_filename_empty name : nr_get_filename true [] name = None.
Proof. done. Qed.

Lemma find_end_string s rest n :
  no_nul s → find_end (cbytes s ++ rest) n = if (strlen s <? n)%nat then Some (strlen s) else Some n.
Proof.
  intros Hs. revert n. induction Hs as [|c s Hc Hs IH]; intros [|n]; cbn; [done..|done|].
  rewrite (proj2 (Z.eqb_neq _ _)) by done. unfold cbytes in IH. rewrite IH. unfold strlen. cbn.
  by destruct n; [|destruct (length s <=? n)%nat].
Qed.

Lemma put_at_mid pre c d post : put_at (pre ++ c :: post) (length pre) d = Some (pre ++ d :: post).
Proof.
  unfold put_at. rewrite (proj2 (Nat.ltb_lt _ _)) by (rewrite length_app; cbn; lia).
  rewrite insert_app_r_alt, Nat.sub_diag by lia. done.
Qed.

(** What the second loop leaves behind [pre]: the part of the string there is room for, and
    the terminator. *)
Lemma cat_loop_run s pre post n :
  (1 <= n <= length post)%nat →
  cat_loop s (pre ++ post) (length pre) n = Some (pre ++ cbytes (take (n - 1) s) ++ drop (S (length (take (n - 1) s))) post).
Proof.
  revert pre post n. induction s as [|c s IH]; intros pre post n Hn; destruct post as [|p post]; try (cbn in Hn; lia).
  - rewrite take_nil. cbn [cat_loop]. by rewrite put_at_mid.
  - cbn [cat_loop]. destruct (Nat.eqb_spec n 1) as [->|Hn1]; cbn [negb].
    + rewrite IH by done. done.
    + rewrite put_at_mid. cbn [mbind option_bind].
      replace (S (length pre)) with (length (pre ++ [uchar c])) by (rewrite length_app; cbn; lia).
      change (pre ++ uchar c :: post) with (pre ++ [uchar c] ++ post). rewrite app_assoc, IH by (cbn in Hn; lia).
      destruct n as [|[|n]]; [lia|done|]. cbn. rewrite Nat.sub_0_r. by rewrite <- app_assoc.
Qed.

(** C39: [strlcat] puts as much of [src] behind the string in [dst] as [siz] bytes hold, always
    terminates it unless [dst] has no terminator within them, in which case nothing is written,
    and returns the length it tried to create, so that a result of [siz] or more tells that
    the string was truncated.  It never writes beyond [siz]. *)
Theorem strlcat_spec d src rest siz :
  no_nul d → (siz <= length (cbytes d ++ rest))%nat →
  ∃ dst', strlcat (cbytes d ++ rest) src siz = Some (dst', (Nat.min siz (strlen d) + strlen src)%nat) ∧
    length dst' = length (cbytes d ++ rest) ∧ drop siz dst' = drop siz (cbytes d ++ rest) ∧
    if (strlen d <? siz)%nat then ∃ rest', dst' = cbytes (take (siz - 1) (d ++ src)) ++ rest' else dst' = cbytes d ++ rest.
Proof.
  intros Hd Hsiz. unfold strlcat. rewrite find_end_string by done. destruct (Nat.ltb_spec (strlen d) siz) as [Hlt|Hge]; cbn [mbind option_bind].
  - rewrite (proj2 (Nat.eqb_neq _ _)) by lia. unfold strlen in *.
    assert (Hmem : cbytes d ++ rest = (uchar <$> d) ++ 0 :: rest) by (unfold cbytes; by rewrite <- app_assoc).
    assert (Hlen : length (cbytes d ++ rest) = (length d + S (length rest))%nat) by (rewrite Hmem, length_app, length_fmap; done).
    pose proof (cat_loop_run src (uchar <$> d) (0 :: rest) (siz - length d)) as Hcat. rewrite length_fmap, <- Hmem in Hcat.
    rewrite Hcat by (cbn [length]; lia). cbn [mbind option_bind].
    assert (Htake : length (take (siz - length d - 1) src) = Nat.min (siz - length d - 1) (length src)) by apply length_take.
    eexists. split_and!; [by rewrite Nat.min_r by lia| | |].
    + rewrite !length_app, length_fmap, !length_cbytes, length_drop. unfold strlen. cbn [length]. lia.
    + rewrite Hmem, !drop_app, !length_fmap. rewrite !(drop_ge (uchar <$> d)) by (rewrite length_fmap; lia).
      rewrite (drop_ge (cbytes _)) by (rewrite length_cbytes; unfold strlen; lia). cbn [app]. rewrite drop_drop, length_cbytes. unfold strlen.
      f_equal. lia.
    + rewrite take_app, (take_ge d) by lia. replace (siz - 1 - length d)%nat with (siz - length d - 1)%nat by lia.
      eexists. unfold cbytes. rewrite fmap_app, <- !app_assoc. done.
  - rewrite Nat.sub_diag. cbn [Nat.eqb]. eexists. split_and!; [by rewrite Nat.min_l by lia|done..].
Qed.

Lemma strlcat_spec_witness :
  ∃ dst', strlcat (cbytes $"ab" ++ [1; 1; 1]) $"cdef" 5 = Some (dst', (Nat.min 5 (strlen $"ab") + strlen $"cdef")%nat) ∧
    length dst' = length (cbytes $"ab" ++ [1; 1; 1]) ∧ drop 5 dst' = drop 5 (cbytes $"ab" ++ [1; 1; 1]) ∧
    if (strlen $"ab" <? 5)%nat then ∃ rest', dst' = cbytes (take (5 - 1) ($"ab" ++ $"cdef")) ++ rest' else dst' = cbytes $"ab" ++ [1; 1; 1].
Proof. apply (strlcat_spec $"ab" $"cdef" [1; 1; 1] 5); [repeat constructor; vm_compute; discriminate|vm_compute; lia]. Defined.

(** ** Writing and reading: what arrives *)

Section io_facts.
Context {C : Type} `{ChannelLaws C}.
Implicit Types c : C.

(** The whole data are written, or a part of them and the status is [R_IO_ERROR]. *)
Lemma fwrite_loop_run fuel c buf len :
  0 <= len <= Z.of_nat (length buf) → len < Z.of_nat fuel →
  ∃ st c' k, fwrite_loop fuel c buf len = Some (st, c') ∧ chan_bytes c' = chan_bytes c ++ take k buf ∧
    Z.of_nat k <= len ∧ (st = 0 ∧ Z.of_nat k = len ∨ st = R_IO_ERROR).
Proof.
  revert c buf len. induction fuel as [|fuel IH]; intros c buf len Hlen Hfuel; [lia|]. cbn [fwrite_loop].
  destruct (Z.eqb_spec len 0) as [->|Hne].
  { exists 0, c, 0%nat. split_and!; [done|by rewrite take_0, app_nil_r|lia|by left]. }
  rewrite !(proj2 (Z.ltb_ge _ _)) by lia. cbn [orb].
  destruct (fwrite c (take (Z.to_nat len) buf)) as [r c1] eqn:Hw. destruct (fwrite_accepts _ _ _ _ Hw) as [Hr Hb].
  rewrite length_take in Hr. rewrite take_take in Hb. destruct (Nat.eqb_spec r 0) as [->|Hr0].
  - exists R_IO_ERROR, c1, 0%nat. split_and!; [done|by rewrite Hb|lia|by right].
  - destruct (IH c1 (drop r buf) (len - Z.of_nat r)) as (st & c' & k & Hrun & Hb' & Hk & Hst); [rewrite length_drop; lia|lia|].
    exists st, c', (r + k)%nat. split_and!; [done| |lia|by destruct Hst as [[-> Hk']|]; [left; split; [|lia]|right]].
    rewrite Hb', Hb, Nat.min_l, <- app_assoc by lia. f_equal. rewrite take_take_drop. done.
Qed.

(** Every byte asked for is read, or a part of them and the status is [R_EOD]. *)
Lemma read_loop_run fuel c len got :
  0 <= len < Z.of_nat fuel →
  ∃ st c' bs, read_loop fuel c len got = Some (st, got ++ bs, c') ∧ chan_bytes c = bs ++ chan_bytes c' ∧
    (st = 0 ∧ Z.of_nat (length bs) = len ∨ st = R_EOD ∧ Z.of_nat (length bs) < len).
Proof.
  revert c len got. induction fuel as [|fuel IH]; intros c len got Hlen; [lia|]. cbn [read_loop].
  destruct (Z.eqb_spec len 0) as [->|Hne].
  { exists 0, c, []. rewrite app_nil_r. split_and!; [done|done|by left]. }
  rewrite !(proj2 (Z.ltb_ge _ _)) by lia. destruct (sock_read c (Z.to_nat len)) as [[r|bs] c1] eqn:Hr.
  - destruct (sock_read_fails _ _ _ _ Hr) as [_ Hb]. exists R_EOD, c1, []. rewrite app_nil_r. split_and!; [done|by rewrite Hb|].
    right. split; [done|]. cbn. lia.
  - destruct (sock_read_delivers _ _ _ _ Hr) as [Hl Hb].
    destruct (IH c1 (len - Z.of_nat (length bs)) (got ++ bs)) as (st & c' & bs' & Hrun & Hb' & Hst); [lia|].
    exists st, c', (bs ++ bs'). rewrite Hrun, Hb, Hb', !app_assoc, length_app. split_and!; [done|done|].
    destruct Hst as [[-> ?]|[-> ?]]; [left|right]; (split; [done|lia]).
Qed.

(** C38: However a channel cuts the data, [nr_fwrite_all] and [nr_read_data] end; what was written
    without error to an empty channel and is then read without error is the data; an error says
    that the data went over, or came, in part. *)
Theorem data_transferred c buf :
  chan_bytes c = [] →
  ∃ st c1, nr_fwrite_all c buf (Z.of_nat (length buf)) = Some (st, c1) ∧
    (st = 0 ∧ chan_bytes c1 = buf ∨ st = R_IO_ERROR ∧ chan_bytes c1 `prefix_of` buf) ∧
    ∃ st' bs c2, nr_read_data c1 (Z.of_nat (length buf)) = Some (st', bs, c2) ∧ bs `prefix_of` buf ∧
      (st' = 0 ∧ bs = buf ∧ chan_bytes c2 = [] ∨ st' = R_EOD ∧ (length bs < length buf)%nat).
Proof.
  intros Hc. unfold nr_fwrite_all, nr_read_data.
  destruct (fwrite_loop_run (S (Z.to_nat (Z.of_nat (length buf)))) c buf (Z.of_nat (length buf))) as (st & c1 & k & -> & Hb & Hk & Hst); [lia..|].
  rewrite Hc in Hb. cbn in Hb. exists st, c1. split; [done|]. assert (Hpre : take k buf `prefix_of` buf) by apply prefix_take.
  split. { rewrite Hb. destruct Hst as [[-> ?]| ->]; [left|by right]. split; [done|]. apply take_ge. lia. }
  destruct (read_loop_run (S (Z.to_nat (Z.of_nat (length buf)))) c1 (Z.of_nat (length buf)) []) as (st' & c2 & bs & Hrun & Hb' & Hst'); [lia|].
  exists st', bs, c2. split; [exact Hrun|]. rewrite Hb in Hb'.
  assert (Hbs : bs `prefix_of` buf). { etrans; [|exact Hpre]. rewrite Hb'. by exists (chan_bytes c2). }
  split; [done|]. destruct Hst' as [[-> Hl]|[-> Hl]]; [left|right; split; [done|lia]].
  assert (bs = buf) as ->. { destruct Hbs as [t ->]. rewrite length_app in Hl. destruct t; [by rewrite app_nil_r|cbn in Hl; lia]. }
  split_and!; [done..|]. assert (length (take k buf) = length (buf ++ chan_bytes c2)) as Hlen by (by rewrite Hb').
  rewrite length_app, length_take in Hlen. destruct (chan_bytes c2); [done|cbn in Hlen; lia].
Qed.
End io_facts.

(** A channel that takes three bytes at a time and gives two. *)
Record pipe := Pipe { pipe_bytes : list Z }.
#[export] Instance pipe_channel : Channel pipe := {
  chan_bytes := pipe_bytes;
  fwrite c buf := (Nat.min 3 (length buf), Pipe (pipe_bytes c ++ take 3 buf));
  sock_read c n :=
    match pipe_bytes c with
    | [] => (inl 0, c)
    | bs => if (n =? 0)%nat then (inl 0, c) else (inr (take (Nat.min 2 n) bs), Pipe (drop (Nat.min 2 n) bs))
    end;
}.
#[export] Instance pipe_laws : ChannelLaws pipe.
Proof.
  split.
  - intros c buf r c' [= <- <-]. split; [apply (Nat.le_min_r 3)|]. by destruct buf as [|? [|? [|? buf]]].
  - intros [bs0] n bs c' Hr. cbn [sock_read pipe_channel pipe_bytes] in Hr. destruct bs0 as [|b bs0]; [done|]. destruct (Nat.eqb_spec n 0); [done|]. injection Hr as <- <-.
    cbn [pipe_bytes chan_bytes pipe_channel]. rewrite length_take, take_drop. cbn [length]. split; [|done]. destruct n as [|[|n]]; [done|..]; lia.
  - intros [bs0] n r c' Hr. cbn in Hr. destruct bs0 as [|b bs0]; [by injection Hr as <- <-|]. destruct (Nat.eqb_spec n 0); [by injection Hr as <- <-|done].
Qed.

Lemma data_transferred_witness :
  ∃ st c1, nr_fwrite_all (Pipe []) [1; 2; 3; 4; 5] (Z.of_nat (length [1; 2; 3; 4; 5])) = Some (st, c1) ∧
    (st = 0 ∧ chan_bytes c1 = [1; 2; 3; 4; 5] ∨ st = R_IO_ERROR ∧ chan_bytes c1 `prefix_of` [1; 2; 3; 4; 5]) ∧
    ∃ st' bs c2, nr_read_data c1 (Z.of_nat (length [1; 2; 3; 4; 5])) = Some (st', bs, c2) ∧ bs `prefix_of` [1; 2; 3; 4; 5] ∧
      (st' = 0 ∧ bs = [1; 2; 3; 4; 5] ∧ chan_bytes c2 = [] ∨ st' = R_EOD ∧ (length bs < length [1; 2; 3; 4; 5])%nat).
Proof. apply (data_transferred (Pipe []) [1; 2; 3; 4; 5]). reflexivity. Defined.

(** ** Removing a tree *)

Inductive file := Plain | Directory (entries : list (cstring * file)).

(** The order in which [fts_read] reports a tree, and the paths in it, a directory after what
    is in it. *)
Fixpoint fts (p : path) (f : file) : list (fts_info * path) :=
  match f with
  | Plain => [(FTS_F, p)]
  | Directory es => (FTS_D, p) :: flat_map (λ e, fts (e.1 :: p) e.2) es ++ [(FTS_DP, p)]
  end.
Fixpoint post (p : path) (f : file) : list path :=
  match f with
  | Plain => [p]
  | Directory es => flat_map (λ e, post (e.1 :: p) e.2) es ++ [p]
  end.

(** The names in a directory are different. *)
Fixpoint distinct (f : file) : Prop :=
  match f with
  | Plain => True
  | Directory es => NoDup es.*1 ∧ fold_right (λ e acc, distinct e.2 ∧ acc) True es
  end.

Section file_ind.
Context (P : file → Prop) (HPlain : P Plain) (HDirectory : ∀ es, Forall (λ e, P e.2) es → P (Directory es)).
Fixpoint file_nested_ind (f : file) : P f :=
  match f with
  | Plain => HPlain
  | Directory es =>
      HDirectory es ((fix go (es : list (cstring * file)) : Forall (λ e, P e.2) es :=
        match es with [] => Forall_nil_2 _ | e :: es' => Forall_cons_2 _ e es' (file_nested_ind e.2) (go es') end) es)
  end.
End file_ind.

Lemma post_below p f q : q ∈ post p f → p `suffix_of` q.
Proof.
  revert p. induction f as [|es IH] using file_nested_ind; intros p Hq; cbn in Hq; [apply list_elem_of_singleton in Hq as ->; done|].
  apply elem_of_app in Hq as [Hq|Hq]; [|apply list_elem_of_singleton in Hq as ->; done].
  apply list_elem_of_In, in_flat_map in Hq as (e & He & Hq). apply list_elem_of_In in He, Hq.
  rewrite Forall_forall in IH. specialize (IH e He _ Hq). etrans; [|exact IH]. by exists [e.1].
Qed.

Lemma same_name (n n' : cstring) (p q : path) : (n :: p) `suffix_of` q → (n' :: p) `suffix_of` q → n = n'.
Proof.
  intros [k ->] [k' Heq]. change (n :: p) with ([n] ++ p) in Heq. change (n' :: p) with ([n'] ++ p) in Heq.
  rewrite !app_assoc in Heq. apply app_inv_tail in Heq. apply app_inj_2 in Heq as [_ Heq]; [by injection Heq|done].
Qed.

Lemma not_below (n : cstring) (p : path) : ¬ (n :: p) `suffix_of` p.
Proof. intros Hs%suffix_length. cbn in Hs. lia. Qed.

Lemma rm_loop_app a b fs :
  rm_loop (a ++ b) fs = let '(f1, fs1) := rm_loop a fs in let '(f2, fs2) := rm_loop b fs1 in (f1 || f2, fs2).
Proof.
  revert fs. induction a as [|[info p] a IH]; intros fs; [cbn; by destruct (rm_loop b fs)|].
  cbn [app rm_loop]. destruct info; rewrite ?IH; try done.
  - destruct (remove fs p) as [r fs1]. rewrite IH. destruct (rm_loop a fs1) as [f1 fs2]. destruct (rm_loop b fs2). by rewrite orb_assoc.
  - destruct (remove fs p) as [r fs1]. rewrite IH. destruct (rm_loop a fs1) as [f1 fs2]. destruct (rm_loop b fs2). by rewrite orb_assoc.
Qed.

(** Below [p] the file system has exactly the tree [f]. *)
Definition has_tree (fs : gset path) (p : path) (f : file) : Prop := ∀ q, p `suffix_of` q → q ∈ fs ↔ q ∈ post p f.

Lemma in_dir_spec p q : in_dir p q = true ↔ ∃ n, q = n :: p.
Proof.
  destruct q as [|n q]; cbn; [split; [done|by intros (? & ?)]|]. rewrite bool_decide_eq_true. split; [intros ->; by exists n|].
  by intros (n' & [= _ ->]).
Qed.

Lemma remove_run fs p : p ∈ fs → (∀ n, n :: p ∉ fs) → remove fs p = (true, fs ∖ {[p]}).
Proof.
  intros Hp Hno. unfold remove. rewrite bool_decide_eq_true_2 by done.
  assert (empty_dir fs p = true) as ->; [|done]. apply forallb_forall. intros q Hq%list_elem_of_In%elem_of_elements.
  apply negb_true_iff, not_true_iff_false. rewrite in_dir_spec. intros (n & ->). by apply (Hno n).
Qed.

Definition removes_tree (f : file) : Prop :=
  ∀ p fs, distinct f → has_tree fs p f → rm_loop (fts p f) fs = (false, fs ∖ list_to_set (post p f)).

Lemma rm_children p es fs :
  Forall (λ e, removes_tree e.2) es → NoDup es.*1 → fold_right (λ e acc, distinct e.2 ∧ acc) True es →
  (∀ e, e ∈ es → has_tree fs (e.1 :: p) e.2) →
  rm_loop (flat_map (λ e, fts (e.1 :: p) e.2) es) fs = (false, fs ∖ list_to_set (flat_map (λ e, post (e.1 :: p) e.2) es)).
Proof.
  revert fs. induction es as [|e es IH]; intros fs Hes Hnd Hd Ht; cbn [flat_map]; [cbn; f_equal; set_solver|].
  apply Forall_cons in Hes as [He Hes]. cbn in Hnd. apply NoDup_cons in Hnd as [Hnew Hnd]. destruct Hd as [Hde Hd].
  rewrite rm_loop_app, He by (done || (apply Ht; by left)). rewrite IH; [|done..|].
  - cbn. f_equal. by rewrite list_to_set_app_L, difference_difference_l_L.
  - intros e' He' q Hq. assert (Hin : e' ∈ e :: es) by (by right).
    rewrite elem_of_difference, elem_of_list_to_set, (Ht e' Hin q Hq). split; [by intros []|]. intros Hp. split; [done|].
    intros Hq'%post_below. destruct Hnew. rewrite (same_name _ _ _ _ Hq' Hq). apply list_elem_of_fmap. by exists e'.
Qed.

Lemma rm_tree_run f : removes_tree f.
Proof.
  induction f as [|es IH] using file_nested_ind; intros p fs Hd Ht.
  - cbn. assert (Hp : p ∈ fs) by (apply Ht; [done|by left]). rewrite remove_run; [cbn; f_equal; set_solver|done|].
    intros n Hn. apply Ht in Hn; [|by exists [n]]. cbn in Hn. apply list_elem_of_singleton in Hn. by apply (f_equal length) in Hn; cbn in Hn; lia.
  - destruct Hd as [Hnd Hd]. cbn [fts post].
    assert (Hchild : ∀ n q, (n :: p) `suffix_of` q → q ∈ fs ↔ q ∈ flat_map (λ e, post (e.1 :: p) e.2) es).
    { intros n q Hq. rewrite (Ht q) by (etrans; [|exact Hq]; by exists [n]). cbn. rewrite elem_of_app, list_elem_of_singleton.
      split; [|by left]. intros [?| ->]; [done|]. by apply not_below in Hq. }
    change ((FTS_D, p) :: ?l) with ([(FTS_D, p)] ++ l). cbn [app rm_loop]. rewrite rm_loop_app, rm_children; [|done..|].
    + cbn [rm_loop]. rewrite remove_run.
      * cbn. f_equal. rewrite list_to_set_app_L, difference_difference_l_L. cbn. by rewrite union_empty_r_L.
      * rewrite elem_of_difference. split; [apply Ht; [done|]; cbn; apply elem_of_app; right; by left|].
        rewrite elem_of_list_to_set. intros (e & _ & Hp%list_elem_of_In%post_below)%list_elem_of_In%in_flat_map. by apply not_below in Hp.
      * intros n. rewrite elem_of_difference, elem_of_list_to_set, (Hchild n) by done. by intros [].
    + intros e He q Hq. rewrite (Hchild e.1 q Hq). split.
      * intros (e' & He' & Hq')%list_elem_of_In%in_flat_map. apply list_elem_of_In in He', Hq'.
        pose proof (same_name _ _ _ _ (post_below _ _ _ Hq') Hq) as Hname. enough (e' = e) by by subst.
        apply list_elem_of_lookup in He as [i Hi], He' as [j Hj].
        enough (j = i) by (subst; congruence). eapply (NoDup_lookup es.*1 j i e.1); [done|..].
        -- by rewrite list_lookup_fmap, Hj, <- Hname.
        -- by rewrite list_lookup_fmap, Hi.
      * intros Hq'. apply list_elem_of_In, in_flat_map. exists e. by split; apply list_elem_of_In.
Qed.

(** C37: Of a tree of files, [nr_rm_tree] removes everything and nothing else: it leaves each
    directory until after what is in it, so that no removal is refused, and succeeds. *)
Theorem rm_tree_removes fs p f :
  distinct f → has_tree fs p f →
  nr_rm_tree (Some (fts p f)) fs = (0, fs ∖ list_to_set (post p f)) ∧ ∀ q, p `suffix_of` q → q ∉ fs ∖ list_to_set (post p f).
Proof.
  intros Hd Ht. split.
  - unfold nr_rm_tree. by rewrite rm_tree_run.
  - intros q Hq. rewrite elem_of_difference, elem_of_list_to_set, (Ht q Hq). by intros [].
Qed.

(** A directory with a file and an empty directory, and a file beside it. *)
Definition demo_tree : file := Directory [($"a", Plain); ($"b", Directory [])].
Definition demo_fs : gset path := list_to_set ([$"other"] :: post [$"d"] demo_tree).

Lemma rm_tree_removes_witness :
  nr_rm_tree (Some (fts [$"d"] demo_tree)) demo_fs = (0, demo_fs ∖ list_to_set (post [$"d"] demo_tree)) ∧
  ∀ q, [$"d"] `suffix_of` q → q ∉ demo_fs ∖ list_to_set (post [$"d"] demo_tree).
Proof.
  apply (rm_tree_removes demo_fs [$"d"] demo_tree).
  - split; [|split; [exact I|split; [split; [apply NoDup_nil_2|exact I]|exact I]]]. apply NoDup_cons. split; [|apply NoDup_singleton].
    intros Hin%list_elem_of_singleton. discriminate Hin.
  - intros q Hq. unfold demo_fs. rewrite elem_of_list_to_set, elem_of_cons. split; [|by right]. intros [->|?]; [|done].
    destruct Hq as [[|n k] Hq]; [discriminate Hq|]. destruct k; discriminate Hq.
Defined.

(** What cannot be removed makes the result a failure, but the rest is removed; what cannot be
    read does not. *)
Lemma rm_tree_error fs p : p ∉ fs → nr_rm_tree (Some [(FTS_ERR, p)]) fs = (0, fs) ∧ nr_rm_tree (Some [(FTS_F, p)]) fs = (R_FAILED, fs).
Proof. intros Hp. split; [done|]. unfold nr_rm_tree. cbn. unfold remove. by rewrite bool_decide_eq_false_2. Qed.
