(* ===== verification/Getopt.v ===== *)
(** * The command line (src/util/getopt.c)

    [getopt] for systems without it: which option comes next, its argument, and the
    permutation of the command line that brings what are not options to its end.  The static
    variables and the array it permutes are the state. *)

From Stdlib Require Import Ascii.
From S2P Require Import Prelude CString.
Local Open Scope Z_scope.

(** [argv] is [args] and the null pointer after it; [known] says that the static variables
    belong to it.  The messages of [opterr] are not modelled. *)
Record getopt_state := GetoptState {
  args : list cstring;
  known : bool;                  (* prev_argv == argv and prev_argc == argc *)
  argv_index : nat;
  argv_index2 : nat;
  opt_offset : nat;
  dashdash : bool;
  nonopt : nat;
  optarg : option cstring;
  optind : Z;
  optopt : Z;
}.
Abbreviation G := (M getopt_state).
Definition argc (s : getopt_state) : nat := length (args s).

(** A program that starts with this command line. *)
Definition getopt_start (argv : list cstring) : getopt_state := GetoptState argv false 0 0 0 false 0 None 0 63.

Definition set_index (i : nat) (s : getopt_state) : getopt_state :=
  GetoptState (args s) (known s) i (argv_index2 s) 1 (dashdash s) (nonopt s) (optarg s) (optind s) (optopt s).
Definition set_index2 (i : nat) (s : getopt_state) : getopt_state :=
  GetoptState (args s) (known s) (argv_index s) i (opt_offset s) (dashdash s) (nonopt s) (optarg s) (optind s) (optopt s).
Definition set_offset (k : nat) (s : getopt_state) : getopt_state :=
  GetoptState (args s) (known s) (argv_index s) (argv_index2 s) k (dashdash s) (nonopt s) (optarg s) (optind s) (optopt s).
Definition set_dashdash (s : getopt_state) : getopt_state :=
  GetoptState (args s) (known s) (argv_index s) (argv_index2 s) (opt_offset s) true (nonopt s) (optarg s) (optind s) (optopt s).
Definition set_nonopt (n : nat) (s : getopt_state) : getopt_state :=
  GetoptState (args s) (known s) (argv_index s) (argv_index2 s) (opt_offset s) (dashdash s) n (optarg s) (optind s) (optopt s).
Definition set_optarg (a : option cstring) (s : getopt_state) : getopt_state :=
  GetoptState (args s) (known s) (argv_index s) (argv_index2 s) (opt_offset s) (dashdash s) (nonopt s) a (optind s) (optopt s).
Definition set_optind (z : Z) (s : getopt_state) : getopt_state :=
  GetoptState (args s) (known s) (argv_index s) (argv_index2 s) (opt_offset s) (dashdash s) (nonopt s) (optarg s) z (optopt s).
Definition set_optopt (z : Z) (s : getopt_state) : getopt_state :=
  GetoptState (args s) (known s) (argv_index s) (argv_index2 s) (opt_offset s) (dashdash s) (nonopt s) (optarg s) (optind s) z.
Definition reinitialize (s : getopt_state) : getopt_state :=
  GetoptState (args s) true 1 1 1 false 0 (optarg s) (optind s) (optopt s).
Definition move_to_end (i : nat) (tmp : cstring) (s : getopt_state) : getopt_state :=
  GetoptState (take i (args s) ++ drop (S i) (args s) ++ [tmp]) (known s) (argv_index s) (argv_index2 s) (opt_offset s)
    (dashdash s) (S (nonopt s)) (optarg s) (optind s) (optopt s).

(** [argv[i]], the null pointer at the end; what is after it is not in the array. *)
Definition argv_at (i : nat) : G (option cstring) :=
  s ← get;
  if (i <? argc s)%nat then mret (args s !! i)
  else if (i =? argc s)%nat then mret None
  else undef.
(** [argv[i] && argv[i][0] == '-'] *)
Definition begins_dash (a : option cstring) : bool :=
  match a with Some (c :: _) => bool_decide (c = "-"%char) | _ => false end.
Definition is_null (a : option cstring) : bool := if a then false else true.

(** The loop of [increment_index], with its condition after the increment. *)
Fixpoint skip_words (fuel : nat) : G unit :=
  match fuel with
  | O => undef
  | S fuel' =>
      s ← get;
      modify (set_index (S (argv_index s)));;
      a ← argv_at (S (argv_index s));
      if negb (is_null a) && negb (begins_dash a) && (S (argv_index s) <? argv_index2 s + 1)%nat then skip_words fuel'
      else mret ()
  end.
Definition increment_index : G unit :=
  s ← get;
  (if (argv_index s <? argv_index2 s)%nat then skip_words (S (argc s)) else modify (set_index (S (argv_index s))));;
  modify (set_offset 1).

(** [false]: the rest of the command line has been moved already. *)
Definition permute_argv_once : G bool :=
  s ← get;
  if (argc s <=? argv_index s + nonopt s)%nat then mret false
  else
    tmp ← from_option_ub (args s !! argv_index s);
    modify (move_to_end (argv_index s) tmp);;
    mret true.

(** [strchr] of an option: what follows it in [optstr].  A null character would be found at
    the end. *)
Definition find_option (optstr : cstring) (c : ascii) : option cstring :=
  (λ i, drop (S i) optstr) <$> strchr optstr c.
Definition takes_argument (opt_ptr : cstring) : bool := bool_decide (head opt_ptr = Some ":"%char).
Definition optional_argument (opt_ptr : cstring) : bool := bool_decide (opt_ptr !! 1%nat = Some ":"%char).

(** [while(argv[++argv_index2] && argv[argv_index2][0] == '-')] *)
Fixpoint find_argument (fuel : nat) : G (option cstring) :=
  match fuel with
  | O => undef
  | S fuel' =>
      s ← get;
      modify (set_index2 (S (argv_index2 s)));;
      a ← argv_at (S (argv_index2 s));
      if begins_dash a then find_argument fuel' else mret a
  end.

Section getopt.
(** Is [POSIXLY_CORRECT] in the environment? *)
Context (posixly_correct : bool) (optstr : cstring).

(** The branch for an option that takes an argument. *)
Definition option_argument (c : ascii) (word opt_ptr : cstring) : G Z :=
  s ← get;
  (if (opt_offset s <? length word)%nat then
     modify (set_optarg (Some (drop (opt_offset s) word)));; increment_index
   else if negb (optional_argument opt_ptr) then
     (if (argv_index2 s <? argv_index s)%nat then modify (set_index2 (argv_index s)) else mret ());;
     a ← find_argument (S (argc s));
     modify (set_optarg a);;
     s ← get;
     (if (argc s <=? argv_index2 s + nonopt s)%nat then modify (set_optarg None) else mret ());;
     increment_index
   else increment_index);;
  s ← get;
  if is_null (optarg s) && negb (optional_argument opt_ptr) then modify (set_optopt (schar c));; mret 63   (* '?' *)
  else mret (schar c).

Definition next_option (word : cstring) : G Z :=
  s ← get;
  match word !! opt_offset s with
  | None => undef
  | Some c =>
      modify (set_offset (S (opt_offset s)));;
      match find_option (if bool_decide (head optstr = Some "-"%char) then tail optstr else optstr) c with
      | None => modify (set_optopt (schar c));; increment_index;; mret 63
      | Some opt_ptr =>
          if takes_argument opt_ptr then option_argument c word opt_ptr
          else
            s ← get;
            (if (opt_offset s =? length word)%nat then increment_index else mret ());;
            mret (schar c)
      end
  end.

(** What follows the check for the dashes; [again] is [goto getopt_top]. *)
Definition getopt_word (again : G Z) : G Z :=
  s ← get;
  a ← argv_at (argv_index s);
  match a with
  | None => mret (-1)
  | Some word =>
      if dashdash s || negb (begins_dash a) || bool_decide (word = ["-"%char]) then
        if bool_decide (head optstr = Some "-"%char) then
          modify (set_optarg a);; increment_index;; mret 1
        else if bool_decide (head optstr = Some "+"%char) || posixly_correct then
          modify (set_nonopt (argc s - argv_index s));; mret (-1)
        else
          moved ← permute_argv_once;
          if (moved : bool) then again else mret (-1)
      else next_option word
  end.

(** From [getopt_top] on; each turn moves a word to the end. *)
Fixpoint getopt_top (fuel : nat) : G Z :=
  match fuel with
  | O => undef
  | S fuel' =>
      modify (set_optarg None);;
      s ← get;
      a ← argv_at (argv_index s);
      (if bool_decide (a = Some ["-"; "-"]%char) then modify set_dashdash;; increment_index else mret ());;
      getopt_word (getopt_top fuel')
  end.

Definition getopt : G Z :=
  s ← get;
  (if known s then mret () else modify reinitialize);;
  c ← getopt_top (S (argc s));
  s ← get;
  modify (set_optind (if c =? -1 then Z.of_nat (argc s) - Z.of_nat (nonopt s) else Z.of_nat (argv_index s)));;
  mret c.

(** The loop of a program, which calls [getopt] until it answers -1: the options with their
    arguments. *)
Fixpoint getopt_all (fuel : nat) : G (list (Z * option cstring)) :=
  match fuel with
  | O => undef
  | S fuel' =>
      c ← getopt;
      if c =? -1 then mret []
      else s ← get; cs ← getopt_all fuel'; mret ((c, optarg s) :: cs)
  end.
End getopt.

(** ** What it answers *)

(** A word that is an option: a dash and at least one letter. *)
Definition is_option (w : cstring) : bool := begins_dash (Some w) && bool_decide (w ≠ ["-"%char]).
Abbreviation dashes := (["-"; "-"]%char).

Section spec.
Context (optstr : cstring).

(** The letters after the dash.  A letter that is unknown ends its word; so does one that takes
    an argument, which is the rest of the word. *)
Fixpoint letters (w : cstring) : list (Z * option cstring) :=
  match w with
  | [] => []
  | x :: w' =>
      match find_option optstr x with
      | None => [(63, None)]
      | Some p =>
          if takes_argument p then [(schar x, if w' is [] then None else Some w')]
          else (schar x, None) :: letters w'
      end
  end.

(** An argument that is required is in the same word. *)
Fixpoint attached (w : cstring) : bool :=
  match w with
  | [] => true
  | x :: w' =>
      match find_option optstr x with
      | None => true
      | Some p => if takes_argument p then negb (bool_decide (w' = [])) || optional_argument p else attached w'
      end
  end.

Fixpoint options_of (l : list cstring) : list (Z * option cstring) :=
  match l with
  | [] => []
  | w :: l' =>
      if bool_decide (w = dashes) then []
      else (if is_option w then letters (tail w) else []) ++ options_of l'
  end.

(** The options with the dashes that end them, and the operands. *)
Fixpoint split_args (l : list cstring) : list cstring * list cstring :=
  match l with
  | [] => ([], [])
  | w :: l' =>
      if bool_decide (w = dashes) then ([w], l')
      else if is_option w then (w :: (split_args l').1, (split_args l').2)
      else ((split_args l').1, w :: (split_args l').2)
  end.
Definition options_attached (l : list cstring) : Prop :=
  Forall (λ w, is_option w = true → attached (tail w) = true) l.

Implicit Types (a t m : list cstring) (k : nat) (dd : bool) (s : getopt_state).

(** [a] has been dealt with, [t] is to come and [m] has been moved. *)
Record at_word a t m k dd s : Prop := {
  aw_args : args s = a ++ t ++ m;
  aw_known : known s = true;
  aw_index : argv_index s = length a;
  aw_prog : (1 <= length a)%nat;
  aw_index2 : argv_index2 s = 1%nat;
  aw_offset : opt_offset s = k;
  aw_dashdash : dashdash s = dd;
  aw_nonopt : nonopt s = length m;
}.

Lemma argv_at_next a t m k dd s : at_word a t m k dd s → argv_at (argv_index s) s = Ok (head (t ++ m)) s.
Proof.
  intros [Ha _ Hi _ _ _ _ _]. unfold argv_at, argc, get, mbind, M_bind. rewrite Ha, Hi, length_app, lookup_app_r, Nat.sub_diag by lia.
  destruct (t ++ m) as [|w l]; cbn [length head lookup list_lookup].
  - by rewrite (proj2 (Nat.ltb_ge _ _)), (proj2 (Nat.eqb_eq _ _)) by lia.
  - by rewrite (proj2 (Nat.ltb_lt _ _)) by lia.
Qed.

Lemma increment_run a w t m k dd s :
  at_word a (w :: t) m k dd s → ∃ s', increment_index s = Ok () s' ∧ at_word (a ++ [w]) t m 1 dd s' ∧ optarg s' = optarg s.
Proof.
  intros [Ha Hk Hi Hp Hi2 Ho Hd Hn]. unfold increment_index, get, mbind, M_bind. rewrite Hi, Hi2.
  rewrite (proj2 (Nat.ltb_ge _ _)) by done. cbn. eexists. split; [done|]. split; [|done].
  split; cbn; try done; [by rewrite Ha, <- !app_assoc|rewrite length_app; cbn; lia..].
Qed.

Lemma permute_run a w t m dd s :
  at_word a (w :: t) m 1 dd s → ∃ s', permute_argv_once s = Ok true s' ∧ at_word a t (m ++ [w]) 1 dd s'.
Proof.
  intros [Ha Hk Hi Hp Hi2 Ho Hd Hn]. unfold permute_argv_once, get, argc, mbind, M_bind. rewrite Ha, Hi, Hn.
  rewrite !length_app, (proj2 (Nat.leb_gt _ _)) by (cbn; lia). rewrite lookup_app_r, Nat.sub_diag by lia. cbn.
  eexists. split; [done|]. split; cbn; try done; [|rewrite length_app, Hn; cbn; lia].
  rewrite Ha, take_app_length. f_equal. rewrite drop_app_ge by lia. replace (S (length a) - length a)%nat with 1%nat by lia.
  cbn. by rewrite drop_0, <- app_assoc.
Qed.

(** The words that were moved are not looked at again. *)
Lemma permute_end a m dd s : at_word a [] m 1 dd s → permute_argv_once s = Ok false s.
Proof.
  intros [Ha _ Hi _ _ _ _ Hn]. unfold permute_argv_once, get, argc, mbind, M_bind.
  by rewrite Ha, Hi, Hn, length_app, (proj2 (Nat.leb_le _ _)) by (cbn; lia).
Qed.

(** ** One letter *)

Context (Hdash : head optstr ≠ Some "-"%char) (Hplus : head optstr ≠ Some "+"%char).
Context (Hchars : ∀ x, x ∈ optstr → schar x ≠ -1).

Lemma at_word_optarg a t m k dd o s : at_word a t m k dd s → at_word a t m k dd (set_optarg o s).
Proof. by intros []. Qed.
Lemma at_word_optopt a t m k dd z s : at_word a t m k dd s → at_word a t m k dd (set_optopt z s).
Proof. by intros []. Qed.
Lemma at_word_optind a t m k dd z s : at_word a t m k dd s → at_word a t m k dd (set_optind z s).
Proof. by intros []. Qed.
Lemma at_word_offset a t m k dd j s : at_word a t m k dd s → at_word a t m j dd (set_offset j s).
Proof. by intros []. Qed.

(** What a letter leaves: the next word, or the next letter. *)
Definition letter_left a w t m k dd rest s : Prop :=
  (rest = [] ∧ at_word (a ++ [w]) t m 1 dd s) ∨
  (rest = letters (drop (S k) w) ∧ (S k < length w)%nat ∧ attached (drop (S k) w) = true ∧ at_word a (w :: t) m (S k) dd s).

Lemma argument_run a w t m k dd x p s :
  at_word a (w :: t) m (S k) dd s → optarg s = None → (k < length w)%nat →
  negb (bool_decide (drop (S k) w = [])) || optional_argument p = true →
  ∃ s', option_argument x w p s = Ok (schar x) s' ∧
    optarg s' = (if drop (S k) w is [] then None else Some (drop (S k) w)) ∧ at_word (a ++ [w]) t m 1 dd s'.
Proof.
  intros Hs Hnone Hk Hatt. unfold option_argument. mstep. cbn beta. rewrite (aw_offset _ _ _ _ _ _ Hs).
  assert (Hrest : bool_decide (drop (S k) w = []) = (length w <=? S k)%nat).
  { case_bool_decide as Hd; [apply (f_equal length) in Hd; rewrite length_drop in Hd; cbn in Hd|];
      symmetry; [apply Nat.leb_le; lia|]. apply Nat.leb_gt. destruct (decide (length w <= S k)%nat); [|lia].
    destruct Hd. by apply drop_ge. }
  rewrite Hrest in Hatt. destruct (Nat.ltb_spec (S k) (length w)) as [Hlt|Hge].
  - destruct (increment_run a w t m (S k) dd (set_optarg (Some (drop (S k) w)) s)) as (s' & Hrun & Hw & Ho); [by apply at_word_optarg|].
    exists s'. unfold mbind, M_bind. cbn. rewrite Hrun. cbn in Ho. rewrite Ho. cbn. split; [done|]. split; [|done].
    by destruct (drop (S k) w) eqn:Hd; [apply (f_equal length) in Hd; rewrite length_drop in Hd; cbn in Hd; lia|].
  - rewrite (proj2 (Nat.leb_le _ _)) in Hatt by lia. cbn in Hatt. rewrite Hatt. cbn [negb].
    destruct (increment_run a w t m (S k) dd s Hs) as (s' & Hrun & Hw & Ho). exists s'. unfold mbind, M_bind. rewrite Hrun. cbn.
    by rewrite Ho, Hnone, drop_ge by lia.
Qed.

Lemma letter_run a w t m k dd s c o rest :
  at_word a (w :: t) m k dd s → optarg s = None → (k < length w)%nat → attached (drop k w) = true →
  letters (drop k w) = (c, o) :: rest →
  ∃ s', next_option optstr w s = Ok c s' ∧ optarg s' = o ∧ c ≠ -1 ∧ letter_left a w t m k dd rest s'.
Proof.
  intros Hs Hnone Hk Hatt Hlet. destruct (lookup_lt_is_Some_2 w k Hk) as [x Hx].
  rewrite (drop_S _ _ _ Hx) in Hatt, Hlet. cbn in Hatt, Hlet.
  unfold next_option. mstep. cbn beta. rewrite (aw_offset _ _ _ _ _ _ Hs), Hx.
  rewrite bool_decide_false by done. pose proof (at_word_offset a (w :: t) m k dd (S k) s Hs) as Hs1.
  destruct (find_option optstr x) as [p|] eqn:Hp.
  - assert (Hc : schar x ≠ -1).
    { apply Hchars. unfold find_option in Hp. apply fmap_Some in Hp as (i & Hi%strchr_Some & _). eapply list_elem_of_lookup_2, Hi. }
    destruct (takes_argument p).
    + injection Hlet as <- <- <-.
      destruct (argument_run a w t m k dd x p (set_offset (S k) s) Hs1 Hnone Hk Hatt) as (s' & Hrun & Ho & Hw).
      exists s'. split; [exact Hrun|]. split; [exact Ho|]. split; [done|]. by left.
    + injection Hlet as <- <- <-. unfold mbind, M_bind. cbn -[Nat.eqb increment_index].
      destruct (Nat.eqb_spec (S k) (length w)) as [Heq|Hne].
      * destruct (increment_run a w t m (S k) dd _ Hs1) as (s' & Hrun & Hw & Ho). exists s'. rewrite Hrun.
        split; [done|]. split; [by rewrite Ho|]. split; [done|]. left. by rewrite drop_ge by lia.
      * exists (set_offset (S k) s). split; [done|]. split; [done|]. split; [done|]. right. by split_and!; [|lia|..].
  - injection Hlet as <- <- <-. unfold mbind, M_bind. cbn.
    destruct (increment_run a w t m (S k) dd (set_optopt (schar x) (set_offset (S k) s))) as (s' & Hrun & Hw & Ho);
      [by apply at_word_optopt|]. exists s'. rewrite Hrun. split; [done|]. split; [by rewrite Ho|]. split; [done|]. by left.
Qed.

(** ** One call *)

Lemma ret_step {X Y} (x : X) (k : X → G Y) s : (mret x ≫= k) s = k x s.
Proof. done. Qed.

(** What is to come of [t]: nothing is an option after the dashes. *)
Definition final (dd : bool) t : list cstring * list cstring := if dd then ([], t) else split_args t.
Record fit dd t m : Prop := {
  fit_moved : Forall (λ w, w ≠ dashes ∧ (dd = false → is_option w = false)) m;
  fit_operands : dashes ∉ (final dd t).2;
  fit_options : Forall (λ w, w ≠ dashes → attached (tail w) = true) (final dd t).1;
}.

(** The options to come, and what the command line and the number of operands will be. *)
Inductive waits s : list (Z * option cstring) → list cstring → nat → Prop :=
| waits_word a t m dd : at_word a t m 1 dd s → fit dd t m →
    waits s (if dd then [] else options_of t) (a ++ (final dd t).1 ++ m ++ (final dd t).2) (length m + length (final dd t).2)
| waits_letter a w t m k : at_word a (w :: t) m k false s → fit false t m → is_option w = true → w ≠ dashes →
    (1 <= k < length w)%nat → attached (drop k w) = true →
    waits s (letters (drop k w) ++ options_of t) (a ++ (w :: (split_args t).1) ++ m ++ (split_args t).2)
      (length m + length (split_args t).2).

Definition answered (A : list cstring) (n : nat) (pend : list (Z * option cstring)) (r : res getopt_state Z) : Prop :=
  match pend with
  | [] => ∃ s', r = Ok (-1) s' ∧ args s' = A ∧ nonopt s' = n
  | (c, o) :: rest => ∃ s', r = Ok c s' ∧ optarg s' = o ∧ c ≠ -1 ∧ waits s' rest A n
  end.

Lemma letters_nonempty w : w ≠ [] → letters w ≠ [].
Proof. destruct w as [|x w]; [done|]. cbn. by repeat case_match. Qed.

(** The start of a turn. *)
Lemma top_plain posix fuel a t m k dd s :
  at_word a t m k dd s → head (t ++ m) ≠ Some dashes →
  getopt_top posix optstr (S fuel) s = getopt_word posix optstr (getopt_top posix optstr fuel) (set_optarg None s).
Proof.
  intros Hs Hne. cbn [getopt_top]. mstep. mstep. mstep using (argv_at_next _ _ _ _ _ _ (at_word_optarg _ _ _ _ _ None _ Hs)).
  rewrite (bool_decide_false (head _ = _)) by done. by rewrite ret_step.
Qed.

Lemma top_dashes posix fuel a t m s :
  at_word a (dashes :: t) m 1 false s →
  ∃ s', getopt_top posix optstr (S fuel) s = getopt_word posix optstr (getopt_top posix optstr fuel) s' ∧
    at_word (a ++ [dashes]) t m 1 true s'.
Proof.
  intros Hs. pose proof (at_word_optarg _ _ _ _ _ None _ Hs) as Hs1.
  assert (Hs2 : at_word a (dashes :: t) m 1 true (set_dashdash (set_optarg None s))) by (by destruct Hs1).
  destruct (increment_run _ _ _ _ _ _ _ Hs2) as (s' & Hrun & Hw & _). exists s'. split; [|done].
  cbn [getopt_top]. mstep. mstep. mstep using (argv_at_next _ _ _ _ _ _ Hs1). cbn [app head].
  rewrite (bool_decide_true (_ = _)) by done. erewrite bind_ok; [done|]. mstep. exact Hrun.
Qed.

(** A word that is not an option is moved, and none is left when all have been. *)
Lemma string_word w dd : dd || negb (begins_dash (Some w)) || bool_decide (w = ["-"%char]) = dd || negb (is_option w).
Proof.
  unfold is_option. destruct dd; [done|]. cbn [orb]. case_bool_decide; case_bool_decide; try done.
  - by rewrite andb_false_r, orb_true_r.
  - by rewrite andb_true_r, orb_false_r.
Qed.

Lemma word_string again a w t m dd s :
  at_word a (w :: t) m 1 dd s → dd || negb (is_option w) = true →
  ∃ s', getopt_word false optstr again s = again s' ∧ at_word a t (m ++ [w]) 1 dd s'.
Proof.
  intros Hs Hw. destruct (permute_run _ _ _ _ _ _ Hs) as (s' & Hrun & Hs'). exists s'. split; [|done].
  unfold getopt_word. mstep. mstep using (argv_at_next _ _ _ _ _ _ Hs). cbn [app head].
  rewrite (aw_dashdash _ _ _ _ _ _ Hs), string_word, Hw, !bool_decide_false by done. cbn [orb]. by mstep.
Qed.

Lemma word_end again a m dd s :
  at_word a [] m 1 dd s → fit dd [] m → getopt_word false optstr again s = Ok (-1) s.
Proof.
  intros Hs Hfit. unfold getopt_word. mstep. mstep using (argv_at_next _ _ _ _ _ _ Hs). cbn [app].
  destruct m as [|w m]; [done|]. cbn [head]. destruct (Forall_inv (fit_moved _ _ _ Hfit)) as [_ Hopt].
  assert (Hw : dd || negb (is_option w) = true) by (destruct dd; [done|cbn; by rewrite Hopt]).
  rewrite (aw_dashdash _ _ _ _ _ _ Hs), string_word, Hw, !bool_decide_false by done. cbn [orb].
  by mstep using (permute_end _ _ _ _ Hs).
Qed.

Lemma word_option posix again a w t m k s :
  at_word a (w :: t) m k false s → is_option w = true → getopt_word posix optstr again s = next_option optstr w s.
Proof.
  intros Hs Hw. unfold getopt_word. mstep. mstep using (argv_at_next _ _ _ _ _ _ Hs). cbn [app head].
  by rewrite (aw_dashdash _ _ _ _ _ _ Hs), string_word, Hw.
Qed.

Lemma option_run posix fuel a w t m k s :
  at_word a (w :: t) m k false s → fit false t m → is_option w = true → w ≠ dashes → (1 <= k < length w)%nat →
  attached (drop k w) = true →
  answered (a ++ (w :: (split_args t).1) ++ m ++ (split_args t).2) (length m + length (split_args t).2)
    (letters (drop k w) ++ options_of t) (getopt_top posix optstr (S fuel) s).
Proof.
  intros Hs Hfit Hopt Hne Hk Hatt. pose proof (at_word_optarg _ _ _ _ _ None _ Hs) as Hs1.
  destruct (letters (drop k w)) as [|[c o] rest] eqn:Hlet.
  { exfalso. apply (letters_nonempty (drop k w)); [|done]. intros Hd%(f_equal length). rewrite length_drop in Hd. cbn in Hd. lia. }
  destruct (letter_run a w t m k false _ c o rest Hs1 eq_refl (proj2 Hk) Hatt Hlet) as (s' & Hrun & Ho & Hc & Hleft).
  exists s'. split_and!; [|done|done|].
  - rewrite (top_plain _ _ _ _ _ _ _ _ Hs) by (cbn; congruence). by rewrite (word_option _ _ _ _ _ _ _ _ Hs1).
  - destruct Hleft as [[-> Hw]|(-> & Hk' & Hatt' & Hw)].
    + pose proof (waits_word s' (a ++ [w]) t m false Hw Hfit) as Hwait. cbn in Hwait. by rewrite <- app_assoc in Hwait.
    + apply waits_letter; [done..|lia|done].
Qed.

(** The words to come, one at a time. *)
Lemma fit_string dd w t m :
  fit dd (w :: t) m → w ≠ dashes → dd || negb (is_option w) = true →
  fit dd t (m ++ [w]) ∧ (final dd (w :: t)).1 = (final dd t).1 ∧ (final dd (w :: t)).2 = w :: (final dd t).2 ∧
  (if dd then [] else options_of (w :: t)) = (if dd then [] else options_of t).
Proof.
  intros [Hm Ho Hp] Hne Hw.
  assert (Hf : (final dd (w :: t)).1 = (final dd t).1 ∧ (final dd (w :: t)).2 = w :: (final dd t).2).
  { destruct dd; [done|]. cbn in Hw |- *. apply negb_true_iff in Hw. by rewrite bool_decide_false, Hw. }
  destruct Hf as [Hf1 Hf2]. split_and!; [|done|done|].
  - rewrite Hf1 in Hp. rewrite Hf2 in Ho. apply not_elem_of_cons in Ho as [_ Ho]. split; [|done|done].
    apply Forall_app. split; [done|]. constructor; [|done]. split; [done|]. intros ->. by apply negb_true_iff.
  - destruct dd; [done|]. cbn in Hw |- *. apply negb_true_iff in Hw. by rewrite bool_decide_false, Hw.
Qed.

Lemma fit_dashes t m : fit false (dashes :: t) m → fit true t m ∧ dashes ∉ t.
Proof.
  intros [Hm Ho Hp]. cbn in Ho. rewrite bool_decide_true in Ho by done. cbn in Ho. split; [|done]. split; [|done|constructor].
  eapply Forall_impl; [exact Hm|]. intros w [? _]. by split.
Qed.

Lemma fit_option w t m :
  fit false (w :: t) m → is_option w = true → w ≠ dashes → fit false t m ∧ attached (tail w) = true.
Proof.
  intros [Hm Ho Hp] Hopt Hne. cbn in Ho, Hp. rewrite bool_decide_false, Hopt in Ho, Hp by done. cbn in Ho, Hp.
  apply Forall_cons in Hp as [Hw Hp]. split; [by split|by apply Hw].
Qed.

(** At the check for the dashes nothing changes unless they are next. *)
Lemma fit_head t m dd s a : at_word a t m 1 dd s → fit dd t m → (∀ t', t = dashes :: t' → dd = true) → head (t ++ m) ≠ Some dashes.
Proof.
  intros _ Hfit Ht. destruct t as [|w t]; cbn.
  - destruct m as [|w m]; [done|]. cbn. destruct (Forall_inv (fit_moved _ _ _ Hfit)) as [Hne _]. congruence.
  - intros [= ->]. pose proof (fit_operands _ _ _ Hfit) as Ho. rewrite (Ht t eq_refl) in Ho. destruct Ho. by left.
Qed.

Lemma option_length w : is_option w = true → (1 < length w)%nat.
Proof. unfold is_option, begins_dash. destruct w as [|c [|? ?]]; cbn; repeat case_bool_decide; naive_solver lia. Qed.

Definition runs_from n : Prop := ∀ fuel a t m dd s,
  (length t < n)%nat → (length t < fuel)%nat → at_word a t m 1 dd s → fit dd t m →
  answered (a ++ (final dd t).1 ++ m ++ (final dd t).2) (length m + length (final dd t).2)
    (if dd then [] else options_of t) (getopt_top false optstr fuel s).

(** The words up to the next option, once the dashes have been checked for. *)
Lemma string_run n fuel a t m dd s :
  runs_from n → (length t <= n)%nat → (length t <= fuel)%nat → at_word a t m 1 dd s → fit dd t m →
  match t with [] => True | w :: _ => w ≠ dashes ∧ dd || negb (is_option w) = true end →
  answered (a ++ (final dd t).1 ++ m ++ (final dd t).2) (length m + length (final dd t).2)
    (if dd then [] else options_of t) (getopt_word false optstr (getopt_top false optstr fuel) s).
Proof.
  intros IH Hn Hfuel Hs Hfit Hw. destruct t as [|w t].
  - rewrite (word_end _ _ _ _ _ Hs Hfit). destruct dd; (exists s; split; [done|]; split; [rewrite (aw_args _ _ _ _ _ _ Hs)|]);
      cbn; rewrite ?app_nil_r; rewrite ?(aw_nonopt _ _ _ _ _ _ Hs); (done || lia).
  - destruct Hw as [Hne Hstr]. destruct (word_string (getopt_top false optstr fuel) _ _ _ _ _ _ Hs Hstr) as (s' & -> & Hs').
    destruct (fit_string _ _ _ _ Hfit Hne Hstr) as (Hfit' & -> & -> & ->). cbn in Hn, Hfuel.
    pose proof (IH fuel a t (m ++ [w]) dd s' ltac:(lia) ltac:(lia) Hs' Hfit') as Hr.
    rewrite <- app_assoc in Hr. rewrite length_app in Hr. cbn in Hr |- *. by rewrite <- Nat.add_assoc in Hr.
Qed.

Lemma getopt_words_run n : runs_from n.
Proof.
  induction n as [|n IH]; intros fuel a t m dd s Hn Hfuel Hs Hfit; [lia|].
  destruct fuel as [|fuel]; [lia|].
  assert (Hplain : (∀ t', t = dashes :: t' → dd = true) → 
    match t with [] => True | w :: _ => w ≠ dashes ∧ dd || negb (is_option w) = true end →
    answered (a ++ (final dd t).1 ++ m ++ (final dd t).2) (length m + length (final dd t).2)
      (if dd then [] else options_of t) (getopt_top false optstr (S fuel) s)).
  { intros Hd Hw. rewrite (top_plain _ _ _ _ _ _ _ _ Hs) by (by eapply fit_head).
    apply (string_run n); [done|lia|lia|by apply at_word_optarg|done|done]. }
  destruct t as [|w t]; [by apply Hplain|].
  destruct (decide (w = dashes)) as [->|Hne].
  - destruct dd; [exfalso; apply (fit_operands _ _ _ Hfit); by left|].
    destruct (top_dashes false fuel a t m s Hs) as (s' & -> & Hs'). destruct (fit_dashes _ _ Hfit) as [Hfit' Hno].
    pose proof (string_run n fuel (a ++ [dashes]) t m true s' IH ltac:(cbn in Hn; lia) ltac:(cbn in Hfuel; lia) Hs' Hfit') as Hr.
    cbn in Hr |- *. rewrite bool_decide_true by done. cbn. rewrite <- app_assoc in Hr. apply Hr.
    destruct t as [|w t]; [done|]. split; [|done]. intros ->. apply Hno. by left.
  - destruct (dd || negb (is_option w)) eqn:Hstr; [apply Hplain; [by intros t' [= ? ->]|done]|].
    apply orb_false_iff in Hstr as [-> Hopt%negb_false_iff]. destruct (fit_option _ _ _ Hfit Hopt Hne) as [Hfit' Hatt].
    pose proof (option_length _ Hopt) as Hlen.
    pose proof (option_run false fuel a w t m 1 s Hs Hfit' Hopt Hne ltac:(lia)) as Hr.
    cbn [final split_args options_of fst snd]. rewrite !bool_decide_false, !Hopt by done. cbn [fst snd].
    destruct w as [|c w]; [done|]. exact (Hr Hatt).
Qed.

(** ** From call to call *)

Lemma waits_optind z s pend A n : waits s pend A n → waits (set_optind z s) pend A n.
Proof. intros [a t m dd Hs Hf|a w t m k Hs Hf Ho Hne Hk Hatt]; constructor; try done; by apply at_word_optind. Qed.

Lemma waits_known s pend A n : waits s pend A n → known s = true.
Proof. intros [a t m dd Hs Hf|a w t m k Hs Hf Ho Hne Hk Hatt]; exact (aw_known _ _ _ _ _ _ Hs). Qed.

Lemma waits_top s pend A n :
  waits s pend A n → answered A n pend (getopt_top false optstr (S (argc s)) s).
Proof.
  intros [a t m dd Hs Hf|a w t m k Hs Hf Ho Hne Hk Hatt]; [|by apply option_run].
  apply (getopt_words_run (S (length t))); [lia| |done|done].
  unfold argc. rewrite (aw_args _ _ _ _ _ _ Hs), !length_app. lia.
Qed.

(** The last call answers -1 and sets [optind]. *)
Lemma waits_getopt s pend A n :
  waits s pend A n →
  match pend with
  | [] => ∃ s', getopt false optstr s = Ok (-1) s' ∧ args s' = A ∧ optind s' = Z.of_nat (length A) - Z.of_nat n
  | (c, o) :: rest => ∃ s', getopt false optstr s = Ok c s' ∧ c ≠ -1 ∧ optarg s' = o ∧ waits s' rest A n
  end.
Proof.
  intros Hs. pose proof (waits_top _ _ _ _ Hs) as Htop. unfold getopt. mstep. rewrite (waits_known _ _ _ _ Hs), ret_step.
  destruct pend as [|[c o] rest].
  - destruct Htop as (s' & Hrun & Ha & Hn). eexists. mstep using Hrun. split; [done|]. split; [done|].
    cbn. unfold argc. by rewrite Ha, Hn.
  - destruct Htop as (s' & Hrun & Ho & Hc & Hw). eexists. mstep using Hrun. split; [done|]. split; [done|].
    split; [done|]. by apply waits_optind.
Qed.

Lemma waits_all s pend A n :
  waits s pend A n → ∃ s', getopt_all false optstr (S (length pend)) s = Ok pend s' ∧ args s' = A ∧
    optind s' = Z.of_nat (length A) - Z.of_nat n.
Proof.
  revert s. induction pend as [|[c o] rest IH]; intros s Hs; pose proof (waits_getopt _ _ _ _ Hs) as Hrun.
  - destruct Hrun as (s' & Hrun & Ha & Hi). exists s'. cbn [length getopt_all]. mstep using Hrun. done.
  - destruct Hrun as (s' & Hrun & Hc & Ho & Hw). destruct (IH _ Hw) as (s'' & Hall & Ha & Hi). exists s''.
    change (length ((c, o) :: rest)) with (S (length rest)). cbn [getopt_all]. mstep using Hrun.
    rewrite (proj2 (Z.eqb_neq _ _)) by done. mstep. mstep using Hall. by rewrite Ho.
Qed.

(** The first call: [getopt] sees that the command line is not the one it knows. *)
Lemma start_getopt prog l posix :
  getopt posix optstr (getopt_start (prog :: l)) = getopt posix optstr (reinitialize (getopt_start (prog :: l))).
Proof. done. Qed.

Lemma start_all fuel prog l posix :
  getopt_all posix optstr (S fuel) (getopt_start (prog :: l)) =
  getopt_all posix optstr (S fuel) (reinitialize (getopt_start (prog :: l))).
Proof. cbn [getopt_all]. unfold mbind, M_bind. by rewrite start_getopt. Qed.

Lemma start_waits prog l :
  dashes ∉ (split_args l).2 → Forall (λ w, w ≠ dashes → attached (tail w) = true) (split_args l).1 →
  waits (reinitialize (getopt_start (prog :: l))) (options_of l) (prog :: (split_args l).1 ++ (split_args l).2) (length (split_args l).2).
Proof. intros Hd Ho. apply (waits_word _ [prog] l [] false); [split; cbn; [by rewrite app_nil_r|lia || done..]|by split; [constructor|..]]. Qed.

(** C32: a program that calls [getopt] until it answers -1 gets, whatever its command line, the
    options of the words before the first "--" that begin with a dash, letter by letter, with
    their arguments, and '?' for an unknown letter; the number of calls is one more than theirs.
    Afterwards the command line holds the words of options, then the operands in their order,
    and [optind] is the first of these.  This is so when [optstr] has no '-' or '+' in front,
    POSIXLY_CORRECT is not set, required arguments are in the same word as their option, and
    no operand is "--". *)
Theorem getopt_all_spec prog l :
  dashes ∉ (split_args l).2 → Forall (λ w, w ≠ dashes → attached (tail w) = true) (split_args l).1 →
  ∃ s', getopt_all false optstr (S (length (options_of l))) (getopt_start (prog :: l)) = Ok (options_of l) s' ∧
    args s' = prog :: (split_args l).1 ++ (split_args l).2 ∧ optind s' = Z.of_nat (S (length (split_args l).1)) ∧
    drop (Z.to_nat (optind s')) (args s') = (split_args l).2.
Proof.
  intros Hd Ho. rewrite start_all. destruct (waits_all _ _ _ _ (start_waits prog l Hd Ho)) as (s' & Hrun & Ha & Hi).
  exists s'. assert (Hi' : optind s' = Z.of_nat (S (length (split_args l).1))) by (rewrite Hi; cbn; rewrite length_app; lia).
  split_and!; [done|done|done|]. rewrite Hi', Ha, Nat2Z.id. cbn. apply drop_app_length.
Qed.
End spec.

Lemma getopt_all_spec_witness :
  let l := [$"x"; $"-ca"; $"-q"; $"-bval"; $"y"; $"-"; $"--"; $"-z"] in
  ∃ s', getopt_all false $"ab:c" (S (length (options_of $"ab:c" l))) (getopt_start ($"prog" :: l)) = Ok (options_of $"ab:c" l) s' ∧
    args s' = [$"prog"; $"-ca"; $"-q"; $"-bval"; $"--"; $"x"; $"y"; $"-"; $"-z"] ∧ optind s' = 5 ∧
    drop (Z.to_nat (optind s')) (args s') = [$"x"; $"y"; $"-"; $"-z"].
Proof.
  intros l. apply (getopt_all_spec $"ab:c" ltac:(done) ltac:(done)).
  - apply Forall_forall. by repeat constructor.
  - by apply (bool_decide_unpack _); vm_compute.
  - by repeat constructor.
Defined.

(** ** Command lines *)

Definition run_getopt (optstr : cstring) (argv : list cstring) : option (list (Z * option cstring) * list cstring * Z) :=
  match getopt_all false optstr 100 (getopt_start argv) with
  | Ok cs s => Some (cs, args s, optind s)
  | _ => None
  end.

Example getopt_ex1 : run_getopt $"ab:c" [$"prog"; $"x"; $"-ca"; $"-bval"; $"y"; $"--"; $"-z"] =
  Some ([(99, None); (97, None); (98, Some $"val")], [$"prog"; $"-ca"; $"-bval"; $"--"; $"x"; $"y"; $"-z"], 4).
Proof. vm_compute. reflexivity. Qed.
Example getopt_ex2 : run_getopt $"ab:c" [$"prog"; $"-b"; $"val"; $"-a"; $"y"] =
  Some ([(98, Some $"val"); (97, None)], [$"prog"; $"-b"; $"val"; $"-a"; $"y"], 4).
Proof. vm_compute. reflexivity. Qed.
Example getopt_ex3 : getopt_all false $"o:" 100 (getopt_start [$"prog"; $"-o"; $"-o"]) = UB.
Proof. vm_compute. reflexivity. Qed.

(** A second "--" after an operand is an operand, but is left before them. *)
Example getopt_ex4 : run_getopt $"a" [$"prog"; $"-a"; $"--"; $"x"; $"--"] =
  Some ([(97, None)], [$"prog"; $"-a"; $"--"; $"--"; $"x"], 4).
Proof. vm_compute. reflexivity. Qed.
