(* ===== verification/UtilDb.v ===== *)
(** * Numbers in a database (src/util/util_db.c)

    64-bit numbers under names in a Berkeley DB file, as hexadecimal text.  The library is a
    class, with what its manual says of it as laws.  The theorem says what is read back: the
    number, unless it is 2^63 or more. *)

From Stdlib Require Import Ascii.
From S2P Require Import Prelude CString Numbers InetNtop FileUtil.
Local Open Scope Z_scope.

(** ** The library: <db.h> of 4.4BSD *)

(** Each function of an open file answers 0, 1 or -1; [db_get] gives the data that it found. *)
Class DbLib (S H : Type) := {
  dbopen : cstring → M S (option H);
  db_put : H → list Z → list Z → M S Z;
  db_get : H → list Z → M S (Z * list Z);
  db_sync : H → M S Z;
  db_close : H → M S Z;
}.

(** The manual: [put] stores the pair and answers 0, or fails with -1; [get] answers 0 with the
    data stored under the key, 1 if there are none, -1 if it fails. *)
Class DbLaws (S H : Type) `{DbLib S H} := {
  db_view : H → S → gmap (list Z) (list Z);
  db_put_law h k v s : ∃ r s', db_put h k v s = Ok r s' ∧
    ((r = 0 ∧ db_view h s' = <[k := v]> (db_view h s)) ∨ (r = -1 ∧ db_view h s' = db_view h s));
  db_get_law h k s : ∃ r v s', db_get h k s = Ok (r, v) s' ∧ db_view h s' = db_view h s ∧
    ((r = 0 ∧ db_view h s !! k = Some v) ∨ (r = 1 ∧ db_view h s !! k = None) ∨ r = -1);
}.

Section db.
Context {S H : Type} `{DbLib S H}.

(** [mem]: what the allocation of the name answers. *)
Definition nra_db_create (mem : bool) (base name : cstring) : M S H :=
  match nr_get_filename mem base name with
  | None => undef
  | Some (inl r) => abort r
  | Some (inr fname) =>
      db ← dbopen fname;
      match db with
      | None => abort R_NOT_FOUND
      | Some db => _ ← db_sync db; mret db
      end
  end.

(** [None]: the pointer to the handle or the handle is null. *)
Definition nra_db_destroy (dbp : option H) : M S unit :=
  match dbp with
  | None => mret ()
  | Some db => r ← db_close db; if (r : Z) =? 0 then mret () else abort R_INTERNAL
  end.

(** [sprintf(buf,"%qx",val)], into 17 characters. *)
Definition format_uint8 (val : Z) : option (list Z) :=
  let t := print_hex 16 val in if (17 <? strlen t + 1)%nat then None else Some (cbytes t).

Definition nra_db_store_uint8 (db : H) (key : cstring) (val : Z) : M S unit :=
  match format_uint8 val with
  | None => undef
  | Some v => r ← db_put db (cbytes key) v; if (r : Z) =? 0 then mret () else abort R_INTERNAL
  end.

(** [strtoq(s,0,16)]: what is read of a text that is ended by a zero byte.  A number that does
    not fit is the greatest or the least one. *)
Fixpoint hex_prefix (acc : Z) (s : cstring) : Z :=
  match s with
  | c :: s' => match hex_value c with Some d => hex_prefix (16 * acc + d) s' | None => acc end
  | [] => acc
  end.
Definition skip_0x (s : cstring) : cstring :=
  match s with
  | "0"%char :: x :: c :: s' =>
      if bool_decide (tolower x = "x"%char) && bool_decide (is_Some (hex_value c)) then c :: s' else s
  | _ => s
  end.
Definition strtoq (s : cstring) : Z :=
  let (neg, t) := read_sign (skip_space s) in
  let v := hex_prefix 0 (skip_0x t) in
  Z.max (- 2 ^ 63) (Z.min (2 ^ 63 - 1) (if neg then - v else v)).

(** The string at the start of some bytes; without a zero byte its end is not among them. *)
Fixpoint string_at (bs : list Z) : option cstring :=
  match bs with
  | [] => None
  | b :: bs' => if b =? 0 then Some [] else s ← string_at bs'; Some (char_of b :: s)
  end.

Definition nra_db_fetch_uint8 (db : H) (key : cstring) : M S Z :=
  '(r, v) ← db_get db (cbytes key);
  if (r : Z) <? 0 then abort R_INTERNAL
  else if 0 <? r then abort R_NOT_FOUND
  else t ← from_option_ub (string_at v); mret (wrap 64 (strtoq t)).

Definition nra_db_sync (db : H) : M S unit := r ← db_sync db; if (r : Z) =? 0 then mret () else abort R_INTERNAL.
End db.

(** ** Texts of numbers *)

Lemma digits_prefix s acc v : digits_in 16 hex_value acc s = Some v → hex_prefix acc s = v.
Proof. revert acc. induction s as [|c s IH]; intros acc; cbn; [congruence|]. destruct (hex_value c); [apply IH|done]. Qed.

(** Characters of numbers are no spaces or signs, and no x. *)
Definition plain_digit (d : Z) : bool :=
  let c := hex_char d in
  negb (isspace c) && negb (bool_decide (c ∈ ["-"; "+"; "x"]%char)) && negb (bool_decide (tolower c = "x"%char)) && negb (uchar c =? 0) .
Lemma plain_digit_ok d : 0 <= d < 16 → plain_digit d = true.
Proof. apply (all_in_range plain_digit 16). vm_compute. reflexivity. Qed.

Lemma print_hex_digits fuel z : 0 <= z → Forall (λ c, ∃ d, 0 <= d < 16 ∧ c = hex_char d) (print_hex fuel z).
Proof.
  revert z. induction fuel as [|fuel IH]; intros z Hz; cbn; [constructor|]. destruct (Z.ltb_spec z 16); [repeat constructor; eauto|].
  apply Forall_app. split; [apply IH, Z.div_pos; lia|]. repeat constructor. exists (z mod 16). split; [apply Z.mod_pos_bound; lia|done].
Qed.

(** What the reader must not take for something else. *)
Record plain (c : ascii) : Prop := {
  pl_space : isspace c = false;
  pl_sign : c ≠ "-"%char ∧ c ≠ "+"%char;
  pl_x : tolower c ≠ "x"%char;
  pl_nul : uchar c ≠ 0;
}.

Lemma digit_plain d : 0 <= d < 16 → plain (hex_char d).
Proof.
  intros Hd. pose proof (plain_digit_ok d Hd) as Hp. unfold plain_digit in Hp.
  rewrite !andb_true_iff, !negb_true_iff, !bool_decide_eq_false, Z.eqb_neq in Hp. destruct Hp as [[[? Hin] ?] ?].
  split; [done| |done|done]. split; intros Heq; apply Hin; rewrite Heq; set_solver.
Qed.

Lemma print_hex_plain z : 0 <= z < 2 ^ 64 → Forall plain (print_hex 16 z).
Proof. intros Hz. eapply Forall_impl; [apply print_hex_digits; lia|]. intros c (d & Hd & ->). by apply digit_plain. Qed.

Lemma read_plain s : Forall plain s → read_sign (skip_space s) = (false, s).
Proof.
  intros [|c t [Hs [Hm Hp] _ _] _]; [done|]. cbn. rewrite Hs. unfold read_sign. destruct c as [[] [] [] [] [] [] [] []]; congruence.
Qed.

Lemma skip_plain s : Forall plain s → skip_0x s = s.
Proof.
  intros [|c t _ Ht]; [done|]. unfold skip_0x. destruct Ht as [|x t [_ _ Hx _] Ht]; [by repeat case_match|].
  destruct t as [|y t]; [by repeat case_match|]. rewrite (bool_decide_false (tolower x = _)) by done. by repeat case_match.
Qed.

(** What is printed is read up to the greatest signed number. *)
Lemma strtoq_print z : 0 <= z < 2 ^ 64 → strtoq (print_hex 16 z) = Z.min (2 ^ 63 - 1) z.
Proof.
  intros Hz. pose proof (print_hex_plain z Hz) as Hp. unfold strtoq. rewrite read_plain, skip_plain by done.
  destruct (print_hex_run 16 16 z) as (_ & _ & Hd%digits_prefix); [done|lia|]. rewrite Hd. lia.
Qed.

Lemma string_at_cbytes s : Forall (λ c, uchar c ≠ 0) s → string_at (cbytes s) = Some s.
Proof.
  induction 1 as [|c s Hc Hs IH]; [done|]. unfold cbytes in *. cbn. rewrite (proj2 (Z.eqb_neq _ _)) by done.
  cbn in IH. by rewrite IH, char_of_uchar.
Qed.

(** The buffer of 17 characters is large enough. *)
Lemma format_fits z : 0 <= z < 2 ^ 64 → format_uint8 z = Some (cbytes (print_hex 16 z)).
Proof.
  intros Hz. unfold format_uint8, strlen. destruct (print_hex_run 16 16 z) as (_ & Hl & _); [done|lia|].
  by rewrite (proj2 (Nat.ltb_ge _ _)) by lia.
Qed.

(** ** Storing and fetching *)

Section laws.
Context {S H : Type} `{DbLaws S H}.
Implicit Types (s : S) (db : H) (key : cstring) (v : Z).

Lemma store_run db key v s :
  0 <= v < 2 ^ 64 →
  ∃ s', (nra_db_store_uint8 db key v s = Ok () s' ∧ db_view db s' = <[cbytes key := cbytes (print_hex 16 v)]> (db_view db s)) ∨
    (nra_db_store_uint8 db key v s = Err R_INTERNAL s' ∧ db_view db s' = db_view db s).
Proof.
  intros Hv. unfold nra_db_store_uint8. rewrite format_fits by done.
  destruct (db_put_law db (cbytes key) (cbytes (print_hex 16 v)) s) as (r & s' & Hrun & [[-> Hview]|[-> Hview]]);
    exists s'; [left|right]; (split; [by mstep using Hrun|done]).
Qed.

(** A fetch answers what the file has, or fails. *)
Definition fetches db key s (o : option Z) : Prop :=
  ∃ s', db_view db s' = db_view db s ∧
    (nra_db_fetch_uint8 db key s = Err R_INTERNAL s' ∨
     match o with Some v => nra_db_fetch_uint8 db key s = Ok v s' | None => nra_db_fetch_uint8 db key s = Err R_NOT_FOUND s' end).

Lemma fetch_text db key s v :
  0 <= v < 2 ^ 64 → db_view db s !! cbytes key = Some (cbytes (print_hex 16 v)) →
  fetches db key s (Some (Z.min (2 ^ 63 - 1) v)).
Proof.
  intros Hv Hin. destruct (db_get_law db (cbytes key) s) as (r & d & s' & Hrun & Hview & Hr). exists s'. split; [done|].
  unfold nra_db_fetch_uint8. destruct Hr as [[-> Hd]|[[-> Hd]| ->]]; [right|congruence|left; by mstep using Hrun].
  assert (d = cbytes (print_hex 16 v)) as -> by congruence. mstep using Hrun. cbn [Z.ltb Z.compare].
  rewrite string_at_cbytes by (eapply Forall_impl; [by apply print_hex_plain|by intros c []]).
  mstep. rewrite strtoq_print, wrap_small by lia. done.
Qed.

Lemma fetch_none db key s : db_view db s !! cbytes key = None → fetches db key s None.
Proof.
  intros Hin. destruct (db_get_law db (cbytes key) s) as (r & d & s' & Hrun & Hview & Hr). exists s'. split; [done|].
  unfold nra_db_fetch_uint8. destruct Hr as [[-> Hd]|[[-> Hd]| ->]]; [congruence|right; by mstep using Hrun|left; by mstep using Hrun].
Qed.

(** A 64-bit number that was stored is fetched under its name, and no name but it has
    changed: what is fetched is the number, or 2^63 - 1 if the number is greater, since it is
    read as a signed one.  A name that was never stored is not found.  Either call may fail with
    an error of the library, and then nothing has changed. *)
Theorem stored_fetched db key v s :
  0 <= v < 2 ^ 64 →
  ∃ s', (nra_db_store_uint8 db key v s = Err R_INTERNAL s' ∧ db_view db s' = db_view db s) ∨
    (nra_db_store_uint8 db key v s = Ok () s' ∧
     fetches db key s' (Some (if v <? 2 ^ 63 then v else 2 ^ 63 - 1)) ∧
     (∀ other, other ≠ key →
        (db_view db s !! cbytes other = None → fetches db other s' None) ∧
        (∀ w, 0 <= w < 2 ^ 64 → db_view db s !! cbytes other = Some (cbytes (print_hex 16 w)) →
           fetches db other s' (Some (if w <? 2 ^ 63 then w else 2 ^ 63 - 1))))).
Proof.
  assert (Hmin : ∀ w, (if w <? 2 ^ 63 then w else 2 ^ 63 - 1) = Z.min (2 ^ 63 - 1) w) by (intros w; destruct (Z.ltb_spec w (2 ^ 63)); lia).
  intros Hv. destruct (store_run db key v s Hv) as (s' & [[Hrun Hview]|[Hrun Hview]]); exists s'; [right|by left].
  split; [done|]. split; [rewrite Hmin; apply fetch_text; [done|by rewrite Hview, lookup_insert_eq]|].
  intros other Hne. assert (Hcb : cbytes key ≠ cbytes other) by (intros Heq; apply Hne; by apply cbytes_inj).
  split; [intros Hin|intros w Hw Hin; rewrite Hmin]; [apply fetch_none|apply fetch_text; [done|]]; by rewrite Hview, lookup_insert_ne.
Qed.
End laws.

(** ** A file in memory, whose operations do not fail *)

#[export] Instance memory_db : DbLib (gmap (list Z) (list Z)) () := {
  dbopen _ := mret (Some ());
  db_put _ k v := modify (<[k := v]>);; mret 0;
  db_get _ k := s ← get; mret (match s !! k with Some v => (0, v) | None => (1, []) end);
  db_sync _ := mret 0;
  db_close _ := mret 0;
}.
#[export] Instance memory_laws : DbLaws (gmap (list Z) (list Z)) ().
Proof.
  refine {| db_view _ s := s |}.
  - intros h k v s. exists 0, (<[k := v]> s). split; [done|by left].
  - intros h k s. cbn. destruct (s !! k) as [v|] eqn:Hk.
    + exists 0, v, s. split; [unfold mbind, M_bind, get; by rewrite Hk|]. split; [done|]. by left.
    + exists 1, [], s. split; [unfold mbind, M_bind, get; by rewrite Hk|]. split; [done|]. by right; left.
Defined.

(** The greatest number is fetched as the greatest signed one. *)
Definition db_with_count : gmap (list Z) (list Z) := {[cbytes $"count" := cbytes (print_hex 16 7)]}.
Lemma stored_fetched_witness :
  ∃ s', (nra_db_store_uint8 () $"serial" (2 ^ 64 - 1) db_with_count = Err R_INTERNAL s' ∧ s' = db_with_count) ∨
    (nra_db_store_uint8 () $"serial" (2 ^ 64 - 1) db_with_count = Ok () s' ∧
     fetches () $"serial" s' (Some (2 ^ 63 - 1)) ∧ fetches () $"count" s' (Some 7) ∧ fetches () $"age" s' None).
Proof.
  destruct (stored_fetched () $"serial" (2 ^ 64 - 1) db_with_count ltac:(lia)) as (s' & [Hfail|(Hrun & Hnew & Hother)]); exists s'; [by left|right].
  split; [exact Hrun|]. split; [exact Hnew|]. split.
  - apply (proj2 (Hother $"count" ltac:(discriminate)) 7); [lia|reflexivity].
  - apply (proj1 (Hother $"age" ltac:(discriminate))). reflexivity.
Defined.
