(* ===== verification/SslUtil.v ===== *)
(** * Certificates and connections (src/util/ssl_util.c)

    The cache of parsed certificates, on the associative array and with a parameter for what
    OpenSSL makes of bytes; then connections, over a class of the functions of OpenSSL and of
    the system that they call, with an account of what was allocated.  The theorems say what the
    cache gives and that the first certificate too many is undefined behaviour, what of a
    certificate's name is compared, and what is left of a connection that was destroyed. *)

From stdpp Require Import gmultiset.
From S2P Require Import Prelude CString AssocSpec RegState.
Local Open Scope Z_scope.

(** ** The cache *)

Definition MAX_PARSED_CERTS : Z := 4096.

Section cache.
Context {X : Type}.

(** The static variables, with the structures [parsed_cert] allocated and the certificates that
    OpenSSL was given back. *)
Record cert_cache := CertCache {
  certs : option (tbl loc ());
  cert_list : list loc;
  cert_count : Z;
  parsed : gmap loc (option X);
  freed : list X;
  cert_brk : loc;
  cert_answers : list bool;
}.
Definition cert_initial : cert_cache := CertCache None [] 0 ∅ [] 1 [].

#[export] Instance cert_alloc : HasAlloc cert_cache := {
  alloc_answers := cert_answers;
  set_alloc_answers l s := CertCache (certs s) (cert_list s) (cert_count s) (parsed s) (freed s) (cert_brk s) l;
}.
#[export] Instance cert_alloc_laws : AllocLaws cert_cache.
Proof. split; [done|done|by intros []]. Qed.

Abbreviation CM := (M cert_cache).

Definition set_certs (t : tbl loc ()) (s : cert_cache) : cert_cache :=
  CertCache (Some t) (cert_list s) (cert_count s) (parsed s) (freed s) (cert_brk s) (cert_answers s).
Definition set_cert_list (l : list loc) (s : cert_cache) : cert_cache :=
  CertCache (certs s) l (cert_count s) (parsed s) (freed s) (cert_brk s) (cert_answers s).
Definition add_count (n : Z) (s : cert_cache) : cert_cache :=
  CertCache (certs s) (cert_list s) (swrap 32 (cert_count s + n)) (parsed s) (freed s) (cert_brk s) (cert_answers s).
Definition set_parsed (f : gmap loc (option X) → gmap loc (option X)) (s : cert_cache) : cert_cache :=
  CertCache (certs s) (cert_list s) (cert_count s) (f (parsed s)) (freed s) (cert_brk s) (cert_answers s).
Definition add_freed (x : X) (s : cert_cache) : cert_cache :=
  CertCache (certs s) (cert_list s) (cert_count s) (parsed s) (freed s ++ [x]) (cert_brk s) (cert_answers s).
Definition new_parsed (s : cert_cache) : cert_cache :=
  CertCache (certs s) (cert_list s) (cert_count s) (<[cert_brk s := None]> (parsed s)) (freed s) (Pos.succ (cert_brk s)) (cert_answers s).

Definition load_parsed (l : loc) : CM (option X) := s ← get; from_option_ub (parsed s !! l).

Definition nr_ssl_util_destroy_cert (cert : option loc) : CM unit :=
  match cert with
  | None => mret ()
  | Some l =>
      x ← load_parsed l;
      (match x with Some x => modify (add_freed x) | None => mret () end);;
      modify (set_parsed (delete l))
  end.

(** The table: the functions of r_assoc.c, as [AssocSpec] has them, on the chain that the
    checksum selects. *)
Definition cert_bits : Z := 13.
Definition cert_hash : list Z → nat := crc_chain cert_bits.

(** [r_assoc_create]: a failure of the second allocation is undefined
    ([RAssoc.r_assoc_create_oom]). *)
Definition create_certs : CM unit :=
  alloc_or_abort;;
  ok ← alloc_ok;
  if (ok : bool) then modify (set_certs (tbl_empty (Z.to_nat (2 ^ cert_bits))));; modify (set_cert_list []) else undef.

(** [r_assoc_insert] with [R_ASSOC_NEW] *)
Definition insert_cert (data : list Z) (cert : loc) : CM unit :=
  s ← get;
  t ← from_option_ub (certs s);
  match tbl_fetch cert_hash t data with
  | Some _ => abort R_ALREADY
  | None => alloc_or_abort;; alloc_or_abort;; modify (set_certs (tbl_put cert_hash t (Entry data cert None (Some ()))))
  end.

Context (d2i_X509 : list Z → option X).

Definition _ssl_util_parse_cert (data : list Z) : CM loc :=
  alloc_or_abort;;
  s ← get;
  modify new_parsed;;
  match d2i_X509 data with
  | None => nr_ssl_util_destroy_cert (Some (cert_brk s));; abort R_BAD_DATA
  | Some x => modify (set_parsed <[cert_brk s := Some x]>);; mret (cert_brk s)
  end.

(** The oldest certificate is dropped: [TAILQ_REMOVE] of a null pointer is undefined. *)
Definition drop_oldest : CM unit :=
  s ← get;
  cert ← from_option_ub (head (cert_list s));
  modify (set_cert_list (tail (cert_list s)));;
  nr_ssl_util_destroy_cert (Some cert);;
  modify (add_count (-1)).

Definition nr_ssl_util_parse_cert (data : list Z) : CM X :=
  s ← get;
  (match certs s with None => create_certs | Some _ => mret () end);;
  s ← get;
  t ← from_option_ub (certs s);
  match tbl_fetch cert_hash t data with
  | Some e => x ← load_parsed (e_data e); from_option_ub x
  | None =>
      (if cert_count s =? MAX_PARSED_CERTS then drop_oldest else mret ());;
      cert ← _ssl_util_parse_cert data;
      r ← catch (insert_cert data cert);
      match r with
      | inl r => nr_ssl_util_destroy_cert (Some cert);; abort r
      | inr _ => modify (add_count 1);; x ← load_parsed cert; from_option_ub x
      end
  end.

(** Certificates one after the other. *)
Fixpoint parse_all (datas : list (list Z)) : CM (list X) :=
  match datas with
  | [] => mret []
  | data :: datas' => x ← nr_ssl_util_parse_cert data; xs ← parse_all datas'; mret (x :: xs)
  end.

(** ** What the cache holds *)

(** [m] has the certificates under their bytes. *)
Record cache_wf (s : cert_cache) (m : gmap (list Z) X) : Prop := {
  cw_table t : certs s = Some t → tbl_ok cert_hash t ∧
    (∀ k, match tbl_fetch cert_hash t k with
          | Some e => ∃ x, m !! k = Some x ∧ parsed s !! e_data e = Some (Some x)
          | None => m !! k = None
          end);
  cw_none : certs s = None → m = ∅;
  cw_list : cert_list s = [];
  cw_count : cert_count s = Z.of_nat (size m);
  cw_fresh l : (cert_brk s <= l)%positive → parsed s !! l = None;
  cw_mem : mem_plenty s;
}.

Lemma cache_initial : cache_wf cert_initial ∅.
Proof. split; try done. Qed.

Lemma cert_hash_ok : HashSpec cert_hash (Z.to_nat (2 ^ cert_bits)).
Proof. apply crc_chain_spec. unfold cert_bits. lia. Qed.
#[local] Opaque cert_hash.

(** The first call makes the table. *)
Definition table_made (s : cert_cache) : cert_cache :=
  match certs s with
  | None => set_cert_list [] (set_certs (tbl_empty (Z.to_nat (2 ^ cert_bits))) s)
  | Some _ => s
  end.

Lemma table_made_run s m :
  cache_wf s m →
  (match certs s with None => create_certs | Some _ => mret () end) s = Ok () (table_made s) ∧ cache_wf (table_made s) m ∧
  is_Some (certs (table_made s)).
Proof.
  intros Hwf. unfold table_made. destruct (certs s) as [t|] eqn:Ht; [by rewrite Ht|].
  pose proof (cw_none _ _ Hwf Ht) as ->. pose proof cert_hash_ok as Hhash. split_and!; [| |by eexists].
  - unfold create_certs. mstep using (alloc_or_abort_plenty s (cw_mem _ _ Hwf)). mstep using (alloc_ok_plenty s (cw_mem _ _ Hwf)). done.
  - destruct Hwf as [_ _ Hlist Hcount Hfresh Hmem]. split; try done. intros t [= <-]. split; [by apply tbl_empty_ok|].
    intros k. by rewrite tbl_fetch_empty.
Qed.

(** A certificate that is new, with its structure at the end of the memory. *)
Definition with_cert (data : list Z) (x : X) (t : tbl loc ()) (s : cert_cache) : cert_cache :=
  add_count 1 (set_certs (tbl_put cert_hash t (Entry data (cert_brk s) None (Some ())))
    (set_parsed <[cert_brk s := Some x]> (new_parsed s))).

Lemma with_cert_wf data x t s m :
  cache_wf s m → certs s = Some t → m !! data = None → Z.of_nat (size m) < MAX_PARSED_CERTS →
  cache_wf (with_cert data x t s) (<[data := x]> m).
Proof.
  intros [Htab _ Hlist Hcount Hfresh Hmem] Ht Hno Hlt. destruct (Htab t Ht) as [Hok Hview]. split; cbn; try done.
  - intros t' [= <-]. split; [by apply tbl_put_ok|]. intros k. destruct (decide (k = data)) as [->|Hne].
    + pose proof (tbl_fetch_put_eq cert_hash t (Entry data (cert_brk s) None (Some ())) Hok) as He. cbn in He. rewrite He. exists x.
      by rewrite !lookup_insert_eq.
    + rewrite tbl_fetch_put_ne by done. specialize (Hview k). destruct (tbl_fetch cert_hash t k) as [e|].
      * destruct Hview as (y & Hy & Hp). exists y. rewrite lookup_insert_ne by done. split; [done|].
        assert (e_data e ≠ cert_brk s) by (intros Heq; rewrite Heq, Hfresh in Hp by done; done). by rewrite !lookup_insert_ne.
      * by rewrite lookup_insert_ne.
  - rewrite Hcount, map_size_insert_None by done. unfold MAX_PARSED_CERTS in Hlt. rewrite swrap_small by lia. lia.
  - intros l Hl. rewrite !lookup_insert_ne by lia. apply Hfresh. lia.
Qed.

(** A structure that was made for what is no certificate is freed again. *)
Lemma dropped_wf s m : cache_wf s m → cache_wf (set_parsed (delete (cert_brk s)) (new_parsed s)) m.
Proof.
  intros [Htab Hnone Hlist Hcount Hfresh Hmem]. split; cbn; try done.
  - intros t Ht. destruct (Htab t Ht) as [Hok Hview]. split; [done|]. intros k. specialize (Hview k).
    destruct (tbl_fetch cert_hash t k) as [e|]; [|done]. destruct Hview as (y & Hy & Hp). exists y. split; [done|].
    assert (e_data e ≠ cert_brk s) by (intros Heq; rewrite Heq, Hfresh in Hp by done; done).
    by rewrite lookup_delete_ne, lookup_insert_ne.
  - intros l Hl. rewrite lookup_delete_ne, lookup_insert_ne by lia. apply Hfresh. lia.
Qed.

(** ** One certificate *)

Definition parses (s : cert_cache) (m : gmap (list Z) X) (data : list Z) : Prop :=
  match m !! data with
  | Some x => ∃ s', nr_ssl_util_parse_cert data s = Ok x s' ∧ cache_wf s' m
  | None =>
      if Z.of_nat (size m) =? MAX_PARSED_CERTS then nr_ssl_util_parse_cert data s = UB
      else match d2i_X509 data with
           | Some x => ∃ s', nr_ssl_util_parse_cert data s = Ok x s' ∧ cache_wf s' (<[data := x]> m)
           | None => ∃ s', nr_ssl_util_parse_cert data s = Err R_BAD_DATA s' ∧ cache_wf s' m
           end
  end.

(** The fetch of a certificate that is not there, and its structure. *)
Lemma fetch_view s m t data :
  cache_wf s m → certs s = Some t →
  match m !! data with
  | Some x => ∃ e, tbl_fetch cert_hash t data = Some e ∧ parsed s !! e_data e = Some (Some x)
  | None => tbl_fetch cert_hash t data = None
  end.
Proof.
  intros Hwf Ht. destruct (cw_table _ _ Hwf t Ht) as [_ Hview]. specialize (Hview data).
  destruct (tbl_fetch cert_hash t data) as [e|]; [|by rewrite Hview]. destruct Hview as (x & -> & Hp). by exists e.
Qed.

Lemma parse_good s m data x :
  cache_wf s m → d2i_X509 data = Some x →
  _ssl_util_parse_cert data s = Ok (cert_brk s) (set_parsed <[cert_brk s := Some x]> (new_parsed s)).
Proof.
  intros Hwf Hx. unfold _ssl_util_parse_cert. mstep using (alloc_or_abort_plenty s (cw_mem _ _ Hwf)). mstep. mstep. by rewrite Hx.
Qed.

Lemma parse_bad s m data :
  cache_wf s m → d2i_X509 data = None →
  _ssl_util_parse_cert data s = Err R_BAD_DATA (set_parsed (delete (cert_brk s)) (new_parsed s)).
Proof.
  intros Hwf Hx. unfold _ssl_util_parse_cert. mstep using (alloc_or_abort_plenty s (cw_mem _ _ Hwf)). mstep. mstep. rewrite Hx.
  erewrite bind_ok; [done|]. unfold nr_ssl_util_destroy_cert, load_parsed, mbind, M_bind, get. cbn. by rewrite lookup_insert_eq.
Qed.

Lemma insert_good s m data x t :
  cache_wf s m → certs s = Some t → m !! data = None →
  let s1 := set_parsed <[cert_brk s := Some x]> (new_parsed s) in
  insert_cert data (cert_brk s) s1 = Ok () (set_certs (tbl_put cert_hash t (Entry data (cert_brk s) None (Some ()))) s1).
Proof.
  intros Hwf Ht Hno s1. pose proof (fetch_view s m t data Hwf Ht) as Hf. rewrite Hno in Hf.
  assert (Hm : mem_plenty s1) by exact (cw_mem _ _ Hwf).
  unfold insert_cert. mstep. change (certs s1) with (certs s). rewrite Ht. mstep. rewrite Hf.
  mstep using (alloc_or_abort_plenty s1 Hm). mstep using (alloc_or_abort_plenty s1 Hm). done.
Qed.

Lemma parse_run s m data : cache_wf s m → Z.of_nat (size m) <= MAX_PARSED_CERTS → parses s m data.
Proof.
  intros Hwf0 Hmax. destruct (table_made_run s m Hwf0) as (Hmake & Hwf & t & Ht).
  pose proof (fetch_view _ _ t data Hwf Ht) as Hf. unfold parses, nr_ssl_util_parse_cert. set (s1 := table_made s) in *.
  destruct (m !! data) as [x|] eqn:Hm; [destruct Hf as (e & He & Hp); exists s1|];
    [|destruct (Z.of_nat (size m) =? MAX_PARSED_CERTS) eqn:Hfull; [|destruct (d2i_X509 data) as [x|] eqn:Hx]].
  - split; [|done]. mstep. mstep using Hmake. mstep. rewrite Ht. mstep. rewrite He. unfold load_parsed, mbind, M_bind, get. by rewrite Hp.
  - mstep. mstep using Hmake. mstep. rewrite Ht. mstep. rewrite Hf, (cw_count _ _ Hwf), Hfull. apply bind_ub.
    unfold drop_oldest. mstep. by rewrite (cw_list _ _ Hwf).
  - exists (with_cert data x t s1). split; [|apply with_cert_wf; [done..|apply Z.eqb_neq in Hfull; lia]].
    mstep. mstep using Hmake. mstep. rewrite Ht. mstep. rewrite Hf, (cw_count _ _ Hwf), Hfull. mstep.
    mstep using (parse_good s1 m data x Hwf Hx). mstep using (catch_ok _ _ _ _ (insert_good s1 m data x t Hwf Ht Hm)). cbn beta iota. mstep.
    unfold load_parsed, mbind, M_bind, get. cbn. by rewrite lookup_insert_eq.
  - exists (set_parsed (delete (cert_brk s1)) (new_parsed s1)). split; [|by apply dropped_wf].
    mstep. mstep using Hmake. mstep. rewrite Ht. mstep. rewrite Hf, (cw_count _ _ Hwf), Hfull. mstep.
    apply bind_err. exact (parse_bad s1 m data Hwf Hx).
Qed.

(** ** Many certificates *)

(** Bytes with the certificates they are. *)
Definition certificates (datas : list (list Z)) (xs : list X) : Prop := Forall2 (λ data x, d2i_X509 data = Some x) datas xs.

Lemma parse_all_run datas xs s m :
  cache_wf s m → certificates datas xs → NoDup datas → (∀ data, data ∈ datas → m !! data = None) →
  Z.of_nat (size m + length datas) <= MAX_PARSED_CERTS →
  ∃ s', parse_all datas s = Ok xs s' ∧ cache_wf s' (list_to_map (zip datas xs) ∪ m).
Proof.
  intros Hwf Hxs. revert s m Hwf. induction Hxs as [|data x datas xs Hx Hxs IH]; intros s m Hwf Hnd Hno Hmax.
  { exists s. cbn. by rewrite (left_id_L ∅ (∪)). }
  apply NoDup_cons in Hnd as [Hin Hnd]. cbn [length] in Hmax.
  pose proof (parse_run s m data Hwf ltac:(lia)) as Hrun. unfold parses in Hrun. rewrite (Hno data) in Hrun by by left.
  rewrite (proj2 (Z.eqb_neq _ _)), Hx in Hrun by lia. destruct Hrun as (s1 & Hrun & Hwf1).
  destruct (IH s1 (<[data := x]> m) Hwf1 Hnd) as (s2 & Hruns & Hwf2).
  - intros d Hd. rewrite lookup_insert_ne by (intros ->; done). apply Hno. by right.
  - rewrite map_size_insert_None by (apply Hno; by left). lia.
  - exists s2. split; [cbn [parse_all]; mstep using Hrun; by mstep using Hruns|]. cbn.
    rewrite <- insert_union_l. rewrite <- insert_union_r in Hwf2; [done|].
    apply not_elem_of_list_to_map_1. by rewrite fst_zip by (rewrite (Forall2_length _ _ _ Hxs); lia).
Qed.

(** Up to 4096 different certificates are parsed, each as OpenSSL parses it, and are found
    again without being parsed; what is no certificate is refused and not kept.  After 4096
    every other certificate is undefined behaviour: the oldest is to be taken from a list that
    nothing was put into. *)
Theorem cache_serves datas xs :
  certificates datas xs → NoDup datas → Z.of_nat (length datas) <= MAX_PARSED_CERTS →
  ∃ s', parse_all datas cert_initial = Ok xs s' ∧
    (∀ i data x, datas !! i = Some data → xs !! i = Some x → ∃ s'', nr_ssl_util_parse_cert data s' = Ok x s'') ∧
    (∀ data, data ∉ datas →
       if Z.of_nat (length datas) =? MAX_PARSED_CERTS then nr_ssl_util_parse_cert data s' = UB
       else match d2i_X509 data with
            | Some x => ∃ s'', nr_ssl_util_parse_cert data s' = Ok x s''
            | None => ∃ s'', nr_ssl_util_parse_cert data s' = Err R_BAD_DATA s''
            end).
Proof.
  intros Hxs Hnd Hmax. destruct (parse_all_run datas xs cert_initial ∅) as (s' & Hrun & Hwf); [apply cache_initial|done|done|done|by rewrite map_size_empty|].
  rewrite (right_id_L ∅ (∪)) in Hwf. exists s'. split; [done|].
  pose proof (Forall2_length _ _ _ Hxs) as Hlen.
  assert (Hfst : (zip datas xs).*1 = datas) by (apply fst_zip; lia).
  assert (Hsize : size (list_to_map (zip datas xs) : gmap (list Z) X) = length datas).
  { rewrite map_size_list_to_map by by rewrite Hfst. by rewrite length_zip, <- Hlen, Nat.min_id. }
  split.
  - intros i data x Hd Hx. pose proof (parse_run s' _ data Hwf ltac:(lia)) as Hp. unfold parses in Hp.
    rewrite (elem_of_list_to_map_1 _ data x) in Hp; [|by rewrite Hfst|].
    + destruct Hp as (s'' & Hp & _). by exists s''.
    + apply list_elem_of_lookup. exists i. by apply lookup_zip_Some.
  - intros data Hno. pose proof (parse_run s' _ data Hwf ltac:(lia)) as Hp. unfold parses in Hp.
    rewrite (not_elem_of_list_to_map_1 _ data), Hsize in Hp by by rewrite Hfst.
    destruct (_ =? _); [done|]. destruct (d2i_X509 data); destruct Hp as (s'' & Hp & _); by exists s''.
Qed.
End cache.

(** A library that takes any bytes that begin with 48 for a certificate, with the rest as what it
    is. *)
Definition sequence_only (data : list Z) : option (list Z) := match data with 48 :: rest => Some rest | _ => None end.
Lemma cache_serves_witness :
  ∃ s', parse_all sequence_only [[48; 1]; [48; 2]] cert_initial = Ok [[1]; [2]] s' ∧
    (∃ s'', nr_ssl_util_parse_cert sequence_only [48; 2] s' = Ok [2] s'') ∧
    (∃ s'', nr_ssl_util_parse_cert sequence_only [7] s' = Err R_BAD_DATA s'').
Proof.
  destruct (cache_serves sequence_only [[48; 1]; [48; 2]] [[1]; [2]]) as (s' & Hrun & Hin & Hout).
  - by repeat constructor.
  - by apply (bool_decide_unpack _).
  - done.
  - exists s'. split; [exact Hrun|]. split; [by apply (Hin 1%nat [48; 2] [2])|].
    assert (Hno : [7] ∉ [[48; 1]; [48; 2]]) by (by apply (bool_decide_unpack _)). exact (Hout [7] Hno).
Defined.

(** ** Connections *)

Abbreviation ptr := positive.

(** What the functions call of OpenSSL and of the system, on a state of theirs.  An [option] is
    a pointer, a [bool] says whether a call succeeded. *)
Class OpenSsl (E : Type) := {
  SSL_library_init : M E unit;
  SSL_CTX_new : M E (option ptr);
  SSL_CTX_use_certificate_chain_file : ptr → cstring → M E bool;
  SSL_CTX_use_PrivateKey_file : ptr → cstring → M E bool;
  SSL_CTX_load_verify_locations : ptr → cstring → M E bool;
  SSL_new : ptr → M E (option ptr);
  BIO_new_socket : Z → M E (option ptr);
  SSL_set_bio : ptr → ptr → M E unit;
  SSL_connect : ptr → M E Z;
  SSL_get_verify_result : ptr → M E bool;             (* == X509_V_OK *)
  SSL_get_peer_certificate : ptr → M E (option ptr);
  commonName : ptr → M E (option (list Z));           (* the bytes of the name, if there is one *)
  i2d_X509 : option ptr → M E (option (list Z));
  SSL_write : ptr → list Z → M E (Z * bool);          (* the result, and SSL_ERROR_NONE *)
  SSL_read : ptr → Z → M E (Z * bool * list Z);
  gethostbyname : cstring → M E (option Z);
  socket : M E Z;
  connect : Z → Z → Z → M E bool;
}.

Record ssl_conn := SslConn { ssl_ctx : option ptr; ssl : option ptr; bio : option ptr; sock : Z }.

Section conn.
Context {E : Type} `{OpenSsl E}.

(** The state of the libraries, the static flag, and what these functions have allocated and not
    freed: structures, contexts, connections, references to certificates, sockets. *)
Record ssl_state := SslState {
  ssl_env : E;
  openssl_initialized : bool;
  conns : gmap loc ssl_conn;
  ctx_live : gmultiset ptr;
  ssl_live : gmultiset ptr;
  x509_live : gmultiset ptr;
  socks_open : gmultiset Z;
  conn_brk : loc;
  conn_answers : list bool;
}.
#[export] Instance ssl_alloc : HasAlloc ssl_state := {
  alloc_answers := conn_answers;
  set_alloc_answers l s :=
    SslState (ssl_env s) (openssl_initialized s) (conns s) (ctx_live s) (ssl_live s) (x509_live s) (socks_open s) (conn_brk s) l;
}.
#[export] Instance ssl_alloc_laws : AllocLaws ssl_state.
Proof. split; [done|done|by intros []]. Qed.
Abbreviation SM := (M ssl_state).

Definition set_env (e : E) (s : ssl_state) : ssl_state :=
  SslState e (openssl_initialized s) (conns s) (ctx_live s) (ssl_live s) (x509_live s) (socks_open s) (conn_brk s) (conn_answers s).
Definition env {A} (m : M E A) : SM A := λ s,
  match m (ssl_env s) with Ok a e => Ok a (set_env e s) | Err r e => Err r (set_env e s) | UB => UB end.
Definition set_initialized (s : ssl_state) : ssl_state :=
  SslState (ssl_env s) true (conns s) (ctx_live s) (ssl_live s) (x509_live s) (socks_open s) (conn_brk s) (conn_answers s).
Definition set_conns (f : gmap loc ssl_conn → gmap loc ssl_conn) (s : ssl_state) : ssl_state :=
  SslState (ssl_env s) (openssl_initialized s) (f (conns s)) (ctx_live s) (ssl_live s) (x509_live s) (socks_open s) (conn_brk s) (conn_answers s).
Definition new_conn (s : ssl_state) : ssl_state :=
  SslState (ssl_env s) (openssl_initialized s) (<[conn_brk s := SslConn None None None (-1)]> (conns s)) (ctx_live s) (ssl_live s)
    (x509_live s) (socks_open s) (Pos.succ (conn_brk s)) (conn_answers s).
Definition set_ctxs (f : gmultiset ptr → gmultiset ptr) (s : ssl_state) : ssl_state :=
  SslState (ssl_env s) (openssl_initialized s) (conns s) (f (ctx_live s)) (ssl_live s) (x509_live s) (socks_open s) (conn_brk s) (conn_answers s).
Definition set_ssls (f : gmultiset ptr → gmultiset ptr) (s : ssl_state) : ssl_state :=
  SslState (ssl_env s) (openssl_initialized s) (conns s) (ctx_live s) (f (ssl_live s)) (x509_live s) (socks_open s) (conn_brk s) (conn_answers s).
Definition set_x509s (f : gmultiset ptr → gmultiset ptr) (s : ssl_state) : ssl_state :=
  SslState (ssl_env s) (openssl_initialized s) (conns s) (ctx_live s) (ssl_live s) (f (x509_live s)) (socks_open s) (conn_brk s) (conn_answers s).
Definition set_socks (f : gmultiset Z → gmultiset Z) (s : ssl_state) : ssl_state :=
  SslState (ssl_env s) (openssl_initialized s) (conns s) (ctx_live s) (ssl_live s) (x509_live s) (f (socks_open s)) (conn_brk s) (conn_answers s).

Definition load_conn (l : loc) : SM ssl_conn := s ← get; from_option_ub (conns s !! l).
Definition update_conn (l : loc) (f : ssl_conn → ssl_conn) : SM unit := c ← load_conn l; modify (set_conns <[l := f c]>).

(** [if(!p) ABORT(r);] *)
Definition or_abort {A} (r : Z) (o : option A) : SM A := match o with Some a => mret a | None => abort r end.
Definition check (r : Z) (b : bool) : SM unit := if b then mret () else abort r.

(** *** The certificate of the peer *)

(** The reference that is got is the caller's to free. *)
Definition get_peer (l : ptr) : SM (option ptr) :=
  x ← env (SSL_get_peer_certificate l);
  match x with Some x => modify (set_x509s (λ m, m ⊎ {[+ x +]})) | None => mret () end;;
  mret x.

(** [X509_NAME_get_text_by_NID] into a buffer: at most [size-1] bytes and a zero.  The subject
    of no certificate is undefined, and without a common name the buffer is not written. *)
Definition text_by_NID (x : option ptr) (size : nat) : SM (option (list Z)) :=
  x ← from_option_ub x;
  name ← env (commonName x);
  mret ((λ n, take (size - 1) n ++ [0]) <$> name).

(** The text at the start of a buffer. *)
Fixpoint text_of (bs : list Z) : cstring :=
  match bs with b :: bs' => if b =? 0 then [] else char_of b :: text_of bs' | [] => [] end.

Definition nr_check_cert (l : ptr) (host : cstring) : SM unit :=
  ok ← env (SSL_get_verify_result l);
  if negb ok then abort R_NOT_FOUND
  else
    peer ← get_peer l;
    peer_CN ← text_by_NID peer 256;
    peer_CN ← from_option_ub peer_CN;
    if negb (strcaseeq (text_of peer_CN) host) then abort R_NOT_FOUND else mret ().

(** The caller's buffer; [None]: not written. *)
Definition nr_ssl_get_common_name (l : ptr) (maxlen : nat) : SM (option (list Z)) :=
  ok ← env (SSL_get_verify_result l);
  if negb ok then abort R_NOT_FOUND else peer ← get_peer l; text_by_NID peer maxlen.

Definition check_ssl_cert_match (l : ptr) (cert : list Z) : SM unit :=
  x ← get_peer l;
  r ← catch (
    der ← env (i2d_X509 x);
    _ ← or_abort R_BAD_DATA der;
    alloc_or_abort;;
    der ← env (i2d_X509 x);
    der ← or_abort R_BAD_DATA der;
    check R_NOT_FOUND (bool_decide (length der = length cert));;
    check R_NOT_FOUND (bool_decide (der = cert)));
  match x with Some x => modify (set_x509s (λ m, m ∖ {[+ x +]})) | None => mret () end;;
  match r with inl r => abort r | inr _ => mret () end.

(** *** Opening and closing *)

(** -1 when it fails; then the socket, if there is one, stays open. *)
Definition nr_tcp_connect (host : cstring) (port : Z) : SM Z :=
  hp ← env (gethostbyname host);
  match hp with
  | None => mret (-1)
  | Some addr =>
      fd ← env socket;
      if (fd : Z) <? 0 then mret (-1)
      else
        modify (set_socks (λ m, m ⊎ {[+ fd +]}));;
        ok ← env (connect fd addr port);
        mret (if (ok : bool) then fd else -1)
  end.

(** The context and the connection are freed.  The socket is closed if there is none, and the
    structure is not freed. *)
Definition nr_ssl_conn_destroy (connp : option loc) : SM unit :=
  match connp with
  | None => mret ()
  | Some l =>
      c ← load_conn l;
      match ssl_ctx c with Some ctx => modify (set_ctxs (λ m, m ∖ {[+ ctx +]})) | None => mret () end;;
      match ssl c with Some p => modify (set_ssls (λ m, m ∖ {[+ p +]})) | None => mret () end;;
      if sock c =? -1 then modify (set_socks (λ m, m ∖ {[+ sock c +]})) else mret ()
  end.

Definition with_ctx (p : ptr) (c : ssl_conn) : ssl_conn := SslConn (Some p) (ssl c) (bio c) (sock c).
Definition with_ssl (p : ptr) (c : ssl_conn) : ssl_conn := SslConn (ssl_ctx c) (Some p) (bio c) (sock c).
Definition with_bio (p : ptr) (c : ssl_conn) : ssl_conn := SslConn (ssl_ctx c) (ssl c) (Some p) (sock c).
Definition with_sock (fd : Z) (c : ssl_conn) : ssl_conn := SslConn (ssl_ctx c) (ssl c) (bio c) fd.

(** The part from the context on; [roots] and [verify] are what the two functions differ in. *)
Definition conn_setup (roots keyfile : option cstring) (host : cstring) (port : Z) (verify : ptr → SM unit) (l : loc) : SM unit :=
  ctx ← env SSL_CTX_new;
  ctx ← or_abort R_NO_MEMORY ctx;
  modify (set_ctxs (λ m, m ⊎ {[+ ctx +]}));;
  update_conn l (with_ctx ctx);;
  match keyfile with
  | Some keyfile =>
      ok ← env (SSL_CTX_use_certificate_chain_file ctx keyfile); check R_NOT_FOUND ok;;
      ok ← env (SSL_CTX_use_PrivateKey_file ctx keyfile); check R_NOT_FOUND ok
  | None => mret ()
  end;;
  match roots with
  | Some rootlist => ok ← env (SSL_CTX_load_verify_locations ctx rootlist); check R_BAD_ARGS ok
  | None => mret ()
  end;;
  fd ← nr_tcp_connect host port;
  update_conn l (with_sock fd);;
  check R_NOT_FOUND (negb (fd =? 0));;
  p ← env (SSL_new ctx);
  p ← or_abort R_NO_MEMORY p;
  modify (set_ssls (λ m, m ⊎ {[+ p +]}));;
  update_conn l (with_ssl p);;
  b ← env (BIO_new_socket fd);
  b ← or_abort R_NO_MEMORY b;
  update_conn l (with_bio b);;
  env (SSL_set_bio p b);;
  r ← env (SSL_connect p);
  check R_NOT_FOUND (0 <? (r : Z));;
  verify p.

Definition conn_open (roots keyfile : option cstring) (host : cstring) (port : Z) (verify : ptr → SM unit) : SM loc :=
  s ← get;
  (if openssl_initialized s then mret () else modify set_initialized;; env SSL_library_init);;
  alloc_or_abort;;
  s ← get;
  modify new_conn;;
  r ← catch (conn_setup roots keyfile host port verify (conn_brk s));
  match r with
  | inl r => nr_ssl_conn_destroy (Some (conn_brk s));; abort r
  | inr _ => mret (conn_brk s)
  end.

Definition nr_ssl_conn_create (rootlist : cstring) (keyfile : option cstring) (host : cstring) (port : Z) : SM loc :=
  conn_open (Some rootlist) keyfile host port (λ p, nr_check_cert p host).
Definition nr_ssl_conn_create_with_cert (cert : list Z) (keyfile : option cstring) (host : cstring) (port : Z) : SM loc :=
  conn_open None keyfile host port (λ p, check_ssl_cert_match p cert).

(** *** Data *)

Fixpoint nr_ssl_write_all (fuel : nat) (p : ptr) (data : list Z) : SM unit :=
  match data, fuel with
  | [], _ => mret ()
  | _, O => undef
  | _, Datatypes.S fuel' =>
      '(r, ok) ← env (SSL_write p data);
      if negb ok then abort r else nr_ssl_write_all fuel' p (drop (Z.to_nat r) data)
  end.

Definition nr_ssl_read_data (p : ptr) (len : Z) : SM (list Z) :=
  '(r, ok, data) ← env (SSL_read p len);
  if negb ok then abort R_BAD_DATA else mret (take (Z.to_nat r) data).

(** ** What is checked of a certificate *)

(** The text before the first zero byte, of the first 255. *)
Definition checked_name (name : list Z) : cstring := text_of (take 255 name ++ [0]).

Lemma check_cert_run l host s x name e1 e2 e3 :
  SSL_get_verify_result l (ssl_env s) = Ok true e1 → SSL_get_peer_certificate l e1 = Ok (Some x) e2 → commonName x e2 = Ok (Some name) e3 →
  let s' := set_env e3 (set_x509s (λ m, m ⊎ {[+ x +]}) s) in
  nr_check_cert l host s = if strcaseeq (checked_name name) host then Ok () s' else Err (abort_code R_NOT_FOUND) s'.
Proof.
  intros H1 H2 H3 s'. unfold nr_check_cert, get_peer, text_by_NID, env, mbind, M_bind. rewrite H1. cbn. rewrite H2. cbn. rewrite H3.
  cbn -[strcaseeq text_of take Nat.sub]. change (256 - 1)%nat with 255%nat. fold (checked_name name). by destruct (strcaseeq _ host).
Qed.

(** A peer whose certificate is not verified is refused; one without a certificate, or whose
    certificate has no common name, is undefined. *)
Lemma check_cert_unverified l host s e1 :
  SSL_get_verify_result l (ssl_env s) = Ok false e1 → nr_check_cert l host s = Err (abort_code R_NOT_FOUND) (set_env e1 s).
Proof. intros H1. unfold nr_check_cert, env, mbind, M_bind. by rewrite H1. Qed.

Lemma check_cert_none l host s e1 e2 :
  SSL_get_verify_result l (ssl_env s) = Ok true e1 → SSL_get_peer_certificate l e1 = Ok None e2 → nr_check_cert l host s = UB.
Proof. intros H1 H2. unfold nr_check_cert, get_peer, text_by_NID, env, mbind, M_bind. rewrite H1. cbn. by rewrite H2. Qed.

Lemma check_cert_nameless l host s x e1 e2 e3 :
  SSL_get_verify_result l (ssl_env s) = Ok true e1 → SSL_get_peer_certificate l e1 = Ok (Some x) e2 → commonName x e2 = Ok None e3 →
  nr_check_cert l host s = UB.
Proof. intros H1 H2 H3. unfold nr_check_cert, get_peer, text_by_NID, env, mbind, M_bind. rewrite H1. cbn. rewrite H2. cbn. by rewrite H3. Qed.

(** What follows a zero byte in the name is not looked at. *)
Lemma text_of_string host rest : no_nul host → text_of (cbytes host ++ rest) = host.
Proof.
  induction 1 as [|c host Hc Hh IH]; [done|]. unfold cbytes in *. cbn. rewrite (proj2 (Z.eqb_neq _ _)) by done. cbn in IH.
  by rewrite IH, char_of_uchar.
Qed.

Lemma checked_prefix host rest : no_nul host → (length host < 255)%nat → checked_name (cbytes host ++ rest) = host.
Proof.
  intros Hh Hl. unfold checked_name. rewrite take_app_ge by (unfold cbytes; rewrite length_app, length_fmap; cbn; lia).
  rewrite <- app_assoc. by apply text_of_string.
Qed.

Lemma strcaseeq_refl h : strcaseeq h h = true.
Proof. unfold strcaseeq. by apply bool_decide_eq_true. Qed.

Lemma check_cert_prefix l host rest s x e1 e2 e3 :
  no_nul host → (length host < 255)%nat →
  SSL_get_verify_result l (ssl_env s) = Ok true e1 → SSL_get_peer_certificate l e1 = Ok (Some x) e2 →
  commonName x e2 = Ok (Some (cbytes host ++ rest)) e3 →
  ∃ s', nr_check_cert l host s = Ok () s'.
Proof.
  intros Hh Hl H1 H2 H3. rewrite (check_cert_run l host s x _ e1 e2 e3 H1 H2 H3), checked_prefix, strcaseeq_refl by done. eauto.
Qed.

(** ** What a connection leaves *)

(** [Q] holds of the answer and the state if [m] returns. *)
Definition ends {A} (m : SM A) (s : ssl_state) (Q : A → ssl_state → Prop) : Prop :=
  match m s with Ok a s' => Q a s' | _ => True end.

Lemma ssl_ends_bind {A B} (m : SM A) (k : A → SM B) s Q : ends m s (λ a s', ends (k a) s' Q) → ends (m ≫= k) s Q.
Proof. unfold ends, mbind, M_bind. destruct (m s); auto. Qed.
Lemma ssl_ends_env {A} (m : M E A) s Q : (∀ a e, Q a (set_env e s)) → ends (env m) s Q.
Proof. unfold ends, env. intros HQ. destruct (m (ssl_env s)); auto. Qed.
Lemma ssl_ends_ret {A} (a : A) s Q : Q a s → ends (mret a) s Q.
Proof. done. Qed.
Lemma ssl_ends_modify f s (Q : () → ssl_state → Prop) : Q () (f s) → ends (modify f) s Q.
Proof. done. Qed.
Lemma ssl_ends_abort {A} r s (Q : A → ssl_state → Prop) : ends (abort r) s Q.
Proof. done. Qed.
Lemma ssl_ends_or_abort {A} r (o : option A) s Q : (∀ a, o = Some a → Q a s) → ends (or_abort r o) s Q.
Proof. destruct o; [|done]. intros HQ. by apply HQ. Qed.
Lemma ssl_ends_check r b s (Q : () → ssl_state → Prop) : (b = true → Q () s) → ends (check r b) s Q.
Proof. destruct b; [|done]. intros HQ. by apply HQ. Qed.
Lemma ssl_ends_update l f c s (Q : () → ssl_state → Prop) : conns s !! l = Some c → Q () (set_conns <[l := f c]> s) → ends (update_conn l f) s Q.
Proof. intros Hl HQ. unfold ends, update_conn, load_conn, mbind, M_bind, get. by rewrite Hl. Qed.
Lemma ssl_ends_mono {A} (m : SM A) s (P Q : A → ssl_state → Prop) : ends m s P → (∀ a s', P a s' → Q a s') → ends m s Q.
Proof. unfold ends. destruct (m s); auto. Qed.

(** Nothing but certificates and the state of the libraries. *)
Record only_peer (s s' : ssl_state) : Prop := {
  op_conns : conns s' = conns s;
  op_ctx : ctx_live s' = ctx_live s;
  op_ssl : ssl_live s' = ssl_live s;
  op_socks : socks_open s' = socks_open s;
}.

Lemma get_peer_ends l s : ends (get_peer l) s (λ _ s', only_peer s s').
Proof.
  unfold get_peer. apply ssl_ends_bind, ssl_ends_env. intros [x|] e; apply ssl_ends_bind; [apply ssl_ends_modify|apply ssl_ends_ret]; by apply ssl_ends_ret.
Qed.

Lemma check_cert_ends l host s : ends (nr_check_cert l host) s (λ _ s', only_peer s s').
Proof.
  unfold nr_check_cert. apply ssl_ends_bind, ssl_ends_env. intros [] e; [|apply ssl_ends_abort]. cbn [negb]. apply ssl_ends_bind.
  eapply ssl_ends_mono; [apply get_peer_ends|]. intros x s1 H1. apply ssl_ends_bind. unfold text_by_NID.
  destruct x as [x|]; [|done]. apply ssl_ends_bind, ssl_ends_ret, ssl_ends_bind, ssl_ends_env. intros [n|] e1; apply ssl_ends_ret; [|done].
  apply ssl_ends_bind, ssl_ends_ret. destruct (negb _); [done|]. apply ssl_ends_ret. by destruct H1.
Qed.

(** What a connection that was made holds. *)
Record holds (s s' : ssl_state) (l : loc) (fd : Z) : Prop := {
  hd_open : ∃ ctx p b, conns s' = <[l := SslConn (Some ctx) (Some p) (Some b) fd]> (conns s) ∧
    ctx_live s' = ctx_live s ⊎ {[+ ctx +]} ∧ ssl_live s' = ssl_live s ⊎ {[+ p +]};
  hd_sock : fd ≠ -1 → socks_open s' = socks_open s ⊎ {[+ fd +]};
}.

Lemma tcp_connect_ends host port s :
  ends (nr_tcp_connect host port) s (λ fd s', conns s' = conns s ∧ ctx_live s' = ctx_live s ∧ ssl_live s' = ssl_live s ∧
    (fd ≠ -1 → socks_open s' = socks_open s ⊎ {[+ fd +]})).
Proof.
  unfold nr_tcp_connect. apply ssl_ends_bind, ssl_ends_env. intros [addr|] e; [|by apply ssl_ends_ret]. apply ssl_ends_bind, ssl_ends_env. intros fd e1.
  case_match; [by apply ssl_ends_ret|]. apply ssl_ends_bind, ssl_ends_modify, ssl_ends_bind, ssl_ends_env. intros [] e2; by apply ssl_ends_ret.
Qed.

Lemma setup_ends roots keyfile host port verify l c0 s :
  conns s !! l = Some c0 → (∀ p s, ends (verify p) s (λ _ s', only_peer s s')) →
  ends (conn_setup roots keyfile host port verify l) s (λ _ s', ∃ fd, holds s s' l fd).
Proof.
  intros Hl Hverify. unfold conn_setup. apply ssl_ends_bind, ssl_ends_env. intros o e1. apply ssl_ends_bind, ssl_ends_or_abort. intros ctx _.
  apply ssl_ends_bind, ssl_ends_modify, ssl_ends_bind. eapply ssl_ends_update; [exact Hl|].
  match goal with |- ends _ ?st _ => set (s1 := st) end. apply ssl_ends_bind.
  apply (ssl_ends_mono _ _ (λ _ s', ∃ e, s' = set_env e s1)).
  { destruct keyfile as [f|]; [|apply ssl_ends_ret; exists (ssl_env s1); by destruct s1]. apply ssl_ends_bind, ssl_ends_env. intros ok1 e2.
    apply ssl_ends_bind, ssl_ends_check. intros _. apply ssl_ends_bind, ssl_ends_env. intros ok2 e3. apply ssl_ends_check. intros _. by exists e3. }
  intros _ ? [e2 ->]. apply ssl_ends_bind, (ssl_ends_mono _ _ (λ _ s', ∃ e, s' = set_env e s1)).
  { destruct roots as [f|]; [|apply ssl_ends_ret; by exists e2]. apply ssl_ends_bind, ssl_ends_env. intros ok e3. apply ssl_ends_check. intros _. by exists e3. }
  intros _ ? [e3 ->]. apply ssl_ends_bind. eapply ssl_ends_mono; [apply tcp_connect_ends|]. intros fd s2 (Hc2 & Hx2 & Hs2 & Hsock).
  assert (Hl2 : conns s2 !! l = Some (with_ctx ctx c0)) by (rewrite Hc2; cbn; by rewrite lookup_insert_eq).
  apply ssl_ends_bind. eapply ssl_ends_update; [exact Hl2|]. apply ssl_ends_bind, ssl_ends_check. intros _.
  apply ssl_ends_bind, ssl_ends_env. intros o2 e4. apply ssl_ends_bind, ssl_ends_or_abort. intros p _. apply ssl_ends_bind, ssl_ends_modify, ssl_ends_bind.
  eapply ssl_ends_update; [cbn; apply lookup_insert_eq|]. apply ssl_ends_bind, ssl_ends_env. intros o3 e5. apply ssl_ends_bind, ssl_ends_or_abort. intros b _.
  apply ssl_ends_bind. eapply ssl_ends_update; [cbn; apply lookup_insert_eq|]. apply ssl_ends_bind, ssl_ends_env. intros _ e6.
  apply ssl_ends_bind, ssl_ends_env. intros r e7. apply ssl_ends_bind, ssl_ends_check. intros _.
  eapply ssl_ends_mono; [apply Hverify|]. intros _ s3 [H1 H2 H3 H4]. exists fd. split.
  - exists ctx, p, b. cbn in *. rewrite H1, H2, H3, Hc2, Hx2, Hs2. cbn. by rewrite !insert_insert_eq.
  - intros Hfd. cbn in *. by rewrite H4, Hsock.
Qed.

(** A connection that was made and then destroyed: the context and the connection of OpenSSL are
    freed, but the structure is not, and the socket is open still. *)
Lemma destroy_leaves s s' l fd :
  holds s s' l fd → fd ≠ -1 →
  ∃ s'', nr_ssl_conn_destroy (Some l) s' = Ok () s'' ∧ ctx_live s'' = ctx_live s ∧ ssl_live s'' = ssl_live s ∧
    is_Some (conns s'' !! l) ∧ socks_open s'' = socks_open s ⊎ {[+ fd +]}.
Proof.
  intros [(ctx & p & b & Hconns & Hctx & Hssl) Hsock] Hfd.
  exists (set_ssls (λ m, m ∖ {[+ p +]}) (set_ctxs (λ m, m ∖ {[+ ctx +]}) s')). split.
  { unfold nr_ssl_conn_destroy, load_conn, get, mbind, M_bind. rewrite Hconns, lookup_insert_eq. cbn.
    by rewrite (proj2 (Z.eqb_neq _ _)). }
  cbn. rewrite Hctx, Hssl, Hconns, lookup_insert_eq, Hsock by done. split_and!; [multiset_solver|multiset_solver|done|done].
Qed.

Lemma ssl_ends_catch {A} (m : SM A) s Q : ends m s (λ a s', Q (inr a) s') → (∀ r s', Q (inl r) s') → ends (catch m) s Q.
Proof. unfold ends, catch. intros Hm He. destruct (m s); auto. Qed.
Lemma ssl_ends_then_abort {A B} (m : SM A) r s (Q : B → ssl_state → Prop) : ends (m;; abort r) s Q.
Proof. unfold ends, mbind, M_bind. destruct (m s); exact I. Qed.
Lemma ssl_ends_alloc s (Q : () → ssl_state → Prop) : (∀ l, Q () (set_alloc_answers l s)) → ends alloc_or_abort s Q.
Proof. intros HQ. unfold ends, alloc_or_abort, alloc_ok, mbind, M_bind. destruct (next_answer _); [apply HQ|done]. Qed.

Lemma open_ends roots keyfile host port verify s :
  (∀ p s, ends (verify p) s (λ _ s', only_peer s s')) →
  ends (conn_open roots keyfile host port verify) s (λ l s', ∃ fd s1, holds s1 s' l fd ∧
    ctx_live s1 = ctx_live s ∧ ssl_live s1 = ssl_live s ∧ socks_open s1 = socks_open s).
Proof.
  intros Hverify. unfold conn_open. apply ssl_ends_bind. change (ends get s ?Q) with (Q s s). cbn beta. apply ssl_ends_bind.
  apply (ssl_ends_mono _ _ (λ _ s1, ctx_live s1 = ctx_live s ∧ ssl_live s1 = ssl_live s ∧ socks_open s1 = socks_open s)).
  { destruct (openssl_initialized s); [by apply ssl_ends_ret|]. apply ssl_ends_bind, ssl_ends_modify, ssl_ends_env. done. }
  intros _ s1 (Hc & Hs & Hk). apply ssl_ends_bind, ssl_ends_alloc. intros answers. apply ssl_ends_bind.
  set (s2 := set_alloc_answers answers s1). change (ends get s2 ?Q) with (Q s2 s2). cbn beta.
  apply ssl_ends_bind, ssl_ends_modify, ssl_ends_bind, ssl_ends_catch; [|intros; apply ssl_ends_then_abort].
  eapply ssl_ends_mono; [eapply setup_ends; [cbn; apply lookup_insert_eq|exact Hverify]|].
  intros _ s3 [fd Hh]. apply ssl_ends_ret. by exists fd, (new_conn s2).
Qed.

(** However [m] ends. *)
Definition leaves {A} (m : SM A) s (Q : ssl_state → Prop) : Prop := match m s with Ok _ s' | Err _ s' => Q s' | UB => True end.
Lemma leaves_bind {A B} (m : SM A) (k : A → SM B) s Q : leaves m s Q → (∀ a s', Q s' → leaves (k a) s' Q) → leaves (m ≫= k) s Q.
Proof. unfold leaves, mbind, M_bind. destruct (m s); [intros HQ Hk; exact (Hk _ _ HQ)|auto..]. Qed.
Lemma leaves_catch {A} (m : SM A) s Q : leaves m s Q → ends (catch m) s (λ _ s', Q s').
Proof. unfold leaves, ends, catch. by destruct (m s). Qed.
Lemma leaves_env s {A} (m : M E A) s1 : only_peer s s1 → leaves (env m) s1 (only_peer s).
Proof. intros []. unfold leaves, env. destruct (m (ssl_env s1)); by split. Qed.
Lemma leaves_alloc s s1 : only_peer s s1 → leaves alloc_or_abort s1 (only_peer s).
Proof. intros []. unfold leaves, alloc_or_abort, alloc_ok, mbind, M_bind. destruct (next_answer _); by split. Qed.
Lemma leaves_or_abort {A} r (o : option A) s Q : Q s → leaves (or_abort r o) s Q.
Proof. by destruct o. Qed.
Lemma leaves_check r b s Q : Q s → leaves (check r b) s Q.
Proof. by destruct b. Qed.

Lemma check_match_ends l cert s : ends (check_ssl_cert_match l cert) s (λ _ s', only_peer s s').
Proof.
  unfold check_ssl_cert_match. apply ssl_ends_bind. eapply ssl_ends_mono; [apply get_peer_ends|]. intros x s1 H1.
  apply ssl_ends_bind, (ssl_ends_mono _ _ (λ _ s2, only_peer s s2)).
  - apply leaves_catch. apply leaves_bind; [by apply leaves_env|]. intros o s2 H2. apply leaves_bind; [by apply leaves_or_abort|].
    intros _ s3 H3. apply leaves_bind; [by apply leaves_alloc|]. intros _ s4 H4. apply leaves_bind; [by apply leaves_env|].
    intros o' s5 H5. apply leaves_bind; [by apply leaves_or_abort|]. intros der s6 H6.
    apply leaves_bind; [by apply leaves_check|]. intros _ s7 H7. by apply leaves_check.
  - intros r s2 H2. apply ssl_ends_bind, (ssl_ends_mono _ _ (λ _ s3, only_peer s s3)).
    + destruct x; [apply ssl_ends_modify; destruct H2; by split|by apply ssl_ends_ret].
    + intros _ s3 H3. destruct r; [apply ssl_ends_abort|by apply ssl_ends_ret].
Qed.

(** Every connection that either function makes is leaked when it is destroyed: what OpenSSL
    made is freed, but the structure is not, and the socket, if there is one, is not closed. *)
Theorem connections_leak rootlist cert keyfile host port l s s' c :
  nr_ssl_conn_create rootlist keyfile host port s = Ok l s' ∨ nr_ssl_conn_create_with_cert cert keyfile host port s = Ok l s' →
  conns s' !! l = Some c → sock c ≠ -1 →
  ∃ s'', nr_ssl_conn_destroy (Some l) s' = Ok () s'' ∧
    ctx_live s'' = ctx_live s ∧ ssl_live s'' = ssl_live s ∧ is_Some (conns s'' !! l) ∧ socks_open s'' = socks_open s ⊎ {[+ sock c +]}.
Proof.
  intros Hrun Hl Hsock.
  assert (Hends : ∃ fd s1, holds s1 s' l fd ∧ ctx_live s1 = ctx_live s ∧ ssl_live s1 = ssl_live s ∧ socks_open s1 = socks_open s).
  { destruct Hrun as [Hrun|Hrun].
    - pose proof (open_ends (Some rootlist) keyfile host port _ s (λ p, check_cert_ends p host)) as Hends.
      unfold ends in Hends. unfold nr_ssl_conn_create in Hrun. by rewrite Hrun in Hends.
    - pose proof (open_ends None keyfile host port _ s (λ p, check_match_ends p cert)) as Hends.
      unfold ends in Hends. unfold nr_ssl_conn_create_with_cert in Hrun. by rewrite Hrun in Hends. }
  destruct Hends as (fd & s1 & Hh & <- & <- & <-). assert (sock c = fd) as Hfd.
  { destruct (hd_open _ _ _ _ Hh) as (ctx & p & b & Hconns & _). rewrite Hconns, lookup_insert_eq in Hl. by injection Hl as <-. }
  rewrite Hfd in Hsock |- *. by apply destroy_leaves.
Qed.

(** Writing ends and sends all of the data in order, or fails, if what is written at a time is
    some of what is there. *)
Lemma write_all_sends (sent : E → list Z) p :
  (∀ data e, data ≠ [] → ∃ r ok e', SSL_write p data e = Ok (r, ok) e' ∧
     (ok = true → 1 <= r <= Z.of_nat (length data) ∧ sent e' = sent e ++ take (Z.to_nat r) data)) →
  ∀ fuel data s, (length data <= fuel)%nat →
    (∃ s', nr_ssl_write_all fuel p data s = Ok () s' ∧ sent (ssl_env s') = sent (ssl_env s) ++ data) ∨
    (∃ r s', nr_ssl_write_all fuel p data s = Err r s').
Proof.
  intros Hwrite fuel. induction fuel as [|fuel IH]; intros data s Hf; (destruct data as [|d data]; [left; exists s; by rewrite app_nil_r|]);
    [cbn in Hf; lia|].
  destruct (Hwrite (d :: data) (ssl_env s) ltac:(done)) as (r & ok & e & Hrun & Hok). cbn [nr_ssl_write_all].
  erewrite bind_ok by (unfold env; by rewrite Hrun). cbn beta iota. destruct ok; [|right; by eexists _, _].
  destruct (Hok eq_refl) as [Hr Hsent]. cbn [negb].
  destruct (IH (drop (Z.to_nat r) (d :: data)) (set_env e s)) as [(s' & Hs & Hall)|Hfail]; [rewrite length_drop; lia| |by right].
  left. exists s'. split; [done|]. rewrite Hall. cbn [ssl_env set_env]. by rewrite Hsent, <- app_assoc, take_drop.
Qed.
End conn.
