(* ===== verification/ByteUtil.v ===== *)
(** * Byte utilities (src/util/byteorder.c, util.c, mem_util.c)

    The network order of 64-bit integers, bytes as hexadecimal text and as a dump, and the
    high-water marks of the accounting allocator. *)

From Stdlib Require Import Ascii.
From S2P Require Import Prelude CString Numbers Hex InetNtop RMemory.
Local Open Scope Z_scope.

(** ** Byte order *)

(** An integer from its bytes, least significant first, and back. *)
Fixpoint le_bytes (k : nat) (n : Z) : list Z :=
  match k with O => [] | S k' => n mod 256 :: le_bytes k' (n / 256) end.
Fixpoint le_value (bs : list Z) : Z := match bs with [] => 0 | b :: bs' => b + 256 * le_value bs' end.

(** The bytes of a [UINT8] in the memory of a machine, and the integer they are. *)
Definition memory_of (big_endian : bool) (n : Z) : list Z := if big_endian then reverse (le_bytes 8 n) else le_bytes 8 n.
Definition integer_in (big_endian : bool) (bs : list Z) : Z := le_value (if big_endian then reverse bs else bs).

(** [SWAP(n,x,y)]: the bytes at two places of the memory of [n] change places. *)
Definition SWAP (big_endian : bool) (n : Z) (x y : nat) : Z :=
  let bs := memory_of big_endian n in
  let tmp := default 0 (bs !! x) in
  integer_in big_endian (<[y := tmp]> (<[x := default 0 (bs !! y)]> bs)).

Definition nr_htonll (big_endian : bool) (hostlonglong : Z) : Z :=
  if negb big_endian then
    let n := SWAP big_endian hostlonglong 0 7 in
    let n := SWAP big_endian n 1 6 in
    let n := SWAP big_endian n 2 5 in
    SWAP big_endian n 3 4
  else hostlonglong.
Definition nr_ntohll (big_endian : bool) (netlonglong : Z) : Z := nr_htonll big_endian netlonglong.

(** ** Text *)

(** [%.2x] of a byte. *)
Definition hex2 (b : Z) : cstring := let v := Z.land b 0xff in [hex_char (v / 16); hex_char (v mod 16)].

(** The text in [out], which has room for [size] bytes: each [sprintf] also writes a
    terminator. *)
Fixpoint nr_bin2hex (bin : list Z) (size : nat) : option cstring :=
  match bin with
  | [] => Some []
  | b :: bin' => if (size <? 3)%nat then None else rest ← nr_bin2hex bin' (size - 2); Some (hex2 b ++ rest)
  end.

(** One turn of the loop of [nr_hex_ascii_dump]: a line of at most 16 bytes. *)
Definition dump_line (bs : list Z) : cstring :=
  let n := length bs in
  (bs ≫= λ b, hex2 b ++ [" "%char]) ++ concat (replicate (16 - n) $"   ") ++ $"   " ++
  ((λ b, if isprint (char_of b) then char_of b else "."%char) <$> bs) ++ ["010"%char].
Fixpoint dump_lines (fuel : nat) (bs : list Z) : option cstring :=
  match bs with
  | [] => Some []
  | _ =>
      match fuel with
      | O => None
      | S fuel' => let bytes := Nat.min (length bs) 16 in rest ← dump_lines fuel' (drop bytes bs); Some (dump_line (take bytes bs) ++ rest)
      end
  end.
Definition nr_hex_ascii_dump (data : list Z) : option cstring := dump_lines (length data) data.

(** ** Memory in use *)

(** [mem_size_max] and [mem_inuse_max]. *)
Record mem_marks := Marks { mem_size_max : Z; mem_inuse_max : Z }.

(** [*currentp], [*maxp], [*inusep] and [*inusemaxp], with [r_memory.c] as the allocator. *)
Definition nr_memory_status_update (m : mem_marks) : M mem_state ((Z * Z * Z * Z) * mem_marks) :=
  current ← r_mem_get_usage;
  let inuse := current in
  let size_max := if mem_size_max m <? current then current else mem_size_max m in
  let inuse_max := if mem_inuse_max m <? inuse then inuse else mem_inuse_max m in
  mret ((current, size_max, inuse, inuse_max), Marks size_max inuse_max).

(** ** Byte order: what it gives *)

Lemma le_bytes_length k n : length (le_bytes k n) = k.
Proof. revert n. induction k as [|k IH]; intros n; cbn; [done|by rewrite IH]. Qed.

Lemma le_value_bytes bs : Forall byte bs → le_bytes (length bs) (le_value bs) = bs.
Proof.
  induction 1 as [|b bs Hb Hbs IH]; [done|]. unfold byte in Hb. change (2 ^ 8) with 256 in Hb. cbn [length le_bytes le_value].
  rewrite (Z.mul_comm 256), Z.mod_add, Z.div_add, Z.mod_small, Z.div_small, Z.add_0_l, IH by lia. done.
Qed.

Lemma le_bytes_value k n : 0 <= n < 256 ^ Z.of_nat k → le_value (le_bytes k n) = n.
Proof.
  revert n. induction k as [|k IH]; intros n Hn; cbn [le_bytes le_value]; [cbn in Hn; lia|].
  rewrite Nat2Z.inj_succ, Z.pow_succ_r in Hn by lia. rewrite IH by (split; [apply Z.div_pos; lia|apply Z.div_lt_upper_bound; lia]).
  pose proof (Z.div_mod n 256). lia.
Qed.

Lemma le_bytes_bytes k n : Forall byte (le_bytes k n).
Proof. revert n. induction k as [|k IH]; intros n; cbn; constructor; [|done]. unfold byte. change (2 ^ 8) with 256. apply Z.mod_pos_bound. lia. Qed.

Lemma le_value_range bs : Forall byte bs → 0 <= le_value bs < 256 ^ Z.of_nat (length bs).
Proof.
  induction 1 as [|b bs Hb Hbs IH]; [done|]. unfold byte in Hb. change (2 ^ 8) with 256 in Hb.
  cbn [le_value length]. rewrite Nat2Z.inj_succ, Z.pow_succ_r by lia. lia.
Qed.

Lemma swap_run n x y bs :
  le_bytes 8 n = bs → 
  le_bytes 8 (SWAP false n x y) = <[y := default 0 (bs !! x)]> (<[x := default 0 (bs !! y)]> bs) ∧ 0 <= SWAP false n x y < 2 ^ 64.
Proof.
  intros Hbs. unfold SWAP, memory_of, integer_in. rewrite Hbs.
  assert (Hb : Forall byte bs) by (rewrite <- Hbs; apply le_bytes_bytes).
  assert (Hl : length bs = 8%nat) by (by rewrite <- Hbs, le_bytes_length).
  assert (Hat : ∀ i, byte (default 0 (bs !! i))).
  { intros i. destruct (bs !! i) as [b|] eqn:Hi; [|unfold byte; cbn; lia]. by apply (proj1 (Forall_lookup _ _) Hb i). }
  set (bs' := <[y := _]> _). assert (Hb' : Forall byte bs') by (unfold bs'; do 2 (apply Forall_insert; [|done]); done).
  assert (Hl' : length bs' = 8%nat) by (unfold bs'; by rewrite !length_insert).
  pose proof (le_value_bytes bs' Hb') as Heq. pose proof (le_value_range bs' Hb') as Hrange. rewrite Hl' in Heq, Hrange. done.
Qed.

(** The memory of [nr_htonll n] has the bytes of [n] with the most significant first, on either
    kind of machine, and [nr_ntohll] gets [n] back. *)
Theorem htonll_network_order big_endian n :
  0 <= n < 2 ^ 64 →
  memory_of big_endian (nr_htonll big_endian n) = reverse (le_bytes 8 n) ∧
  nr_ntohll big_endian (nr_htonll big_endian n) = n.
Proof.
  intros Hn. destruct big_endian; [done|].
  assert (Hswaps : ∀ m, le_bytes 8 (nr_htonll false m) = reverse (le_bytes 8 m) ∧ 0 <= nr_htonll false m < 2 ^ 64).
  { intros m. unfold nr_htonll. cbn [negb]. cbv zeta.
    edestruct swap_run as [Heq Hrange]; [eapply swap_run; eapply swap_run; eapply swap_run; reflexivity|].
    split; [|exact Hrange]. rewrite Heq.
    pose proof (le_bytes_length 8 m) as Hl. destruct (le_bytes 8 m) as [|b0 [|b1 [|b2 [|b3 [|b4 [|b5 [|b6 [|b7 [|? ?]]]]]]]]]; try discriminate Hl. done. }
  destruct (Hswaps n) as [H1 _]. destruct (Hswaps (nr_htonll false n)) as [H2 Hr]. split; [exact H1|].
  unfold nr_ntohll. rewrite <- (le_bytes_value 8 (nr_htonll false (nr_htonll false n))) by exact Hr.
  rewrite H2, H1, reverse_involutive. by apply le_bytes_value.
Qed.

Lemma htonll_network_order_witness :
  memory_of false (nr_htonll false 0x0102030405060708) = reverse (le_bytes 8 0x0102030405060708) ∧
  nr_ntohll false (nr_htonll false 0x0102030405060708) = 0x0102030405060708.
Proof. apply (htonll_network_order false 0x0102030405060708). split; [discriminate|reflexivity]. Defined.

(** ** Text: what it gives *)

Definition hex2_ok (b : Z) : bool := bool_decide (bin2hex_map !! Z.to_nat b = Some (hex2 b)).
Lemma hex2_table b : byte b → bin2hex_map !! Z.to_nat b = Some (hex2 b).
Proof.
  intros Hb. assert (Hok : hex2_ok b = true) by (apply (all_in_range hex2_ok (2 ^ 8)); [vm_compute; reflexivity|done]).
  by apply bool_decide_eq_true in Hok.
Qed.

(** [nr_bin2hex] gives what [nr_nbin2hex] gives, but its last [sprintf] writes one byte behind
    that: a buffer of twice the length is too small. *)
Lemma bin2hex_same bin size :
  Forall byte bin →
  nr_bin2hex bin size = if bool_decide (bin = []) || (2 * length bin <? size)%nat then bin2hex_loop bin else None.
Proof.
  intros Hb. revert size. induction Hb as [|b bin Hb Hbin IH]; intros size; [done|].
  cbn [nr_bin2hex]. rewrite (bool_decide_eq_false_2 (b :: bin = [])) by done. cbn [orb]. rewrite IH.
  assert (Hloop : bin2hex_loop (b :: bin) = rest ← bin2hex_loop bin; Some (hex2 b ++ rest)) by (cbn [bin2hex_loop]; by rewrite hex2_table).
  rewrite Hloop. cbn [length]. destruct (Nat.ltb_spec size 3) as [Hs|Hs].
  - by rewrite (proj2 (Nat.ltb_ge _ _)) by lia.
  - case_bool_decide as Hnil; cbn [orb].
    + subst bin. by rewrite (proj2 (Nat.ltb_lt _ _)) by (cbn; lia).
    + destruct (Nat.ltb_spec (2 * length bin) (size - 2)), (Nat.ltb_spec (2 * S (length bin)) size); (done || lia).
Qed.

(** Every line of a dump has its columns in the same places. *)
Lemma dump_line_length bs : (length bs <= 16)%nat → length (dump_line bs) = (16 * 3 + 3 + length bs + 1)%nat.
Proof.
  intros Hl. unfold dump_line. rewrite !length_app, length_fmap.
  assert (H1 : length (bs ≫= λ b, hex2 b ++ [" "%char]) = (3 * length bs)%nat).
  { clear Hl. induction bs as [|b bs IH]; [done|]. change (length ((hex2 b ++ [" "%char]) ++ (bs ≫= λ b, hex2 b ++ [" "%char])) = (3 * S (length bs))%nat).
    rewrite length_app, IH. change (length (hex2 b ++ [" "%char])) with 3%nat. lia. }
  assert (H2 : ∀ k, length (concat (replicate k $"   ")) = (3 * k)%nat).
  { induction k as [|k IH]; [done|]. cbn [replicate concat]. rewrite length_app, IH. change (length $"   ") with 3%nat. lia. }
  rewrite H1, H2. change (length $"   ") with 3%nat. cbn [length]. lia.
Qed.

Lemma dump_lines_run fuel bs : (length bs <= fuel)%nat → ∃ text, dump_lines fuel bs = Some text.
Proof.
  revert bs. induction fuel as [|fuel IH]; intros bs Hl; destruct bs as [|b bs]; try (cbn in Hl; lia); [by exists []..|].
  cbn [dump_lines]. destruct (IH (drop (Nat.min (length (b :: bs)) 16) (b :: bs))) as [text ->].
  - rewrite length_drop. cbn [length] in *. lia.
  - by eexists.
Qed.

Example dump_ex :
  nr_hex_ascii_dump (uchar <$> $"nrappkit registry") =
  Some ($"6e 72 61 70 70 6b 69 74 20 72 65 67 69 73 74 72    nrappkit registr" ++ "010"%char ::
        $"79                                                 y" ++ ["010"%char]).
Proof. vm_compute. reflexivity. Qed.

(** The marks are the greatest usage that an update has seen. *)
Lemma status_update_run m s :
  nr_memory_status_update m s =
  let u := mem_usage s in
  let m' := Marks (Z.max (mem_size_max m) u) (Z.max (mem_inuse_max m) u) in
  Ok ((u, mem_size_max m', u, mem_inuse_max m'), m') s.
Proof.
  unfold nr_memory_status_update, r_mem_get_usage. rewrite (bind_ok _ _ s (mem_usage s) s) by done. cbn zeta.
  destruct (Z.ltb_spec (mem_size_max m) (mem_usage s)), (Z.ltb_spec (mem_inuse_max m) (mem_usage s));
    rewrite ?(Z.max_r (mem_size_max m)), ?(Z.max_l (mem_size_max m)), ?(Z.max_r (mem_inuse_max m)), ?(Z.max_l (mem_inuse_max m)) by lia; done.
Qed.
