(* ===== verification/ErrorText.v ===== *)
(** * Error texts and the dump of bytes (src/util/libekr/r_errors.c, debug.c)

    The text of a status.  The theorems say that distinct statuses have distinct texts, so
    that a message tells its status, and what [nr_strerror_r] leaves in a short buffer. *)

From Stdlib Require Import Ascii.
From stdpp Require Import pretty.
From S2P Require Import Prelude CString Numbers Hex InetNtop ByteUtil.
Local Open Scope Z_scope.

(** [NR_ERROR_MAPPING] *)
Definition errors : list (Z * cstring) :=
  [(R_NO_MEMORY, $"Cannot allocate memory");
   (R_NOT_FOUND, $"Item not found");
   (R_INTERNAL, $"Internal failure");
   (R_ALREADY, $"Action already performed");
   (R_EOD, $"End of data");
   (R_BAD_ARGS, $"Invalid argument");
   (R_BAD_DATA, $"Invalid data");
   (R_WOULDBLOCK, $"Operation would block");
   (R_QUEUED, $"Operation queued");
   (R_FAILED, $"Operation failed");
   (R_REJECTED, $"Operation rejected");
   (R_INTERRUPTED, $"Operation interrupted");
   (R_IO_ERROR, $"I/O error");
   (R_NOT_PERMITTED, $"Permission Denied");
   (R_RETRY, $"Retry may be possible")].

(** The loop over the table. *)
Fixpoint find_error (errnum : Z) (l : list (Z * cstring)) : option cstring :=
  match l with
  | [] => None
  | (e, str) :: l' => if errnum =? e then Some str else find_error errnum l'
  end.

(** The text of an unknown status stands in a static buffer of 256 bytes. *)
Definition nr_strerror (errnum : Z) : cstring :=
  match find_error errnum errors with
  | Some error => error
  | None => take 255 ($"Unknown error: " ++ print_int errnum)
  end.

(** The text [snprintf] leaves in a buffer of [buflen] bytes; nothing is written to a buffer of
    none. *)
Definition nr_strerror_r (errnum : Z) (buflen : nat) : option cstring :=
  match buflen with O => None | S n => Some (take n (nr_strerror errnum)) end.

(** [nr_xdump]: the title, and the bytes, of which a break stands before each twelfth. *)
Fixpoint xdump_bytes (len i : nat) (data : list Z) : cstring :=
  match data with
  | [] => if (i mod 12 =? 0)%nat then [] else ["010"%char]
  | b :: data' =>
      (if (8 <? len)%nat && negb (i =? 0)%nat && (i mod 12 =? 0)%nat then ["010"%char] else []) ++
      hex2 b ++ " "%char :: xdump_bytes len (S i) data'
  end.
Definition nr_xdump (name : option cstring) (data : list Z) : cstring :=
  match name with
  | Some n => n ++ $"[" ++ print_int (Z.of_nat (length data)) ++ $"]=" ++ ["010"%char]
  | None => []
  end ++ xdump_bytes (length data) 0 data.

(** ** Facts *)

Lemma find_error_in e l : find_error e l ≠ None ↔ e ∈ l.*1.
Proof.
  induction l as [|[x str] l IH]; cbn; [by rewrite elem_of_nil|]. rewrite elem_of_cons.
  destruct (Z.eqb_spec e x); [naive_solver|]. rewrite IH. naive_solver.
Qed.

(** A known status has a text of its own. *)
Lemma errors_distinct : NoDup errors.*1 ∧ NoDup errors.*2.
Proof. split; apply (bool_decide_unpack _); vm_compute; exact I. Qed.

Lemma known_error e str : find_error e errors = Some str → (e, str) ∈ errors ∧ take 15 str ≠ $"Unknown error: ".
Proof.
  assert (Hall : Forall (λ x : Z * cstring, take 15 x.2 ≠ $"Unknown error: ") errors)
    by (apply (bool_decide_unpack _); vm_compute; exact I).
  revert Hall. induction errors as [|[x t] l IH]; [done|]. intros [Hx Hall]%Forall_cons. cbn.
  destruct (Z.eqb_spec e x) as [->|]; [intros [= <-]; split; [by left|done]|].
  intros Hf. destruct (IH Hall Hf). split; [by right|done].
Qed.

(** The text tells the status. *)
Theorem strerror_inj a b :
  - 2 ^ 31 <= a < 2 ^ 31 → - 2 ^ 31 <= b < 2 ^ 31 → nr_strerror a = nr_strerror b → a = b.
Proof.
  assert (Hunknown : ∀ z, - 2 ^ 31 <= z < 2 ^ 31 → take 255 ($"Unknown error: " ++ print_int z) = $"Unknown error: " ++ print_int z).
  { intros z Hz. apply take_ge. rewrite length_app. pose proof (print_int_length z ltac:(lia)) as Hl. change (length $"Unknown error: ") with 15%nat. lia. }
  intros Ha Hb. unfold nr_strerror. rewrite !Hunknown by done.
  destruct (find_error a errors) as [sa|] eqn:Hfa, (find_error b errors) as [sb|] eqn:Hfb.
  - intros ->. apply known_error in Hfa as [Hia _], Hfb as [Hib _].
    apply list_elem_of_lookup in Hia as [i Hi], Hib as [j Hj].
    assert (i = j) as ->; [|congruence].
    apply (NoDup_lookup errors.*2 i j sb (proj2 errors_distinct)); by rewrite list_lookup_fmap, ?Hi, ?Hj.
  - intros ->. by apply known_error in Hfa as [_ []].
  - intros <-. by apply known_error in Hfb as [_ []].
  - intros Heq%(app_inv_head $"Unknown error: ")%(f_equal scan_int). rewrite !scan_print in Heq. by injection Heq.
Qed.

(** A short buffer holds the start of the text and its terminator. *)
Lemma strerror_r_fits e n t : nr_strerror_r e n = Some t → (strlen t < n)%nat ∧ ∃ rest, nr_strerror e = t ++ rest.
Proof.
  destruct n as [|n]; [done|]. cbn. intros [= <-]. split; [unfold strlen; rewrite length_take; lia|].
  exists (drop n (nr_strerror e)). by rewrite take_drop.
Qed.
