(* ===== verification/RegFetch.v ===== *)
(** * Checked settings (src/util/util.c)

    Reading an unsigned setting from the registry and checking its range, with the way out of a
    program that cannot do without. *)

From Stdlib Require Import Ascii.
From S2P Require Import Prelude CString RegNames RegState RegCb RegLocal RegInv RegSpec RegTree RegDemo RegFacade RegFacadeSpec RegModule.
Local Open Scope Z_scope.

Section fetch.
Context {S : Type} `{HasAlloc S} `{RegVtbl S}.

(** [abort:]; the result [None] stands for [exit(1)]. *)
Definition or_die (die : bool) (m : M S Z) : M S (option Z) :=
  r ← catch m;
  match r with
  | inr v => mret (Some v)
  | inl r => if die then mret None else abort r
  end.

Definition nr_reg_uint4_fetch_and_check (key : cstring) (min max : Z) (die : bool) : M S (option Z) :=
  or_die die (
    my_val ← NR_reg_get NR_REG_TYPE_UINT4 key;
    if (0 <? min) && (my_val <? min) then abort R_BAD_DATA
    else if max <? my_val then abort R_BAD_DATA
    else mret my_val).

Definition nr_reg_uint8_fetch_and_check (key : cstring) (min max : Z) (die : bool) : M S (option Z) :=
  or_die die (
    my_val ← NR_reg_get NR_REG_TYPE_UINT8 key;
    if my_val <? min then abort R_BAD_DATA
    else if max <? my_val then abort R_BAD_DATA
    else mret my_val).
End fetch.

Section facts.
Context {S : Type} `{AllocLaws S} `{RegVtbl S} `{!RegAbs S} `{!RegLaws S}.
Implicit Types (s : S).

(** What a checked read of a type answers. *)
Definition checked (v : view) (type : reg_type) (key : cstring) (min max : Z) : Z + Z :=
  match v key with
  | None => inl R_NOT_FOUND
  | Some (VScalar ty w) =>
      if decide (ty = type) then if (min <=? w) && (w <=? max) then inr w else inl R_BAD_DATA else inl R_FAILED
  | Some (VArray _ _) => inl R_FAILED
  end.
Definition or_exit (die : bool) (o : Z + Z) : Z + option Z :=
  match o with inr w => inr (Some w) | inl r => if die then inr None else inl r end.

Lemma or_die_gives die (m : M S Z) s o :
  gives m s o → (∀ r, o = inl r → r ≠ 0) → gives (or_die die m) s (or_exit die o).
Proof.
  intros Hm Hr. unfold or_die. eapply gives_bind; [by apply gives_catch|]. intros s' Hq. destruct o as [r|w]; cbn [or_exit].
  - destruct die; [apply gives_ret, Hq|]. apply gives_abort; [apply Hq|by apply Hr].
  - apply gives_ret, Hq.
Qed.

Lemma checked_status v type key min max r : checked v type key min max = inl r → r ≠ 0.
Proof. unfold checked. by repeat case_match; intros [= <-]. Qed.

(** The read, followed by any test of the value that amounts to the range. *)
Lemma checked_gives type key min max s (test : Z → M S Z) :
  vt_inv s → valid key → is_scalar type = true →
  (∀ s' w, vt_inv s' → vt_view s key = Some (VScalar type w) →
     gives (test w) s' (if (min <=? w) && (w <=? max) then inr w else inl R_BAD_DATA)) →
  gives (NR_reg_get type key ≫= test) s (checked (vt_view s) type key min max).
Proof.
  intros Hs Hv Hty Htest. pose proof (law_get s key type Hs Hty Hv) as Hlaw. apply gives_through in Hlaw; [|done].
  unfold checked. destruct (vt_view s key) as [[ty w|ty bs]|] eqn:Hx; [|by apply gives_bind_err..].
  case_decide as Hd; [|by apply gives_bind_err]. subst ty. eapply gives_bind; [exact Hlaw|]. intros s' Hq. by apply Htest; [apply Hq|].
Qed.

(** Both functions give the value of a setting that is there, has the type and is in the range,
    and otherwise say why: [R_NOT_FOUND], [R_FAILED] for another type, [R_BAD_DATA] for a value
    out of the range; with [die] the program ends instead.  The registry is not changed. *)
Theorem fetch_checked s key min max die :
  vt_inv s → valid key → 0 <= min → (∀ ty w, vt_view s key = Some (VScalar ty w) → 0 <= w) →
  gives (nr_reg_uint4_fetch_and_check key min max die) s (or_exit die (checked (vt_view s) NR_REG_TYPE_UINT4 key min max)) ∧
  gives (nr_reg_uint8_fetch_and_check key min max die) s (or_exit die (checked (vt_view s) NR_REG_TYPE_UINT8 key min max)).
Proof.
  intros Hs Hv Hmin Hpos. split; (apply or_die_gives; [|apply checked_status]); (apply checked_gives; [done..|]); intros s' w Hs' Hw;
    specialize (Hpos _ _ Hw).
  - destruct (Z.ltb_spec 0 min), (Z.ltb_spec w min), (Z.ltb_spec max w), (Z.leb_spec min w), (Z.leb_spec w max); cbn;
      (lia || by apply gives_ret || by apply gives_abort).
  - destruct (Z.ltb_spec w min), (Z.ltb_spec max w), (Z.leb_spec min w), (Z.leb_spec w max); cbn;
      (lia || by apply gives_ret || by apply gives_abort).
Qed.
End facts.

#[local] Opaque demo_init.

(** A limit of 10 in the local store, with two ranges. *)
Lemma fetch_checked_witness :
  ∃ s : reg_state,
    gives (nr_reg_uint4_fetch_and_check $"limit" 1 100 false) s (inr (Some 10)) ∧
    gives (nr_reg_uint4_fetch_and_check $"limit" 20 100 false) s (inl R_BAD_DATA) ∧
    gives (nr_reg_uint8_fetch_and_check $"limit" 1 100 true) s (inr None).
Proof.
  destruct demo_init_ok as (_ & Hg & _ & Hv).
  destruct (law_set (RegLaws := local_laws) demo_init $"limit" NR_REG_TYPE_UINT4 10 Hg ltac:(valid_name) eq_refl) as (s & _ & Hs & Hview).
  { change (reg_view demo_init $"limit" = None). by rewrite Hv. }
  { exact I. }
  assert (Hlimit : vt_view s $"limit" = Some (VScalar NR_REG_TYPE_UINT4 10)) by (by rewrite Hview; unfold upd; rewrite decide_True).
  assert (Hpos : ∀ ty w, vt_view s $"limit" = Some (VScalar ty w) → 0 <= w) by (rewrite Hlimit; intros ty w [= _ <-]; lia).
  exists s. split_and!.
  - pose proof (proj1 (fetch_checked s $"limit" 1 100 false Hs ltac:(valid_name) ltac:(lia) Hpos)) as Hf. unfold checked in Hf. by rewrite Hlimit in Hf.
  - pose proof (proj1 (fetch_checked s $"limit" 20 100 false Hs ltac:(valid_name) ltac:(lia) Hpos)) as Hf. unfold checked in Hf. by rewrite Hlimit in Hf.
  - pose proof (proj2 (fetch_checked s $"limit" 1 100 true Hs ltac:(valid_name) ltac:(lia) Hpos)) as Hf. unfold checked in Hf. by rewrite Hlimit in Hf.
Defined.
