(* ===== verification/AppStart.v ===== *)
(** * The start-up of a program (src/share/nr_startup.c, stats/nrstats_app.c, nrstats_memory.c)

    [nr_app_startup] opens the registry, starts the logger and the statistics and loads the
    plugins, as its flags say: the components of this library in one state, with one
    registry. *)

From Stdlib Require Import Ascii.
From S2P Require Import Prelude CString RegNames RegState RegCb RegLocal RegInv RegSpec RegFacade RegFacadeSpec RegModule RLog Stats Plugins ByteUtil.
Local Open Scope Z_scope.

(** ** Flags (nr_startup.h) *)

Definition NR_APP_STARTUP_INIT_LOGGING : Z := 1.
Definition NR_APP_STARTUP_REGISTRY_REMOTE : Z := Z.shiftl 1 1.
Definition NR_APP_STARTUP_REGISTRY_LOCAL : Z := Z.shiftl 1 2.
Definition NR_APP_STARTUP_STATS : Z := Z.shiftl 1 3.
Definition NR_APP_STARTUP_STATS_APP : Z := Z.shiftl 1 4.
Definition NR_APP_STARTUP_STATS_MEMORY : Z := Z.shiftl 1 5.
Definition NR_APP_STARTUP_STATS_RESET : Z := Z.shiftl 1 6.
Definition NR_APP_STARTUP_PLUGIN : Z := Z.shiftl 1 24.
Definition NR_APP_STARTUP_PLUGIN_REGISTER_LOGGING : Z := Z.shiftl 1 27.
Definition NR_APP_STARTUP_PLUGIN_REGISTER_STATS : Z := Z.shiftl 1 28.
Definition has (flags flag : Z) : bool := negb (Z.land flags flag =? 0).

(** ** The two kinds of statistics *)

(** A [NR_stats_app] has two times and a counter, of 8 bytes each, and 64 characters; a
    [NR_stats_memory] has four counters.  The functions write to the buffer. *)
Definition write_at (off : nat) (bs buf : list Z) : list Z := take off buf ++ bs ++ drop (off + length bs) buf.
Definition put_version (revision : cstring) (buf : list Z) : list Z := write_at 24 (cbytes revision) buf.
Definition stats_app_reset (now : Z) (revision : cstring) (buf : list Z) : list Z :=
  put_version revision (write_at 0 (le_bytes 8 now) buf).
Definition stats_memory_reset (buf : list Z) : list Z := write_at 16 (le_bytes 8 0) (write_at 0 (le_bytes 8 0) buf).
Definition NR_stats_type_app (now : Z) (revision : cstring) : NR_stats_type := StatsType $"app" (stats_app_reset now revision) None 88.
Definition NR_stats_type_memory : NR_stats_type := StatsType $"memory" stats_memory_reset None 32.

(** ** The state *)

Inductive reg_mode := NR_REG_MODE_LOCAL | NR_REG_MODE_REMOTE.
#[export] Instance reg_mode_eq_dec : EqDecision reg_mode.
Proof. solve_decision. Defined.

Section startup.
(** The plugins' hooks, the shared objects, and the plugins compiled in. *)
Context {H : Type} (hook_status : H → Z) (dso : cstring → option (option (NR_plugin_def H))) (nr_static_plugins : list (NR_plugin_def H)).
(** The addresses of the logger's callbacks and levels. *)
Context (facility_change_addr facility_delete_addr destination_change_addr default_level_change_addr : Z) (level_addr : nat → nat → Z).
(** The clock, the revision, what the system answers when the segment of the statistics is made,
    and the connection to a daemon. *)
Context (now : Z) (revision : cstring) (create_ok attach_ok : bool) (mutex_status : Z) (connect : R unit).

(** [app_mode] is what [reg_vtbl] points to. *)
Record app_state := App {
  app_mode : option reg_mode;
  app_log : log_state;
  app_stats : stats_state;
  app_loaded : list (nr_plugin_handle H);
  app_hooks : list H;
}.
Abbreviation AM := (M app_state).

Definition on_log {A} (m : M log_state A) : AM A := λ s,
  match m (app_log s) with
  | Ok a l => Ok a (App (app_mode s) l (app_stats s) (app_loaded s) (app_hooks s))
  | Err r l => Err r (App (app_mode s) l (app_stats s) (app_loaded s) (app_hooks s))
  | UB => UB
  end.
Definition on_stats {A} (m : M stats_state A) : AM A := λ s,
  match m (app_stats s) with
  | Ok a t => Ok a (App (app_mode s) (app_log s) t (app_loaded s) (app_hooks s))
  | Err r t => Err r (App (app_mode s) (app_log s) t (app_loaded s) (app_hooks s))
  | UB => UB
  end.
(** The plugins use the registry that the logger uses. *)
Definition with_plugins (p : plugin_state H reg_state) (s : app_state) : app_state :=
  App (app_mode s) (set_log_reg (plugin_reg p) (app_log s)) (app_stats s) (nr_loaded_plugins p) (hook_calls p).
Definition on_plugins {A} (m : M (plugin_state H reg_state) A) : AM A := λ s,
  match m (PluginState (app_loaded s) (app_hooks s) (log_reg (app_log s))) with
  | Ok a p => Ok a (with_plugins p s)
  | Err r p => Err r (with_plugins p s)
  | UB => UB
  end.

(** ** Starting *)

Definition log_init : AM unit :=
  on_log (r_log_init facility_change_addr facility_delete_addr destination_change_addr default_level_change_addr level_addr).
Definition log_register (name : cstring) : AM unit :=
  on_log (r_log_register facility_change_addr facility_delete_addr level_addr name (λ _ s, s)).

(** [reg_vtbl=module], the module's [init], and the registry's own facility, whose index only its
    messages use. *)
Definition set_mode (mode : reg_mode) (s : app_state) : app_state :=
  App (Some mode) (app_log s) (app_stats s) (app_loaded s) (app_hooks s).
Definition open_vtbl (r : reg_state) : reg_state :=
  RegState (objs r) (brk r) (answers r) (nr_registry r) (nr_registry_callbacks r) true (calls r).
Definition NR_reg_init (mode : reg_mode) : AM unit :=
  s ← get;
  match app_mode s with
  | Some m => if decide (m = mode) then mret () else abort R_INTERNAL
  | None =>
      modify (set_mode mode);;
      on_log (on_log_reg (modify open_vtbl));;
      on_log (on_log_reg (match mode with NR_REG_MODE_LOCAL => nr_reg_local_init | NR_REG_MODE_REMOTE => connect end));;
      ignore log_init;;
      ignore (log_register $"registry")
  end.

(** [if(r=f(...)) ABORT(R_INTERNAL);] *)
Definition or_internal {A} (m : AM A) : AM A := r ← catch m; match r with inr a => mret a | inl _ => abort R_INTERNAL end.

(** The first part: the registry, if a flag asks for one. *)
Definition start_registry (flags : Z) : AM unit :=
  if has flags NR_APP_STARTUP_REGISTRY_REMOTE && has flags NR_APP_STARTUP_REGISTRY_LOCAL then abort R_INTERNAL
  else if has flags NR_APP_STARTUP_REGISTRY_LOCAL then NR_reg_init NR_REG_MODE_LOCAL
  else if has flags NR_APP_STARTUP_REGISTRY_REMOTE then NR_reg_init NR_REG_MODE_REMOTE
  else mret ().

(** The logger; the result is [*log_facility], where it is set.  The index that
    [r_log_register] writes to the local variable is the one the name then has. *)
Definition start_logging (progname : cstring) (flags : Z) : AM (option Z) :=
  if has flags NR_APP_STARTUP_INIT_LOGGING then
    ignore log_init;;
    log_register progname;;
    s ← get;
    i ← from_option_ub (find_facility progname 0 (log_types (app_log s)));
    mret (Z.of_nat <$> i)
  else mret None.

(** The statistics; the results are the indices of [*app_stats] and [*memory_stats]. *)
Definition start_stats (progname : cstring) (flags : Z) : AM (option nat * option nat) :=
  (if has flags NR_APP_STARTUP_STATS then
     on_stats (NR_stats_startup progname create_ok attach_ok mutex_status (NR_stats_type_app now revision) NR_stats_type_memory)
   else mret ());;
  app ← (if has flags NR_APP_STARTUP_STATS_APP then
     i ← or_internal (on_stats (NR_stats_get None (NR_stats_type_app now revision) NR_STATS_CREATE));
     (if has flags NR_APP_STARTUP_STATS_RESET then on_stats (put_buffer i (stats_app_reset now revision)) else mret ());;
     on_stats (put_buffer i (put_version revision));;
     mret (Some i)
   else mret None);
  memory ← (if has flags NR_APP_STARTUP_STATS_MEMORY then
     i ← or_internal (on_stats (NR_stats_get None NR_stats_type_memory NR_STATS_CREATE));
     (if has flags NR_APP_STARTUP_STATS_RESET then on_stats (put_buffer i stats_memory_reset) else mret ());;
     mret (Some i)
   else mret None);
  mret (app, memory).

(** The plugins. *)
Definition start_plugins (flags : Z) : AM unit :=
  if has flags NR_APP_STARTUP_PLUGIN then
    on_plugins (nr_plugin_add_plugins hook_status nr_static_plugins);;
    r ← catch (on_plugins (nr_plugin_load_dsos hook_status dso $"nr_plugins"));
    match r with inl r => if negb (r =? R_NOT_FOUND) then abort r else mret () | inr _ => mret () end;;
    (if has flags NR_APP_STARTUP_PLUGIN_REGISTER_LOGGING then
       on_plugins (nr_plugin_execute_hooks hook_status [$"register_logging"])
     else mret ());;
    (if has flags NR_APP_STARTUP_PLUGIN_REGISTER_STATS then
       on_plugins (nr_plugin_execute_hooks hook_status [$"register_stats"])
     else mret ())
  else mret ().

Definition nr_app_startup (progname : cstring) (flags : Z) : AM (option Z * (option nat * option nat)) :=
  start_registry flags;;
  log_facility ← start_logging progname flags;
  stats ← start_stats progname flags;
  start_plugins flags;;
  mret (log_facility, stats).
End startup.

(** ** What is started *)

Section facts.
Context {H : Type} (hook_status : H → Z) (dso : cstring → option (option (NR_plugin_def H))) (nr_static_plugins : list (NR_plugin_def H)).
Context (facility_change_addr facility_delete_addr destination_change_addr default_level_change_addr : Z) (level_addr : nat → nat → Z).
Context (now : Z) (revision : cstring) (create_ok attach_ok : bool) (mutex_status : Z) (connect : R unit).
Abbreviation startup := (nr_app_startup hook_status dso nr_static_plugins facility_change_addr facility_delete_addr
  destination_change_addr default_level_change_addr level_addr now revision create_ok attach_ok mutex_status connect).
Implicit Types (s : app_state (H := H)) (p : plugin_state H reg_state).

Definition static_handles : list (nr_plugin_handle H) := PluginHandle (Some $"STATIC") <$> nr_static_plugins.

Lemma add_plugins_run (ds : list (NR_plugin_def H)) p :
  mem_plenty (plugin_reg p) → (length (nr_loaded_plugins p) + length ds <= MAX_PLUGINS)%nat →
  nr_plugin_add_plugins hook_status ds p =
    Ok () (with_loaded p (PluginHandle (Some $"STATIC") <$> ds) (init_hooks (PluginHandle (Some $"STATIC") <$> ds)) (plugin_reg p)).
Proof.
  revert p. induction ds as [|d ds IH]; intros p Hp Hlen; cbn [nr_plugin_add_plugins].
  { unfold with_loaded. cbn. rewrite !app_nil_r. by destruct p. }
  cbn [length] in Hlen. rewrite (bind_ok _ _ _ _ _ (add_run hook_status p $"STATIC" d Hp ltac:(lia))), IH.
  - rewrite with_loaded_app. cbn [fmap list_fmap]. f_equal.
  - done.
  - unfold with_loaded. cbn [nr_loaded_plugins]. rewrite length_app. cbn [length]. lia.
Qed.

(** The hooks of a type of some plugins, in their order. *)
Definition hooks_of (ty : cstring) (ps : list (nr_plugin_handle H)) : list H := h ← ps; hook_of (info h) ty.

Lemma execute_one_run (ty : cstring) p :
  nr_plugin_execute_hooks hook_status [ty] p =
    Ok () (PluginState (nr_loaded_plugins p) (hook_calls p ++ hooks_of ty (nr_loaded_plugins p)) (plugin_reg p)).
Proof.
  unfold nr_plugin_execute_hooks, hooks_of. mstep. generalize (nr_loaded_plugins p) at 1 3 as ps. intros ps. revert p.
  induction ps as [|h ps IH]; intros p; [cbn; rewrite app_nil_r; by destruct p|]. cbn [execute_plugins].
  erewrite bind_ok by by apply execute_types_run. rewrite IH. cbn. by rewrite app_nil_r, <- app_assoc.
Qed.

Definition plugin_list : cstring := $"nr_plugins.plugins".

(** The registry names the shared objects [ps], or has no list. *)
Definition lists_plugins (r : reg_state) (ps : list cstring) : Prop :=
  match reg_view r plugin_list with
  | None => ps = []
  | Some x => x = VRegistry ∧ (∀ cs, only_children (reg_view r) plugin_list cs → length cs = length ps) ∧
      listed plugin_list 0 ps r ∧ Z.of_nat (length ps) < 2 ^ 32
  end.

(** Loading them, with the status of a list that is not there. *)
Lemma load_listed_run ps p :
  vt_inv (plugin_reg p) → lists_plugins (plugin_reg p) ps → (length (nr_loaded_plugins p) + length (loadable dso ps) <= MAX_PLUGINS)%nat →
  ∃ r o, quiet (plugin_reg p) r ∧ (o = inr () ∨ o = inl R_NOT_FOUND) ∧
    catch (nr_plugin_load_dsos hook_status dso $"nr_plugins") p =
      Ok o (with_loaded p (loadable dso ps) (init_hooks (loadable dso ps)) r).
Proof.
  intros Hp Hl Hlen. assert (Hreg : NR_reg_make_registry $"nr_plugins" $"plugins" = inr plugin_list) by (vm_compute; reflexivity).
  assert (Hv : valid plugin_list) by (apply nr_reg_is_valid_spec; vm_compute; reflexivity).
  unfold lists_plugins in Hl. destruct (reg_view (plugin_reg p) plugin_list) as [x|] eqn:Hx.
  - destruct Hl as (-> & Hcs & Hps & Hlt).
    destruct (dsos_loaded hook_status dso $"nr_plugins" plugin_list ps p Hreg Hp Hv ltac:(done) Hx Hcs Hps Hlt Hlen) as (r & Hq & Hrun).
    exists r, (inr ()). split_and!; [done|by left|by apply catch_ok].
  - subst ps. pose proof (law_count (plugin_reg p) plugin_list Hp Hv ltac:(done)) as Hcount.
    change (vt_view (plugin_reg p) plugin_list) with (reg_view (plugin_reg p) plugin_list) in Hcount. rewrite Hx in Hcount.
    apply gives_through in Hcount; [|done]. destruct Hcount as (r & Hq & Hrun). exists r, (inl R_NOT_FOUND). split_and!; [done|by right|].
    apply catch_err. unfold nr_plugin_load_dsos. rewrite Hreg. apply bind_err.
    unfold on_plugin_reg, NR_reg_get_child_count. erewrite bind_err by exact Hrun. unfold with_loaded. cbn. by rewrite !app_nil_r.
Qed.

Lemma on_plugins_run {A} (m : M (plugin_state H reg_state) A) s a p :
  m (PluginState (app_loaded s) (app_hooks s) (log_reg (app_log s))) = Ok a p → on_plugins m s = Ok a (with_plugins p s).
Proof. intros Hm. unfold on_plugins. by rewrite Hm. Qed.

Definition plugins_in s : plugin_state H reg_state := PluginState (app_loaded s) (app_hooks s) (log_reg (app_log s)).

Lemma plugins_with p s : plugins_in (with_plugins p s) = p.
Proof. by destruct p. Qed.

Lemma with_with p p' s : with_plugins p' (with_plugins p s) = with_plugins p' s.
Proof. by destruct s as [? []]. Qed.

Lemma on_plugins_then {A} (m : M (plugin_state H reg_state) A) s p a p' :
  m p = Ok a p' → on_plugins m (with_plugins p s) = Ok a (with_plugins p' s).
Proof. intros Hm. rewrite <- (with_with p p' s). apply on_plugins_run. change (m (plugins_in (with_plugins p s)) = Ok a p'). by rewrite plugins_with. Qed.

Lemma catch_on_plugins {A} (m : M (plugin_state H reg_state) A) s : catch (on_plugins m) s = on_plugins (catch m) s.
Proof. unfold catch, on_plugins. by destruct (m _). Qed.

(** No flag asks for the registry, the logger or the statistics. *)
Definition plugins_only (flags : Z) : Prop :=
  Forall (λ f, has flags f = false) [NR_APP_STARTUP_INIT_LOGGING; NR_APP_STARTUP_REGISTRY_REMOTE; NR_APP_STARTUP_REGISTRY_LOCAL;
    NR_APP_STARTUP_STATS; NR_APP_STARTUP_STATS_APP; NR_APP_STARTUP_STATS_MEMORY].

(** The state with its plugins loaded and the hooks run. *)
Definition app_with s (ps : list (nr_plugin_handle H)) (hs : list H) (r : reg_state) : app_state (H := H) :=
  App (app_mode s) (set_log_reg r (app_log s)) (app_stats s) ps hs.

Lemma start_plugins_run flags ps s :
  has flags NR_APP_STARTUP_PLUGIN = true → good (log_reg (app_log s)) → lists_plugins (log_reg (app_log s)) ps →
  (length (app_loaded s) + length nr_static_plugins + length (loadable dso ps) <= MAX_PLUGINS)%nat →
  let all := app_loaded s ++ static_handles ++ loadable dso ps in
  ∃ r, quiet (log_reg (app_log s)) r ∧
    start_plugins hook_status dso nr_static_plugins flags s =
      Ok () (app_with s all
        (app_hooks s ++ init_hooks static_handles ++ init_hooks (loadable dso ps) ++
         (if has flags NR_APP_STARTUP_PLUGIN_REGISTER_LOGGING then hooks_of $"register_logging" all else []) ++
         (if has flags NR_APP_STARTUP_PLUGIN_REGISTER_STATS then hooks_of $"register_stats" all else [])) r).
Proof.
  intros Hflag Hg Hl Hlen all. unfold start_plugins. rewrite Hflag.
  set (p0 := PluginState (app_loaded s) (app_hooks s) (log_reg (app_log s))).
  rewrite (bind_ok _ _ _ _ _ (on_plugins_run _ s _ _ (add_plugins_run nr_static_plugins p0 (g_mem _ Hg) ltac:(cbn; lia)))).
  set (p1 := with_loaded p0 _ _ _). fold static_handles in p1.
  destruct (load_listed_run ps p1) as (r & o & Hq & Ho & Hrun); [exact Hg|exact Hl| |].
  { unfold p1, with_loaded, static_handles. cbn [nr_loaded_plugins p0]. rewrite length_app, length_fmap. cbn. lia. }
  exists r. split; [exact Hq|]. set (p2 := with_loaded p1 _ _ r) in Hrun.
  rewrite (bind_ok _ _ _ o (with_plugins p2 s)) by (rewrite catch_on_plugins; by apply on_plugins_then).
  rewrite (bind_ok _ _ _ () (with_plugins p2 s)) by (by destruct Ho as [-> | ->]).
  assert (Hp2 : p2 = PluginState all (app_hooks s ++ init_hooks static_handles ++ init_hooks (loadable dso ps)) r).
  { unfold p2, p1, with_loaded, all. cbn. by rewrite <- !app_assoc. }
  clearbody p2. subst p2.
  set (hs := app_hooks s ++ init_hooks static_handles ++ init_hooks (loadable dso ps)).
  set (hs1 := hs ++ (if has flags NR_APP_STARTUP_PLUGIN_REGISTER_LOGGING then hooks_of $"register_logging" all else [])).
  rewrite (bind_ok _ _ _ () (with_plugins (PluginState all hs1 r) s)).
  2: { unfold hs1. destruct (has flags NR_APP_STARTUP_PLUGIN_REGISTER_LOGGING); [|by rewrite app_nil_r]. by apply on_plugins_then, execute_one_run. }
  assert (Hend : ∀ hs2, hs2 = hs1 ++ (if has flags NR_APP_STARTUP_PLUGIN_REGISTER_STATS then hooks_of $"register_stats" all else []) →
    (if has flags NR_APP_STARTUP_PLUGIN_REGISTER_STATS then on_plugins (nr_plugin_execute_hooks hook_status [$"register_stats"]) else mret ())
      (with_plugins (PluginState all hs1 r) s) = Ok () (app_with s all hs2 r)).
  { intros hs2 ->. destruct (has flags NR_APP_STARTUP_PLUGIN_REGISTER_STATS).
    - erewrite on_plugins_then by apply execute_one_run. done.
    - by rewrite app_nil_r. }
  apply Hend. unfold hs1, hs. by rewrite <- !app_assoc.
Qed.

(** Opening the registry both in this process and in a daemon is refused before anything is
    done. *)
Lemma startup_both_modes progname flags s :
  has flags NR_APP_STARTUP_REGISTRY_REMOTE = true → has flags NR_APP_STARTUP_REGISTRY_LOCAL = true →
  startup progname flags s = Err R_INTERNAL s.
Proof. intros Hr Hl. unfold nr_app_startup, start_registry. by rewrite Hr, Hl. Qed.

(** C40: A program that asks for its plugins gets those compiled in, then those that the registry
    lists, each with its [init] hook run as it is loaded; then, if asked for, the hooks of all
    plugins that register with the logger, and those that register statistics, are run in that
    order.  Nothing else is started, and the registry is not changed. *)
Theorem startup_plugins progname flags ps s :
  has flags NR_APP_STARTUP_PLUGIN = true → plugins_only flags →
  good (log_reg (app_log s)) → lists_plugins (log_reg (app_log s)) ps →
  (length (app_loaded s) + length nr_static_plugins + length (loadable dso ps) <= MAX_PLUGINS)%nat →
  let all := app_loaded s ++ static_handles ++ loadable dso ps in
  ∃ r, quiet (log_reg (app_log s)) r ∧
    startup progname flags s =
      Ok (None, (None, None)) (app_with s all
        (app_hooks s ++ init_hooks static_handles ++ init_hooks (loadable dso ps) ++
         (if has flags NR_APP_STARTUP_PLUGIN_REGISTER_LOGGING then hooks_of $"register_logging" all else []) ++
         (if has flags NR_APP_STARTUP_PLUGIN_REGISTER_STATS then hooks_of $"register_stats" all else [])) r).
Proof.
  intros Hflag Honly Hg Hl Hlen all. destruct (start_plugins_run flags ps s Hflag Hg Hl Hlen) as (r & Hq & Hrun).
  exists r. split; [done|]. unfold plugins_only in Honly. rewrite !Forall_cons in Honly.
  destruct Honly as (Hlog & Hremote & Hlocal & Hstats & Happ & Hmem & _).
  unfold nr_app_startup, start_registry, start_logging, start_stats. rewrite Hlog, Hremote, Hlocal, Hstats, Happ, Hmem.
  cbn [andb]. mstep. mstep. rewrite (bind_ok _ _ s (None, None) s) by done. by rewrite (bind_ok _ _ _ _ _ Hrun).
Qed.
End facts.

(** ** A program that starts: a plugin compiled in and one in the registry, and a start of
    everything from nothing *)

From S2P Require Import RegDemo RLogDemo PluginsDemo ByteUtil.

Definition log_plugin : NR_plugin_def Z := PluginDef 1 $"logger" $"1.0" [HookDef $"init" 20; HookDef $"register_logging" 21].

Definition demo_startup : cstring → Z → M app_state (option Z * (option nat * option nat)) :=
  nr_app_startup (λ _, 0) demo_dso [log_plugin] 1001 1002 1003 1004 demo_level_addr 1000 $"r1" true true 0 (abort R_INTERNAL).
Definition stats_none : stats_state := StatsState None None false false [].
Definition app_on (r : reg_state) : app_state (H := Z) := App (Some NR_REG_MODE_LOCAL) (log_initial (Environment None None None) r) stats_none [] [].

(** Nothing is open yet: everything is started. *)
Definition app_blank : app_state (H := Z) := App None (log_initial (Environment None None None) reg_initial) stats_none [] [].
Definition flags_of (l : list Z) : Z := foldl Z.lor 0 l.
Definition all_flags : Z :=
  flags_of [NR_APP_STARTUP_INIT_LOGGING; NR_APP_STARTUP_REGISTRY_LOCAL; NR_APP_STARTUP_STATS; NR_APP_STARTUP_STATS_APP;
    NR_APP_STARTUP_STATS_MEMORY; NR_APP_STARTUP_STATS_RESET; NR_APP_STARTUP_PLUGIN; NR_APP_STARTUP_PLUGIN_REGISTER_LOGGING;
    NR_APP_STARTUP_PLUGIN_REGISTER_STATS].

Example startup_ex :
  match demo_startup $"engine" all_flags app_blank with
  | Ok (facility, stats) s =>
      Some (facility, stats, facility_name <$> log_types (app_log s), (λ w, (w_name w, take 2 (w_buffer w))) <$> default [] (segment (app_stats s)), app_hooks s)
  | _ => None
  end =
  Some (Some 3, (Some 0%nat, Some 1%nat), [Some $"generic"; Some $"logging"; Some $"registry"; Some $"engine"],
    [($"engine.app", [232; 3]); ($"engine.memory", [0; 0])], [20; 21]).
Proof. vm_compute. reflexivity. Qed.

#[local] Opaque plugins_registry.

Definition plugin_flags : Z := flags_of [NR_APP_STARTUP_PLUGIN; NR_APP_STARTUP_PLUGIN_REGISTER_LOGGING; NR_APP_STARTUP_PLUGIN_REGISTER_STATS].

Lemma startup_plugins_witness :
  ∃ r, quiet plugins_registry r ∧
    demo_startup $"engine" plugin_flags (app_on plugins_registry) =
      Ok (None, (None, None)) (app_with (app_on plugins_registry)
        [PluginHandle (Some $"STATIC") log_plugin; PluginHandle (Some dso_path) cache_plugin] [20; 10; 21; 11] r).
Proof.
  assert (Hview : reg_view plugins_registry plugin_list = Some VRegistry) by (rewrite plugins_registry_view; reflexivity).
  destruct (startup_plugins (λ _, 0) demo_dso [log_plugin] 1001 1002 1003 1004 demo_level_addr 1000 $"r1" true true 0 (abort R_INTERNAL)
    $"engine" plugin_flags [dso_path] (app_on plugins_registry)) as (r & Hq & Hrun).
  - reflexivity.
  - repeat (constructor; [reflexivity|]). constructor.
  - exact plugins_registry_good.
  - unfold lists_plugins. change (log_reg (app_log (app_on plugins_registry))) with plugins_registry. rewrite Hview.
    split; [reflexivity|]. split; [exact dso_children|]. split; [exact dso_listed|reflexivity].
  - vm_compute. lia.
  - exists r. split; [exact Hq|]. exact Hrun.
Defined.
