(* ===== verification/RegDaemon.v ===== *)
(** * The daemon (src/registry/registryd.c)

    [nr_registry_server] opens the registry, registers the relay of events on its root and
    serves requests.  The state is that of the procedures (RegRemote), the clients that asked
    for events (RegRelay) and the event loop.  The callbacks of the registry run here: those at
    the address of [nr_reg_send_event] write to the clients.

    The requests are given; [RegWire] has them arrive as messages that are dispatched.  The
    socket calls before [svc_run] and the signal handlers are left out, but whether the former
    succeed is given too. *)

From Stdlib Require Import Ascii.
From S2P Require Import Prelude CString RTime AssocSpec RegNames RegState RegCb RegLocal RegInv RegSpec RegTree RegCbSpec RegDemo RegFacade RegModule RegRemote RegRelay RegRelaySpec AsyncState AsyncWait AsyncTimer AsyncLoop.
Local Open Scope Z_scope.

Record daemon := Daemon {
  d_svc : svc_state reg_state;
  d_clients : list nr_reg_client;
  d_async : async_state;
}.
Abbreviation DM := (M daemon).
Definition d_reg (d : daemon) : reg_state := svc_reg (d_svc d).

Section daemon.
(** The address of [nr_reg_send_event], and the callbacks of the event loop. *)
Context (send_event_addr : Z) (client : firing → async_state → list api).

(** The callbacks that ran since [before]. *)
Definition relay_new (before : reg_state) (t : svc_state reg_state) (d : daemon) : daemon :=
  Daemon t (relay_calls send_event_addr (drop (length (calls before)) (calls (svc_reg t))) (d_clients d)) (d_async d).
Definition on_svc {A} (m : M (svc_state reg_state) A) : DM A := λ d,
  match m (d_svc d) with
  | Ok a t => Ok a (relay_new (d_reg d) t d)
  | Err r t => Err r (relay_new (d_reg d) t d)
  | UB => UB
  end.
Definition on_clients {A} (m : M (list nr_reg_client) A) : DM A := λ d,
  match m (d_clients d) with
  | Ok a l => Ok a (Daemon (d_svc d) l (d_async d))
  | Err r l => Err r (Daemon (d_svc d) l (d_async d))
  | UB => UB
  end.
Definition on_loop {X} (m : A X) : DM X := λ d,
  match m (d_async d) with
  | Ok x a => Ok x (Daemon (d_svc d) (d_clients d) a)
  | Err r a => Err r (Daemon (d_svc d) (d_clients d) a)
  | UB => UB
  end.

(** Events that are queued come before the request; [prog] is what [registrydprog_1]
    dispatches to. *)
Definition registrydprog_1_trampoline (sel : selected) (prog : DM unit) : DM unit :=
  ignore (on_loop (NR_async_event_wait2 client (Some (Timeval 0 0)) sel));;
  prog.

(** [svc_run]: what [select] finds before each request, and the request. *)
Fixpoint svc_run (requests : list (selected * DM unit)) : DM unit :=
  match requests with
  | [] => mret ()
  | (sel, prog) :: requests' => registrydprog_1_trampoline sel prog;; svc_run requests'
  end.

(** [opened]: whether the calls that make the service succeed. *)
Definition nr_reg_start_regrpc_svc (opened : bool) (requests : list (selected * DM unit)) : DM unit :=
  if opened then svc_run requests;; abort R_FAILED else abort R_FAILED.

(** [NR_reg_init(NR_REG_MODE_LOCAL)] of a program that just started; the logger is left out. *)
Definition with_vtbl (r : reg_state) : reg_state :=
  RegState (objs r) (brk r) (answers r) (nr_registry r) (nr_registry_callbacks r) true (calls r).
Definition init_local : R unit :=
  s ← get; if reg_vtbl s then mret () else modify with_vtbl;; nr_reg_local_init.

(** [exit(1)]; the end of the program is the failure with its status. *)
Definition exit_unless {X} (m : DM X) : DM X := r ← catch m; match r with inr x => mret x | inl _ => abort 1 end.

Definition register_relay : R unit :=
  NR_reg_register_callback NR_TOP_LEVEL_REGISTRY NR_REG_CB_ACTION_ADD send_event_addr 0;;
  NR_reg_register_callback NR_TOP_LEVEL_REGISTRY NR_REG_CB_ACTION_CHANGE send_event_addr 0;;
  NR_reg_register_callback NR_TOP_LEVEL_REGISTRY NR_REG_CB_ACTION_DELETE send_event_addr 0;;
  NR_reg_register_callback NR_TOP_LEVEL_REGISTRY NR_REG_CB_ACTION_FINAL send_event_addr 0.

Definition nr_registry_server (opened : bool) (requests : list (selected * DM unit)) : DM unit :=
  exit_unless (on_svc (on_reg init_local));;
  exit_unless (on_svc (on_reg register_relay));;
  on_loop NR_async_wait_init;;
  nr_reg_start_regrpc_svc opened requests.

(** ** Requests *)

(** Changes of the registry, and a client that asks for the events. *)
Inductive request : Type :=
| Change (op : reg_op)
| Listen (cbfd : option Z) (mem : bool) (writes : list bool).

Definition procedure (op : reg_op) : M (svc_state reg_state) unit :=
  match op with
  | SetScalar name type data => nr_reg_set_1_svc type name data
  | SetBytes name data => nr_reg_set_bytes_1_svc name data
  | SetString name data => nr_reg_set_string_1_svc name data
  | Del name => nr_reg_del_1_svc name
  end.

(** The status goes back to the client. *)
Definition run_request (r : request) : DM unit :=
  match r with
  | Change op => ignore (on_svc (procedure op))
  | Listen cbfd mem writes => ignore (on_clients (nr_reg_register_for_callbacks cbfd mem writes))
  end.

Definition serve (reqs : list (selected * request)) : DM unit := svc_run ((λ '(sel, r), (sel, run_request r)) <$> reqs).

(** Each change is legal when its turn comes. *)
Fixpoint requests_legal (reqs : list (selected * request)) (d : daemon) : Prop :=
  match reqs with
  | [] => True
  | (_, r) :: reqs' =>
      match r with Change op => legal (reg_view (d_reg d)) op | Listen _ _ _ => True end ∧
      ∀ d', run_request r d = Ok () d' → requests_legal reqs' d'
  end.
End daemon.

(** ** The daemon at work *)

(** No socket is waited for and nothing is scheduled. *)
Definition loop_idle (a : async_state) : Prop := wait_initialized a = true ∧ ∀ p, queue a p = [].

Lemma collect_idle n a : (∀ p, queue a p = []) → AsyncLoop.collect n a = Ok (-1) a.
Proof. intros Hq. induction n as [|n IH]; [done|]. cbn [AsyncLoop.collect]. mstep. mstep. by rewrite !Hq. Qed.

Lemma loop_idle_run client tv sel a : loop_idle a → NR_async_event_wait2 client tv sel a = Err R_EOD a.
Proof.
  intros [Hi Hq]. unfold NR_async_event_wait2.
  assert (NR_async_wait_init a = Ok () a) as Hinit by (unfold NR_async_wait_init; mstep; by rewrite Hi).
  rewrite (bind_ok _ _ _ _ _ Hinit), (bind_ok _ _ _ _ _ (collect_idle _ _ Hq)). mstep.
  apply bind_err. by rewrite Hq.
Qed.

Section work.
Context (cb : Z) (client : firing → async_state → list api).
Implicit Types (d : daemon) (evs : list event).

Record serving d : Prop := {
  sv_good : good (d_reg d);
  sv_tree : tree_ok (reg_view (d_reg d));
  sv_relay : relay_installed (d_reg d) cb;
  sv_loop : loop_idle (d_async d);
}.

(** From [d] to [d'] exactly [evs] are raised, and every client whose socket works is sent
    lines that say so. *)
Record told d d' evs : Prop := {
  td_serving : serving d';
  td_events : Forall event_ok evs;
  td_calls : calls (d_reg d') = calls (d_reg d) ++ events_calls (d_reg d) evs;
  td_regs n : registered (d_reg d') n = registered (d_reg d) n;
  td_clients c : c ∈ d_clients d → cl_writes c = [] →
    ∃ sent, split_lines [] sent = (line_text <$> evs, []) ∧
      NrRegClient (cl_fd c) (cl_sent c ++ sent) [] ∈ d_clients d';
}.

Lemma client_eta c : cl_writes c = [] → NrRegClient (cl_fd c) (cl_sent c ++ []) [] = c.
Proof. intros Hw. rewrite app_nil_r. by destruct c; cbn in *; subst. Qed.

Lemma told_refl d : serving d → told d d [].
Proof.
  intros Hs. split; [done|constructor|by rewrite app_nil_r|done|]. intros c Hc Hw. exists [].
  split; [done|]. by rewrite client_eta.
Qed.

Lemma events_calls_ext s s' evs : (∀ n, registered s' n = registered s n) → events_calls s' evs = events_calls s evs.
Proof.
  intros Hr. unfold events_calls. induction evs as [|e evs IH]; [done|]. cbn. by rewrite IH, (event_calls_same s s').
Qed.

Lemma told_trans d d1 d2 evs evs' : told d d1 evs → told d1 d2 evs' → told d d2 (evs ++ evs').
Proof.
  intros [_ He Hc Hr Hcl] [Hs' He' Hc' Hr' Hcl']. split; [done|by apply Forall_app| | |].
  - rewrite Hc', Hc, (events_calls_ext (d_reg d) (d_reg d1)) by done. unfold events_calls. by rewrite bind_app, app_assoc.
  - intros n. by rewrite Hr', Hr.
  - intros c Hin Hw. destruct (Hcl c Hin Hw) as (sent & Hsp & Hin1).
    destruct (Hcl' _ Hin1 eq_refl) as (sent' & Hsp' & Hin2). exists (sent ++ sent'). split.
    + rewrite split_app, Hsp. cbn. rewrite Hsp'. cbn. by rewrite fmap_app.
    + cbn [cl_fd cl_sent] in Hin2. by rewrite app_assoc.
Qed.

(** A change of the registry. *)
Lemma procedure_run op t :
  reg_vtbl (svc_reg t) = true →
  procedure op t = match run_op op (svc_reg t) with
                   | Ok _ r => Ok () (set_svc_reg r t) | Err e r => Err e (set_svc_reg r t) | UB => UB end.
Proof.
  intros Hv. destruct op; cbn; unfold nr_reg_set_1_svc, nr_reg_set_bytes_1_svc, nr_reg_set_string_1_svc, nr_reg_del_1_svc,
    NR_reg_set, NR_reg_set_bytes, NR_reg_set_string, NR_reg_del, on_reg, through, gets, get, mbind, M_bind; cbn;
    rewrite Hv; match goal with |- context [?m (svc_reg t)] => by destruct (m (svc_reg t)) as [[] ?|? ?|] end.
Qed.

Lemma change_told d op :
  serving d → legal (reg_view (d_reg d)) op →
  ∃ d' evs, run_request cb (Change op) d = Ok () d' ∧ told d d' evs.
Proof.
  intros [Hg Ht Hrel Hl] Hlegal. cbn. unfold ignore, on_svc.
  rewrite procedure_run by apply Hg. fold (d_reg d).
  destruct (run_op_well (d_reg d) op Hg Ht Hlegal) as [(r & v & calls' & Hrun & Hev & Hv & (evs & Hevs & ->))|Hrun]; rewrite Hrun.
  - do 2 eexists. split; [done|]. split.
    + split; [apply Hev|by eapply tree_ext; [apply Hev|]| |done].
      split; intros n; [intros Ha|intros i Hn]; unfold d_reg; cbn; rewrite (ev_cbs _ _ _ _ Hev); by apply Hrel.
    + exact Hevs.
    + unfold d_reg. cbn. by rewrite (ev_calls _ _ _ _ Hev).
    + apply Hev.
    + intros c Hc Hw. exists (concat (event_bytes <$> evs)). split; [by apply split_events|].
      unfold relay_new. cbn. rewrite (ev_calls _ _ _ _ Hev), drop_app_length.
      rewrite <- (relayed_events (d_reg d) cb evs (g_cb _ Hg) Hrel Hevs) at 1. by apply relay_alive.
  - assert (relay_new cb (d_reg d) (set_svc_reg (d_reg d) (d_svc d)) d = d) as ->.
    { destruct d as [[? ? ? ?] l a]. unfold relay_new. cbn. by rewrite drop_all. }
    exists d, []. split; [done|]. by apply told_refl.
Qed.

(** A client that asks for the events; the others are sent an empty line. *)
Lemma listen_told d cbfd mem writes :
  serving d → ∃ d', run_request cb (Listen cbfd mem writes) d = Ok () d' ∧ told d d' [] ∧
    ∀ fd, cbfd = Some fd → mem = true → NrRegClient fd [] writes ∈ d_clients d'.
Proof.
  intros Hs. cbn. unfold ignore, on_clients, nr_reg_register_for_callbacks, modify, mbind, M_bind.
  set (l := nr_reg_cleanup_dead_clients (d_clients d)).
  assert (Htold : ∀ l', (∀ c, c ∈ l → c ∈ l') → told d (Daemon (d_svc d) l' (d_async d)) []).
  { intros l' Hl'. split; [by destruct Hs|constructor|by rewrite app_nil_r|done|]. intros c Hc Hw. exists [LF].
    split; [done|]. apply Hl'. by apply send_alive. }
  destruct cbfd as [fd|]; [destruct mem|]; cbn.
  - eexists. split; [done|]. split; [apply Htold; intros c Hc; apply elem_of_app; by left|].
    intros ? [= <-] _. apply elem_of_app. right. by left.
  - eexists. split; [done|]. split; [by apply Htold|done].
  - eexists. split; [done|]. split; [by apply Htold|done].
Qed.

Lemma trampoline_idle d sel prog : serving d → registrydprog_1_trampoline client sel prog d = prog d.
Proof.
  intros Hs. unfold registrydprog_1_trampoline, ignore, on_loop, mbind, M_bind.
  rewrite loop_idle_run by apply Hs. by destruct d.
Qed.

Lemma serve_told reqs reqs' d :
  serving d → requests_legal cb (reqs ++ reqs') d →
  ∃ d' evs, serve cb client reqs d = Ok () d' ∧ told d d' evs ∧ requests_legal cb reqs' d'.
Proof.
  revert d. induction reqs as [|[sel r] reqs IH]; intros d Hs Hlegal.
  { exists d, []. split_and!; [done|by apply told_refl|done]. }
  destruct Hlegal as [Hr Hrest].
  assert (∃ d1 evs, run_request cb r d = Ok () d1 ∧ told d d1 evs) as (d1 & evs & Hrun & Htold).
  { destruct r as [op|cbfd mem writes]; [by apply change_told|].
    destruct (listen_told d cbfd mem writes Hs) as (d1 & Hrun & Htold & _). by exists d1, []. }
  destruct (IH d1 (td_serving _ _ _ Htold) (Hrest d1 Hrun)) as (d' & evs' & Hrun' & Htold' & Hl).
  exists d', (evs ++ evs'). split_and!; [|by eapply told_trans|done].
  unfold serve. cbn. unfold mbind, M_bind. rewrite trampoline_idle, Hrun by done. exact Hrun'.
Qed.
End work.

(** ** The start *)

Section start.
Context (cb : Z) (cb_range : 0 < cb < 2 ^ 64) (client : firing → async_state → list api).

(** Membership in the list of actions. *)
#[local] Ltac action_in := unfold CB_ACTIONS; repeat first [by left | right].

Lemma each_single (f : Z → R unit) a : a ∈ CB_ACTIONS → each_action f CB_ACTIONS a = (f a;; mret 0).
Proof. unfold CB_ACTIONS. rewrite !elem_of_cons. by intros [->|[->|[->|[->|[]%not_elem_of_nil]]]]. Qed.

Lemma register_single s a k :
  good s → a ∈ CB_ACTIONS → 1 <= k → cb_free k s →
  ∃ s', NR_reg_register_callback [] a cb 0 s = Ok () s' ∧
    rereg s s' [] (λ i, i = CbInfo a cb 0 [] ∨ i ∈ registered s [] ∧ ¬ same_id a cb i) ∧ cb_free (k - 1) s'.
Proof.
  intros Hg Ha Hk Hf. destruct (register_free s [] a cb 0 k) as (s' & Hrun & Hrest); [done|apply valid_root|done..|].
  exists s'. split; [|done]. unfold NR_reg_register_callback. rewrite each_single by done.
  rewrite (bind_ok _ _ s 0 s'); [done|]. by rewrite (bind_ok _ _ _ _ _ Hrun).
Qed.

(** The relay on the store just initialised. *)
Lemma register_relay_run :
  ∃ s', register_relay cb demo_init = Ok () s' ∧ good s' ∧ tree_ok (reg_view s') ∧ relay_installed s' cb ∧ calls s' = [].
Proof.
  destruct demo_init_ok as (_ & Hg & Hnone & Hview). pose proof demo_init_free as Hf.
  destruct (register_single demo_init NR_REG_CB_ACTION_ADD 9) as (s1 & Hrun1 & [Hg1 Hv1 Hc1 Ho1 Hh1] & Hf1); [done|action_in|lia|done|].
  destruct (register_single s1 NR_REG_CB_ACTION_CHANGE 8) as (s2 & Hrun2 & [Hg2 Hv2 Hc2 Ho2 Hh2] & Hf2); [done|action_in|lia|done|].
  destruct (register_single s2 NR_REG_CB_ACTION_DELETE 7) as (s3 & Hrun3 & [Hg3 Hv3 Hc3 Ho3 Hh3] & Hf3); [done|action_in|lia|done|].
  destruct (register_single s3 NR_REG_CB_ACTION_FINAL 6) as (s4 & Hrun4 & [Hg4 Hv4 Hc4 Ho4 Hh4] & _); [done|action_in|lia|done|].
  exists s4. split_and!; [|done| | |].
  - unfold register_relay. change NR_TOP_LEVEL_REGISTRY with (@nil ascii).
    rewrite (bind_ok _ _ _ _ _ Hrun1), (bind_ok _ _ _ _ _ Hrun2), (bind_ok _ _ _ _ _ Hrun3). exact Hrun4.
  - apply (tree_ext (λ m, if decide (m = []) then Some VRegistry else None)); [|apply tree_fresh].
    intros m. by rewrite Hv4, Hv3, Hv2, Hv1.
  - split.
    + intros a Ha. exists 0, []. rewrite Hh4, Hh3, Hh2, Hh1. revert Ha. unfold same_id, CB_ACTIONS. cbn.
      generalize (registered demo_init []). clear. intros l. rewrite !elem_of_cons.
      intros [->|[->|[->|[->|[]%not_elem_of_nil]]]]; naive_solver.
    + intros n i Hn. rewrite Ho4, Ho3, Ho2, Ho1, Hnone by exact Hn. intros []%not_elem_of_nil.
  - rewrite Hc4, Hc3, Hc2, Hc1. destruct init_run as (s & Hs & _ & _ & Hcalls & _).
    unfold demo_init. by rewrite (after_ok nr_reg_local_init null_registry () s Hs).
Qed.

(** The program before it runs. *)
Definition daemon_initial : daemon := Daemon (svc_start reg_initial) [] async_initial.

(** The daemon when it starts to serve. *)
Definition daemon_started : daemon :=
  match (exit_unless (on_svc cb (on_reg init_local));; exit_unless (on_svc cb (on_reg (register_relay cb)));;
         on_loop NR_async_wait_init) daemon_initial with
  | Ok _ d => d
  | _ => daemon_initial
  end.

Lemma server_starts :
  serving cb daemon_started ∧ ∀ opened requests,
    nr_registry_server cb client opened requests daemon_initial = nr_reg_start_regrpc_svc client opened requests daemon_started.
Proof.
  destruct register_relay_run as (s & Hrun & Hg & Ht & Hrel & Hcalls).
  set (t0 := set_svc_reg demo_init (svc_start reg_initial)).
  set (d1 := relay_new cb reg_initial t0 daemon_initial).
  set (d2 := relay_new cb demo_init (set_svc_reg s t0) d1).
  assert (Hon1 : exit_unless (on_svc cb (on_reg init_local)) daemon_initial = Ok () d1).
  { unfold exit_unless, catch, on_svc, on_reg, mbind, M_bind. cbn [d_svc daemon_initial svc_start svc_reg].
    by rewrite (proj1 demo_init_ok : init_local reg_initial = Ok () demo_init). }
  assert (Hon2 : exit_unless (on_svc cb (on_reg (register_relay cb))) d1 = Ok () d2).
  { unfold exit_unless, catch, on_svc, on_reg, mbind, M_bind. cbn [d_svc d1 relay_new t0 svc_reg set_svc_reg]. by rewrite Hrun. }
  assert (Hd : daemon_started = Daemon (d_svc d2) (d_clients d2) (clear_wait async_initial)).
  { unfold daemon_started. by rewrite (bind_ok _ _ _ _ _ Hon1), (bind_ok _ _ _ _ _ Hon2). }
  split; [rewrite Hd; split; [exact Hg|exact Ht|exact Hrel|split; [done|by intros []]]|]. intros opened requests.
  unfold nr_registry_server. by rewrite (bind_ok _ _ _ _ _ Hon1), (bind_ok _ _ _ _ _ Hon2), Hd.
Qed.
End start.

(** A client joins. *)
Lemma serve_app cb client reqs reqs' d d1 :
  serve cb client reqs d = Ok () d1 → serve cb client (reqs ++ reqs') d = serve cb client reqs' d1.
Proof.
  revert d. induction reqs as [|[sel r] reqs IH]; intros d Hrun; [by injection Hrun as ->|].
  unfold serve in *. cbn in *. unfold mbind, M_bind in *.
  destruct (registrydprog_1_trampoline client sel (run_request cb r) d) as [[] d2|e d2|]; [by apply IH|done..].
Qed.

(** C23: The whole way of an event: the daemon starts and serves [pre], then a client asks for the
    events, then [post] is served.  The events that [post] raises in the daemon's registry are
    raised in the client's tables, each once and in order, however the connection cuts the
    bytes; and the daemon ends only when its service does. *)
Theorem events_reach_clients {B} `{CBufLaws B} cb client pre sel fd post (s : listener B) :
  0 < cb < 2 ^ 64 →
  requests_legal cb (pre ++ (sel, Listen (Some fd) true []) :: post) (daemon_started cb) →
  can_raise (ls_reg s) → c_unread (ls_buf s) = [] →
  ∃ d1 d' evs c',
    serve cb client (pre ++ [(sel, Listen (Some fd) true [])]) (daemon_started cb) = Ok () d1 ∧
    nr_registry_server cb client true
      ((λ '(sel, r), (sel, run_request cb r)) <$> (pre ++ (sel, Listen (Some fd) true []) :: post)) daemon_initial =
      Err R_FAILED d' ∧
    calls (d_reg d') = calls (d_reg d1) ++ events_calls (d_reg d1) evs ∧
    c' ∈ d_clients d' ∧ cl_fd c' = fd ∧
    ∀ chunks, concat chunks = cl_sent c' →
      ∃ s', listen chunks s = Ok () s' ∧ ls_exited s' = ls_exited s ∧
        ls_reg s' = add_calls (events_calls (ls_reg s) evs) (ls_reg s).
Proof.
  intros Hcb Hlegal Hr Hu. destruct (server_starts cb Hcb client) as [Hs0 Hserver].
  set (d0 := daemon_started cb) in *. set (join := (sel, Listen (Some fd) true [])) in *.
  destruct (serve_told cb client pre (join :: post) d0 Hs0 Hlegal) as (d & evs0 & Hpre & Htold & Hlegal1).
  destruct (listen_told cb d (Some fd) true [] (td_serving _ _ _ _ Htold)) as (d1 & Hjoin & Htold1 & Hin).
  destruct (serve_told cb client post [] d1) as (d' & evs & Hpost & Htold' & _); [apply Htold1| |].
  { rewrite app_nil_r. by apply Hlegal1. }
  assert (Hjoin1 : ∀ reqs, serve cb client (join :: reqs) d = serve cb client reqs d1).
  { intros reqs. unfold join, serve. cbn -[run_request]. unfold mbind, M_bind. rewrite (trampoline_idle cb), Hjoin by apply Htold. done. }
  destruct (td_clients _ _ _ _ Htold' (NrRegClient fd [] []) (Hin fd eq_refl eq_refl) eq_refl) as (sent & Hsplit & Hin').
  exists d1, d', evs, (NrRegClient fd ([] ++ sent) []). split_and!; [| |apply Htold'|exact Hin'|done|].
  - by rewrite (serve_app _ _ _ _ _ _ Hpre), Hjoin1.
  - rewrite Hserver. unfold nr_reg_start_regrpc_svc. fold (serve cb client (pre ++ join :: post)).
    by rewrite (bind_ok _ _ d0 () d') by by rewrite (serve_app _ _ _ _ _ _ Hpre), Hjoin1.
  - intros chunks Hchunks. destruct (listen_run chunks s evs []) as (s' & Hrun & [_ Hr' He']).
    + done.
    + rewrite Hu. constructor.
    + apply Htold'.
    + by rewrite Hu, Hchunks.
    + by exists s'.
Qed.

(** ** An instance *)

Definition ran_request (cb : Z) (r : request) (d : daemon) : daemon :=
  match run_request cb r d with Ok _ d' => d' | _ => d end.

Lemma requests_legal_cons cb sel r reqs d :
  match r with Change op => legal (reg_view (d_reg d)) op | Listen _ _ _ => True end →
  requests_legal cb reqs (ran_request cb r d) → requests_legal cb ((sel, r) :: reqs) d.
Proof. intros Hr Hrest. split; [done|]. intros d' Hd'. unfold ran_request in Hrest. by rewrite Hd' in Hrest. Qed.

(** A number is there before the client asks; then a string is set and all is deleted. *)
Definition demo_pre : list (selected * request) :=
  [(Selected 0 false (λ _, false) (λ _, false), Change (SetScalar $"net.mtu" NR_REG_TYPE_INT4 1500))].
Definition demo_post : list (selected * request) :=
  [(Selected 0 false (λ _, false) (λ _, false), Change (SetString $"net.host" $"ekr"));
   (Selected 0 false (λ _, false) (λ _, false), Change (Del $"net"))].

Lemma demo_requests_legal :
  requests_legal 7 (demo_pre ++ (Selected 0 false (λ _, false) (λ _, false), Listen (Some 5) true []) :: demo_post)
    (daemon_started 7).
Proof.
  unfold demo_pre, demo_post. cbn [app].
  repeat (apply requests_legal_cons; [|]); [..|done].
  - split_and!; [valid_name|reflexivity|]. intros _. change (ancestors $"net.mtu") with [$"net"]. cbn [creatable].
    split; [valid_name|]. vm_compute. exact I.
  - exact I.
  - split_and!; [valid_name|reflexivity|]. intros _. change (ancestors $"net.host") with [$"net"]. cbn [creatable].
    split; [valid_name|]. vm_compute. reflexivity.
  - cbn [legal]. valid_name.
Qed.

#[local] Opaque daemon_started daemon_initial demo_cb serve nr_registry_server.
#[local] Existing Instances list_buf list_buf_laws.

Lemma events_reach_clients_witness :
  ∃ d1 d' evs c',
    serve 7 (λ _ _, []) (demo_pre ++ [(Selected 0 false (λ _, false) (λ _, false), Listen (Some 5) true [])]) (daemon_started 7) = Ok () d1 ∧
    nr_registry_server 7 (λ _ _, []) true
      ((λ '(sel, r), (sel, run_request 7 r)) <$>
       (demo_pre ++ (Selected 0 false (λ _, false) (λ _, false), Listen (Some 5) true []) :: demo_post)) daemon_initial =
      Err R_FAILED d' ∧
    calls (d_reg d') = calls (d_reg d1) ++ events_calls (d_reg d1) evs ∧
    c' ∈ d_clients d' ∧ cl_fd c' = 5 ∧
    ∀ chunks, concat chunks = cl_sent c' →
      ∃ s', listen chunks (Listener ([] : list ascii) demo_cb true false) = Ok () s' ∧ ls_exited s' = false ∧
        ls_reg s' = add_calls (events_calls demo_cb evs) demo_cb.
Proof.
  refine (events_reach_clients (B := list ascii) 7 (λ _ _, []) demo_pre (Selected 0 false (λ _, false) (λ _, false)) 5 demo_post
    (Listener [] demo_cb true false) (conj eq_refl eq_refl) demo_requests_legal (conj _ _) eq_refl);
    apply (rr_good _ _ _ _ (proj2 demo_cb_ok)).
Defined.
