(* ===== verification/Xdr.v ===== *)
(** * External data representation (<rpc/xdr.h>)

    The routines of the RPC library which the encodings of src/registry/regrpc_xdr.c are made
    of.  The library is not part of the program, so it is a class: what the routines do is
    known by laws alone, and RFC 4506 written out is an instance. *)

From Stdlib Require Import Ascii.
From S2P Require Import Prelude CString InetNtop ByteUtil RegRelay.
Local Open Scope Z_scope.

(** An XDR routine used in its three ways: [None] and [false] are its [FALSE].  A stream is
    the list of the bytes that are left. *)
Record xdrproc (A : Type) := Xdrproc {
  encode : A → option (list Z);
  decode : list Z → option (A * list Z);
  release : A → bool;
}.
Arguments Xdrproc {A} _ _ _.
Arguments encode {A} _ _.
Arguments decode {A} _ _.
Arguments release {A} _ _.

(** A [double] is given by its 64 bits, a [char *] by its characters. *)
Class XdrLib := {
  xdr_void : xdrproc unit;
  xdr_int : xdrproc Z;
  xdr_char : xdrproc Z;
  xdr_u_char : xdrproc Z;
  xdr_int16_t : xdrproc Z;
  xdr_u_int16_t : xdrproc Z;
  xdr_int32_t : xdrproc Z;
  xdr_u_int32_t : xdrproc Z;
  xdr_int64_t : xdrproc Z;
  xdr_u_int64_t : xdrproc Z;
  xdr_double : xdrproc Z;
  xdr_bytes (maxsize : Z) : xdrproc (list Z);
  xdr_string (maxsize : Z) : xdrproc cstring;
  xdr_array {A} (maxsize : Z) (elproc : xdrproc A) : xdrproc (list A);
}.

Definition signed (w z : Z) : Prop := - 2 ^ (w - 1) <= z < 2 ^ (w - 1).
Definition unsigned (w z : Z) : Prop := 0 <= z < 2 ^ w.
Definition no_longer {A} (maxsize : Z) (l : list A) : Prop := Z.of_nat (length l) <= maxsize.

(** Freeing succeeds, and the values in [P] come out of the stream as they went in. *)
Record carries {A} (x : xdrproc A) (P : A → Prop) : Prop := {
  car_release a : release x a = true;
  car_stream a : P a → ∃ bs, encode x a = Some bs ∧ ∀ rest, decode x (bs ++ rest) = Some (a, rest);
}.

Class XdrLaws `{XdrLib} := {
  law_void : carries xdr_void (λ _, True);
  law_int : carries xdr_int (signed 32);
  law_char : carries xdr_char (signed 8);
  law_u_char : carries xdr_u_char (unsigned 8);
  law_int16 : carries xdr_int16_t (signed 16);
  law_u_int16 : carries xdr_u_int16_t (unsigned 16);
  law_int32 : carries xdr_int32_t (signed 32);
  law_u_int32 : carries xdr_u_int32_t (unsigned 32);
  law_int64 : carries xdr_int64_t (signed 64);
  law_u_int64 : carries xdr_u_int64_t (unsigned 64);
  law_double : carries xdr_double (unsigned 64);
  law_bytes maxsize : unsigned 32 maxsize →
    carries (xdr_bytes maxsize) (λ bs, no_longer maxsize bs ∧ Forall byte bs);
  law_xdr_string maxsize : unsigned 32 maxsize →
    carries (xdr_string maxsize) (λ s, no_longer maxsize s ∧ no_nul s);
  law_array {A} maxsize (x : xdrproc A) P : unsigned 32 maxsize → carries x P →
    carries (xdr_array maxsize x) (λ l, no_longer maxsize l ∧ Forall P l);
}.

Create HintDb xdr.
#[export] Hint Resolve law_void law_int law_char law_u_char law_int16 law_u_int16 law_int32 law_u_int32 law_int64
  law_u_int64 law_double law_bytes law_xdr_string law_array : xdr.

Lemma carries_weaken {A} (x : xdrproc A) (P Q : A → Prop) : carries x P → (∀ a, Q a → P a) → carries x Q.
Proof. intros [Hr Hs] HPQ. split; [done|]. intros a Ha. by apply Hs, HPQ. Qed.

(** ** RFC 4506 *)

Module Rfc4506.

(** The most significant byte comes first. *)
Definition be (k : nat) (n : Z) : list Z := reverse (le_bytes k n).
Definition be_value (bs : list Z) : Z := le_value (reverse bs).
Definition split_at (k : nat) (bs : list Z) : option (list Z * list Z) :=
  if (k <=? length bs)%nat then Some (take k bs, drop k bs) else None.

(** Every integer takes a multiple of four bytes; a narrow one is read as the wide one and
    converted. *)
Definition xdr_integer (k : nat) (convert : Z → Z) : xdrproc Z := {|
  encode z := Some (be k (wrap (8 * Z.of_nat k) z));
  decode bs := '(b, rest) ← split_at k bs; Some (convert (be_value b), rest);
  release _ := true;
|}.

Definition padding (n : nat) : nat := ((4 - n mod 4) mod 4)%nat.

Definition xdr_counted {A} (maxsize : Z) (put : list A → list Z) (get : nat → list Z → option (list A * list Z)) :
    xdrproc (list A) := {|
  encode l :=
    if Z.of_nat (length l) <=? maxsize then Some (be 4 (Z.of_nat (length l)) ++ put l) else None;
  decode bs :=
    '(b, rest) ← split_at 4 bs;
    let n := be_value b in
    if n <=? maxsize then get (Z.to_nat n) rest else None;
  release _ := true;
|}.

Definition opaque (maxsize : Z) : xdrproc (list Z) :=
  xdr_counted maxsize (λ bs, bs ++ replicate (padding (length bs)) 0)
    (λ n bs, '(b, rest) ← split_at n bs; '(_, rest) ← split_at (padding n) rest; Some (b, rest)).

(** What follows a zero byte is not part of the string that is read. *)
Definition text (maxsize : Z) : xdrproc cstring := {|
  encode s := encode (opaque maxsize) (uchar <$> s);
  decode bs := '(b, rest) ← decode (opaque maxsize) bs; Some (until_nul (char_of <$> b), rest);
  release _ := true;
|}.

Fixpoint encode_all {A} (x : xdrproc A) (l : list A) : option (list Z) :=
  match l with
  | [] => Some []
  | a :: l' => bs ← encode x a; bs' ← encode_all x l'; Some (bs ++ bs')
  end.
Fixpoint decode_all {A} (x : xdrproc A) (n : nat) (bs : list Z) : option (list A * list Z) :=
  match n with
  | O => Some ([], bs)
  | S n' => '(a, bs) ← decode x bs; '(l, bs) ← decode_all x n' bs; Some (a :: l, bs)
  end.
Definition array {A} (maxsize : Z) (x : xdrproc A) : xdrproc (list A) := {|
  encode l :=
    if Z.of_nat (length l) <=? maxsize then app (be 4 (Z.of_nat (length l))) <$> encode_all x l else None;
  decode bs :=
    '(b, rest) ← split_at 4 bs;
    let n := be_value b in
    if n <=? maxsize then decode_all x (Z.to_nat n) rest else None;
  release l := forallb (release x) l;
|}.

#[export] Instance rfc4506 : XdrLib := {|
  xdr_void := {| encode _ := Some []; decode bs := Some ((), bs); release _ := true |};
  xdr_int := xdr_integer 4 (swrap 32);
  xdr_char := xdr_integer 4 (swrap 8);
  xdr_u_char := xdr_integer 4 (wrap 8);
  xdr_int16_t := xdr_integer 4 (swrap 16);
  xdr_u_int16_t := xdr_integer 4 (wrap 16);
  xdr_int32_t := xdr_integer 4 (swrap 32);
  xdr_u_int32_t := xdr_integer 4 (wrap 32);
  xdr_int64_t := xdr_integer 8 (swrap 64);
  xdr_u_int64_t := xdr_integer 8 (wrap 64);
  xdr_double := xdr_integer 8 (wrap 64);
  xdr_bytes := opaque;
  xdr_string := text;
  xdr_array := @array;
|}.

(** The laws. *)

#[local] Arguments be : simpl never.
#[local] Arguments be_value : simpl never.
#[local] Arguments padding : simpl never.
#[local] Arguments split_at : simpl never.

Lemma be_length k n : length (be k n) = k.
Proof. unfold be. by rewrite length_reverse, le_bytes_length. Qed.

Lemma be_be_value k n : 0 <= n < 256 ^ Z.of_nat k → be_value (be k n) = n.
Proof. intros Hn. unfold be, be_value. rewrite reverse_involutive. by apply le_bytes_value. Qed.

Lemma split_at_app k bs rest : length bs = k → split_at k (bs ++ rest) = Some (bs, rest).
Proof.
  intros <-. unfold split_at. rewrite (proj2 (Nat.leb_le _ _)) by (rewrite length_app; lia).
  by rewrite take_app_length, drop_app_length.
Qed.

Lemma integer_carries k convert P :
  (∀ z, P z → convert (wrap (8 * Z.of_nat k) z) = z) → carries (xdr_integer k convert) P.
Proof.
  intros Hback. split; [done|]. intros z Hz. eexists. split; [done|]. intros rest. cbn.
  rewrite split_at_app by apply be_length. cbn. rewrite be_be_value, Hback; [done..|].
  rewrite <- (Z.pow_mul_r 2 8) by lia. apply wrap_range. lia.
Qed.

Lemma counted_prefix n rest : unsigned 32 n → split_at 4 (be 4 n ++ rest) = Some (be 4 n, rest) ∧ be_value (be 4 n) = n.
Proof. intros Hn. split; [by apply split_at_app, be_length|by apply be_be_value]. Qed.

Lemma opaque_carries maxsize : unsigned 32 maxsize → carries (opaque maxsize) (no_longer maxsize).
Proof.
  intros Hm. split; [done|]. intros bs Hbs. unfold no_longer, unsigned in *. cbn.
  rewrite (proj2 (Z.leb_le _ _)) by done. eexists. split; [done|]. intros rest. rewrite <- !app_assoc.
  destruct (counted_prefix (Z.of_nat (length bs)) (bs ++ replicate (padding (length bs)) 0 ++ rest)) as [-> Hn];
    [unfold unsigned; lia|]. cbn. rewrite Hn, (proj2 (Z.leb_le _ _)), Nat2Z.id, split_at_app by done. cbn.
  by rewrite split_at_app by apply length_replicate.
Qed.

Lemma until_nul_whole s : no_nul s → until_nul s = s.
Proof.
  induction 1 as [|c s Hc Hs IH]; [done|]. cbn. by rewrite (proj2 (Z.eqb_neq _ _) Hc), IH.
Qed.

Lemma text_carries maxsize : unsigned 32 maxsize → carries (text maxsize) (λ s, no_longer maxsize s ∧ no_nul s).
Proof.
  intros Hm. split; [done|]. intros s [Hl Hs].
  destruct (car_stream _ _ (opaque_carries maxsize Hm) (uchar <$> s)) as (bs & Hbs & Hback);
    [by unfold no_longer; rewrite length_fmap|]. exists bs. split; [done|]. intros rest. cbn [decode text].
  rewrite Hback. cbn. rewrite <- list_fmap_compose, (list_fmap_ext _ id), list_fmap_id.
  - by rewrite until_nul_whole.
  - intros ? c _. apply char_of_uchar.
Qed.

Lemma decode_encode_all {A} (x : xdrproc A) P l :
  carries x P → Forall P l →
  ∃ bs, encode_all x l = Some bs ∧ ∀ rest, decode_all x (length l) (bs ++ rest) = Some (l, rest).
Proof.
  intros Hx. induction 1 as [|a l Ha Hl (bs' & Hbs' & IH)]; [by exists []|].
  destruct (car_stream _ _ Hx a Ha) as (bs & Hbs & Hback). exists (bs ++ bs'). cbn. rewrite Hbs, Hbs'. split; [done|].
  intros rest. by rewrite <- app_assoc, Hback; cbn; rewrite IH.
Qed.

Lemma array_carries {A} maxsize (x : xdrproc A) P :
  unsigned 32 maxsize → carries x P → carries (array maxsize x) (λ l, no_longer maxsize l ∧ Forall P l).
Proof.
  intros Hm Hx. split; [intros l; apply forallb_forall; intros a _; apply Hx|]. intros l [Hl HP].
  destruct (decode_encode_all x P l Hx HP) as (bs & Hbs & Hback). unfold no_longer, unsigned in *. cbn.
  rewrite (proj2 (Z.leb_le _ _)), Hbs by done. eexists. split; [done|]. intros rest. rewrite <- app_assoc.
  destruct (counted_prefix (Z.of_nat (length l)) (bs ++ rest)) as [-> Hn]; [unfold unsigned; lia|]. cbn.
  by rewrite Hn, (proj2 (Z.leb_le _ _)), Nat2Z.id, Hback.
Qed.

Lemma swrap_narrow w v z : 0 < w <= v → signed w z → swrap w (wrap v z) = z.
Proof.
  intros Hw Hz. rewrite <- (swrap_small w z) at 2 by (unfold signed in Hz; lia).
  assert (Hd : (2 ^ w | 2 ^ v)) by (exists (2 ^ (v - w)); rewrite <- Z.pow_add_r by lia; f_equal; lia).
  unfold swrap, wrap. f_equal. rewrite Z.add_mod, Z.mod_mod_divide by (done || lia). by rewrite <- Z.add_mod by lia.
Qed.

Lemma wrap_narrow w v z : 0 < w <= v → unsigned w z → wrap w (wrap v z) = z.
Proof.
  intros Hw Hz. unfold unsigned in Hz.
  assert (2 ^ w <= 2 ^ v) by (apply Z.pow_le_mono_r; lia). rewrite (wrap_small v), wrap_small by lia. done.
Qed.

#[export] Instance rfc4506_laws : XdrLaws.
Proof.
  split; try (apply integer_carries; intros z; (apply swrap_narrow || apply wrap_narrow); lia).
  - split; [done|]. intros [] _. by exists [].
  - intros maxsize Hm. apply (carries_weaken _ _ _ (opaque_carries maxsize Hm)). by intros bs [].
  - apply text_carries.
  - intros A maxsize x P Hm. by apply array_carries.
Qed.
End Rfc4506.
