(* ===== verification/RegXdr.v ===== *)
(** * The encodings of the registry protocol (src/registry/regrpc_xdr.c, regrpc.h)

    The structures of regrpc.h and the routine rpcgen makes for each: the fields in order,
    [FALSE] when the routine of one fails.  The last theorem is that each of them carries
    every value its C type can hold. *)

From Stdlib Require Import Ascii.
From S2P Require Import Prelude CString InetNtop Xdr.
Local Open Scope Z_scope.

(** [struct nr_regd_result_char] and the others that differ in the type of [out] only, and
    [struct nr_reg_set_char_1_argument] and its like. *)
Record nr_regd_result (A : Type) := Result { retval : Z; out : A }.
Record nr_reg_set_1_argument (A : Type) := SetArgument { arg_name : cstring; arg_data : A }.
Arguments Result {A} _ _.
Arguments retval {A} _.
Arguments out {A} _.
Arguments SetArgument {A} _ _.
Arguments arg_name {A} _.
Arguments arg_data {A} _.

(** Two fields of a structure, one after the other. *)
Definition xdr_fields {A B R} (make : A → B → R) (first : R → A) (second : R → B) (x : xdrproc A) (y : xdrproc B) :
    xdrproc R := {|
  encode r := bs ← encode x (first r); bs' ← encode y (second r); Some (bs ++ bs');
  decode bs := '(a, bs) ← decode x bs; '(b, bs) ← decode y bs; Some (make a b, bs);
  release r := release x (first r) && release y (second r);
|}.

Lemma fields_carry {A B R} (make : A → B → R) first second x y P Q :
  (∀ r, make (first r) (second r) = r) → carries x P → carries y Q →
  carries (xdr_fields make first second x y) (λ r, P (first r) ∧ Q (second r)).
Proof.
  intros Hmk Hx Hy. split; [intros r; cbn; by rewrite (car_release _ _ Hx), (car_release _ _ Hy)|].
  intros r [Ha Hb]. destruct (car_stream _ _ Hx _ Ha) as (bs & Hbs & Hback), (car_stream _ _ Hy _ Hb) as (bs' & Hbs' & Hback').
  exists (bs ++ bs'). cbn. rewrite Hbs, Hbs'. split; [done|]. intros rest.
  rewrite <- app_assoc, Hback. cbn. rewrite Hback'. cbn. by rewrite Hmk.
Qed.

Section encodings.
Context `{XdrLib}.

(** [~0] as a [u_int]. *)
Definition no_limit : Z := wrap 32 (-1).

Definition xdr_nr_regd_registry : xdrproc cstring := xdr_string no_limit.
Definition xdr_nr_regd_data : xdrproc (list Z) := xdr_bytes no_limit.
Definition xdr_nr_regd_string : xdrproc cstring := xdr_string no_limit.

Definition xdr_result {A} (x : xdrproc A) : xdrproc (nr_regd_result A) := xdr_fields Result retval out xdr_int x.

Definition xdr_nr_regd_result_char : xdrproc (nr_regd_result Z) := xdr_result xdr_char.
Definition xdr_nr_regd_result_UCHAR : xdrproc (nr_regd_result Z) := xdr_result xdr_u_char.
Definition xdr_nr_regd_result_INT2 : xdrproc (nr_regd_result Z) := xdr_result xdr_int16_t.
Definition xdr_nr_regd_result_UINT2 : xdrproc (nr_regd_result Z) := xdr_result xdr_u_int16_t.
Definition xdr_nr_regd_result_INT4 : xdrproc (nr_regd_result Z) := xdr_result xdr_int32_t.
Definition xdr_nr_regd_result_UINT4 : xdrproc (nr_regd_result Z) := xdr_result xdr_u_int32_t.
Definition xdr_nr_regd_result_INT8 : xdrproc (nr_regd_result Z) := xdr_result xdr_int64_t.
Definition xdr_nr_regd_result_UINT8 : xdrproc (nr_regd_result Z) := xdr_result xdr_u_int64_t.
Definition xdr_nr_regd_result_double : xdrproc (nr_regd_result Z) := xdr_result xdr_double.
Definition xdr_nr_regd_result_bytes : xdrproc (nr_regd_result (list Z)) := xdr_result (xdr_bytes no_limit).
Definition xdr_nr_regd_result_string : xdrproc (nr_regd_result cstring) := xdr_result (xdr_string no_limit).
Definition xdr_nr_regd_result_strings : xdrproc (nr_regd_result (list cstring)) :=
  xdr_result (xdr_array no_limit xdr_nr_regd_string).

Definition xdr_set_argument {A} (x : xdrproc A) : xdrproc (nr_reg_set_1_argument A) :=
  xdr_fields SetArgument arg_name arg_data xdr_nr_regd_registry x.

Definition xdr_nr_reg_set_char_1_argument : xdrproc (nr_reg_set_1_argument Z) := xdr_set_argument xdr_char.
Definition xdr_nr_reg_set_uchar_1_argument : xdrproc (nr_reg_set_1_argument Z) := xdr_set_argument xdr_u_char.
Definition xdr_nr_reg_set_int2_1_argument : xdrproc (nr_reg_set_1_argument Z) := xdr_set_argument xdr_int16_t.
Definition xdr_nr_reg_set_uint2_1_argument : xdrproc (nr_reg_set_1_argument Z) := xdr_set_argument xdr_u_int16_t.
Definition xdr_nr_reg_set_int4_1_argument : xdrproc (nr_reg_set_1_argument Z) := xdr_set_argument xdr_int32_t.
Definition xdr_nr_reg_set_uint4_1_argument : xdrproc (nr_reg_set_1_argument Z) := xdr_set_argument xdr_u_int32_t.
Definition xdr_nr_reg_set_int8_1_argument : xdrproc (nr_reg_set_1_argument Z) := xdr_set_argument xdr_int64_t.
Definition xdr_nr_reg_set_uint8_1_argument : xdrproc (nr_reg_set_1_argument Z) := xdr_set_argument xdr_u_int64_t.
Definition xdr_nr_reg_set_double_1_argument : xdrproc (nr_reg_set_1_argument Z) := xdr_set_argument xdr_double.
Definition xdr_nr_reg_set_bytes_1_argument : xdrproc (nr_reg_set_1_argument (list Z)) := xdr_set_argument xdr_nr_regd_data.
Definition xdr_nr_reg_set_string_1_argument : xdrproc (nr_reg_set_1_argument cstring) :=
  xdr_set_argument xdr_nr_regd_string.
End encodings.

(** ** What they carry *)

(** The values of the C types.  An object in memory is shorter than 4 GB here. *)
Definition c_string (s : cstring) : Prop := no_longer no_limit s ∧ no_nul s.
Definition c_bytes (bs : list Z) : Prop := no_longer no_limit bs ∧ Forall byte bs.
Definition c_strings (l : list cstring) : Prop := no_longer no_limit l ∧ Forall c_string l.
Definition result_of {A} (P : A → Prop) (r : nr_regd_result A) : Prop := signed 32 (retval r) ∧ P (out r).
Definition argument_of {A} (P : A → Prop) (a : nr_reg_set_1_argument A) : Prop := c_string (arg_name a) ∧ P (arg_data a).

Section carried.
Context `{XdrLaws}.

Lemma no_limit_unsigned : unsigned 32 no_limit.
Proof. done. Qed.

Lemma string_carries : carries (xdr_string no_limit) c_string.
Proof. by apply law_xdr_string, no_limit_unsigned. Qed.

Lemma bytes_carries : carries (xdr_bytes no_limit) c_bytes.
Proof. by apply law_bytes, no_limit_unsigned. Qed.

Lemma strings_carries : carries (xdr_array no_limit xdr_nr_regd_string) c_strings.
Proof. apply law_array; [apply no_limit_unsigned|apply string_carries]. Qed.

Lemma result_carries {A} (x : xdrproc A) P : carries x P → carries (xdr_result x) (result_of P).
Proof. intros Hx. by apply fields_carry; [intros []|apply law_int|]. Qed.

Lemma argument_carries {A} (x : xdrproc A) P : carries x P → carries (xdr_set_argument x) (argument_of P).
Proof. intros Hx. by apply fields_carry; [intros []|apply string_carries|]. Qed.
End carried.

#[export] Hint Resolve string_carries bytes_carries strings_carries result_carries argument_carries : xdr.

(** Every structure of the protocol comes out of the stream as it went in, whatever follows
    it there: each encoding carries all values of its C type. *)
Theorem structures_carried `{XdrLaws} :
  carries xdr_nr_regd_registry c_string ∧ carries xdr_nr_regd_data c_bytes ∧ carries xdr_nr_regd_string c_string ∧
  (carries xdr_nr_regd_result_char (result_of (signed 8)) ∧ carries xdr_nr_regd_result_UCHAR (result_of (unsigned 8)) ∧
   carries xdr_nr_regd_result_INT2 (result_of (signed 16)) ∧ carries xdr_nr_regd_result_UINT2 (result_of (unsigned 16)) ∧
   carries xdr_nr_regd_result_INT4 (result_of (signed 32)) ∧ carries xdr_nr_regd_result_UINT4 (result_of (unsigned 32)) ∧
   carries xdr_nr_regd_result_INT8 (result_of (signed 64)) ∧ carries xdr_nr_regd_result_UINT8 (result_of (unsigned 64)) ∧
   carries xdr_nr_regd_result_double (result_of (unsigned 64)) ∧ carries xdr_nr_regd_result_bytes (result_of c_bytes) ∧
   carries xdr_nr_regd_result_string (result_of c_string) ∧ carries xdr_nr_regd_result_strings (result_of c_strings)) ∧
  carries xdr_nr_reg_set_char_1_argument (argument_of (signed 8)) ∧
  carries xdr_nr_reg_set_uchar_1_argument (argument_of (unsigned 8)) ∧
  carries xdr_nr_reg_set_int2_1_argument (argument_of (signed 16)) ∧
  carries xdr_nr_reg_set_uint2_1_argument (argument_of (unsigned 16)) ∧
  carries xdr_nr_reg_set_int4_1_argument (argument_of (signed 32)) ∧
  carries xdr_nr_reg_set_uint4_1_argument (argument_of (unsigned 32)) ∧
  carries xdr_nr_reg_set_int8_1_argument (argument_of (signed 64)) ∧
  carries xdr_nr_reg_set_uint8_1_argument (argument_of (unsigned 64)) ∧
  carries xdr_nr_reg_set_double_1_argument (argument_of (unsigned 64)) ∧
  carries xdr_nr_reg_set_bytes_1_argument (argument_of c_bytes) ∧
  carries xdr_nr_reg_set_string_1_argument (argument_of c_string).
Proof. split_and!; eauto 3 with xdr. Qed.
