(* ===== verification/RegStubs.v ===== *)
(** * The stubs of the registry protocol (src/registry/regrpc_svc.c, regrpc_clnt.c, regrpc.h)

    The dispatch rpcgen makes for the server and the functions it makes for the client, over
    the encodings of [RegXdr].  [RegRemote] lets a call arrive and return as it is; here it
    travels as bytes, and the theorem is that this makes no difference. *)

From Stdlib Require Import Ascii.
From S2P Require Import Prelude CString RegNames RegSpec InetNtop RegFacade RegRemote Xdr RegXdr.
Local Open Scope Z_scope.

(** ** Procedure numbers (regrpc.h) *)

Definition NULLPROC : Z := 0.
Definition NR_REG_GET_CHAR : Z := 1.
Definition NR_REG_GET_UCHAR : Z := 2.
Definition NR_REG_GET_INT2 : Z := 3.
Definition NR_REG_GET_UINT2 : Z := 4.
Definition NR_REG_GET_INT4 : Z := 5.
Definition NR_REG_GET_UINT4 : Z := 6.
Definition NR_REG_GET_INT8 : Z := 7.
Definition NR_REG_GET_UINT8 : Z := 8.
Definition NR_REG_GET_DOUBLE : Z := 9.
Definition NR_REG_GET_REGISTRY : Z := 10.
Definition NR_REG_GET_BYTES : Z := 11.
Definition NR_REG_GET_STRING : Z := 12.
Definition NR_REG_GET_LENGTH : Z := 13.
Definition NR_REG_GET_TYPE : Z := 14.
Definition NR_REG_SET_CHAR : Z := 15.
Definition NR_REG_SET_UCHAR : Z := 16.
Definition NR_REG_SET_INT2 : Z := 17.
Definition NR_REG_SET_UINT2 : Z := 18.
Definition NR_REG_SET_INT4 : Z := 19.
Definition NR_REG_SET_UINT4 : Z := 20.
Definition NR_REG_SET_INT8 : Z := 21.
Definition NR_REG_SET_UINT8 : Z := 22.
Definition NR_REG_SET_DOUBLE : Z := 23.
Definition NR_REG_SET_REGISTRY : Z := 24.
Definition NR_REG_SET_BYTES : Z := 25.
Definition NR_REG_SET_STRING : Z := 26.
Definition NR_REG_DEL : Z := 27.
Definition NR_REG_FIN : Z := 28.
Definition NR_REG_GET_CHILD_COUNT : Z := 29.
Definition NR_REG_GET_CHILDREN : Z := 30.
Definition NR_REG_DUMP : Z := 31.
Definition NR_REG_REGISTER_FOR_CALLBACKS : Z := 32.

(** ** The procedures *)

(** The functions [nr_reg_..._1_svc] that regrpc.h declares, over the state [T] of the
    server; [svc_get] and [svc_set] stand for those of the nine scalar types. *)
Class RegrpcSvc (T : Type) := {
  svc_get : reg_type → cstring → M T Z;
  svc_get_registry : cstring → M T cstring;
  svc_get_bytes : cstring → M T (list Z);
  svc_get_string : cstring → M T cstring;
  svc_get_length : cstring → M T Z;
  svc_get_type : cstring → M T cstring;
  svc_set : reg_type → cstring → Z → M T unit;
  svc_set_registry : cstring → M T unit;
  svc_set_bytes : cstring → list Z → M T unit;
  svc_set_string : cstring → cstring → M T unit;
  svc_del : cstring → M T unit;
  svc_fin : cstring → M T unit;
  svc_get_child_count : cstring → M T Z;
  svc_get_children : cstring → M T (list cstring);
  svc_dump : M T unit;
  svc_register_for_callbacks : Z → M T unit;
}.

(** What is in [result.out] of a procedure that fails: its result is static, so the last
    success left it, or memory that was never written.  [None] is no value of the type: the
    buffer that [nr_reg_get_string_1_svc] has just allocated, the null pointer. *)
Record leftovers := Leftovers {
  left_get : reg_type → Z;
  left_registry : cstring;
  left_bytes : list Z;
  left_string : option cstring;
  left_length : Z;
  left_type : cstring;
  left_child_count : Z;
  left_children : option (list cstring);
}.

(** ** The server (regrpc_svc.c) *)

Section dispatch.
Context {T : Type} `{RegrpcSvc T} `{XdrLib} (left : leftovers).

(** [return(&result)]: the status and what the procedure wrote. *)
Definition svc_result {A} (leftover : option A) (m : M T A) : M T (nr_regd_result A) :=
  r ← catch m;
  match r with
  | inr a => mret (Result 0 a)
  | inl e => a ← from_option_ub leftover; mret (Result e a)
  end.
Definition svc_status (m : M T unit) : M T Z :=
  r ← catch m; mret (match r with inr _ => 0 | inl e => e end).

(** [_nr_reg_get_char_1] and the eight after it. *)
Definition _nr_reg_get_1 (type : reg_type) (argp : cstring) : M T (nr_regd_result Z) :=
  svc_result (Some (left_get left type)) (svc_get type argp).
Definition _nr_reg_get_registry_1 (argp : cstring) : M T (nr_regd_result cstring) :=
  svc_result (Some (left_registry left)) (svc_get_registry argp).
Definition _nr_reg_get_bytes_1 (argp : cstring) : M T (nr_regd_result (list Z)) :=
  svc_result (Some (left_bytes left)) (svc_get_bytes argp).
Definition _nr_reg_get_string_1 (argp : cstring) : M T (nr_regd_result cstring) :=
  svc_result (left_string left) (svc_get_string argp).
Definition _nr_reg_get_length_1 (argp : cstring) : M T (nr_regd_result Z) :=
  svc_result (Some (left_length left)) (svc_get_length argp).
Definition _nr_reg_get_type_1 (argp : cstring) : M T (nr_regd_result cstring) :=
  svc_result (Some (left_type left)) (svc_get_type argp).
(** [_nr_reg_set_char_1] and the eight after it. *)
Definition _nr_reg_set_1 (type : reg_type) (argp : nr_reg_set_1_argument Z) : M T Z :=
  svc_status (svc_set type (arg_name argp) (arg_data argp)).
Definition _nr_reg_set_registry_1 (argp : cstring) : M T Z := svc_status (svc_set_registry argp).
Definition _nr_reg_set_bytes_1 (argp : nr_reg_set_1_argument (list Z)) : M T Z :=
  svc_status (svc_set_bytes (arg_name argp) (arg_data argp)).
Definition _nr_reg_set_string_1 (argp : nr_reg_set_1_argument cstring) : M T Z :=
  svc_status (svc_set_string (arg_name argp) (arg_data argp)).
Definition _nr_reg_del_1 (argp : cstring) : M T Z := svc_status (svc_del argp).
Definition _nr_reg_fin_1 (argp : cstring) : M T Z := svc_status (svc_fin argp).
Definition _nr_reg_get_child_count_1 (argp : cstring) : M T (nr_regd_result Z) :=
  svc_result (Some (left_child_count left)) (svc_get_child_count argp).
Definition _nr_reg_get_children_1 (argp : cstring) : M T (nr_regd_result (list cstring)) :=
  svc_result (left_children left) (svc_get_children argp).
Definition _nr_reg_dump_1 (argp : unit) : M T Z := svc_status svc_dump.
Definition _nr_reg_register_for_callbacks_1 (argp : Z) : M T Z := svc_status (svc_register_for_callbacks argp).

(** What a [case] of [registrydprog_1] chooses. *)
Record handler := Handler {
  h_argument : Type;
  h_result : Type;
  xdr_argument : xdrproc h_argument;
  xdr_result_of : xdrproc h_result;
  local : h_argument → M T h_result;
}.
Arguments Handler {_ _} _ _ _.

Definition cases : list (Z * handler) := [
  (NR_REG_GET_CHAR, Handler xdr_nr_regd_registry xdr_nr_regd_result_char (_nr_reg_get_1 NR_REG_TYPE_CHAR));
  (NR_REG_GET_UCHAR, Handler xdr_nr_regd_registry xdr_nr_regd_result_UCHAR (_nr_reg_get_1 NR_REG_TYPE_UCHAR));
  (NR_REG_GET_INT2, Handler xdr_nr_regd_registry xdr_nr_regd_result_INT2 (_nr_reg_get_1 NR_REG_TYPE_INT2));
  (NR_REG_GET_UINT2, Handler xdr_nr_regd_registry xdr_nr_regd_result_UINT2 (_nr_reg_get_1 NR_REG_TYPE_UINT2));
  (NR_REG_GET_INT4, Handler xdr_nr_regd_registry xdr_nr_regd_result_INT4 (_nr_reg_get_1 NR_REG_TYPE_INT4));
  (NR_REG_GET_UINT4, Handler xdr_nr_regd_registry xdr_nr_regd_result_UINT4 (_nr_reg_get_1 NR_REG_TYPE_UINT4));
  (NR_REG_GET_INT8, Handler xdr_nr_regd_registry xdr_nr_regd_result_INT8 (_nr_reg_get_1 NR_REG_TYPE_INT8));
  (NR_REG_GET_UINT8, Handler xdr_nr_regd_registry xdr_nr_regd_result_UINT8 (_nr_reg_get_1 NR_REG_TYPE_UINT8));
  (NR_REG_GET_DOUBLE, Handler xdr_nr_regd_registry xdr_nr_regd_result_double (_nr_reg_get_1 NR_REG_TYPE_DOUBLE));
  (NR_REG_GET_REGISTRY, Handler xdr_nr_regd_registry xdr_nr_regd_result_string _nr_reg_get_registry_1);
  (NR_REG_GET_BYTES, Handler xdr_nr_regd_registry xdr_nr_regd_result_bytes _nr_reg_get_bytes_1);
  (NR_REG_GET_STRING, Handler xdr_nr_regd_registry xdr_nr_regd_result_string _nr_reg_get_string_1);
  (NR_REG_GET_LENGTH, Handler xdr_nr_regd_registry xdr_nr_regd_result_UINT4 _nr_reg_get_length_1);
  (NR_REG_GET_TYPE, Handler xdr_nr_regd_registry xdr_nr_regd_result_string _nr_reg_get_type_1);
  (NR_REG_SET_CHAR, Handler xdr_nr_reg_set_char_1_argument xdr_int (_nr_reg_set_1 NR_REG_TYPE_CHAR));
  (NR_REG_SET_UCHAR, Handler xdr_nr_reg_set_uchar_1_argument xdr_int (_nr_reg_set_1 NR_REG_TYPE_UCHAR));
  (NR_REG_SET_INT2, Handler xdr_nr_reg_set_int2_1_argument xdr_int (_nr_reg_set_1 NR_REG_TYPE_INT2));
  (NR_REG_SET_UINT2, Handler xdr_nr_reg_set_uint2_1_argument xdr_int (_nr_reg_set_1 NR_REG_TYPE_UINT2));
  (NR_REG_SET_INT4, Handler xdr_nr_reg_set_int4_1_argument xdr_int (_nr_reg_set_1 NR_REG_TYPE_INT4));
  (NR_REG_SET_UINT4, Handler xdr_nr_reg_set_uint4_1_argument xdr_int (_nr_reg_set_1 NR_REG_TYPE_UINT4));
  (NR_REG_SET_INT8, Handler xdr_nr_reg_set_int8_1_argument xdr_int (_nr_reg_set_1 NR_REG_TYPE_INT8));
  (NR_REG_SET_UINT8, Handler xdr_nr_reg_set_uint8_1_argument xdr_int (_nr_reg_set_1 NR_REG_TYPE_UINT8));
  (NR_REG_SET_DOUBLE, Handler xdr_nr_reg_set_double_1_argument xdr_int (_nr_reg_set_1 NR_REG_TYPE_DOUBLE));
  (NR_REG_SET_REGISTRY, Handler xdr_nr_regd_registry xdr_int _nr_reg_set_registry_1);
  (NR_REG_SET_BYTES, Handler xdr_nr_reg_set_bytes_1_argument xdr_int _nr_reg_set_bytes_1);
  (NR_REG_SET_STRING, Handler xdr_nr_reg_set_string_1_argument xdr_int _nr_reg_set_string_1);
  (NR_REG_DEL, Handler xdr_nr_regd_registry xdr_int _nr_reg_del_1);
  (NR_REG_FIN, Handler xdr_nr_regd_registry xdr_int _nr_reg_fin_1);
  (NR_REG_GET_CHILD_COUNT, Handler xdr_nr_regd_registry xdr_nr_regd_result_UINT4 _nr_reg_get_child_count_1);
  (NR_REG_GET_CHILDREN, Handler xdr_nr_regd_registry xdr_nr_regd_result_strings _nr_reg_get_children_1);
  (NR_REG_DUMP, Handler xdr_void xdr_int _nr_reg_dump_1);
  (NR_REG_REGISTER_FOR_CALLBACKS, Handler xdr_int xdr_int _nr_reg_register_for_callbacks_1)].

Fixpoint case_of {X} (rq_proc : Z) (cs : list (Z * X)) : option X :=
  match cs with
  | [] => None
  | (p, h) :: cs' => if rq_proc =? p then Some h else case_of rq_proc cs'
  end.

(** What goes back: [svc_sendreply] and the [svcerr_...] functions. *)
Inductive reply : Type :=
| Sent (result : list Z)
| NoProc
| DecodeError
| SystemError
| NoReply.

(** [exit(1)] is the failure with that status.  The answer of [svc_sendreply] to [NULLPROC]
    is ignored. *)
Definition registrydprog_1 (rq_proc : Z) (args : list Z) : M T reply :=
  if rq_proc =? NULLPROC then mret (match encode xdr_void () with Some bs => Sent bs | None => NoReply end)
  else
    match case_of rq_proc cases with
    | None => mret NoProc
    | Some h =>
        match decode (xdr_argument h) args with
        | None => mret DecodeError
        | Some (argument, _) =>
            result ← local h argument;
            let sent := match encode (xdr_result_of h) result with Some bs => Sent bs | None => SystemError end in
            if release (xdr_argument h) argument then mret sent else abort 1
        end
    end.
End dispatch.
Arguments Handler {_ _ _} _ _ _.
Arguments xdr_argument {_} _.
Arguments xdr_result_of {_} _.
Arguments local {_} _ _.

(** ** The client (regrpc_clnt.c) *)

Section stubs.
Context {S : Type} `{AllocLaws S} `{RegVtbl S} `{XdrLib} `{!RegrpcSvc (svc_state S)} (left : leftovers).
Abbreviation C := (M (remote_state S)).

(** [clnt_call] and the test of its status: [None] is the null pointer.  A call that cannot
    be encoded is not sent; an error that is sent back, or a result that cannot be decoded,
    is not [RPC_SUCCESS]. *)
Definition clnt_call {A R} (proc : Z) (inproc : xdrproc A) (arg : A) (outproc : xdrproc R) : C (option R) :=
  match encode inproc arg with
  | None => mret None
  | Some bs =>
      r ← rpc (registrydprog_1 left proc bs);
      mret (match r with Some (inr (Sent bs')) => fst <$> decode outproc bs' | _ => None end)
  end.

Definition nr_reg_get_char_1 (name : cstring) : C (option (nr_regd_result Z)) :=
  clnt_call NR_REG_GET_CHAR xdr_nr_regd_registry name xdr_nr_regd_result_char.
Definition nr_reg_get_uchar_1 (name : cstring) : C (option (nr_regd_result Z)) :=
  clnt_call NR_REG_GET_UCHAR xdr_nr_regd_registry name xdr_nr_regd_result_UCHAR.
Definition nr_reg_get_int2_1 (name : cstring) : C (option (nr_regd_result Z)) :=
  clnt_call NR_REG_GET_INT2 xdr_nr_regd_registry name xdr_nr_regd_result_INT2.
Definition nr_reg_get_uint2_1 (name : cstring) : C (option (nr_regd_result Z)) :=
  clnt_call NR_REG_GET_UINT2 xdr_nr_regd_registry name xdr_nr_regd_result_UINT2.
Definition nr_reg_get_int4_1 (name : cstring) : C (option (nr_regd_result Z)) :=
  clnt_call NR_REG_GET_INT4 xdr_nr_regd_registry name xdr_nr_regd_result_INT4.
Definition nr_reg_get_uint4_1 (name : cstring) : C (option (nr_regd_result Z)) :=
  clnt_call NR_REG_GET_UINT4 xdr_nr_regd_registry name xdr_nr_regd_result_UINT4.
Definition nr_reg_get_int8_1 (name : cstring) : C (option (nr_regd_result Z)) :=
  clnt_call NR_REG_GET_INT8 xdr_nr_regd_registry name xdr_nr_regd_result_INT8.
Definition nr_reg_get_uint8_1 (name : cstring) : C (option (nr_regd_result Z)) :=
  clnt_call NR_REG_GET_UINT8 xdr_nr_regd_registry name xdr_nr_regd_result_UINT8.
Definition nr_reg_get_double_1 (name : cstring) : C (option (nr_regd_result Z)) :=
  clnt_call NR_REG_GET_DOUBLE xdr_nr_regd_registry name xdr_nr_regd_result_double.
Definition nr_reg_get_registry_1 (name : cstring) : C (option (nr_regd_result cstring)) :=
  clnt_call NR_REG_GET_REGISTRY xdr_nr_regd_registry name xdr_nr_regd_result_string.
Definition nr_reg_get_bytes_1 (name : cstring) : C (option (nr_regd_result (list Z))) :=
  clnt_call NR_REG_GET_BYTES xdr_nr_regd_registry name xdr_nr_regd_result_bytes.
Definition nr_reg_get_string_1 (name : cstring) : C (option (nr_regd_result cstring)) :=
  clnt_call NR_REG_GET_STRING xdr_nr_regd_registry name xdr_nr_regd_result_string.
Definition nr_reg_get_length_1 (name : cstring) : C (option (nr_regd_result Z)) :=
  clnt_call NR_REG_GET_LENGTH xdr_nr_regd_registry name xdr_nr_regd_result_UINT4.
Definition nr_reg_get_type_1 (name : cstring) : C (option (nr_regd_result cstring)) :=
  clnt_call NR_REG_GET_TYPE xdr_nr_regd_registry name xdr_nr_regd_result_string.

Definition nr_reg_set_char_1 (name : cstring) (data : Z) : C (option Z) :=
  clnt_call NR_REG_SET_CHAR xdr_nr_reg_set_char_1_argument (SetArgument name data) xdr_int.
Definition nr_reg_set_uchar_1 (name : cstring) (data : Z) : C (option Z) :=
  clnt_call NR_REG_SET_UCHAR xdr_nr_reg_set_uchar_1_argument (SetArgument name data) xdr_int.
Definition nr_reg_set_int2_1 (name : cstring) (data : Z) : C (option Z) :=
  clnt_call NR_REG_SET_INT2 xdr_nr_reg_set_int2_1_argument (SetArgument name data) xdr_int.
Definition nr_reg_set_uint2_1 (name : cstring) (data : Z) : C (option Z) :=
  clnt_call NR_REG_SET_UINT2 xdr_nr_reg_set_uint2_1_argument (SetArgument name data) xdr_int.
Definition nr_reg_set_int4_1 (name : cstring) (data : Z) : C (option Z) :=
  clnt_call NR_REG_SET_INT4 xdr_nr_reg_set_int4_1_argument (SetArgument name data) xdr_int.
Definition nr_reg_set_uint4_1 (name : cstring) (data : Z) : C (option Z) :=
  clnt_call NR_REG_SET_UINT4 xdr_nr_reg_set_uint4_1_argument (SetArgument name data) xdr_int.
Definition nr_reg_set_int8_1 (name : cstring) (data : Z) : C (option Z) :=
  clnt_call NR_REG_SET_INT8 xdr_nr_reg_set_int8_1_argument (SetArgument name data) xdr_int.
Definition nr_reg_set_uint8_1 (name : cstring) (data : Z) : C (option Z) :=
  clnt_call NR_REG_SET_UINT8 xdr_nr_reg_set_uint8_1_argument (SetArgument name data) xdr_int.
Definition nr_reg_set_double_1 (name : cstring) (data : Z) : C (option Z) :=
  clnt_call NR_REG_SET_DOUBLE xdr_nr_reg_set_double_1_argument (SetArgument name data) xdr_int.
Definition nr_reg_set_registry_1 (name : cstring) : C (option Z) :=
  clnt_call NR_REG_SET_REGISTRY xdr_nr_regd_registry name xdr_int.
Definition nr_reg_set_bytes_1 (name : cstring) (data : list Z) : C (option Z) :=
  clnt_call NR_REG_SET_BYTES xdr_nr_reg_set_bytes_1_argument (SetArgument name data) xdr_int.
Definition nr_reg_set_string_1 (name data : cstring) : C (option Z) :=
  clnt_call NR_REG_SET_STRING xdr_nr_reg_set_string_1_argument (SetArgument name data) xdr_int.
Definition nr_reg_del_1 (name : cstring) : C (option Z) :=
  clnt_call NR_REG_DEL xdr_nr_regd_registry name xdr_int.
Definition nr_reg_fin_1 (name : cstring) : C (option Z) :=
  clnt_call NR_REG_FIN xdr_nr_regd_registry name xdr_int.
Definition nr_reg_get_child_count_1 (parent : cstring) : C (option (nr_regd_result Z)) :=
  clnt_call NR_REG_GET_CHILD_COUNT xdr_nr_regd_registry parent xdr_nr_regd_result_UINT4.
Definition nr_reg_get_children_1 (parent : cstring) : C (option (nr_regd_result (list cstring))) :=
  clnt_call NR_REG_GET_CHILDREN xdr_nr_regd_registry parent xdr_nr_regd_result_strings.
Definition nr_reg_dump_1 : C (option Z) := clnt_call NR_REG_DUMP xdr_void () xdr_int.
Definition nr_reg_register_for_callbacks_1 (port : Z) : C (option Z) :=
  clnt_call NR_REG_REGISTER_FOR_CALLBACKS xdr_int port xdr_int.
End stubs.
