(* ===== verification/RegStubsSpec.v ===== *)
(** * A call that travels as bytes

    Through both stubs a call does what the procedure does, and its result arrives: what
    [RegRemote] takes for granted of the delivery. *)

From Stdlib Require Import Ascii.
From S2P Require Import Prelude CString RegNames RegSpec InetNtop RegFacade RegRemote Xdr RegXdr RegStubs.
Local Open Scope Z_scope.

(** ** Calls *)

(** A call of the protocol, by the type of its result. *)
Inductive reg_call : Type → Type :=
| CallGet (type : reg_type) (name : cstring) : reg_call Z
| CallGetRegistry (name : cstring) : reg_call cstring
| CallGetBytes (name : cstring) : reg_call (list Z)
| CallGetString (name : cstring) : reg_call cstring
| CallGetLength (name : cstring) : reg_call Z
| CallGetType (name : cstring) : reg_call cstring
| CallSet (type : reg_type) (name : cstring) (data : Z) : reg_call unit
| CallSetRegistry (name : cstring) : reg_call unit
| CallSetBytes (name : cstring) (data : list Z) : reg_call unit
| CallSetString (name data : cstring) : reg_call unit
| CallDel (name : cstring) : reg_call unit
| CallFin (name : cstring) : reg_call unit
| CallGetChildCount (parent : cstring) : reg_call Z
| CallGetChildren (parent : cstring) : reg_call (list cstring)
| CallDump : reg_call unit
| CallRegisterForCallbacks (port : Z) : reg_call unit.

(** The values of the C type of a scalar. *)
Definition scalar_values (type : reg_type) (z : Z) : Prop :=
  match type with
  | NR_REG_TYPE_CHAR => signed 8 z
  | NR_REG_TYPE_UCHAR => unsigned 8 z
  | NR_REG_TYPE_INT2 => signed 16 z
  | NR_REG_TYPE_UINT2 => unsigned 16 z
  | NR_REG_TYPE_INT4 => signed 32 z
  | NR_REG_TYPE_UINT4 => unsigned 32 z
  | NR_REG_TYPE_INT8 => signed 64 z
  | NR_REG_TYPE_UINT8 | NR_REG_TYPE_DOUBLE => unsigned 64 z
  | _ => False
  end.

(** Arguments and results have their C types; a status of failure is an [int] but not 0. *)
Definition call_typed {A} (c : reg_call A) : Prop :=
  match c with
  | CallGet type name => is_scalar type = true ∧ c_string name
  | CallSet type name data => scalar_values type data ∧ c_string name
  | CallSetBytes name data => c_string name ∧ c_bytes data
  | CallSetString name data => c_string name ∧ c_string data
  | CallDump => True
  | CallRegisterForCallbacks port => signed 32 port
  | CallGetRegistry name | CallGetBytes name | CallGetString name | CallGetLength name | CallGetType name
  | CallSetRegistry name | CallDel name | CallFin name | CallGetChildCount name | CallGetChildren name => c_string name
  end.
Definition value_typed {A} (c : reg_call A) : A → Prop :=
  match c with
  | CallGet type _ => scalar_values type
  | CallGetRegistry _ | CallGetString _ | CallGetType _ => c_string
  | CallGetBytes _ => c_bytes
  | CallGetLength _ | CallGetChildCount _ => unsigned 32
  | CallGetChildren _ => c_strings
  | _ => λ _, True
  end.
Definition status_typed (e : Z) : Prop := signed 32 e ∧ e ≠ 0.

(** What the result of a call holds when it fails. *)
Definition leftover_of {A} (left : leftovers) (c : reg_call A) : option A :=
  match c with
  | CallGet type _ => Some (left_get left type)
  | CallGetRegistry _ => Some (left_registry left)
  | CallGetBytes _ => Some (left_bytes left)
  | CallGetString _ => left_string left
  | CallGetLength _ => Some (left_length left)
  | CallGetType _ => Some (left_type left)
  | CallGetChildCount _ => Some (left_child_count left)
  | CallGetChildren _ => left_children left
  | CallSet _ _ _ | CallSetRegistry _ | CallSetBytes _ _ | CallSetString _ _ | CallDel _ | CallFin _
  | CallDump | CallRegisterForCallbacks _ => Some ()
  end.

Definition outcome_typed {A} (left : leftovers) (c : reg_call A) (o : Z + A) : Prop :=
  match o with
  | inr a => value_typed c a
  | inl e => status_typed e ∧ ∃ a, leftover_of left c = Some a ∧ value_typed c a
  end.

(** The procedure itself. *)
Definition direct {T} `{RegrpcSvc T} {A} (c : reg_call A) : M T A :=
  match c with
  | CallGet type name => svc_get type name
  | CallGetRegistry name => svc_get_registry name
  | CallGetBytes name => svc_get_bytes name
  | CallGetString name => svc_get_string name
  | CallGetLength name => svc_get_length name
  | CallGetType name => svc_get_type name
  | CallSet type name data => svc_set type name data
  | CallSetRegistry name => svc_set_registry name
  | CallSetBytes name data => svc_set_bytes name data
  | CallSetString name data => svc_set_string name data
  | CallDel name => svc_del name
  | CallFin name => svc_fin name
  | CallGetChildCount parent => svc_get_child_count parent
  | CallGetChildren parent => svc_get_children parent
  | CallDump => svc_dump
  | CallRegisterForCallbacks port => svc_register_for_callbacks port
  end.

(** The outcome is typed when the procedure runs in [v]. *)
Definition carried {T} `{RegrpcSvc T} {A} (left : leftovers) (c : reg_call A) (v : T) : Prop :=
  match direct c v with Ok a _ => outcome_typed left c (inr a) | Err e _ => outcome_typed left c (inl e) | UB => True end.

(** ** What is sent *)

Section dispatched.
Context {T : Type} `{RegrpcSvc T} `{XdrLaws} (left : leftovers).

(** The number and the arguments of the call.  A type that is not scalar has neither. *)
Definition get_message (type : reg_type) (name : cstring) : Z * option (list Z) :=
  (match type with
   | NR_REG_TYPE_CHAR => NR_REG_GET_CHAR | NR_REG_TYPE_UCHAR => NR_REG_GET_UCHAR
   | NR_REG_TYPE_INT2 => NR_REG_GET_INT2 | NR_REG_TYPE_UINT2 => NR_REG_GET_UINT2
   | NR_REG_TYPE_INT4 => NR_REG_GET_INT4 | NR_REG_TYPE_UINT4 => NR_REG_GET_UINT4
   | NR_REG_TYPE_INT8 => NR_REG_GET_INT8 | NR_REG_TYPE_UINT8 => NR_REG_GET_UINT8
   | _ => NR_REG_GET_DOUBLE
   end, encode xdr_nr_regd_registry name).
Definition set_message (type : reg_type) (arg : nr_reg_set_1_argument Z) : Z * option (list Z) :=
  match type with
  | NR_REG_TYPE_CHAR => (NR_REG_SET_CHAR, encode xdr_nr_reg_set_char_1_argument arg)
  | NR_REG_TYPE_UCHAR => (NR_REG_SET_UCHAR, encode xdr_nr_reg_set_uchar_1_argument arg)
  | NR_REG_TYPE_INT2 => (NR_REG_SET_INT2, encode xdr_nr_reg_set_int2_1_argument arg)
  | NR_REG_TYPE_UINT2 => (NR_REG_SET_UINT2, encode xdr_nr_reg_set_uint2_1_argument arg)
  | NR_REG_TYPE_INT4 => (NR_REG_SET_INT4, encode xdr_nr_reg_set_int4_1_argument arg)
  | NR_REG_TYPE_UINT4 => (NR_REG_SET_UINT4, encode xdr_nr_reg_set_uint4_1_argument arg)
  | NR_REG_TYPE_INT8 => (NR_REG_SET_INT8, encode xdr_nr_reg_set_int8_1_argument arg)
  | NR_REG_TYPE_UINT8 => (NR_REG_SET_UINT8, encode xdr_nr_reg_set_uint8_1_argument arg)
  | _ => (NR_REG_SET_DOUBLE, encode xdr_nr_reg_set_double_1_argument arg)
  end.
Definition message {A} (c : reg_call A) : Z * option (list Z) :=
  match c with
  | CallGet type name => get_message type name
  | CallGetRegistry name => (NR_REG_GET_REGISTRY, encode xdr_nr_regd_registry name)
  | CallGetBytes name => (NR_REG_GET_BYTES, encode xdr_nr_regd_registry name)
  | CallGetString name => (NR_REG_GET_STRING, encode xdr_nr_regd_registry name)
  | CallGetLength name => (NR_REG_GET_LENGTH, encode xdr_nr_regd_registry name)
  | CallGetType name => (NR_REG_GET_TYPE, encode xdr_nr_regd_registry name)
  | CallSet type name data => set_message type (SetArgument name data)
  | CallSetRegistry name => (NR_REG_SET_REGISTRY, encode xdr_nr_regd_registry name)
  | CallSetBytes name data => (NR_REG_SET_BYTES, encode xdr_nr_reg_set_bytes_1_argument (SetArgument name data))
  | CallSetString name data => (NR_REG_SET_STRING, encode xdr_nr_reg_set_string_1_argument (SetArgument name data))
  | CallDel name => (NR_REG_DEL, encode xdr_nr_regd_registry name)
  | CallFin name => (NR_REG_FIN, encode xdr_nr_regd_registry name)
  | CallGetChildCount parent => (NR_REG_GET_CHILD_COUNT, encode xdr_nr_regd_registry parent)
  | CallGetChildren parent => (NR_REG_GET_CHILDREN, encode xdr_nr_regd_registry parent)
  | CallDump => (NR_REG_DUMP, encode xdr_void ())
  | CallRegisterForCallbacks port => (NR_REG_REGISTER_FOR_CALLBACKS, encode xdr_int port)
  end.

(** What [ABORT_IF_RESULT_RETVAL_FAILED] and [ABORT_IF_RESULT_FAILED] (regrpc_client.c) make of
    what a stub returns. *)
Definition of_result {A} (r : nr_regd_result A) : Z + A := if retval r =? 0 then inr (out r) else inl (retval r).
Definition of_status (r : Z) : Z + unit := if r =? 0 then inr () else inl r.

(** In [v] the procedure behind the dispatch does what [m] does, and what it returns is
    carried and says how [m] ended. *)
Definition answers {A R} (interp : R → Z + A) (Q : R → Prop) (f : M T R) (m : M T A) v : Prop :=
  match m v with
  | Ok a v' => ∃ r, f v = Ok r v' ∧ Q r ∧ interp r = inr a
  | Err e v' => ∃ r, f v = Ok r v' ∧ Q r ∧ interp r = inl e
  | UB => f v = UB
  end.

Lemma dispatch_run {A R} p (xa : xdrproc A) (xr : xdrproc R) (f : A → M T R) P a bs :
  (p =? NULLPROC) = false → case_of p (cases left) = Some (Handler xa xr f) → carries xa P → P a → encode xa a = Some bs →
  registrydprog_1 left p bs =
    (result ← f a; mret (match encode xr result with Some bs' => Sent bs' | None => SystemError end)).
Proof.
  intros Hp Hc Hx Ha Hbs. destruct (car_stream _ _ Hx a Ha) as (bs' & Hbs' & Hback).
  rewrite Hbs in Hbs'. injection Hbs' as <-. specialize (Hback []). rewrite app_nil_r in Hback.
  unfold registrydprog_1. rewrite Hp, Hc. cbn. rewrite Hback. by rewrite (car_release _ _ Hx).
Qed.

Lemma result_answers {A} leftover (m : M T A) (P : A → Prop) v :
  match m v with
  | Ok a _ => P a
  | Err e _ => status_typed e ∧ ∃ a, leftover = Some a ∧ P a
  | UB => True
  end →
  answers of_result (result_of P) (svc_result leftover m) m v.
Proof.
  unfold answers, svc_result, catch, mbind, M_bind. destruct (m v) as [a v'|e v'|]; [| |done].
  - intros Ha. exists (Result 0 a). by repeat split.
  - intros ([He Hne] & a & -> & Ha). exists (Result e a). split_and!; [done..|]. unfold of_result. cbn.
    by rewrite (proj2 (Z.eqb_neq _ _) Hne).
Qed.

Lemma status_answers (m : M T unit) v :
  match m v with Err e _ => status_typed e | _ => True end →
  answers of_status (signed 32) (svc_status m) m v.
Proof.
  unfold answers, svc_status, catch, mbind, M_bind. destruct (m v) as [[] v'|e v'|]; [| |done].
  - intros _. exists 0. by repeat split.
  - intros [He Hne]. exists e. split_and!; [done..|]. unfold of_status. by rewrite (proj2 (Z.eqb_neq _ _) Hne).
Qed.

(** The status of a call that returns nothing. *)
Lemma carried_status (c : reg_call unit) (v : T) :
  carried left c v → match direct c v with Err e _ => status_typed e | _ => True end.
Proof. unfold carried, outcome_typed. destruct (direct c v); [done| |done]. by intros []. Qed.

(** The dispatch leaves the server as the procedure leaves it, and replies. *)
Definition dispatched {A} (c : reg_call A) (v : T) : Prop :=
  ∃ bs, (message c).2 = Some bs ∧
    match direct c v with
    | Ok _ v' | Err _ v' => ∃ r, registrydprog_1 left (message c).1 bs v = Ok (Sent r) v'
    | UB => registrydprog_1 left (message c).1 bs v = UB
    end.

Lemma dispatched_run {A B R} (c : reg_call B) p (xa : xdrproc A) (xr : xdrproc R) (f : A → M T R) P Q a (interp : R → Z + B) v :
  message c = (p, encode xa a) → (p =? NULLPROC) = false → case_of p (cases left) = Some (Handler xa xr f) →
  carries xa P → P a → carries xr Q → answers interp Q (f a) (direct c) v → dispatched c v.
Proof.
  intros Hm Hp Hc Hx Ha Hr Hans. destruct (car_stream _ _ Hx a Ha) as (bs & Hbs & _). exists bs. rewrite Hm. split; [done|]. cbn [fst].
  rewrite (dispatch_run p xa xr f P a bs) by done. unfold answers, mbind, M_bind in *.
  destruct (direct c v) as [b v'|e v'|]; [| |by rewrite Hans]; destruct Hans as (r & -> & Hq & _);
    destruct (car_stream _ _ Hr r Hq) as (bs' & Hbs' & _); exists bs'; by rewrite Hbs'.
Qed.
End dispatched.

(** ** The client's stubs *)

Section stubs.
Context {S : Type} `{AllocLaws S} `{RegVtbl S} `{XdrLaws} `{!RegrpcSvc (svc_state S)} (left : leftovers).
Abbreviation C := (M (remote_state S)).

(** A stub, and what the client makes of its result. *)
Definition received {A R} (f : R → Z + A) (m : C (option R)) : C (option (Z + A)) := r ← m; mret (f <$> r).

(** The call through its stub.  There is none for a type that is not scalar. *)
Definition stub_call {A} (c : reg_call A) : C (option (Z + A)) :=
  match c with
  | CallGet type name =>
      match type with
      | NR_REG_TYPE_CHAR => received of_result (nr_reg_get_char_1 left name)
      | NR_REG_TYPE_UCHAR => received of_result (nr_reg_get_uchar_1 left name)
      | NR_REG_TYPE_INT2 => received of_result (nr_reg_get_int2_1 left name)
      | NR_REG_TYPE_UINT2 => received of_result (nr_reg_get_uint2_1 left name)
      | NR_REG_TYPE_INT4 => received of_result (nr_reg_get_int4_1 left name)
      | NR_REG_TYPE_UINT4 => received of_result (nr_reg_get_uint4_1 left name)
      | NR_REG_TYPE_INT8 => received of_result (nr_reg_get_int8_1 left name)
      | NR_REG_TYPE_UINT8 => received of_result (nr_reg_get_uint8_1 left name)
      | NR_REG_TYPE_DOUBLE => received of_result (nr_reg_get_double_1 left name)
      | _ => undef
      end
  | CallGetRegistry name => received of_result (nr_reg_get_registry_1 left name)
  | CallGetBytes name => received of_result (nr_reg_get_bytes_1 left name)
  | CallGetString name => received of_result (nr_reg_get_string_1 left name)
  | CallGetLength name => received of_result (nr_reg_get_length_1 left name)
  | CallGetType name => received of_result (nr_reg_get_type_1 left name)
  | CallSet type name data =>
      match type with
      | NR_REG_TYPE_CHAR => received of_status (nr_reg_set_char_1 left name data)
      | NR_REG_TYPE_UCHAR => received of_status (nr_reg_set_uchar_1 left name data)
      | NR_REG_TYPE_INT2 => received of_status (nr_reg_set_int2_1 left name data)
      | NR_REG_TYPE_UINT2 => received of_status (nr_reg_set_uint2_1 left name data)
      | NR_REG_TYPE_INT4 => received of_status (nr_reg_set_int4_1 left name data)
      | NR_REG_TYPE_UINT4 => received of_status (nr_reg_set_uint4_1 left name data)
      | NR_REG_TYPE_INT8 => received of_status (nr_reg_set_int8_1 left name data)
      | NR_REG_TYPE_UINT8 => received of_status (nr_reg_set_uint8_1 left name data)
      | NR_REG_TYPE_DOUBLE => received of_status (nr_reg_set_double_1 left name data)
      | _ => undef
      end
  | CallSetRegistry name => received of_status (nr_reg_set_registry_1 left name)
  | CallSetBytes name data => received of_status (nr_reg_set_bytes_1 left name data)
  | CallSetString name data => received of_status (nr_reg_set_string_1 left name data)
  | CallDel name => received of_status (nr_reg_del_1 left name)
  | CallFin name => received of_status (nr_reg_fin_1 left name)
  | CallGetChildCount parent => received of_result (nr_reg_get_child_count_1 left parent)
  | CallGetChildren parent => received of_result (nr_reg_get_children_1 left parent)
  | CallDump => received of_status (nr_reg_dump_1 left)
  | CallRegisterForCallbacks port => received of_status (nr_reg_register_for_callbacks_1 left port)
  end.

(** What a stub sends is the message, whatever it makes of the reply. *)
Lemma stub_sends {A} (c : reg_call A) : call_typed c →
  ∃ read, ∀ s, stub_call c s =
    (match (message c).2 with
     | None => mret None
     | Some bs => r ← rpc (registrydprog_1 left (message c).1 bs); mret (read r)
     end) s.
Proof.
  assert (Hsend : ∀ {X R} p (xa : xdrproc X) a (xr : xdrproc R) (f : R → Z + A) , ∃ read, ∀ s,
    received f (clnt_call left p xa a xr) s =
      (match encode xa a with None => mret None | Some bs => r ← rpc (registrydprog_1 left p bs); mret (read r) end) s).
  { intros X R p xa a xr f.
    exists (λ r, f <$> match r with Some (inr (Sent bs')) => fst <$> decode xr bs' | _ => None end).
    intros s. unfold received, clnt_call. destruct (encode xa a) as [bs|]; [|done].
    unfold mbind, M_bind. by destruct (rpc _ s). }
  intros Ht. destruct c as [ty n|n|n|n|n|n|ty n z|n|n bs|n d|n|n|p|p| |port];
    try (destruct ty; destruct Ht; [..|done|done|done]); apply Hsend.
Qed.

Lemma clnt_call_run {A R B} p (xa : xdrproc A) (xr : xdrproc R) (f : A → M (svc_state S) R) P Q a (interp : R → Z + B) m s :
  (p =? NULLPROC) = false → case_of p (cases left) = Some (Handler xa xr f) → carries xa P → P a → carries xr Q →
  answers interp Q (f a) m (server s) →
  received interp (clnt_call left p xa a xr) s = rpc m s.
Proof.
  intros Hp Hc Hx Ha Hr Hans. destruct (car_stream _ _ Hx a Ha) as (bs & Hbs & _).
  unfold received, clnt_call. rewrite Hbs, (dispatch_run left p xa xr f P a bs) by done.
  assert (Hback : ∀ r, Q r → ∃ bs', encode xr r = Some bs' ∧ fst <$> decode xr bs' = Some r).
  { intros r Hq. destruct (car_stream _ _ Hr r Hq) as (bs' & Hbs' & Hdec). exists bs'. split; [done|].
    specialize (Hdec []). rewrite app_nil_r in Hdec. by rewrite Hdec. }
  unfold answers in Hans. unfold rpc, mbind, M_bind. cbn.
  destruct (next_delivery s); [..|done]; (destruct (m (server s)) as [b v|e v|]; [..|by rewrite Hans]);
    destruct Hans as (r & -> & Hq & Hi); destruct (Hback r Hq) as (bs' & Hbs' & Hdec); cbn;
    rewrite ?Hbs', ?Hdec; cbn; by rewrite ?Hi.
Qed.

End stubs.

Ltac by_result := by apply result_answers.
Ltac by_status :=
  apply status_answers; match goal with Hc : carried _ _ _ |- _ => exact (carried_status _ _ _ Hc) end.
(** Every call that is typed reaches its procedure. *)
Lemma dispatch_direct {T} `{RegrpcSvc T} `{XdrLaws} (left : leftovers) {A} (c : reg_call A) (v : T) :
  call_typed c → carried left c v → dispatched left c v.
Proof.
  intros Ht Hc. destruct c as [ty n|n|n|n|n|n|ty n z|n|n bs|n d|n|n|p|p| |port].
  all: try (destruct ty; destruct Ht as [? Ht]; [..|done|done|done]); try destruct Ht;
    (eapply dispatched_run; [reflexivity..|eauto 3 with xdr|done|eauto 3 with xdr|]); solve [by_result | by_status].
Qed.

(** A call through the client's stub, the network and the server's dispatch does to the server
    what its procedure does and comes back with the procedure's status or value, or is lost
    like any call: that it travels as bytes makes no difference. *)
Lemma stub_call_direct {S} `{AllocLaws S} `{RegVtbl S} `{XdrLaws} `{!RegrpcSvc (svc_state S)} (left : leftovers) {A}
    (c : reg_call A) (s : remote_state S) :
  call_typed c → carried left c (server s) → stub_call left c s = rpc (direct c) s.
Proof.
  intros Ht Hc. destruct c as [ty n|n|n|n|n|n|ty n z|n|n bs|n d|n|n|p|p| |port].
  all: try (destruct ty; destruct Ht as [? Ht]; [..|done|done|done]); try destruct Ht;
    (eapply clnt_call_run; [reflexivity..|eauto 3 with xdr|done|eauto 3 with xdr|]); solve [by_result | by_status].
Qed.

(** The hypothesis on leftovers is needed: when the first call of [nr_reg_get_string_1_svc] fails, what
    is encoded is the buffer it has just allocated, which was never written. *)
Lemma first_string_unwritten {S} `{AllocLaws S} `{RegVtbl S} `{XdrLaws} `{!RegrpcSvc (svc_state S)} (left : leftovers) n
    (s : remote_state S) e v :
  c_string n → left_string left = None → svc_get_string n (server s) = Err e v → next_delivery s ≠ CallLost →
  stub_call left (CallGetString n) s = UB.
Proof.
  intros Hn Hleft He Hd. destruct (car_stream _ _ string_carries n Hn) as (bs & Hbs & _).
  unfold stub_call, received, nr_reg_get_string_1, clnt_call. unfold xdr_nr_regd_registry at 1. rewrite Hbs.
  rewrite (dispatch_run left NR_REG_GET_STRING _ _ _ _ n bs eq_refl eq_refl string_carries Hn Hbs).
  unfold rpc, _nr_reg_get_string_1, svc_result, catch, mbind, M_bind. rewrite Hleft, He. by destruct (next_delivery s).
Qed.
