(* ===== verification/RegTyped.v ===== *)
(** * The types of the registry's data

    In C a [char] of the registry is a [char].  In the model a scalar is a number, so that it
    is in the range of its type is an invariant of the store: every operation, whatever
    its arguments of their C types and however it ends, preserves it and ends with a
    status that is an [int].  This is what a call needs to travel ([RegStubsSpec]). *)

From Stdlib Require Import Ascii.
From S2P Require Import Prelude CString AssocSpec RegNames RegState RegCb RegLocal RegSpec InetNtop RegFacade RegModule RegRemote RegDaemon Xdr RegXdr RegStubs RegStubsSpec.
Local Open Scope Z_scope.

(** ** Partial correctness *)

(** [m] preserves [I], its results satisfy [Q] and its statuses are typed; undefined behaviour
    is not excluded. *)
Definition ends {S A} (I : S → Prop) (Q : A → Prop) (r : res S A) : Prop :=
  match r with
  | Ok a s' => I s' ∧ Q a
  | Err e s' => I s' ∧ status_typed e
  | UB => True
  end.
Definition keeps {S A} (I : S → Prop) (m : M S A) (Q : A → Prop) : Prop := ∀ s, I s → ends I Q (m s).

Section keeps.
Context {S : Type} (I : S → Prop).

Lemma keeps_ret {A} (a : A) (Q : A → Prop) : Q a → keeps I (mret a) Q.
Proof. done. Qed.
Lemma keeps_abort {A} r (Q : A → Prop) : status_typed (abort_code r) → keeps I (abort r) Q.
Proof. done. Qed.
Lemma keeps_undef {A} (Q : A → Prop) : keeps I undef Q.
Proof. done. Qed.
Lemma keeps_get (Q : S → Prop) : (∀ s, I s → Q s) → keeps I get Q.
Proof. intros HQ s Hs. by split; [|apply HQ]. Qed.
Lemma keeps_modify f (Q : unit → Prop) : (∀ s, I s → I (f s)) → Q () → keeps I (modify f) Q.
Proof. intros Hf HQ s Hs. by split; [apply Hf|]. Qed.
Lemma keeps_bind {A B} (m : M S A) (k : A → M S B) (P : A → Prop) (Q : B → Prop) :
  keeps I m P → (∀ a, P a → keeps I (k a) Q) → keeps I (m ≫= k) Q.
Proof.
  intros Hm Hk s Hs. specialize (Hm s Hs). unfold mbind, M_bind. destruct (m s) as [a s'|e s'|]; [|done..].
  destruct Hm as [Hs' Ha]. by apply Hk.
Qed.
Lemma ends_bind {A B} (m : M S A) (k : A → M S B) (Q : B → Prop) s :
  match m s with Ok a s' => ends I Q (k a s') | Err e s' => I s' ∧ status_typed e | UB => True end →
  ends I Q ((m ≫= k) s).
Proof. unfold mbind, M_bind. by destruct (m s). Qed.
Lemma ends_catch {A B} (m : M S A) (k : Z + A → M S B) (P : A → Prop) (Q : B → Prop) s :
  ends I P (m s) → (∀ a, P a → keeps I (k (inr a)) Q) → (∀ e, status_typed e → keeps I (k (inl e)) Q) →
  ends I Q ((catch m ≫= k) s).
Proof.
  unfold ends, mbind, M_bind, catch, keeps. intros Hm Hr Hl. destruct (m s); [|..|done]; destruct Hm; [by apply Hr|by apply Hl].
Qed.
Lemma keeps_catch {A} (m : M S A) (P : A → Prop) :
  keeps I m P → keeps I (catch m) (λ r, match r with inr a => P a | inl e => status_typed e end).
Proof. intros Hm s Hs. specialize (Hm s Hs). unfold ends, catch in *. by destruct (m s). Qed.
Lemma keeps_weaken {A} (m : M S A) (P Q : A → Prop) : keeps I m P → (∀ a, P a → Q a) → keeps I m Q.
Proof. intros Hm HQ s Hs. specialize (Hm s Hs). unfold ends in *. destruct (m s); naive_solver. Qed.
Lemma keeps_option {A} (o : option A) (Q : A → Prop) : (∀ a, o = Some a → Q a) → keeps I (from_option_ub o) Q.
Proof. intros HQ. destruct o; [by apply keeps_ret, HQ|apply keeps_undef]. Qed.
End keeps.

Lemma status_again e : status_typed e → status_typed (abort_code e).
Proof. intros [He Hne]. by rewrite abort_code_id. Qed.

Create HintDb keeps.
#[export] Hint Resolve status_again keeps_undef keeps_option : keeps.
#[export] Hint Extern 10 (status_typed (abort_code ?r)) =>
  (tryif is_var r then fail else split; [by split|apply abort_code_nonzero]) : keeps.

(** The structure of a body: what is called is known by the hints. *)
Ltac keeps_step :=
  lazymatch goal with
  | |- keeps _ (mret _) _ => apply keeps_ret
  | |- keeps _ (abort _) _ => apply keeps_abort; solve [auto with keeps]
  | |- keeps _ undef _ => apply keeps_undef
  | |- keeps _ (mbind _ get) _ => eapply keeps_bind; [by apply keeps_get|cbn beta; intros ? ?]
  | |- keeps _ (mbind _ _) _ =>
      first [eapply keeps_bind; [solve [eauto 3 with keeps]|cbn beta; intros ? ?]
            |eapply keeps_bind; [apply keeps_catch; solve [eauto 3 with keeps]|cbn beta; intros ? ?]
            |eapply (keeps_bind _ _ _ (λ _, True)); [|intros ? _]]
  | |- keeps _ (match ?x with _ => _ end) _ => destruct x eqn:?
  | |- keeps _ _ _ => solve [eauto 3 with keeps | eapply keeps_weaken; [solve [eauto 3 with keeps]|done]]
  end.
Ltac keeps_steps := repeat keeps_step; try done; eauto with keeps.

(** ** The store *)

Definition node_typed (n : node) : Prop :=
  match n with
  | ScalarNode t v => is_scalar t = true → scalar_values t v
  | ArrayNode _ len buf => unsigned 32 len ∧ Forall byte buf
  end.
Definition obj_typed (o : obj) : Prop := match o with ONode n => node_typed n | _ => True end.
Definition typed (s : reg_state) : Prop := ∀ l o, objs s !! l = Some o → obj_typed o.

Section store.
Implicit Types (s : reg_state) (l : loc) (n : node) (name : cstring).
Abbreviation keeps_typed := (keeps typed).

Lemma typed_insert s l o f : typed s → obj_typed o → objs (f s) = <[l := o]> (objs s) → typed (f s).
Proof.
  intros Hs Ho Hf l' o'. rewrite Hf. destruct (decide (l' = l)) as [->|Hne].
  - by rewrite lookup_insert_eq; intros [= <-].
  - rewrite lookup_insert_ne by done. apply Hs.
Qed.

Lemma keeps_alloc_ok : keeps_typed alloc_ok (λ _, True).
Proof. by intros s Hs. Qed.
#[local] Hint Resolve keeps_alloc_ok : keeps.
Lemma keeps_alloc : keeps_typed alloc_or_abort (λ _, True).
Proof. unfold alloc_or_abort. keeps_steps. Qed.
#[local] Hint Resolve keeps_alloc : keeps.
Lemma keeps_add_obj o : obj_typed o → keeps_typed (modify (add_obj o)) (λ _, True).
Proof. intros Ho. apply keeps_modify; [|done]. intros s Hs. by apply (typed_insert s (brk s) o). Qed.
#[local] Hint Resolve keeps_add_obj : keeps.
Lemma keeps_calloc o : obj_typed o → keeps_typed (calloc o) (λ _, True).
Proof. intros Ho. unfold calloc. keeps_steps. Qed.
Lemma keeps_rfree l : keeps_typed (rfree l) (λ _, True).
Proof.
  unfold rfree. keeps_steps. apply keeps_modify; [|done]. intros s' Hs' l' o' Ho. apply (Hs' l').
  cbn in Ho. by apply lookup_delete_Some in Ho as [_ Ho].
Qed.
Lemma keeps_load_node l : keeps_typed (load_node l) node_typed.
Proof. unfold load_node. keeps_steps. by apply (H l (ONode n)). Qed.
#[local] Hint Resolve keeps_calloc keeps_rfree keeps_load_node : keeps.
Lemma keeps_store_node l n : node_typed n → keeps_typed (store_node l n) (λ _, True).
Proof.
  intros Hn. unfold store_node. keeps_steps. apply keeps_modify; [|done]. intros s Hs.
  by apply (typed_insert s l (ONode n)).
Qed.
Lemma keeps_load_info l : keeps_typed (load_info l) (λ _, True).
Proof. unfold load_info. keeps_steps. Qed.
#[local] Hint Resolve keeps_store_node keeps_load_info : keeps.
Lemma keeps_load_assoc r : keeps_typed (load_assoc r) (λ _, True).
Proof. unfold load_assoc. keeps_steps. Qed.
Lemma keeps_store_assoc r t : keeps_typed (store_assoc r t) (λ _, True).
Proof.
  apply keeps_modify; [|done]. intros s Hs. destruct r as [| |l]; [done..|]. by apply (typed_insert s l (OAssoc t)).
Qed.
Lemma keeps_run_leaf f l : keeps_typed (run_leaf f l) (λ _, True).
Proof. unfold run_leaf. keeps_steps. Qed.
#[local] Hint Resolve keeps_load_assoc keeps_store_assoc keeps_run_leaf : keeps.
Lemma keeps_destroy_entries es : keeps_typed (destroy_entries es) (λ _, True).
Proof. induction es; cbn; keeps_steps. Qed.
#[local] Hint Resolve keeps_destroy_entries : keeps.
Lemma keeps_run_dtor f l : keeps_typed (run_dtor f l) (λ _, True).
Proof. unfold run_dtor, assoc_destroy. keeps_steps. Qed.
#[local] Hint Resolve keeps_run_dtor : keeps.
Lemma keeps_fetch r k : keeps_typed (assoc_fetch r k) (λ _, True).
Proof. unfold assoc_fetch. keeps_steps. Qed.
Lemma keeps_insert r k d ds b : keeps_typed (assoc_insert r k d ds b) (λ _, True).
Proof. unfold assoc_insert. keeps_steps. Qed.
Lemma keeps_num r : keeps_typed (assoc_num_elements r) (λ _, True).
Proof. unfold assoc_num_elements. keeps_steps. Qed.
#[local] Hint Resolve keeps_fetch keeps_insert keeps_num : keeps.

(** Events. *)
Lemma keeps_invoke es action name : keeps_typed (invoke_all es action name) (λ _, True).
Proof. induction es; cbn; keeps_steps. Qed.
#[local] Hint Resolve keeps_invoke : keeps.
Lemma keeps_raise_on name tmp action : keeps_typed (raise_on name tmp action) (λ _, True).
Proof. unfold raise_on. keeps_steps. Qed.
#[local] Hint Resolve keeps_raise_on : keeps.
Lemma keeps_raise_from fuel name tmp action : keeps_typed (raise_from fuel name tmp action) (λ _, True).
Proof. revert tmp. induction fuel; intros tmp; cbn; keeps_steps. Qed.
#[local] Hint Resolve keeps_raise_from : keeps.
Lemma keeps_raise name action : keeps_typed (nr_reg_raise_event name action) (λ _, True).
Proof. unfold nr_reg_raise_event, nr_reg_validate_action, nr_reg_raise_event_recurse. keeps_steps. Qed.
#[local] Hint Resolve keeps_raise : keeps.

(** A node that is fetched has the type asked for, and nothing changed. *)
Lemma fetch_node_cases name type s :
  typed s →
  match nr_reg_fetch_node name type s with
  | Ok l s' => s' = s ∧ ∃ n, objs s !! l = Some (ONode n) ∧ node_type n = type
  | Err e s' => s' = s ∧ status_typed e
  | UB => True
  end.
Proof.
  intros Hs. pose proof (keeps_fetch TReg (cbytes name) s Hs) as Hf. unfold nr_reg_fetch_node.
  destruct (negb _); [by split|]. unfold assoc_fetch, load_assoc, load_node, get, from_option_ub, mret, M_ret, mbind, M_bind in *. cbn in *.
  destruct (nr_registry s) as [t|]; [|done]. cbn in *.
  destruct (tbl_fetch _ _ _) as [e|]; [|by split; [|apply Hf]]. cbn.
  destruct (objs s !! e_data e) as [[n| |]|] eqn:Ho; [|done..]. case_bool_decide; [|by split].
  split; [done|]. by exists n.
Qed.

(** A value of the node's type is assigned. *)
Lemma assign_typed l n type data s :
  typed s → objs s !! l = Some (ONode n) → node_type n = type → (is_scalar type = true → scalar_values type data) →
  ends typed (λ _, True) (assign_scalar l type data s).
Proof.
  intros Hs Ho Hty Hdata. destruct (is_scalar type) eqn:Hsc;
    [|by destruct type; first [done | apply (keeps_abort typed R_INTERNAL); [auto with keeps|]]].
  destruct n as [t v|t len buf]; cbn in Hty; subst t.
  - rewrite (assign_scalar_run s type l v data Ho Hsc). destruct (scalar_ne _ _ _); [split; [|done]|done].
    apply (typed_insert s l (ONode (ScalarNode type data))); [done|by intros _; apply Hdata|done].
  - destruct type; try done; unfold assign_scalar, load_node, get, mbind, M_bind; cbn; by rewrite Ho.
Qed.

(** [RCALLOC] gives an object that is there. *)
Lemma calloc_cases o s :
  typed s → obj_typed o →
  match calloc o s with
  | Ok l s' => typed s' ∧ objs s' !! l = Some o
  | Err e s' => typed s' ∧ status_typed e
  | UB => True
  end.
Proof.
  intros Hs Ho. pose proof (keeps_calloc o Ho s Hs) as Hk. revert Hk. unfold calloc, ends, mbind, M_bind.
  destruct (alloc_or_abort s) as [[] s'|e s'|]; [|done..]. cbn. intros [Hs' _]. split; [done|]. apply lookup_insert_eq.
Qed.

Lemma keeps_fetch_node name type : keeps_typed (nr_reg_fetch_node name type) (λ _, True).
Proof. unfold nr_reg_fetch_node. keeps_steps. Qed.
#[local] Hint Resolve keeps_fetch_node : keeps.

Section set.
Context (set_registry : cstring → R unit) (Hset : ∀ p, keeps_typed (set_registry p) (λ _, True)).
#[local] Hint Resolve Hset : keeps.

Lemma keeps_insert_node name l : keeps_typed (nr_reg_insert_node set_registry name l) (λ _, True).
Proof. unfold nr_reg_insert_node, nr_reg_set_parent_registries. keeps_steps. Qed.
Lemma keeps_change_node name l l' : keeps_typed (nr_reg_change_node name l l') (λ _, True).
Proof. unfold nr_reg_change_node. keeps_steps. Qed.
#[local] Hint Resolve keeps_insert_node keeps_change_node : keeps.

Lemma keeps_set name type data :
  (is_scalar type = true → scalar_values type data) → keeps_typed (nr_reg_set set_registry name type data) (λ _, True).
Proof.
  intros Hdata s Hs. pose proof (fetch_node_cases name type s Hs) as Hf. unfold nr_reg_set, mbind at 1, M_bind at 1, catch at 1.
  destruct (nr_reg_fetch_node name type s) as [l s'|e s'|]; [|..|done]; destruct Hf as [-> Hf].
  - destruct Hf as (n & Ho & Hty). apply ends_bind. pose proof (assign_typed l n type data s Hs Ho Hty Hdata) as Ha.
    destruct (assign_scalar l type data s) as [c s'|e s'|]; [|done..]. destruct Ha as [Ha _].
    apply (keeps_weaken typed _ (λ _, True)); [keeps_steps|done|done].
  - destruct (e =? R_NOT_FOUND); [|by apply (keeps_abort typed); [auto with keeps|]]. apply ends_bind.
    assert (Hz : obj_typed (ONode (ScalarNode type 0))) by (intros Hsc; by destruct type).
    pose proof (calloc_cases _ s Hs Hz) as Hc. destruct (calloc _ s) as [l s'|e' s'|]; [|done..]. destruct Hc as [Hs' Ho].
    apply (ends_catch _ _ _ (λ _, True)); [|intros ? _; keeps_steps|intros ? ?; keeps_steps].
    apply ends_bind. pose proof (assign_typed l _ type data s' Hs' Ho eq_refl Hdata) as Ha.
    destruct (assign_scalar l type data s') as [c s1|e1 s1|]; [|done..]. by apply keeps_insert_node, Ha.
Qed.

Lemma byte_array_buf data : Forall byte data → Forall byte (array_buf data).
Proof. intros Hd. apply Forall_app. split; [done|]. by repeat constructor. Qed.

Lemma keeps_set_array name type data : Forall byte data → keeps_typed (nr_reg_set_array set_registry name type data) (λ _, True).
Proof.
  intros Hd. assert (Hw : unsigned 32 (wrap 32 (Z.of_nat (length data)))) by (apply wrap_range; lia).
  assert (Hnew : obj_typed (ONode (ArrayNode type (wrap 32 (Z.of_nat (length data))) (array_buf data)))) by
    (split; [done|by apply byte_array_buf]).
  unfold nr_reg_set_array. cbv zeta.
  eapply keeps_bind; [by apply keeps_catch, (keeps_weaken _ _ _ (λ _, True) (keeps_fetch_node name type))|].
  intros [e|l] Hr; [keeps_steps|].
  eapply keeps_bind; [apply keeps_load_node|]. intros [t v|t len buf] Hn; [apply keeps_undef|].
  assert (node_typed (ArrayNode type (wrap 32 (Z.of_nat (length data))) (data ++ drop (length data) buf))) by
    (split; [done|by apply Forall_app; split; [|apply Forall_drop, Hn]]).
  keeps_steps.
Qed.
End set.
#[local] Hint Resolve keeps_set keeps_set_array : keeps.

Lemma keeps_set_registry_upto fuel name : keeps_typed (set_registry_upto fuel name) (λ _, True).
Proof.
  revert name. induction fuel as [|fuel IH]; intros name; cbn [set_registry_upto]; [apply keeps_undef|].
  apply keeps_set; [|done]. intros p. keeps_steps.
Qed.
#[local] Hint Resolve keeps_set_registry_upto : keeps.
Lemma keeps_local_set_registry name : keeps_typed (nr_reg_local_set_registry name) (λ _, True).
Proof. apply keeps_set_registry_upto. Qed.
#[local] Hint Resolve keeps_local_set_registry : keeps.
Lemma keeps_set_registry name : keeps_typed (RegLocal.NR_reg_set_registry name) (λ _, True).
Proof. unfold RegLocal.NR_reg_set_registry. keeps_steps. Qed.
#[local] Hint Resolve keeps_set_registry : keeps.

(** Reading. *)
Lemma keeps_get_scalar name type : is_scalar type = true → keeps_typed (nr_reg_get name type) (scalar_values type).
Proof.
  intros Hsc s Hs. pose proof (fetch_node_cases name type s Hs) as Hf. unfold nr_reg_get. apply ends_bind.
  destruct (nr_reg_fetch_node name type s) as [l s'|e s'|]; [|by destruct Hf as [-> ?]|done].
  destruct Hf as (-> & n & Ho & Hty). pose proof (Hs l (ONode n) Ho) as Hn.
  unfold nr_reg_get_data, load_node, get, mbind, M_bind. cbn. rewrite Ho. cbn.
  destruct n as [t v|t len buf]; cbn in Hty; subst t; [|by apply (keeps_abort typed R_INTERNAL); [auto with keeps|]].
  by destruct type; split; try done; apply Hn.
Qed.

Lemma keeps_read_array l size : keeps_typed (read_array l size) c_bytes.
Proof.
  unfold read_array. eapply keeps_bind; [apply keeps_load_node|]. intros [t v|t len buf] Hn; [apply keeps_undef|].
  destruct Hn as [Hl Hb]. keeps_steps. split; [|by apply Forall_take]. unfold no_longer, no_limit, unsigned in *.
  rewrite length_take. change (wrap 32 (-1)) with (2 ^ 32 - 1). lia.
Qed.
#[local] Hint Resolve keeps_get_scalar keeps_read_array : keeps.
Lemma keeps_get_array name type size : keeps_typed (nr_reg_get_array name type size) c_bytes.
Proof. unfold nr_reg_get_array. keeps_steps. Qed.
Lemma keeps_fetch_any name : keeps_typed (fetch_any name) (λ _, True).
Proof. unfold fetch_any. keeps_steps. Qed.
#[local] Hint Resolve keeps_get_array keeps_fetch_any : keeps.
Lemma keeps_get_length name : keeps_typed (nr_reg_local_get_length name) (λ _, True).
Proof. unfold nr_reg_local_get_length. keeps_steps. Qed.

Lemma typenames_strings : Forall c_string typenames.
Proof. repeat (constructor; [split; [done|by repeat (constructor; [done|])]|]). constructor. Qed.
Lemma keeps_get_type name : keeps_typed (nr_reg_local_get_type name) c_string.
Proof.
  unfold nr_reg_local_get_type. keeps_steps. unfold nr_reg_type_name in Heqo. destruct (_ || _); [done|].
  by apply (Forall_lookup_1 _ _ _ _ typenames_strings Heqo).
Qed.
Lemma keeps_get_registry name : c_string name → keeps_typed (nr_reg_local_get_registry name) c_string.
Proof. intros Hn. unfold nr_reg_local_get_registry. keeps_steps. Qed.

(** Iterating. *)
Lemma keeps_iter {A} prefix (action : A → entry loc dtor → cstring → R A) ptr :
  (∀ ptr e name, keeps_typed (action ptr e name) (λ _, True)) →
  keeps_typed (nr_reg_local_iter prefix action ptr) (λ _, True).
Proof.
  intros Ha. unfold nr_reg_local_iter. keeps_steps. clear H. rename a into t. generalize (tbl_elems t) as es. clear t.
  intros es. revert ptr. induction es as [|e es IH]; intros ptr; cbn; keeps_steps.
Qed.
#[local] Hint Resolve keeps_iter : keeps.
Lemma keeps_del name : keeps_typed (nr_reg_local_del name) (λ _, True).
Proof.
  unfold nr_reg_local_del. keeps_steps. apply keeps_iter. intros ? e ?. unfold nr_reg_local_iter_delete. keeps_steps.
Qed.
Lemma keeps_child_count parent : keeps_typed (nr_reg_local_get_child_count parent) (λ _, True).
Proof. unfold nr_reg_local_get_child_count. keeps_steps. Qed.
Lemma keeps_find_children size prefix ptr e name :
  keeps_typed (nr_reg_local_find_children size prefix ptr e name) (λ _, True).
Proof. unfold nr_reg_local_find_children. keeps_steps. Qed.
#[local] Hint Resolve keeps_find_children : keeps.
Lemma keeps_children parent size : keeps_typed (nr_reg_local_get_children parent size) (λ _, True).
Proof. unfold nr_reg_local_get_children. keeps_steps. Qed.

(** Opening the registry. *)
Lemma keeps_cb_init : keeps_typed nr_reg_cb_init (λ _, True).
Proof. unfold nr_reg_cb_init. keeps_steps. Qed.

#[local] Hint Resolve keeps_cb_init : keeps.

Lemma keeps_init_local : keeps_typed init_local (λ _, True).
Proof.
  unfold init_local. assert (Hv : keeps_typed (modify with_vtbl) (λ _, True)) by by apply keeps_modify.
  unfold nr_reg_local_init. keeps_steps.
Qed.
End store.

#[export] Hint Resolve keeps_load_node keeps_alloc_ok keeps_alloc keeps_add_obj keeps_calloc keeps_rfree keeps_load_info
  keeps_load_assoc keeps_store_assoc keeps_fetch keeps_insert keeps_num keeps_run_dtor keeps_local_set_registry
  keeps_raise : keeps.

(** ** Modules *)

(** What a module has to promise for its calls to travel. *)
Class TypedVtbl (S : Type) `{HasAlloc S} `{RegVtbl S} := {
  ty_inv : S → Prop;
  ty_alloc : keeps ty_inv alloc_ok (λ _, True);
  ty_get name type : is_scalar type = true → keeps ty_inv (vt_get name type) (scalar_values type);
  ty_get_registry name : c_string name → keeps ty_inv (vt_get_registry name) c_string;
  ty_get_bytes name size : keeps ty_inv (vt_get_bytes name size) c_bytes;
  ty_get_string name size : keeps ty_inv (vt_get_string name size) c_bytes;
  ty_get_length name : keeps ty_inv (vt_get_length name) (λ _, True);
  ty_get_type name : keeps ty_inv (vt_get_type name) c_string;
  ty_set name type data : scalar_values type data → keeps ty_inv (vt_set name type data) (λ _, True);
  ty_set_registry name : keeps ty_inv (vt_set_registry name) (λ _, True);
  ty_set_bytes name data : c_bytes data → keeps ty_inv (vt_set_bytes name data) (λ _, True);
  ty_set_string name data : c_string data → keeps ty_inv (vt_set_string name data) (λ _, True);
  ty_del name : keeps ty_inv (vt_del name) (λ _, True);
  ty_get_child_count parent : keeps ty_inv (vt_get_child_count parent) (λ _, True);
  ty_get_children parent size : keeps ty_inv (vt_get_children parent size) (λ _, True);
  ty_fin name : keeps ty_inv (vt_fin name) (λ _, True);
}.
#[export] Hint Resolve ty_alloc ty_get ty_get_registry ty_get_bytes ty_get_string ty_get_length ty_get_type ty_set
  ty_set_registry ty_set_bytes ty_set_string ty_del ty_get_child_count ty_get_children ty_fin : keeps.

Lemma cbytes_bytes d : Forall byte (cbytes d).
Proof.
  apply Forall_app. split; [|by repeat constructor]. apply Forall_fmap, Forall_true. intros c. apply uchar_range.
Qed.

#[export] Instance local_typed : TypedVtbl reg_state := {|
  ty_inv := typed;
  ty_alloc := keeps_alloc_ok;
  ty_get name type := keeps_get_scalar name type;
  ty_get_registry := keeps_get_registry;
  ty_get_bytes name := keeps_get_array name NR_REG_TYPE_BYTES;
  ty_get_string name := keeps_get_array name NR_REG_TYPE_STRING;
  ty_get_length := keeps_get_length;
  ty_get_type := keeps_get_type;
  ty_set name type data Hd := keeps_set _ keeps_set_registry name type data (λ _, Hd);
  ty_set_registry := keeps_local_set_registry;
  ty_set_bytes name data Hd := keeps_set_array _ keeps_set_registry name NR_REG_TYPE_BYTES data (proj2 Hd);
  ty_set_string name data _ := keeps_set_array _ keeps_set_registry name NR_REG_TYPE_STRING _ (cbytes_bytes data);
  ty_del := keeps_del;
  ty_get_child_count := keeps_child_count;
  ty_get_children := keeps_children;
  ty_fin name := keeps_raise name NR_REG_CB_ACTION_FINAL;
|}.
