(* ===== verification/RegTravel.v ===== *)
(** * The client's functions through the stubs

    A server whose module is typed ([RegTyped]) is given calls as bytes: each does what its
    procedure does, and so do the client's functions with their retries.  What a client of
    [RegRemote] sees is what it sees through the code rpcgen makes. *)

From Stdlib Require Import Ascii.
From S2P Require Import Prelude CString RegNames RegState RegLocal RegInv RegSpec InetNtop RegDemo RegFacade RegModule RegRemote RegDump RegDaemon Xdr RegXdr RegStubs RegStubsSpec RegTyped.
Local Open Scope Z_scope.

Section server.
Context {S : Type} `{AllocLaws S} `{RegVtbl S} `{!TypedVtbl S}.
(** The module's [dump], and [nr_reg_register_for_callbacks] of registryd.c, which connects to
    the client. *)
Context (vt_dump : list cstring → M S (list cstring)) (register : Z → M (svc_state S) unit).

(** The procedures of regrpc_server.c.  What a dump logs is not part of this state. *)
#[export] Instance regrpc_server : RegrpcSvc (svc_state S) := {|
  svc_get := nr_reg_get_1_svc;
  svc_get_registry := nr_reg_get_registry_1_svc;
  svc_get_bytes := nr_reg_get_bytes_1_svc;
  svc_get_string := nr_reg_get_string_1_svc;
  svc_get_length := nr_reg_get_length_1_svc;
  svc_get_type := nr_reg_get_type_1_svc;
  svc_set := nr_reg_set_1_svc;
  svc_set_registry := nr_reg_set_registry_1_svc;
  svc_set_bytes := nr_reg_set_bytes_1_svc;
  svc_set_string := nr_reg_set_string_1_svc;
  svc_del := nr_reg_del_1_svc;
  svc_fin := nr_reg_fin_1_svc;
  svc_get_child_count := nr_reg_get_child_count_1_svc;
  svc_get_children := nr_reg_get_children_1_svc;
  svc_dump := on_reg (_ ← NR_reg_dump vt_dump []; mret ());
  svc_register_for_callbacks := register;
|}.

Definition svc_typed (v : svc_state S) : Prop := ty_inv (svc_reg v).
Context (Hdump : ∀ log, keeps ty_inv (vt_dump log) (λ _, True)).
Context (Hregister : ∀ port, keeps svc_typed (register port) (λ _, True)).
Abbreviation keeps_svc := (keeps svc_typed).

Lemma keeps_on_reg {A} (m : M S A) (Q : A → Prop) : keeps ty_inv m Q → keeps_svc (on_reg m) Q.
Proof. intros Hm v Hv. specialize (Hm _ Hv). unfold on_reg, ends in *. by destruct (m (svc_reg v)). Qed.
Lemma keeps_through {A} (m : M S A) (Q : A → Prop) : keeps ty_inv m Q → keeps ty_inv (through m) Q.
Proof. intros Hm. unfold through. keeps_steps. Qed.
Lemma keeps_call {A} (m : M S A) (Q : A → Prop) : keeps ty_inv m Q → keeps_svc (on_reg (through m)) Q.
Proof. intros Hm. by apply keeps_on_reg, keeps_through. Qed.
#[local] Hint Resolve keeps_on_reg keeps_through keeps_call : keeps.

Lemma keeps_svc_alloc : keeps_svc alloc_or_abort (λ _, True).
Proof.
  unfold alloc_or_abort. eapply keeps_bind; [|intros ? _; keeps_steps]. intros v Hv. exact (ty_alloc _ Hv).
Qed.
#[local] Hint Resolve keeps_svc_alloc : keeps.
Lemma keeps_adjust name maxlen : keeps_svc (maybe_adjust_ptr name maxlen) (λ _, True).
Proof. unfold maybe_adjust_ptr, NR_reg_get_length. keeps_steps. Qed.
#[local] Hint Resolve keeps_adjust : keeps.
Lemma keeps_growing buf set_buf read name :
  (∀ b v, svc_typed v → svc_typed (set_buf b v)) → (∀ n size, keeps ty_inv (read n size) c_bytes) →
  keeps_svc (read_growing buf set_buf read name) c_bytes.
Proof.
  intros Hset Hread. unfold read_growing.
  assert (Hm : ∀ b, keeps_svc (modify (set_buf b)) (λ _, True)) by (intros b; apply keeps_modify; auto).
  keeps_steps.
Qed.
#[local] Hint Resolve keeps_growing : keeps.

Lemma c_string_in_typed bs d : c_bytes bs → c_string_in bs = Some d → c_string d.
Proof.
  intros [Hl Hb] Hd. enough (no_nul d ∧ (length d <= length bs)%nat) as [? ?] by (split; [unfold no_longer in *; lia|done]).
  clear Hl. revert d Hd. induction Hb as [|z bs Hz Hb IH]; intros d Hd; [done|]. cbn in Hd.
  destruct (decide (z = 0)) as [->|Hne]; [injection Hd as <-; split; [constructor|cbn; lia]|].
  assert (∃ d', c_string_in bs = Some d' ∧ d = char_of z :: d') as (d' & Hd' & ->).
  { destruct z; [done|..]; apply fmap_Some in Hd as (d' & ? & ->); by exists d'. }
  destruct (IH d' Hd') as [? ?]. split; [|cbn; lia]. constructor; [|done]. by rewrite uchar_char_of.
Qed.

Lemma keeps_string_svc name : keeps_svc (nr_reg_get_string_1_svc name) c_string.
Proof.
  unfold nr_reg_get_string_1_svc. eapply keeps_bind; [apply keeps_growing; [done|]|].
  - intros n size. apply keeps_through, ty_get_string.
  - intros out Hout. apply keeps_option. intros d. by apply c_string_in_typed.
Qed.
Lemma keeps_bytes_svc name : keeps_svc (nr_reg_get_bytes_1_svc name) c_bytes.
Proof. apply keeps_growing; [done|]. intros n size. apply keeps_through, ty_get_bytes. Qed.
Lemma keeps_children_svc fuel parent : keeps_svc (children_svc fuel parent) (λ _, True).
Proof.
  induction fuel as [|fuel IH]; cbn [children_svc]; [apply keeps_undef|].
  assert (Hm : ∀ b, keeps_svc (modify (set_svc_children b)) (λ _, True)) by (intros b; by apply keeps_modify).
  unfold NR_reg_get_children. keeps_steps.
Qed.
#[local] Hint Resolve keeps_string_svc keeps_bytes_svc keeps_children_svc : keeps.

#[local] Arguments nr_reg_get_children_1_svc : simpl never.

(** Children come without a bound on their number, which is an [unsigned int] in a message. *)
Definition result_typed {A} (c : reg_call A) : A → Prop :=
  match c with CallGetChildren _ => λ _, True | _ => value_typed c end.

Lemma keeps_direct {A} (c : reg_call A) : call_typed c → keeps_svc (direct c) (result_typed c).
Proof.
  destruct c as [ty n|n|n|n|n|n|ty n z|n|n bs|n d|n|n|p|p| |port]; cbn; intros Ht.
  all: try (apply keeps_call; eauto with keeps; try destruct Ht; eauto with keeps; done).
  - auto with keeps.
  - auto with keeps.
  - unfold nr_reg_get_length_1_svc, NR_reg_get_length. keeps_steps. apply wrap_range. lia.
  - unfold nr_reg_get_child_count_1_svc, NR_reg_get_child_count. apply keeps_on_reg. keeps_steps. apply wrap_range. lia.
  - apply keeps_children_svc.
  - apply keeps_on_reg. unfold NR_reg_dump. keeps_steps.
  - apply Hregister.
Qed.

(** ** Calls and their retries *)

Context `{XdrLaws} (left : leftovers).

Record leftovers_typed : Prop := {
  lt_get type : is_scalar type = true → scalar_values type (left_get left type);
  lt_registry : c_string (left_registry left);
  lt_bytes : c_bytes (left_bytes left);
  lt_string : ∃ d, left_string left = Some d ∧ c_string d;
  lt_length : unsigned 32 (left_length left);
  lt_type : c_string (left_type left);
  lt_child_count : unsigned 32 (left_child_count left);
  lt_children : ∃ cs, left_children left = Some cs ∧ c_strings cs;
}.
(** All calls but the one whose result has no bound. *)
Definition bounded {A} (c : reg_call A) : Prop := match c with CallGetChildren _ => False | _ => True end.
Context (Hleft : leftovers_typed).

Lemma leftover_typed {A} (c : reg_call A) : call_typed c → ∃ a, leftover_of left c = Some a ∧ value_typed c a.
Proof.
  destruct Hleft. destruct c; cbn; intros Ht; try (eexists; split; [done|done]); try done.
  eexists. split; [done|]. destruct Ht. auto.
Qed.

(** The children that are returned fit into a message. *)
Definition children_fit {A} (c : reg_call A) (v : svc_state S) : Prop :=
  match c with
  | CallGetChildren parent => match nr_reg_get_children_1_svc parent v with Ok cs _ => c_strings cs | _ => True end
  | _ => True
  end.

Lemma bounded_fit {A} (c : reg_call A) v : bounded c → children_fit c v.
Proof. by destruct c. Qed.

Lemma typed_carried {A} (c : reg_call A) v : svc_typed v → call_typed c → children_fit c v → carried left c v.
Proof.
  intros Hv Ht Hf. pose proof (keeps_direct c Ht v Hv) as Hd. pose proof (leftover_typed c Ht) as Hl. unfold carried, outcome_typed, ends in *.
  destruct (direct c v) as [a v'|e v'|] eqn:Hdir; [|by destruct Hd|done]. destruct Hd as [_ Ha].
  destruct c; try exact Ha. cbn in Hdir, Hf |- *. by rewrite Hdir in Hf.
Qed.

Lemma stub_travels {A} (c : reg_call A) s :
  svc_typed (server s) → call_typed c → children_fit c (server s) →
  stub_call left c s = rpc (direct c) s ∧
  match rpc (direct c) s with Ok _ s' => svc_typed (server s') | Err _ _ => False | UB => True end.
Proof.
  intros Hs Ht Hf. split; [by apply stub_call_direct; [|apply typed_carried]|].
  pose proof (keeps_direct c Ht _ Hs) as Hd. unfold ends, rpc in *.
  destruct (next_delivery s); [..|done]; by destruct (direct c (server s)); [destruct Hd..|].
Qed.

(** The functions of regrpc_client.c around a stub. *)
Fixpoint client_tries {A} (tries : nat) (stub : M (remote_state S) (option (Z + A))) : M (remote_state S) A :=
  nr_reg_get_client;;
  result ← stub;
  match result with
  | Some (inr a) => mret a
  | Some (inl r) => abort r
  | None =>
      match tries with
      | O => abort R_IO_ERROR
      | Datatypes.S tries' => nr_reg_reset_client;; ignore nr_reg_init_clnt;; client_tries tries' stub
      end
  end.

Lemma get_client_server (s : remote_state S) :
  match nr_reg_get_client s with Ok _ s' | Err _ s' => server s' = server s | UB => False end.
Proof.
  unfold nr_reg_get_client, mbind, M_bind. cbn. destruct (clnt s); [done|]. cbn. by destruct (next_answer _).
Qed.

Lemma bind_same {X A B} (m m' : M X A) (k k' : A → M X B) s :
  m s = m' s → match m s with Ok a s' => k a s' = k' a s' | _ => True end → (m ≫= k) s = (m' ≫= k') s.
Proof. unfold mbind, M_bind. intros <-. by destruct (m s). Qed.

Lemma tries_travel {A} (c : reg_call A) tries s :
  svc_typed (server s) → call_typed c → bounded c →
  client_tries tries (stub_call left c) s = client_call tries (direct c) s.
Proof.
  intros Hs Ht Hf. revert s Hs. induction tries as [|tries IH]; intros s Hs; cbn [client_tries client_call].
  all: apply bind_same; [done|]; pose proof (get_client_server s) as Hc;
    destruct (nr_reg_get_client s) as [[] s1|e s1|]; [|done..]; rewrite <- Hc in Hs;
    destruct (stub_travels c s1 Hs Ht (bounded_fit c _ Hf)) as [Heq Hs2]; apply bind_same; [done|]; rewrite Heq;
    destruct (rpc (direct c) s1) as [[[r|a]|] s2|e s2|]; try done.
  apply bind_same; [done|]. cbn. apply bind_same; [done|].
  unfold ignore, nr_reg_init_clnt. pose proof (get_client_server (set_clnt false s2)) as Hc2.
  destruct (nr_reg_get_client (set_clnt false s2)) as [[] s3|e s3|]; [| |done]; apply IH; rewrite Hc2; exact Hs2.
Qed.
End server.

(** C22: For a server whose module is typed, whatever the network loses: a typed call through
    both stubs, as bytes, does to the server what its procedure does and brings back the same
    status or value, and the server stays typed; and a function of the client with all its
    retries does over the stubs what it does in [RegRemote].  Only the children of a registry
    have to be few enough for a message. *)
Theorem remote_calls_travel {S} `{AllocLaws S} `{RegVtbl S} `{!TypedVtbl S} `{XdrLaws}
    (vt_dump : list cstring → M S (list cstring)) (register : Z → M (svc_state S) unit) left {A} (c : reg_call A)
    tries (s : remote_state S) :
  (∀ log, keeps ty_inv (vt_dump log) (λ _, True)) → (∀ port, keeps svc_typed (register port) (λ _, True)) →
  leftovers_typed left → svc_typed (server s) → call_typed c →
  let procedure : M (svc_state S) A := @direct _ (regrpc_server vt_dump register) _ c in
  let stub := @stub_call _ _ (regrpc_server vt_dump register) left _ c in
  (children_fit c (server s) →
   stub s = rpc procedure s ∧
   match rpc procedure s with Ok _ s' => svc_typed (server s') | Err _ _ => False | UB => True end) ∧
  (bounded c → client_tries tries stub s = client_call tries procedure s).
Proof.
  intros Hdump Hreg Hleft Hs Ht procedure stub. split; intros Hc; [by apply stub_travels|by apply tries_travel].
Qed.

(** ** The local store *)

Lemma keeps_dump print_double log : keeps typed (nr_reg_local_dump print_double log) (λ _, True).
Proof.
  unfold nr_reg_local_dump. apply keeps_iter. intros ptr e name.
  unfold nr_reg_local_dump_print, nr_reg_alloc_node_data. keeps_steps.
Qed.

(** The states registryd's procedures can reach: from the registry just opened, by calls whose
    arguments have their C types, however they end and whatever memory they find. *)
Inductive served (print_double : Z → cstring) : svc_state reg_state → Prop :=
| served_start mem r :
    init_local (set_alloc_answers mem reg_initial) = Ok () r → served print_double (svc_start r)
| served_ok {A} (c : reg_call A) v a v' :
    served print_double v → call_typed c →
    @direct _ (regrpc_server (nr_reg_local_dump print_double) (λ _, mret ())) _ c v = Ok a v' → served print_double v'
| served_err {A} (c : reg_call A) v e v' :
    served print_double v → call_typed c →
    @direct _ (regrpc_server (nr_reg_local_dump print_double) (λ _, mret ())) _ c v = Err e v' → served print_double v'.

Lemma local_keeps print_double {A} (c : reg_call A) v :
  svc_typed v → call_typed c →
  ends svc_typed (result_typed c) (@direct _ (regrpc_server (nr_reg_local_dump print_double) (λ _, mret ())) _ c v).
Proof.
  intros Hv Ht. apply keeps_direct; [apply keeps_dump|by intros port; apply keeps_ret|done|done].
Qed.

Lemma served_typed print_double v : served print_double v → svc_typed v.
Proof.
  induction 1 as [mem r Hr|A c v a v' _ IH Ht Hrun|A c v e v' _ IH Ht Hrun].
  - assert (Hs : typed (set_alloc_answers mem reg_initial)) by by intros l o Ho.
    pose proof (keeps_init_local _ Hs) as Hk. rewrite Hr in Hk. apply Hk.
  - pose proof (local_keeps print_double c v IH Ht) as Hk. rewrite Hrun in Hk. apply Hk.
  - pose proof (local_keeps print_double c v IH Ht) as Hk. rewrite Hrun in Hk. apply Hk.
Qed.

(** C29: In every state the server of a local registry can reach, each scalar in its store is in
    the range of its C type and each array is bytes of a 32-bit length; so every call that
    returns a value returns one of its type, and every status of failure is an [int] other
    than zero. *)
Theorem store_typed print_double v :
  served print_double v →
  (∀ l t z, objs (svc_reg v) !! l = Some (ONode (ScalarNode t z)) → is_scalar t = true → scalar_values t z) ∧
  (∀ l t len buf, objs (svc_reg v) !! l = Some (ONode (ArrayNode t len buf)) → unsigned 32 len ∧ Forall byte buf) ∧
  ∀ A (c : reg_call A), call_typed c →
    match @direct _ (regrpc_server (nr_reg_local_dump print_double) (λ _, mret ())) _ c v with
    | Ok a _ => result_typed c a
    | Err e _ => signed 32 e ∧ e ≠ 0
    | UB => True
    end.
Proof.
  intros Hserved. pose proof (served_typed _ _ Hserved) as Hv. split_and!.
  { intros l t z Ho. exact (Hv l _ Ho). }
  { intros l t len buf Ho. exact (Hv l _ Ho). }
  intros A c Ht. pose proof (local_keeps print_double c v Hv Ht) as Hk. unfold ends in Hk.
  by destruct (direct c v) as [a v'|e v'|]; [destruct Hk..|].
Qed.

(** ** Instances *)

#[local] Existing Instances Rfc4506.rfc4506 Rfc4506.rfc4506_laws.

Lemma after_typed {A} (m : R A) s : typed s → keeps typed m (λ _, True) → typed (after m s).
Proof. intros Hs Hm. specialize (Hm s Hs). unfold after, ends in *. by destruct (m s); [destruct Hm..|]. Qed.

Lemma demo_host_typed : typed demo_host.
Proof.
  repeat (apply after_typed; [|]).
  - by intros l o Ho.
  - unfold nr_reg_local_init. pose proof keeps_cb_init. keeps_steps.
  - by apply (keeps_set _ keeps_set_registry $"net.mtu" NR_REG_TYPE_INT4 1500).
  - apply (keeps_set_array _ keeps_set_registry $"net.host" NR_REG_TYPE_STRING), cbytes_bytes.
Qed.

(** What the procedures left when they last succeeded. *)
Definition demo_left : leftovers := Leftovers (λ _, 0) [] [] (Some $"old") 7 [] 3 (Some []).
Lemma demo_left_typed : leftovers_typed demo_left.
Proof.
  assert (Hnil : c_string []) by (split; [done|constructor]).
  split; [by intros []|try done..].
  - exists $"old". split; [done|]. split; [done|]. by repeat (constructor; [done|]).
  - exists []. by repeat split.
Qed.

Lemma demo_server_typed : svc_typed (svc_start demo_host).
Proof. exact demo_host_typed. Qed.

#[local] Opaque demo_host client_call client_tries.
Lemma remote_calls_travel_witness :
  let s := RemoteState (svc_start demo_host) true true [] [ReplyLost; CallLost] [] in
  let c := CallSet NR_REG_TYPE_INT4 $"net.mtu" 1400 in
  client_tries TRIES (@stub_call _ _ (regrpc_server (nr_reg_local_dump (λ _, [])) (λ _, mret ())) demo_left _ c) s =
  client_call TRIES (nr_reg_set_1_svc NR_REG_TYPE_INT4 $"net.mtu" 1400) s.
Proof.
  refine (proj2 (remote_calls_travel (nr_reg_local_dump (λ _, [])) (λ _, mret ()) demo_left
    (CallSet NR_REG_TYPE_INT4 $"net.mtu" 1400) TRIES
    (RemoteState (svc_start demo_host) true true [] [ReplyLost; CallLost] []) _ _ demo_left_typed demo_server_typed _) I).
  - apply keeps_dump.
  - intros port. by apply keeps_ret.
  - split; [done|]. split; [done|]. by repeat (constructor; [done|]).
Defined.

Lemma demo_call_typed z : signed 32 z → call_typed (CallSet NR_REG_TYPE_INT4 $"net.mtu" z).
Proof. intros Hz. split; [done|]. split; [done|]. by repeat (constructor; [done|]). Qed.

Lemma set_number_svc_run (r r' : reg_state) n ty z :
  reg_vtbl r = true → nr_reg_local_set_scalar n ty z r = Ok () r' →
  nr_reg_set_1_svc ty n z (svc_start r) = Ok () (svc_start r').
Proof.
  intros Hv Hr. unfold nr_reg_set_1_svc, on_reg, NR_reg_set, through, mbind, M_bind. cbn -[nr_reg_local_set_scalar].
  by rewrite Hv, Hr.
Qed.

#[local] Opaque demo_init demo_mtu.
Lemma demo_served : served (λ _, []) (svc_start demo_mtu).
Proof.
  destruct demo_init_ok as (Hs & Hg & _). destruct demo_mtu_ok as (Hmtu & _).
  apply (served_ok _ (CallSet NR_REG_TYPE_INT4 $"net.mtu" 1500) (svc_start demo_init) ()).
  - apply (served_start _ []). exact Hs.
  - apply demo_call_typed. split; reflexivity || discriminate.
  - exact (set_number_svc_run _ _ _ _ _ (g_vtbl _ Hg) Hmtu).
Qed.

Lemma store_typed_witness :
  match @direct _ (regrpc_server (nr_reg_local_dump (λ _, [])) (λ _, mret ())) _ (CallGet NR_REG_TYPE_INT4 $"net.mtu")
          (svc_start demo_mtu) with
  | Ok z _ => result_typed (CallGet NR_REG_TYPE_INT4 $"net.mtu") z
  | Err e _ => signed 32 e ∧ e ≠ 0
  | UB => True
  end.
Proof.
  refine (proj2 (proj2 (store_typed (λ _, []) (svc_start demo_mtu) demo_served)) _ (CallGet NR_REG_TYPE_INT4 $"net.mtu") _).
  split; [done|]. split; [done|]. by repeat (constructor; [done|]).
Defined.
