(* ===== verification/RegWire.v ===== *)
(** * Requests as bytes (src/registry/registryd.c, regrpc_svc.c)

    The daemon of [RegDaemon] is given the requests it serves.  Here they arrive as the
    messages the client's stubs send, and [registrydprog_1] decides what runs: the daemon
    does the same, so that what [RegDaemon] shows of it holds of its service. *)

From Stdlib Require Import Ascii.
From S2P Require Import Prelude CString RTime RegNames RegState RegCb RegLocal RegSpec RegTree RegDemo InetNtop RegFacade RegModule RegRemote RegDump RegRelay AsyncState AsyncWait AsyncTimer AsyncLoop Xdr RegXdr RegStubs RegStubsSpec RegTyped RegTravel RegDaemon.
Local Open Scope Z_scope.

Section wire.
(** [printf] of a double; the address of [nr_reg_send_event] and the callbacks of the event
    loop; what becomes of the connection to a client that listens at a port. *)
Context (print_double : Z → cstring) (cb : Z) (client : firing → async_state → list api).
Context (connect_back : Z → option Z * bool * list bool).

(** [nr_reg_register_for_callbacks_1_svc] *)
Definition nr_reg_register_for_callbacks_1_svc (port : Z) : DM unit :=
  let '(cbfd, mem, writes) := connect_back port in on_clients (nr_reg_register_for_callbacks cbfd mem writes).

#[export] Instance daemon_svc : RegrpcSvc daemon := {|
  svc_get type name := on_svc cb (nr_reg_get_1_svc type name);
  svc_get_registry name := on_svc cb (nr_reg_get_registry_1_svc name);
  svc_get_bytes name := on_svc cb (nr_reg_get_bytes_1_svc name);
  svc_get_string name := on_svc cb (nr_reg_get_string_1_svc name);
  svc_get_length name := on_svc cb (nr_reg_get_length_1_svc name);
  svc_get_type name := on_svc cb (nr_reg_get_type_1_svc name);
  svc_set type name data := on_svc cb (nr_reg_set_1_svc type name data);
  svc_set_registry name := on_svc cb (nr_reg_set_registry_1_svc name);
  svc_set_bytes name data := on_svc cb (nr_reg_set_bytes_1_svc name data);
  svc_set_string name data := on_svc cb (nr_reg_set_string_1_svc name data);
  svc_del name := on_svc cb (nr_reg_del_1_svc name);
  svc_fin name := on_svc cb (nr_reg_fin_1_svc name);
  svc_get_child_count parent := on_svc cb (nr_reg_get_child_count_1_svc parent);
  svc_get_children parent := on_svc cb (nr_reg_get_children_1_svc parent);
  svc_dump := on_svc cb (on_reg (_ ← NR_reg_dump (nr_reg_local_dump print_double) []; mret ()));
  svc_register_for_callbacks := nr_reg_register_for_callbacks_1_svc;
|}.

Context `{XdrLaws} (left : leftovers).

(** The request a message asks for. *)
Definition change_call (op : reg_op) : reg_call unit :=
  match op with
  | SetScalar name type data => CallSet type name data
  | SetBytes name data => CallSetBytes name data
  | SetString name data => CallSetString name data
  | Del name => CallDel name
  end.

(** What a client sends: a change, or its port. *)
Definition wire_call (w : reg_op + Z) : reg_call unit :=
  match w with inl op => change_call op | inr port => CallRegisterForCallbacks port end.
Definition wire_request (w : reg_op + Z) : request :=
  match w with
  | inl op => Change op
  | inr port => let '(cbfd, mem, writes) := connect_back port in Listen cbfd mem writes
  end.

(** The message is dispatched; the reply goes to the client. *)
Definition run_message (m : Z * option (list Z)) : DM unit :=
  match m.2 with
  | Some bs => _ ← registrydprog_1 left m.1 bs; mret ()
  | None => mret ()
  end.

Definition daemon_typed (d : daemon) : Prop := typed (d_reg d).

(** ** The daemon stays typed *)

Abbreviation keeps_daemon := (keeps daemon_typed).

Lemma keeps_on_svc {A} (m : M (svc_state reg_state) A) (Q : A → Prop) : keeps svc_typed m Q → keeps_daemon (on_svc cb m) Q.
Proof. intros Hm d Hd. specialize (Hm _ Hd). unfold on_svc, ends in *. by destruct (m (d_svc d)). Qed.

Lemma keeps_on_clients {A} (m : M (list nr_reg_client) A) (Q : A → Prop) : keeps (λ _, True) m Q → keeps_daemon (on_clients m) Q.
Proof. intros Hm d Hd. specialize (Hm (d_clients d) I). unfold on_clients, ends in *. by destruct (m (d_clients d)) as [? ?|? ?|]; destruct Hm. Qed.

Lemma keeps_wire w : call_typed (wire_call w) → keeps_daemon (direct (wire_call w)) (λ _, True).
Proof.
  destruct w as [op|port]; cbn [wire_call].
  - destruct op; cbn; intros Ht; apply keeps_on_svc, keeps_call; try destruct Ht.
    + by apply ty_set.
    + by apply ty_set_bytes.
    + by apply ty_set_string.
    + apply ty_del.
  - intros _. cbn. unfold nr_reg_register_for_callbacks_1_svc. destruct (connect_back port) as [[cbfd mem] writes].
    apply keeps_on_clients. unfold nr_reg_register_for_callbacks. keeps_steps; by apply keeps_modify.
Qed.

Lemma message_run w d :
  daemon_typed d → call_typed (wire_call w) →
  run_message (message (wire_call w)) d = run_request cb (wire_request w) d ∧
  match run_request cb (wire_request w) d with Ok _ d' => daemon_typed d' | Err _ _ => False | UB => True end.
Proof.
  intros Hd Ht. pose proof (keeps_wire w Ht d Hd) as Hk.
  assert (Hreq : run_request cb (wire_request w) d = ignore (direct (wire_call w)) d).
  { destruct w as [op|port]; [by destruct op|]. cbn. unfold nr_reg_register_for_callbacks_1_svc.
    by destruct (connect_back port) as [[? ?] ?]. }
  assert (Hc : carried left (wire_call w) d).
  { unfold carried, outcome_typed. unfold ends in Hk. destruct (direct (wire_call w) d) as [[] ?|e ?|]; [|split; [apply Hk|]|done].
    - destruct w as [[]|]; exact I.
    - exists (). by destruct w as [[]|]. }
  destruct (dispatch_direct left _ d Ht Hc) as (bs & Hm & Hrun).
  rewrite Hreq. unfold run_message, ignore, ends, mbind, M_bind in *. rewrite Hm.
  destruct (direct (wire_call w) d) as [[] d'|e d'|]; [| |by rewrite Hrun]; destruct Hrun as [r ->]; by destruct Hk.
Qed.

(** The service, from any state that is typed. *)
Definition as_messages (reqs : list (selected * (reg_op + Z))) : list (selected * DM unit) :=
  (λ '(sel, w), (sel, run_message (message (wire_call w)))) <$> reqs.
Definition as_requests (reqs : list (selected * (reg_op + Z))) : list (selected * DM unit) :=
  (λ '(sel, w), (sel, run_request cb (wire_request w))) <$> reqs.

Lemma idle_same sel d :
  match ignore (on_loop (NR_async_event_wait2 client (Some (Timeval 0 0)) sel)) d with
  | Ok _ d' => d_reg d' = d_reg d
  | Err _ _ => False
  | UB => True
  end.
Proof. unfold ignore, on_loop. by destruct (NR_async_event_wait2 _ _ _ _). Qed.

Lemma svc_run_messages reqs d :
  daemon_typed d → Forall (λ '(_, w), call_typed (wire_call w)) reqs →
  svc_run client (as_messages reqs) d = svc_run client (as_requests reqs) d.
Proof.
  intros Hd Hreqs. revert d Hd. induction Hreqs as [|[sel w] reqs Hw Hreqs IH]; intros d Hd; [done|].
  change (svc_run client ((sel, run_message (message (wire_call w))) :: as_messages reqs) d =
    svc_run client ((sel, run_request cb (wire_request w)) :: as_requests reqs) d).
  cbn [svc_run]. unfold registrydprog_1_trampoline. pose proof (idle_same sel d) as Hidle. unfold mbind, M_bind.
  destruct (ignore _ d) as [[] d1|e d1|]; [|done..].
  assert (Hd1 : daemon_typed d1) by (unfold daemon_typed; by rewrite Hidle).
  destruct (message_run w d1 Hd1 Hw) as [Heq Hend]. rewrite Heq.
  destruct (run_request cb (wire_request w) d1) as [[] d2|e d2|]; [|done..]. by apply IH.
Qed.
End wire.

(** ** The start *)

Section start.
Abbreviation keeps_typed := (keeps typed).

Lemma keeps_store_info l i : keeps_typed (store_info l i) (λ _, True).
Proof.
  unfold store_info. keeps_steps. apply keeps_modify; [|done]. intros s Hs. by apply (typed_insert s l (OInfo i)).
Qed.
#[local] Hint Resolve keeps_store_info : keeps.
Lemma keeps_register_info assoc name action addr arg : keeps_typed (register_info assoc name action addr arg) (λ _, True).
Proof. unfold register_info. assert (∀ i, obj_typed (OInfo i)) by done. keeps_steps. Qed.
#[local] Hint Resolve keeps_register_info : keeps.
Lemma keeps_assoc_create bits : keeps_typed (assoc_create bits) (λ _, True).
Proof. unfold assoc_create. assert (∀ t, obj_typed (OAssoc t)) by done. keeps_steps. Qed.
#[local] Hint Resolve keeps_assoc_create : keeps.
Lemma keeps_register name action addr arg : keeps_typed (nr_reg_register_callback name action addr arg) (λ _, True).
Proof.
  unfold nr_reg_register_callback, register_cleanup, nr_reg_validate_action. keeps_steps.
  eapply keeps_weaken; [apply (keeps_catch _ _ (λ _, True)); keeps_steps|done].
Qed.
Lemma keeps_each f acts action : (∀ a, keeps_typed (f a) (λ _, True)) → keeps_typed (each_action f acts action) (λ _, True).
Proof. intros Hf. revert action. induction acts; intros action; cbn; keeps_steps. Qed.
Lemma keeps_relay addr : keeps_typed (register_relay addr) (λ _, True).
Proof.
  assert (Hr : ∀ n a b c, keeps_typed (NR_reg_register_callback n a b c) (λ _, True)).
  { intros n a b c. unfold NR_reg_register_callback.
    eapply keeps_bind; [apply keeps_each; intros ?; apply keeps_register|]. intros ? _. keeps_steps. }
  unfold register_relay. keeps_steps.
Qed.
End start.

Lemma keeps_exit {A} (m : DM A) : keeps daemon_typed m (λ _, True) → keeps daemon_typed (exit_unless m) (λ _, True).
Proof.
  intros Hm. unfold exit_unless. eapply keeps_bind; [by apply keeps_catch|]. intros [e|a] Hr; keeps_steps.
Qed.

Lemma keeps_open cb {A} (m : R A) :
  keeps typed m (λ _, True) → keeps daemon_typed (exit_unless (on_svc cb (on_reg m))) (λ _, True).
Proof. intros Hm. by apply keeps_exit, keeps_on_svc, keeps_on_reg. Qed.

Lemma server_messages `{XdrLaws} (print_double : Z → cstring) cb client connect_back left opened
    (reqs : list (selected * (reg_op + Z))) d :
  daemon_typed d → Forall (λ '(_, w), call_typed (wire_call w)) reqs →
  nr_registry_server cb client opened (as_messages print_double cb connect_back left reqs) d =
  nr_registry_server cb client opened (as_requests cb connect_back reqs) d.
Proof.
  intros Hd Hreqs.
  pose proof (keeps_open cb init_local keeps_init_local) as Hinit.
  pose proof (keeps_open cb (register_relay cb) (keeps_relay cb)) as Hrelay. unfold keeps, ends in Hinit, Hrelay.
  unfold nr_registry_server. apply bind_same; [done|]. specialize (Hinit _ Hd).
  destruct (exit_unless (on_svc cb (on_reg init_local)) d) as [[] d1|e d1|]; [|done..].
  apply bind_same; [done|]. specialize (Hrelay _ (proj1 Hinit)).
  destruct (exit_unless (on_svc cb (on_reg (register_relay cb))) d1) as [[] d2|e d2|]; [|done..].
  apply bind_same; [done|]. unfold on_loop. destruct (NR_async_wait_init (d_async d2)) as [[] a|e a|]; [|done..].
  destruct opened; [|done]. apply bind_same; [|by destruct (svc_run _ _ _)].
  apply svc_run_messages; [done|exact (proj1 Hrelay)|done].
Qed.

(** C24: The daemon that is sent its requests as the messages of the client's stubs does exactly
    what the daemon that is given them does, from its start to its end: [registrydprog_1]
    finds the procedure and its arguments in every message of typed arguments, and no reply
    fails. *)
Theorem messages_served `{XdrLaws} (print_double : Z → cstring) cb client connect_back left opened
    (reqs : list (selected * (reg_op + Z))) :
  Forall (λ '(_, w), call_typed (wire_call w)) reqs →
  nr_registry_server cb client opened (as_messages print_double cb connect_back left reqs) daemon_initial =
  nr_registry_server cb client opened (as_requests cb connect_back reqs) daemon_initial.
Proof. apply server_messages. by intros l o Ho. Qed.

(** ** An instance *)

#[local] Existing Instances Rfc4506.rfc4506 Rfc4506.rfc4506_laws.
#[local] Opaque daemon_initial nr_registry_server.

(** A number is set, a client asks for the events at its port, and all is deleted. *)
Definition demo_wire : list (selected * (reg_op + Z)) :=
  let sel := Selected 0 false (λ _, false) (λ _, false) in
  [(sel, inl (SetScalar $"net.mtu" NR_REG_TYPE_INT4 1500)); (sel, inr 40001); (sel, inl (Del $"net"))].

Lemma demo_wire_typed : Forall (λ '(_, w), call_typed (wire_call w)) demo_wire.
Proof.
  repeat constructor; try done; by repeat (constructor; [done|]).
Qed.

Lemma messages_served_witness :
  nr_registry_server 7 (λ _ _, []) true
    (as_messages (λ _, []) 7 (λ port, (Some port, true, [])) demo_left demo_wire) daemon_initial =
  nr_registry_server 7 (λ _ _, []) true (as_requests 7 (λ port, (Some port, true, [])) demo_wire) daemon_initial.
Proof.
  refine (messages_served (λ _, []) 7 (λ _ _, []) (λ port, (Some port, true, [])) demo_left true demo_wire demo_wire_typed).
Defined.
